(* ===== verification/_CoqProject ===== *)
-Q . S2P
Prelude.v
Wire.v
Text.v
Utils.v
Floats.v
Limiter.v
LimiterTime.v
Duration.v
ByteFmt.v
Message.v
Bufio.v
Protocol.v
Pipe.v
Config.v
Validate.v
Monitoring.v
Connector.v
Worker.v
Broker.v
Shutdown.v
Delivery.v
Liveness.v
Drain.v
NomadConfig.v
Pool.v
NomadClient.v
NomadShare.v
NomadExpiry.v
NomadWorker.v
NomadWatch.v
NomadFleet.v
Servers.v
Session.v
Link.v
SourceLink.v
Printed.v
Whole.v
Web.v
WebServer.v
Cmd.v
Deploy.v
