(* ===== verification/Prelude.v ===== *)
(** * log-shipper: a verification development

    log-shipper moves log items from sources to targets.  A source (a Nomad
    client, or a dummy) and a target (logz.io, standard output, a black hole)
    is a server on a local TCP connection; the broker in the middle holds a
    connector for each, and workers that carry the items from the source
    connectors to the target connectors.  Targets may have rate limits, which
    discard items or send them on to a fallback target.  A monitor keeps
    statistics, which a web API shows.

    The development translates the Go code function by function; the names of
    the code are kept where Rocq allows it, with the name of the type in front
    where two types have a method of the same name.

    ** The files

    - [Prelude]: machine integers, run-time panics ([outcome]), the monad [go]
      of code with a state and panics, sums over finite maps.
    - [Wire]: the marshal and unmarshal loops of the vendored library
      golang/protobuf, as far as the messages of the program reach them.
    - [Text]: what the code uses of the packages strings, utf8, strconv and
      json of the Go standard library.
    - [Floats]: the conversions to float64 and the divisions of doubles.
    - [Limiter], [LimiterTime]: [limiter/limiter.go]; the second file is about
      the clock: the interval index computed in doubles, and how many intervals
      are stored.
    - [Duration]: time.ParseDuration and Duration.String.  [ByteFmt]: the
      vendored package bytefmt.
    - [Message]: [message/message.go] and the generated structs; the class
      [ProtoMessage] is what a message type promises: a round trip.
    - [Bufio]: a network connection as the segments that will arrive, and
      bufio.Reader.  [Protocol]: [protocol/protocol.go], the framing.  [Pipe]:
      the two ends of a connection: what is on its way between them, and what
      the network may do with it ([join], [cut]; [conveyed] are the ways in
      which a series of writes can arrive whole, HELLO alone or together with
      the write after it).
    - [Config]: [config/config.go], the data and the rule [alphadash].
      [Validate]: [Config.Validate], with what its tags use of the vendored
      validator: the parsing of a tag and the walk through a value.
    - [Utils]: [utils/strings.go].
    - [Monitoring]: [monitoring], statistics and the monitor.
    - [Connector]: [broker/connector.go], the manager and the handlers of the
      target and source connectors.  [Worker]: [broker/worker.go].
    - [Broker]: [broker/broker.go] and the goroutines as a transition system:
      [exec] performs one action of one goroutine on the state [sys] of the
      whole program, [None] when the goroutine cannot take it.
    - [Shutdown], [Liveness]: what holds in every reachable state of that
      system, and that the shutdown comes to its end.  [Delivery]: an abstract shipper,
      which accepts items and settles their copies, and that the system refines
      it.  [Drain]: that the system empties itself after [Broker.Stop].
    - [NomadConfig], [Pool], [NomadClient], [NomadWorker]: [source/nomad]: the
      configuration in the meta data of an allocation, the pool of allocations
      with the map of workers, the locks and the choice of nodes, the worker of
      an allocation.  The classes [Consul] and [EventKeys] state what the
      key-value store of Consul promises.  [NomadShare]: the choice of nodes by
      log shippers whose requests to Consul interleave and may fail.
      [NomadExpiry]: the same with sessions that expire; the class [Sessions]
      states what Consul promises of them.  [NomadWatch]: the two goroutines of a
      worker, interleaved, with requests to Consul that may fail.  [NomadFleet]: all goroutines of a client, interleaved:
      [fleet_exec] performs one action of the syncs, of the loop of [ReceiveLogs]
      or of one of the workers.
    - [Servers]: the goroutines of [target/*], [source/dummy] and
      [source/nomad/server.go].  [Session]: a connector and the server behind
      it together, each reading what the other writes.  [Link], [SourceLink]: the
      same two pairs as transition systems, each goroutine taking its own steps;
      the class [Receiver] is what a connector asks of the server of a target.
      [Printed]: what the server of a target makes of a finished run of the
      broker.  [Whole]: the broker with a server behind every target connector,
      as one system: [wexec] performs a step of [exec], in which the connector
      that is handed a message reads the answers of its server, over any
      [Network], which says how the writes of each end arrive.
    - [Web]: [web/api], what the routes answer.  [WebServer]: [web/server.go],
      [web/api/api.go] and [web/ui], which route answers; the class [Router] is
      what the library echo promises.
    - [Cmd]: [cmd], [connection/connection.go] and [main.go]: from the
      configuration to the broker that is started.  [Deploy]: [sane], a check of
      the references of a configuration, and the log shipper that runs from it.

    ** State and operations

    A struct is a record, a map is a [gmap], a pointer that is shared is an
    address or a position (the connections of the monitor, the limiters of a
    target, the stop channels of the Nomad workers).  A channel send is an
    element of a list in the order of the sends where one goroutine is looked
    at ([Connector], [Worker], [Pool], [Servers]); in [Broker] a send and the
    receive that meets it are one step, as a request to Consul and its answer
    are in [NomadShare] and [NomadWatch].  In [Link] and [SourceLink] a write, and
    the read that meets it at the other end, are two steps.  A wait group is its counter, a channel
    that is only closed is a boolean.  Integers are [Z], taken modulo 2^64 where
    the code uses uint64; lengths and counters of type int are not bounded.
    A panic is the value [Panic].  What the code takes from outside (the clock,
    the order in which a map is visited, the bytes that arrive, the answers of
    Consul and Nomad, ports, the content of files) is an argument.

    ** What the theorems show

    - The log shipper as a whole: when the configuration refers to targets that
      exist and no fallbacks go in a circle ([sane], which no configuration that
      can be ranked fails: [sane_complete]), the targets can be dialled and can
      handle the items, the frames are at most 4085 bytes long ([room], see
      below) and the network cuts no write in two ([gentle]), then in every
      interleaving of the broker that [Run] builds, with the servers of its
      targets behind it, nothing panics but a second [Broker.Stop], every copy of
      an item is discarded by a rule or handled by a server, once, and a stop
      leads to the end in a bounded number of steps ([deployed_ships]; for any
      broker so configured and any mixture of servers [whole_delivers] and
      [whole_completes]).
    - Delivery: an item goes through the broker unchanged
      ([pipeline_roundtrip], [codec_roundtrip]); frames that arrive in segments
      of at most 4096 bytes ending on frame boundaries are read one by one
      ([read_to_channel_frames], [write_read_roundtrip]); a longer frame or one
      that is split is silently corrupted ([long_message_corrupted],
      [split_message_corrupted]).  The reader has a buffer of 4096 bytes, and a
      connector does not wait between HELLO and its first log: a frame of more
      than 4096 - 11 = 4085 bytes can be cut even when the network cuts nothing
      ([first_log_cut], [joined_message_corrupted]).
    - The handlers: what becomes of a message at a source connector, a worker
      and a target connector, in every case, errors included
      ([source_receive_spec], [worker_receive_spec], [target_receive_spec],
      [target_delivery], [target_resend], [target_dial_failure],
      [target_stop_one_bye]).
    - The connections: a target connector and its server settle every message
      between them and come to an end, in every interleaving and with any
      joining of segments, for frames of at most 4085 bytes and while the
      network cuts no segment ([link_completes], and in one piece
      [target_session]); a source connector takes every log of the Nomad server,
      in frames of at most 4096 bytes, once and in order, in every interleaving
      ([source_link_completes]); an item of the Nomad server that fits passes its
      connector, a worker and the connector of a target without rules, and
      arrives unchanged ([item_path]).
    - The broker by itself, in every interleaving: what an observer sees is a
      run of the abstract shipper ([broker_refines_delivery]); what is written
      to a target is what a source sent, and every copy of an item is settled
      once or still waits ([end_to_end]); the bytes on the connection of a target
      at which no message came to harm are those of what was delivered, and its
      server prints exactly that ([printed_was_accepted]); the wait group of messages in flight counts the
      queued and the lost messages ([inflight_tokens]); the targets are stopped
      when nothing is queued and every message was settled once
      ([shutdown_loses_nothing]); which panics can happen
      ([panics_only_for_cause]).
    - Shutdown: after [Broker.Stop] the system empties itself in a bounded
      number of steps, in whatever order, or one of three named faults stopped
      it ([broker_drains], and with nothing queued [shutdown_completes]); what
      makes the broker hang ([lost_token_blocks_shutdown],
      [self_fallback_deadlock]).
    - Rate limits: no byte is lost or counted twice between the counter and the
      store whatever the interleaving ([limiter_conservation]), how far the
      cached total can be off ([tick_drift], [stop_drift]), when a limit is
      reported as exceeded ([average_over_limit]), bounds on the store and on
      the interval index ([store_bounded], [time_index_within_one]), and what
      the configuration turns into ([plain_rate_limit], [rules_as_configured]).
    - Nomad: meta data read back as written ([outputs_roundtrip]), one worker
      for each allocation ([workers_follow_pool]); of two shippers that take
      turns, the second with its reads of locks answered, only the own node of
      the second can be shipped by both ([failover_exclusive]), and while the own
      shipper of a node is down at most one other ships it, although requests
      interleave and fail ([orphan_shipped_once]) or sessions expire
      ([expiry_safe]).  A tick misses no event ([tick_ships]); each event is sent
      once, and once more for every failed [Get] and [Put] of its key, whose
      errors the program drops ([watch_interleaved]); so also by all workers of a
      client together, whenever allocations come and go, but for a removed worker
      whose ticker fires before it sees its stop channel ([fleet_ships_once]);
      and the wait for a worker that was stopped ends when Consul answers and the
      server receives ([removal_ends]).  The requests of [NomadShare] in a row
      compute what [sync_nodes] does in one piece ([solo_computes_sync]).
    - The program: the accepted configurations ([Validate_spec]), the broker is
      the configured one ([run_builds_broker]), a target answers every message
      ([targets_acknowledge]), the web server answers as a table says
      ([server_answers]), the statistics of the API agree with what the metrics
      were told, for deltas of at most 2^53 ([stats_match_metrics]).

    ** Fuel

    Loops of the code that are not structural take fuel.  [ReadToChannel] ends
    with any fuel above the bytes and events that will arrive
    ([read_to_channel_terminates]); the steps of a connection are bounded by the
    messages that are sent ([link_completes], [source_link_completes]); the loops of [Wire] and of [ParseDuration]
    consume a byte in every turn, so that the length is enough
    ([parse_loop_terminates]).  [acquire_loop] and [dummy_loop] may in truth go
    on for ever: they give [None] when they do, and the theorems about them have
    a run that ends as a hypothesis or say that none does ([dummy_spins]).

    ** What is not modelled

    Logging and the values of the Prometheus metrics beyond what they are told;
    HTTP itself (headers, methods other than GET, the JSON of the answers), the
    router and the file server of the UI, which are libraries, and its Vue
    application; the command-line library; YAML decoding; the renewal of the
    Consul session, which either succeeds or ends in an expiry.  Data races: an operation of a
    limiter, of the statistics or of a handler between two channel operations is
    one step, except that a flush of a limiter is split where an increment can
    come between.

    The network: it carries bytes in order, without loss, and without an error
    before the end; where [Link] and [SourceLink] let it cut a segment, their
    theorems exclude that as a hypothesis, because the program does not survive it
    ([split_message_corrupted]).

    Open ends: a bound on the time for which two shippers ship a node that comes
    back ([recovery_race] shows that they do, [recovery_race_ends] that the next
    round ends it there).  In the runs of [Whole] a connector and the server of
    its target take a turn together, and a source is what it sends; that the turn
    of a pair may be taken apart into the steps of its goroutines is the subject
    of [Link] and [SourceLink], one pair at a time. *)
From Stdlib Require Export ZArith Lia Strings.Byte.
From stdpp Require Export base gmap strings list pretty numbers.

Declare Scope go_scope.
Delimit Scope go_scope with go.
Open Scope Z_scope.

(** ** Unsigned machine integers *)

(** The Go types [uint64] and [uint32]: a [Z] kept in range by the modulus. *)
Definition pow64 : Z := 18446744073709551616.
Definition pow32 : Z := 4294967296.
Definition u64 (z : Z) : Z := z mod pow64.
Definition u32 (z : Z) : Z := z mod pow32.
Definition is_u64 (z : Z) : Prop := 0 <= z < pow64.
Definition add64 (a b : Z) : Z := u64 (a + b).
Definition sub64 (a b : Z) : Z := u64 (a - b).

(** The Go operator [^x] on [uint64]: all bits flipped. *)
Definition not64 (z : Z) : Z := pow64 - 1 - z.

(** The Go type [int64] (also [int] and [time.Duration] on a 64-bit build):
    two's complement wrap-around. *)
Definition i64 (z : Z) : Z :=
  let r := u64 z in if r <? pow64 / 2 then r else r - pow64.

#[global] Arguments u64 : simpl never.
#[global] Arguments add64 : simpl never.
#[global] Arguments sub64 : simpl never.

Notation "a '+64' b" := (add64 a b) (at level 50, left associativity) : go_scope.
Notation "a '-64' b" := (sub64 a b) (at level 50, left associativity) : go_scope.
Open Scope go_scope.

(** ** Go outcomes: a value, or a run-time panic *)
Inductive outcome (A : Type) : Type :=
  | Ret (a : A)
  | Panic (why : string).
Arguments Ret {A} a.
Arguments Panic {A} why.

(** ** The monad of Go code: a state and run-time panics *)
Definition go (S A : Type) : Type := S -> outcome (A * S).

Section Monad.
Context {S : Type}.

Definition mreturn {A} (a : A) : go S A := fun s => Ret (a, s).
Definition mbind_ {A B} (c : go S A) (k : A -> go S B) : go S B :=
  fun s => match c s with Ret (a, s) => k a s | Panic why => Panic why end.
Definition mpanic {A} (why : string) : go S A := fun _ => Panic why.
Definition mmodify (f : S -> S) : go S unit := fun s => Ret (tt, f s).
Definition mget {A} (f : S -> A) : go S A := fun s => Ret (f s, s).
End Monad.

Notation "x <~ c ;; k" := (mbind_ c (fun x => k))
  (at level 100, c at next level, right associativity) : go_scope.
Notation "c ;;; k" := (mbind_ c (fun _ => k))
  (at level 100, right associativity) : go_scope.

(** Code that keeps a property of the state, whenever it does not panic. *)
Definition preserves {S A} (P : S -> Prop) (c : go S A) : Prop :=
  forall s, P s -> match c s with Ret (_, s') => P s' | Panic _ => True end.

Section Preserves.
Context {S : Type} (P : S -> Prop).

Lemma preserves_return {A} (a : A) : preserves P (mreturn a).
Proof. intros s Hs. exact Hs. Qed.

Lemma preserves_panic {A} why : preserves P (mpanic why : go S A).
Proof. intros s Hs. exact I. Qed.

Lemma preserves_get {A} (f : S -> A) : preserves P (mget f).
Proof. intros s Hs. exact Hs. Qed.

Lemma preserves_modify (f : S -> S) : (forall s, P s -> P (f s)) -> preserves P (mmodify f).
Proof. intros Hf s Hs. apply Hf, Hs. Qed.

Lemma preserves_bind {A B} (c : go S A) (k : A -> go S B) :
  preserves P c -> (forall a, preserves P (k a)) -> preserves P (mbind_ c k).
Proof.
  intros Hc Hk s Hs. unfold mbind_. specialize (Hc s Hs).
  destruct (c s) as [[a s1] | why]; [apply Hk, Hc | exact I].
Qed.
End Preserves.

Create HintDb preserves.
#[export] Hint Resolve preserves_return preserves_panic preserves_get : preserves.

(** [preserve] goes through the code of a handler: a [match] is opened, a
    sequence is split, an operation is looked up. *)
Ltac preserve :=
  repeat match goal with
  | |- preserves _ (mbind_ _ _) => apply preserves_bind; [| intros]
  | |- preserves _ (match ?x with _ => _ end) => destruct x
  | |- preserves _ _ => solve [eauto with preserves]
  end.

(** The text of the panic of a nil pointer. *)
Definition nil_deref : string := "invalid memory address or nil pointer dereference".

Create HintDb u64.
Create Rewrite HintDb u64.

Lemma u64_range z : is_u64 (u64 z).
Proof. unfold is_u64, u64. apply Z.mod_pos_bound. reflexivity. Qed.

Lemma u64_small z : is_u64 z -> u64 z = z.
Proof. apply Z.mod_small. Qed.

Lemma add64_range a b : is_u64 (a +64 b).
Proof. apply u64_range. Qed.

Lemma sub64_range a b : is_u64 (a -64 b).
Proof. apply u64_range. Qed.

Lemma is_u64_0 : is_u64 0.
Proof. done. Qed.

#[export] Hint Resolve u64_range add64_range sub64_range is_u64_0 : u64.

(** Two integers that denote the same [uint64]. *)
Definition eq64 (a b : Z) : Prop := u64 a = u64 b.
Notation "a ≡64 b" := (eq64 a b) (at level 70) : go_scope.

#[export] Instance eq64_equiv : Equivalence eq64.
Proof. split; unfold eq64; red; intros; congruence. Qed.

#[export] Instance eq64_add : Proper (eq64 ==> eq64 ==> eq64) Z.add.
Proof.
  intros a b Hab c d Hcd. unfold eq64, u64 in *.
  rewrite (Z.add_mod a), (Z.add_mod b), Hab, Hcd by discriminate. reflexivity.
Qed.

#[export] Instance eq64_sub : Proper (eq64 ==> eq64 ==> eq64) Z.sub.
Proof.
  intros a b Hab c d Hcd. unfold eq64, u64 in *.
  rewrite (Zminus_mod a), (Zminus_mod b), Hab, Hcd. reflexivity.
Qed.

#[export] Instance eq64_opp : Proper (eq64 ==> eq64) Z.opp.
Proof. intros a b Hab. rewrite <- !Z.sub_0_l. by rewrite Hab. Qed.

Lemma u64_eq64 z : u64 z ≡64 z.
Proof. unfold eq64, u64. by rewrite Zmod_mod. Qed.

Lemma add64_eq64 a b : a +64 b ≡64 a + b.
Proof. apply u64_eq64. Qed.

Lemma sub64_eq64 a b : a -64 b ≡64 a - b.
Proof. apply u64_eq64. Qed.

Lemma eq64_inj a b : is_u64 a -> is_u64 b -> a ≡64 b -> a = b.
Proof. unfold eq64. intros Ha Hb. by rewrite !u64_small. Qed.

Lemma eq64_shift a b k : a = b + k * pow64 -> a ≡64 b.
Proof. intros ->. unfold eq64, u64. by rewrite Z.mod_add. Qed.

Lemma not64_eq64 z : not64 z ≡64 - 1 - z.
Proof. apply (eq64_shift _ _ 1). unfold not64. lia. Qed.

#[export] Hint Rewrite u64_eq64 add64_eq64 sub64_eq64 not64_eq64 : u64.

(** [go64] proves an equation between [uint64] values up to wrap-around. *)
Ltac go64 := autorewrite with u64; try (f_equiv; lia); try reflexivity.

(** Go's idiom for an atomic subtraction: [AddUint64(&x, ^uint64(v-1))]. *)
Lemma add_not_pred a v : a +64 not64 (v -64 1) = a -64 v.
Proof.
  apply eq64_inj; auto with u64.
  autorewrite with u64. apply (eq64_shift _ _ 0). lia.
Qed.

(** [AddUint64(&x, ^uint64(0))] is a decrement. *)
Lemma add_not_zero a : a +64 not64 0 = a -64 1.
Proof. unfold add64, sub64. apply (eq64_shift _ _ 1). unfold not64. lia. Qed.

Lemma u64_sub_neg a b : is_u64 a -> is_u64 b -> a < b -> a -64 b = a - b + pow64.
Proof.
  intros Ha Hb Hlt. unfold is_u64, sub64, u64 in *.
  rewrite <- (Z.mod_add _ 1) by done. apply Z.mod_small. lia.
Qed.

Lemma u64_sub_pos a b : is_u64 a -> is_u64 b -> b <= a -> a -64 b = a - b.
Proof. intros Ha Hb Hle. apply u64_small. unfold is_u64 in *. lia. Qed.

(** ** Sums over finite maps *)
Definition map_sum {K A} `{Countable K} (f : A -> Z) (m : gmap K A) : Z :=
  map_fold (fun _ a s => f a + s) 0 m.

Section MapSum.
  Context {K A : Type} `{Countable K} (f : A -> Z).
  Implicit Types (m : gmap K A) (k : K) (a : A).

Lemma map_sum_empty : map_sum f (∅ : gmap K A) = 0.
  Proof. apply map_fold_empty. Qed.

Lemma map_sum_insert m k a :
    m !! k = None -> map_sum f (<[k := a]> m) = f a + map_sum f m.
  Proof.
    intros Hk. unfold map_sum. rewrite map_fold_insert_L; [done | | done].
    intros. lia.
  Qed.

Lemma map_sum_delete m k a :
    m !! k = Some a -> map_sum f (delete k m) = map_sum f m - f a.
  Proof.
    intros Hk. rewrite <- (insert_delete_id m k a) at 2 by done.
    rewrite map_sum_insert; [lia |]. apply lookup_delete_eq.
  Qed.

Lemma map_sum_overwrite m k a :
    map_sum f (<[k := a]> m)
    = map_sum f m + f a - from_option f 0 (m !! k).
  Proof.
    destruct (m !! k) as [b |] eqn:Hk; simpl.
    - rewrite <- insert_delete_eq, map_sum_insert, (map_sum_delete m k b);
        [lia | done | apply lookup_delete_eq].
    - rewrite map_sum_insert by done. lia.
  Qed.

Lemma map_sum_replace m k a b :
    m !! k = Some a -> map_sum f (<[k := b]> m) = map_sum f m - f a + f b.
  Proof. intros Hk. rewrite map_sum_overwrite, Hk. simpl. lia. Qed.

Lemma map_sum_nonneg m : (forall a, 0 <= f a) -> 0 <= map_sum f m.
  Proof.
    intros Hf. induction m as [| k a m Hk IH] using map_ind; [by rewrite map_sum_empty |].
    rewrite map_sum_insert by done. specialize (Hf a). lia.
  Qed.

Lemma map_sum_ge m k a :
    (forall a, 0 <= f a) -> m !! k = Some a -> f a <= map_sum f m.
  Proof.
    intros Hf Hk. pose proof (map_sum_nonneg (delete k m) Hf).
    rewrite (map_sum_delete m k a) in * by done. lia.
  Qed.

Lemma map_sum_zero m k a :
    (forall a, 0 <= f a) -> map_sum f m = 0 -> m !! k = Some a -> f a = 0.
  Proof. intros Hf H0 Hk. pose proof (map_sum_ge m k a Hf Hk). specialize (Hf a). lia. Qed.

Lemma map_sum_all0 m : (forall k a, m !! k = Some a -> f a = 0) -> map_sum f m = 0.
  Proof.
    induction m as [| k a m Hk IH] using map_ind; intros Hf; [apply map_sum_empty |].
    rewrite map_sum_insert by done. rewrite (Hf k a) by apply lookup_insert_eq.
    apply IH. intros k' a' Hk'. apply (Hf k'). rewrite lookup_insert_ne; [done |].
    intros ->. congruence.
  Qed.

Lemma map_sum_size m : (forall k a, m !! k = Some a -> f a = 1) -> map_sum f m = Z.of_nat (size m).
  Proof.
    induction m as [| k a m Hk IH] using map_ind; intros Hf; [apply map_sum_empty |].
    rewrite map_sum_insert, map_size_insert_None by done.
    rewrite (Hf k a) by apply lookup_insert_eq. rewrite IH; [lia |].
    intros k' a' Hk'. apply (Hf k'). rewrite lookup_insert_ne; [done |].
    intros ->. congruence.
  Qed.
End MapSum.

(** Inserting the entries of a list one by one. *)
Lemma foldl_insert {K A} `{Countable K} (l : list (K * A)) (m : gmap K A) :
  NoDup l.*1 -> foldl (fun m kv => <[kv.1 := kv.2]> m) m l = list_to_map l ∪ m.
Proof.
  revert m. induction l as [| [k a] l IH]; intros m Hl; cbn.
  { by rewrite (left_id_L ∅ (∪)). }
  apply list.NoDup_cons in Hl as [Hk Hl]. rewrite IH by done. cbn.
  assert (list_to_map l !! k = (None : option A)) by by apply not_elem_of_list_to_map_1.
  rewrite <- insert_union_l, insert_union_r by done. done.
Qed.
