(* ===== verification/Wire.v ===== *)
(** * The wire format: [src/vendor/github.com/golang/protobuf/proto]

    The part of the vendored protocol-buffer library that the five message
    types of the program reach: varints, length-delimited fields, skipping of
    unknown fields, UTF-8 validation, and the table-driven marshal and
    unmarshal loops, specialised by a table of fields. *)
From S2P Require Import Prelude.

(** ** Bytes *)
Definition byte_of_Z (z : Z) : byte :=
  match Byte.of_N (Z.to_N (z mod 256)) with Some b => b | None => x00 end.

Definition Z_of_byte (b : byte) : Z := Z.of_N (Byte.to_N b).

(** [[]byte(s)] and [string(b)]. *)
Definition bytes_of (s : string) : list byte := String.list_byte_of_string s.
Definition string_of (b : list byte) : string := String.string_of_list_byte b.

(** [len(s)] of a string or a slice. *)
Definition len {A} (l : list A) : Z := Z.of_nat (length l).

(** ** Errors of the library *)
Inductive pb_error :=
  | ErrUnexpectedEOF
  | ErrSkipWireType     (* can't skip unknown wire type *)
  | ErrMapWireType      (* bad wiretype for map field *)
  | ErrInvalidUTF8.     (* kept as the last error, the message is complete *)

#[export] Instance pb_error_eq_dec : EqDecision pb_error.
Proof. solve_decision. Defined.

(** ** Varints *)

(** [appendVarint]: the unrolled [switch] emits seven bits per byte, at most
    ten bytes; [n] counts the bytes that may follow. *)
Fixpoint append_varint_n (n : nat) (v : Z) : list byte :=
  if v <? 128 then [byte_of_Z v]
  else match n with
       | O => [byte_of_Z v]
       | S n => byte_of_Z (Z.lor (Z.land v 127) 128)
                :: append_varint_n n (Z.shiftr v 7)
       end.

Definition appendVarint (v : Z) : list byte := append_varint_n 9 v.

(** [decodeVarint]: [None] is the [bad] label, otherwise the value and the
    remaining bytes; the tenth byte must be below two. *)
Fixpoint decode_varint_n (n : nat) (shift x : Z) (b : list byte)
    : option (Z * list byte) :=
  match b with
  | [] => None
  | c :: b =>
      let y := Z_of_byte c in
      match n with
      | O => if y <? 2 then Some (x + Z.shiftl y shift, b) else None
      | S n =>
          if y <? 128 then Some (x + Z.shiftl y shift, b)
          else decode_varint_n n (shift + 7)
                 (x + Z.shiftl y shift - Z.shiftl 128 shift) b
      end
  end.

Definition decodeVarint (b : list byte) : option (Z * list byte) :=
  decode_varint_n 9 0 0 b.

(** ** UTF-8: [utf8.ValidString] of the standard library *)
Definition cont_in (lo hi : Z) (b : byte) : bool :=
  (lo <=? Z_of_byte b) && (Z_of_byte b <=? hi).
Definition cont : byte -> bool := cont_in 128 191.

Fixpoint utf8_valid (b : list byte) : bool :=
  match b with
  | [] => true
  | c :: r =>
      let y := Z_of_byte c in
      if y <? 128 then utf8_valid r
      else if (194 <=? y) && (y <=? 223) then
        match r with c1 :: r => cont c1 && utf8_valid r | _ => false end
      else if (224 <=? y) && (y <=? 239) then
        match r with
        | c1 :: c2 :: r =>
            cont_in (if y =? 224 then 160 else 128) (if y =? 237 then 159 else 191) c1
            && cont c2 && utf8_valid r
        | _ => false
        end
      else if (240 <=? y) && (y <=? 244) then
        match r with
        | c1 :: c2 :: c3 :: r =>
            cont_in (if y =? 240 then 144 else 128) (if y =? 244 then 143 else 191) c1
            && cont c2 && cont c3 && utf8_valid r
        | _ => false
        end
      else false
  end.

(** ** Skipping unknown fields *)

(** [findEndGroup] with its loop: the bytes after the matching end group.
    Every iteration consumes at least the tag, so [length b] iterations are
    enough. *)
Definition drop_exact (n : Z) (b : list byte) : option (list byte) :=
  if len b <? n then None else Some (drop (Z.to_nat n) b).

Fixpoint find_end_group (fuel : nat) (depth : Z) (b : list byte)
    : option (list byte) :=
  match fuel with
  | O => None
  | S fuel =>
      match decodeVarint b with
      | None => None
      | Some (x, b) =>
          let go := find_end_group fuel in
          match Z.land x 7 with
          | 0 => match decodeVarint b with Some (_, b) => go depth b | None => None end
          | 5 => match drop_exact 4 b with Some b => go depth b | None => None end
          | 1 => match drop_exact 8 b with Some b => go depth b | None => None end
          | 2 => match decodeVarint b with
                 | Some (m, b) =>
                     match drop_exact m b with Some b => go depth b | None => None end
                 | None => None
                 end
          | 3 => go (depth + 1) b
          | 4 => if depth - 1 =? 0 then Some b else go (depth - 1) b
          | _ => None
          end
      end
  end.

(** [skipField]. *)
Definition skipField (b : list byte) (wire : Z) : pb_error + list byte :=
  let eof o := match o with Some b => inr b | None => inl ErrUnexpectedEOF end in
  match wire with
  | 0 => eof (snd <$> decodeVarint b)
  | 5 => eof (drop_exact 4 b)
  | 1 => eof (drop_exact 8 b)
  | 2 => eof (match decodeVarint b with
              | Some (m, b) => drop_exact m b
              | None => None
              end)
  | 3 => eof (find_end_group (length b) 1 b)
  | _ => inl ErrSkipWireType
  end.

(** ** Marshalling *)

(** The outcome of a field marshaler: bytes, and an error that is either the
    recoverable UTF-8 error or fatal. *)
Inductive m_error := MUtf8 | MFatal.

Definition wiretag (tag wire : Z) : Z := Z.lor (Z.shiftl tag 3) wire.

Definition append_delimited (tag : Z) (b : list byte) : list byte :=
  appendVarint (wiretag tag 2) ++ appendVarint (len b) ++ b.

#[global] Arguments appendVarint : simpl never.
#[global] Arguments append_delimited : simpl never.
#[global] Arguments len : simpl never.

(** [appendUTF8StringValue]. *)
Definition appendUTF8StringValue (tag : Z) (s : string) : list byte * option m_error :=
  (append_delimited tag (bytes_of s),
   if utf8_valid (bytes_of s) then None else Some MUtf8).

(** [appendUTF8StringValueNoZero]. *)
Definition appendUTF8StringValueNoZero (tag : Z) (s : string)
    : list byte * option m_error :=
  if String.eqb s "" then ([], None) else appendUTF8StringValue tag s.

(** [appendUTF8StringSlice]: one field per element. *)
Fixpoint appendUTF8StringSlice (tag : Z) (l : list string)
    : list byte * option m_error :=
  match l with
  | [] => ([], None)
  | s :: l =>
      let '(b, e) := appendUTF8StringValue tag s in
      let '(b', e') := appendUTF8StringSlice tag l in
      (b ++ b', match e with Some e => Some e | None => e' end)
  end.

(** [appendBytes3]. *)
Definition appendBytes3 (tag : Z) (v : list byte) : list byte * option m_error :=
  match v with [] => ([], None) | _ => (append_delimited tag v, None) end.

(** [appendVarintS64ValueNoZero]. *)
Definition appendVarintS64ValueNoZero (tag v : Z) : list byte * option m_error :=
  if v =? 0 then ([], None)
  else (appendVarint (wiretag tag 0) ++ appendVarint (u64 v), None).

(** The marshaler that [makeMessageMarshaler] builds: an error of the
    submessage is not the sentinel that the loop tolerates. *)
Definition append_message {M} (marshal : M -> list byte * option m_error) (tag : Z)
    (v : option M) : list byte * option m_error :=
  match v with
  | None => ([], None)
  | Some m =>
      let '(b, e) := marshal m in
      (append_delimited tag b, match e with Some _ => Some MFatal | None => None end)
  end.

(** The marshaler that [makeMapMarshaler] builds for a map of strings; [l] is
    the map in the order of [MapKeys]. *)
Fixpoint append_map (tag : Z) (l : list (string * string))
    : list byte * option m_error :=
  match l with
  | [] => ([], None)
  | (k, v) :: l =>
      let '(bk, ek) := appendUTF8StringValue 1 k in
      let '(bv, ev) := appendUTF8StringValue 2 v in
      let '(b', e') := append_map tag l in
      (append_delimited tag (bk ++ bv) ++ b',
       match ek, ev with None, None => e' | _, _ => Some MUtf8 end)
  end.

(** The loop of [marshalInfo.marshal] over the fields, and the unrecognized
    bytes it appends; [later] is [errLater]. *)
Fixpoint marshal_loop (fields : list (list byte * option m_error))
    (unrecognized b : list byte) (later : option m_error)
    : list byte * option m_error :=
  match fields with
  | [] => (b ++ unrecognized, later)
  | (fb, e) :: fields =>
      match e with
      | Some MFatal => (b ++ fb, Some MFatal)
      | Some MUtf8 => marshal_loop fields unrecognized (b ++ fb) (Some MUtf8)
      | None => marshal_loop fields unrecognized (b ++ fb) later
      end
  end.

Definition marshal_fields (fields : list (list byte * option m_error))
    (unrecognized : list byte) : list byte * option m_error :=
  marshal_loop fields unrecognized [] None.

(** ** Unmarshalling *)

(** What a field unmarshaler returns. *)
Inductive field_result (M : Type) :=
  | FOk (b : list byte) (m : M)
  | FBadWire                      (* errInternalBadWireType *)
  | FUtf8 (b : list byte) (m : M) (* errInvalidUTF8, parsing goes on *)
  | FErr (m : M) (e : pb_error).
Arguments FOk {M} b m.
Arguments FBadWire {M}.
Arguments FUtf8 {M} b m.
Arguments FErr {M} m e.

Definition unmarshaler (M : Type) : Type := Z -> list byte -> M -> field_result M.

(** The bytes of a length-delimited field and what follows. *)
Definition take_delimited (b : list byte) : option (list byte * list byte) :=
  match decodeVarint b with
  | None => None
  | Some (x, b) =>
      if len b <? x then None else Some (take (Z.to_nat x) b, drop (Z.to_nat x) b)
  end.

(** [unmarshalUTF8StringValue] and [unmarshalUTF8StringSlice]; [set] stores
    the string into the message. *)
Definition unmarshalUTF8String {M} (set : string -> M -> M) : unmarshaler M :=
  fun w b m =>
    if negb (w =? 2) then FBadWire
    else match take_delimited b with
         | None => FErr m ErrUnexpectedEOF
         | Some (v, r) =>
             let m := set (string_of v) m in
             if utf8_valid v then FOk r m else FUtf8 r m
         end.

(** [unmarshalBytesValue]. *)
Definition unmarshalBytesValue {M} (set : list byte -> M -> M) : unmarshaler M :=
  fun w b m =>
    if negb (w =? 2) then FBadWire
    else match take_delimited b with
         | None => FErr m ErrUnexpectedEOF
         | Some (v, r) => FOk r (set v m)
         end.

(** [unmarshalInt64Value]. *)
Definition unmarshalInt64Value {M} (set : Z -> M -> M) : unmarshaler M :=
  fun w b m =>
    if negb (w =? 0) then FBadWire
    else match decodeVarint b with
         | None => FErr m ErrUnexpectedEOF
         | Some (x, r) => FOk r (set (i64 x) m)
         end.

(** The unmarshaler that [makeUnmarshalMessagePtr] builds: it merges into the
    submessage that is already there. *)
Definition unmarshal_message {M N} (sub : list byte -> N -> N * option pb_error)
    (get : M -> N) (set : N -> M -> M) : unmarshaler M :=
  fun w b m =>
    if negb (w =? 2) then FBadWire
    else match take_delimited b with
         | None => FErr m ErrUnexpectedEOF
         | Some (v, r) =>
             let '(n, e) := sub v (get m) in
             let m := set n m in
             match e with Some e => FErr m e | None => FOk r m end
         end.

(** The entry loop of [makeUnmarshalMap] for strings; [utf8] is [nerr.E]. *)
Fixpoint unmarshal_entry (fuel : nat) (b : list byte) (kv : string * string) (utf8 : bool)
    : pb_error + (string * string) * bool :=
  match b, fuel with
  | [], _ => inr (kv, utf8)
  | _, O => inl ErrUnexpectedEOF
  | _, S fuel =>
      match decodeVarint b with
      | None => inl ErrUnexpectedEOF
      | Some (x, b) =>
          let wire := Z.land x 7 in
          let res :=
            match Z.shiftr x 3 with
            | 1 => unmarshalUTF8String (fun s kv => (s, kv.2)) wire b kv
            | 2 => unmarshalUTF8String (fun s kv => (kv.1, s)) wire b kv
            | _ => FBadWire
            end in
          match res with
          | FOk b kv => unmarshal_entry fuel b kv utf8
          | FUtf8 b kv => unmarshal_entry fuel b kv true
          | FErr _ e => inl e
          | FBadWire =>
              match skipField b wire with
              | inl e => inl e
              | inr b => unmarshal_entry fuel b kv utf8
              end
          end
      end
  end.

Definition unmarshal_map {M} (set : string -> string -> M -> M) : unmarshaler M :=
  fun w b m =>
    if negb (w =? 2) then FErr m ErrMapWireType
    else match take_delimited b with
         | None => FErr m ErrUnexpectedEOF
         | Some (v, r) =>
             match unmarshal_entry (length v) v ("", "") false with
             | inl e => FErr m e
             | inr ((k, s), utf8) =>
                 if (utf8 : bool) then FUtf8 r (set k s m) else FOk r (set k s m)
             end
         end.

Section Unmarshal.
Context {M : Type} (table : Z -> option (unmarshaler M)).
Context (keep : list byte -> M -> M).

(** The loop of [unmarshalInfo.unmarshal]: [table] is the field table, [keep]
    appends to [XXX_unrecognized].  Every iteration consumes the tag, so
    [length b] iterations are enough. *)
Fixpoint unmarshal_loop (fuel : nat) (b : list byte) (m : M) (later : option pb_error)
    : M * option pb_error :=
  match b, fuel with
  | [], _ => (m, later)
  | _, O => (m, Some ErrUnexpectedEOF)
  | _, S fuel =>
      match decodeVarint b with
      | None => (m, Some ErrUnexpectedEOF)
      | Some (x, b) =>
          let tag := Z.shiftr x 3 in
          let wire := Z.land x 7 in
          match match table tag with Some fn => fn wire b m | None => FBadWire end with
          | FOk b m => unmarshal_loop fuel b m later
          | FUtf8 b m =>
              unmarshal_loop fuel b m
                (match later with Some e => Some e | None => Some ErrInvalidUTF8 end)
          | FErr m e => (m, Some e)
          | FBadWire =>
              match skipField b wire with
              | inl e => (m, Some e)
              | inr b' =>
                  unmarshal_loop fuel b'
                    (keep (appendVarint (wiretag tag wire)
                           ++ take (length b - length b') b) m) later
              end
          end
      end
  end.

Definition unmarshal (b : list byte) (m : M) : M * option pb_error :=
  unmarshal_loop (length b) b m None.
End Unmarshal.

(** ** Bytes and varints *)

Lemma Z_of_byte_range b : 0 <= Z_of_byte b < 256.
Proof. unfold Z_of_byte. pose proof (Byte.to_N_bounded b). lia. Qed.

Lemma Z_of_byte_of_Z z : Z_of_byte (byte_of_Z z) = z mod 256.
Proof.
  unfold byte_of_Z, Z_of_byte. pose proof (Z.mod_pos_bound z 256 eq_refl) as Hm.
  destruct (Byte.of_N _) as [b |] eqn:Hb.
  - apply Byte.to_of_N in Hb. rewrite Hb. lia.
  - apply Byte.of_N_None_iff in Hb. lia.
Qed.

Lemma byte_of_Z_of_byte b : byte_of_Z (Z_of_byte b) = b.
Proof. destruct b; reflexivity. Qed.

Lemma bytes_of_string_of b : bytes_of (string_of b) = b.
Proof. apply String.list_byte_of_string_of_list_byte. Qed.

Lemma string_of_bytes_of s : string_of (bytes_of s) = s.
Proof. apply String.string_of_list_byte_of_string. Qed.

Lemma bytes_of_empty s : bytes_of s = [] -> s = "".
Proof. intros H. rewrite <- (string_of_bytes_of s), H. reflexivity. Qed.

Lemma len_nonneg {A} (l : list A) : 0 <= len l.
Proof. unfold len. lia. Qed.

Lemma len_cons {A} (x : A) l : len (x :: l) = 1 + len l.
Proof. unfold len. cbn [length]. lia. Qed.

Lemma len_app {A} (l k : list A) : len (l ++ k) = len l + len k.
Proof. unfold len. rewrite length_app. lia. Qed.

#[export] Hint Resolve len_nonneg : u64.

Lemma land_127 v : Z.land v 127 = v mod 128.
Proof. change 127 with (Z.ones 7). by rewrite Z.land_ones. Qed.

Lemma lor_land_127 v : Z.lor (Z.land v 127) 128 = v mod 128 + 128.
Proof.
  rewrite Z.lor_comm, (Z.add_comm (v mod 128)), <- land_127.
  rewrite <- Z.lxor_lor, Z.add_nocarry_lxor; [done | |];
    rewrite (Z.land_comm v), Z.land_assoc; reflexivity.
Qed.

Lemma append_varint_n_nonempty n v : append_varint_n n v <> [].
Proof. destruct n; simpl; by destruct (_ <? _). Qed.

(** [decodeVarint] undoes [appendVarint], whatever follows. *)
Lemma varint_roundtrip_n n v shift x rest :
  0 <= v < 2 ^ (7 * Z.of_nat n + 1) -> 0 <= shift ->
  decode_varint_n n shift x (append_varint_n n v ++ rest)
  = Some (x + v * 2 ^ shift, rest).
Proof.
  revert v shift x. induction n as [| n IH]; intros v shift x Hv Hs.
  - change (2 ^ (7 * Z.of_nat 0 + 1)) with 2 in Hv. simpl.
    rewrite (proj2 (Z.ltb_lt v 128)) by lia. simpl. rewrite Z_of_byte_of_Z, Z.mod_small by lia.
    rewrite (proj2 (Z.ltb_lt v 2)), Z.shiftl_mul_pow2 by lia. done.
  - cbn [append_varint_n decode_varint_n]. destruct (Z.ltb_spec v 128) as [Hlt | Hge].
    + cbn [app]. rewrite Z_of_byte_of_Z, Z.mod_small by lia.
      rewrite (proj2 (Z.ltb_lt v 128)), Z.shiftl_mul_pow2 by lia. done.
    + cbn [app]. rewrite Z_of_byte_of_Z, lor_land_127.
      pose proof (Z.mod_pos_bound v 128 eq_refl).
      rewrite (Z.mod_small (_ + 128)) by lia. rewrite (proj2 (Z.ltb_ge _ 128)) by lia.
      rewrite IH; [| | lia].
      * f_equal. f_equal. rewrite !Z.shiftl_mul_pow2, Z.shiftr_div_pow2 by lia.
        rewrite Z.pow_add_r by lia. change (2 ^ 7) with 128.
        rewrite (Z.div_mod v 128) at 3 by done. ring.
      * rewrite Z.shiftr_div_pow2 by lia. change (2 ^ 7) with 128. split.
        { apply Z.div_pos; lia. }
        apply Z.div_lt_upper_bound; [done |]. change 128 with (2 ^ 7).
        rewrite <- Z.pow_add_r by lia. replace (7 + _) with (7 * Z.of_nat (S n) + 1) by lia. lia.
Qed.

Lemma varint_roundtrip v rest :
  is_u64 v -> decodeVarint (appendVarint v ++ rest) = Some (v, rest).
Proof.
  intros Hv. unfold decodeVarint, appendVarint.
  rewrite varint_roundtrip_n; [| exact Hv | done]. by rewrite Z.mul_1_r.
Qed.

Lemma decode_varint_n_length n shift x b v r :
  decode_varint_n n shift x b = Some (v, r) -> (length r < length b)%nat.
Proof.
  revert shift x b. induction n as [| n IH]; intros shift x [| c b]; simpl; try done.
  - destruct (_ <? _); [| done]. intros [= _ <-]. lia.
  - destruct (_ <? _); [intros [= _ <-]; lia |]. intros H%IH. lia.
Qed.

Lemma decodeVarint_length b v r :
  decodeVarint b = Some (v, r) -> (length r < length b)%nat.
Proof. apply decode_varint_n_length. Qed.

(** ** Delimited fields *)

Lemma take_delimited_append b rest :
  len b < pow64 ->
  take_delimited (appendVarint (len b) ++ b ++ rest) = Some (b, rest).
Proof.
  intros Hb. unfold take_delimited.
  rewrite varint_roundtrip by (split; auto with u64).
  rewrite len_app, (proj2 (Z.ltb_ge _ _)) by (pose proof (len_nonneg rest); lia).
  unfold len. rewrite Nat2Z.id, take_app_length, drop_app_length. done.
Qed.

Lemma take_delimited_length b v r :
  take_delimited b = Some (v, r) -> (length r < length b)%nat.
Proof.
  unfold take_delimited. destruct (decodeVarint b) as [[x b1] |] eqn:Hd; [| done].
  apply decodeVarint_length in Hd. destruct (_ <? _); [done |]. intros [= _ <-].
  rewrite length_drop. lia.
Qed.

Lemma wiretag_tag tag wire : 0 <= wire < 8 -> Z.shiftr (wiretag tag wire) 3 = tag.
Proof.
  intros Hw. unfold wiretag. rewrite Z.shiftr_lor, Z.shiftr_shiftl_l by lia.
  rewrite Z.sub_diag, Z.shiftl_0_r, (Z.shiftr_div_pow2 wire), Z.div_small by lia.
  apply Z.lor_0_r.
Qed.

Lemma wiretag_wire tag wire : 0 <= wire < 8 -> Z.land (wiretag tag wire) 7 = wire.
Proof.
  intros Hw. unfold wiretag. change 7 with (Z.ones 3).
  rewrite Z.land_lor_distr_l, !Z.land_ones by lia. rewrite Z.shiftl_mul_pow2 by lia.
  rewrite Z.mod_mul, Z.mod_small by lia. done.
Qed.

Lemma wiretag_u64 tag wire : 0 <= tag < 16 -> 0 <= wire < 8 -> is_u64 (wiretag tag wire).
Proof.
  intros Ht Hw. unfold wiretag, is_u64. split.
  - apply Z.lor_nonneg. split; [apply Z.shiftl_nonneg |]; lia.
  - assert (Z.lor (Z.shiftl tag 3) wire < 2 ^ 8); [| unfold pow64; lia].
    rewrite Z.shiftl_mul_pow2 by lia.
    destruct (decide (Z.lor (tag * 2 ^ 3) wire = 0)) as [-> | Hne]; [done |].
    assert (0 <= Z.lor (tag * 2 ^ 3) wire) by (apply Z.lor_nonneg; lia).
    apply Z.log2_lt_pow2; [lia |]. rewrite Z.log2_lor by lia.
    apply Z.max_lub_lt.
    + destruct (decide (tag = 0)) as [-> |]; [done |]. apply Z.log2_lt_pow2; lia.
    + destruct (decide (wire = 0)) as [-> |]; [done |]. apply Z.log2_lt_pow2; lia.
Qed.

(** ** The unmarshal loop *)
Section UnmarshalLoop.
Context {M : Type} (table : Z -> option (unmarshaler M)) (keep : list byte -> M -> M).

(** One field whose unmarshaler accepts it. *)
Lemma unmarshal_loop_field fuel tag wire fn payload rest m m' later :
  0 <= tag < 16 -> 0 <= wire < 8 ->
  table tag = Some fn ->
  fn wire (payload ++ rest) m = FOk rest m' ->
  (length (appendVarint (wiretag tag wire) ++ payload ++ rest) <= fuel)%nat ->
  exists fuel', (length rest <= fuel')%nat /\
    unmarshal_loop table keep fuel (appendVarint (wiretag tag wire) ++ payload ++ rest)
      m later
    = unmarshal_loop table keep fuel' rest m' later.
Proof.
  intros Ht Hw Hfn Hok Hf.
  pose proof (append_varint_n_nonempty 9 (wiretag tag wire)) as Hne.
  unfold appendVarint in *. destruct (append_varint_n 9 _) as [| c l] eqn:Hv; [done |].
  destruct fuel as [| fuel]; [simpl in Hf; lia |]. exists fuel.
  rewrite !length_app in Hf. simpl in Hf. split; [lia |].
  change ((c :: l) ++ payload ++ rest) with (c :: (l ++ payload ++ rest)).
  cbn [unmarshal_loop].
  change (c :: (l ++ payload ++ rest)) with ((c :: l) ++ payload ++ rest). rewrite <- Hv.
  change (append_varint_n 9 (wiretag tag wire)) with (appendVarint (wiretag tag wire)).
  rewrite varint_roundtrip by by apply wiretag_u64.
  by rewrite wiretag_tag, wiretag_wire, Hfn, Hok.
Qed.

(** Parsing a sequence of fields one after the other: [parses b m m'] when
    the loop turns [m] into [m'] over the bytes [b], whatever follows. *)
Definition parses (b : list byte) (m m' : M) : Prop :=
  forall fuel rest later,
    (length (b ++ rest) <= fuel)%nat ->
    exists fuel', (length rest <= fuel')%nat /\
      unmarshal_loop table keep fuel (b ++ rest) m later
      = unmarshal_loop table keep fuel' rest m' later.

Lemma parses_nil m : parses [] m m.
Proof. intros fuel rest later Hf. by exists fuel. Qed.

Lemma parses_app b1 b2 m m1 m2 :
  parses b1 m m1 -> parses b2 m1 m2 -> parses (b1 ++ b2) m m2.
Proof.
  intros H1 H2 fuel rest later Hf. rewrite <- app_assoc in *.
  destruct (H1 fuel (b2 ++ rest) later Hf) as (f1 & Hf1 & ->).
  by apply H2.
Qed.

Lemma parses_unmarshal b m m' :
  parses b m m' -> unmarshal table keep b m = (m', None).
Proof.
  intros H. destruct (H (length b) [] None) as (f & _ & Heq).
  { by rewrite app_nil_r. }
  rewrite app_nil_r in Heq. unfold unmarshal. rewrite Heq. by destruct f.
Qed.

Lemma parses_field tag wire fn payload m m' :
  0 <= tag < 16 -> 0 <= wire < 8 ->
  table tag = Some fn ->
  (forall rest, fn wire (payload ++ rest) m = FOk rest m') ->
  parses (appendVarint (wiretag tag wire) ++ payload) m m'.
Proof.
  intros Ht Hw Hfn Hok fuel rest later Hf. rewrite <- app_assoc in *.
  eapply unmarshal_loop_field; eauto.
Qed.

Lemma parses_delimited tag fn b m m' :
  0 <= tag < 16 -> table tag = Some fn ->
  (forall rest, fn 2 (appendVarint (len b) ++ b ++ rest) m = FOk rest m') ->
  parses (append_delimited tag b) m m'.
Proof.
  intros Ht Hfn Hok. unfold append_delimited. eapply parses_field; eauto; [lia |].
  intros rest. rewrite <- app_assoc. apply Hok.
Qed.

(** The field marshalers against the matching unmarshalers. *)
Lemma parses_string tag set s m :
  0 <= tag < 16 -> table tag = Some (unmarshalUTF8String set) ->
  utf8_valid (bytes_of s) = true -> len (bytes_of s) < pow64 ->
  parses (append_delimited tag (bytes_of s)) m (set s m).
Proof.
  intros Ht Hfn Hu Hl. eapply parses_delimited; eauto. intros rest.
  unfold unmarshalUTF8String. simpl. rewrite take_delimited_append by done.
  by rewrite string_of_bytes_of, Hu.
Qed.

Lemma parses_bytes tag set b m :
  0 <= tag < 16 -> table tag = Some (unmarshalBytesValue set) -> len b < pow64 ->
  parses (append_delimited tag b) m (set b m).
Proof.
  intros Ht Hfn Hl. eapply parses_delimited; eauto. intros rest.
  unfold unmarshalBytesValue. simpl. by rewrite take_delimited_append.
Qed.

Lemma parses_int64 tag set v m :
  0 <= tag < 16 -> table tag = Some (unmarshalInt64Value set) ->
  - 2 ^ 63 <= v < 2 ^ 63 ->
  parses (appendVarint (wiretag tag 0) ++ appendVarint (u64 v)) m (set v m).
Proof.
  intros Ht Hfn Hv. eapply parses_field; eauto; [lia |]. intros rest.
  unfold unmarshalInt64Value. simpl. rewrite varint_roundtrip by auto with u64.
  f_equal. f_equal. unfold i64, u64. rewrite Zmod_mod.
  change (pow64 / 2) with (2 ^ 63). destruct (Z.ltb_spec (v mod pow64) (2 ^ 63)) as [H | H].
  - destruct (Z.lt_ge_cases v 0); [| by rewrite Z.mod_small by (unfold pow64; lia)].
    exfalso. revert H. rewrite <- (Z.mod_add v 1), Z.mod_small; unfold pow64; lia.
  - destruct (Z.lt_ge_cases v 0).
    + rewrite <- (Z.mod_add v 1) by done. rewrite Z.mod_small; unfold pow64; lia.
    + exfalso. revert H. rewrite Z.mod_small; unfold pow64; lia.
Qed.
End UnmarshalLoop.

(** ** Fields that may be absent, repeated fields, submessages and maps *)
Section Fields.
Context {M : Type} (table : Z -> option (unmarshaler M)) (keep : list byte -> M -> M).

Lemma utf8_value_ok tag s b :
  appendUTF8StringValue tag s = (b, None) ->
  b = append_delimited tag (bytes_of s) /\ utf8_valid (bytes_of s) = true.
Proof.
  unfold appendUTF8StringValue. destruct (utf8_valid _); [| done]. by intros [= <-].
Qed.

Lemma append_delimited_len tag b : len b <= len (append_delimited tag b).
Proof.
  unfold append_delimited. rewrite !len_app.
  pose proof (len_nonneg (appendVarint (wiretag tag 2))).
  pose proof (len_nonneg (appendVarint (len b))). lia.
Qed.

Lemma parses_string_field tag set s b m :
  0 <= tag < 16 -> table tag = Some (unmarshalUTF8String set) ->
  appendUTF8StringValueNoZero tag s = (b, None) -> len b < pow64 ->
  (s = "" -> set s m = m) ->
  parses table keep b m (set s m).
Proof.
  intros Ht Hfn Hb Hl Hz. unfold appendUTF8StringValueNoZero in Hb.
  destruct (String.eqb_spec s "") as [-> | Hne].
  - injection Hb as <-. rewrite Hz by done. apply parses_nil.
  - apply utf8_value_ok in Hb as [-> Hu]. apply parses_string; auto.
    pose proof (append_delimited_len tag (bytes_of s)). lia.
Qed.

Lemma parses_bytes_field tag set v b m :
  0 <= tag < 16 -> table tag = Some (unmarshalBytesValue set) ->
  appendBytes3 tag v = (b, None) -> len b < pow64 ->
  (v = [] -> set v m = m) ->
  parses table keep b m (set v m).
Proof.
  intros Ht Hfn Hb Hl Hz. unfold appendBytes3 in Hb. destruct v as [| c v].
  - injection Hb as <-. rewrite Hz by done. apply parses_nil.
  - injection Hb as <-. apply parses_bytes; auto.
    pose proof (append_delimited_len tag (c :: v)). lia.
Qed.

Lemma parses_int64_field tag set v b m :
  0 <= tag < 16 -> table tag = Some (unmarshalInt64Value set) ->
  appendVarintS64ValueNoZero tag v = (b, None) ->
  - 2 ^ 63 <= v < 2 ^ 63 -> (v = 0 -> set v m = m) ->
  parses table keep b m (set v m).
Proof.
  intros Ht Hfn Hb Hv Hz. unfold appendVarintS64ValueNoZero in Hb.
  destruct (Z.eqb_spec v 0) as [-> | Hne]; injection Hb as <-.
  - rewrite Hz by done. apply parses_nil.
  - by apply parses_int64.
Qed.

Lemma parses_strings_field tag set l b m :
  0 <= tag < 16 -> table tag = Some (unmarshalUTF8String set) ->
  appendUTF8StringSlice tag l = (b, None) -> len b < pow64 ->
  parses table keep b m (foldl (flip set) m l).
Proof.
  intros Ht Hfn. revert b m. induction l as [| s l IH]; intros b m Hb Hl; simpl in Hb.
  { injection Hb as <-. apply parses_nil. }
  destruct (appendUTF8StringSlice tag l) as [b2 e2] eqn:H2.
  destruct (utf8_valid (bytes_of s)) eqn:Hu; [| done]. injection Hb as <- ->.
  rewrite len_app in Hl. pose proof (len_nonneg b2).
  pose proof (len_nonneg (append_delimited tag (bytes_of s))).
  apply (parses_app _ _ _ _ _ (set s m)); [| apply IH; [done | lia]].
  apply parses_string; auto.
  pose proof (append_delimited_len tag (bytes_of s)). lia.
Qed.

Lemma parses_message_field {N} tag marshal sub (get : M -> N) set (v : option N) b m :
  0 <= tag < 16 -> table tag = Some (unmarshal_message sub get set) ->
  append_message marshal tag v = (b, None) -> len b < pow64 ->
  (forall n bn, v = Some n -> marshal n = (bn, None) -> len bn < pow64 ->
     sub bn (get m) = (n, None)) ->
  parses table keep b m (match v with Some n => set n m | None => m end).
Proof.
  intros Ht Hfn Hb Hl Hsub. destruct v as [n |]; simpl in Hb.
  - destruct (marshal n) as [bn [e |]] eqn:Hn; [done |]. injection Hb as <-.
    pose proof (append_delimited_len tag bn).
    eapply parses_delimited; eauto. intros rest. unfold unmarshal_message. simpl.
    rewrite take_delimited_append by lia. by rewrite (Hsub n bn) by (done || lia).
  - injection Hb as <-. apply parses_nil.
Qed.

(** A map entry. *)
Lemma unmarshal_entry_string fuel tag s rest kv utf8 :
  tag = 1 \/ tag = 2 ->
  utf8_valid (bytes_of s) = true -> len (bytes_of s) < pow64 ->
  (length (append_delimited tag (bytes_of s) ++ rest) <= fuel)%nat ->
  exists fuel', (length rest <= fuel')%nat /\
    unmarshal_entry fuel (append_delimited tag (bytes_of s) ++ rest) kv utf8
    = unmarshal_entry fuel' rest
        (if tag =? 1 then (s, kv.2) else (kv.1, s)) utf8.
Proof.
  intros Ht Hu Hl Hf. unfold append_delimited in *. rewrite <- !app_assoc in *.
  unfold appendVarint at 1. unfold appendVarint at 1 in Hf.
  destruct (append_varint_n 9 (wiretag tag 2)) as [| c l] eqn:Hv;
    [by apply append_varint_n_nonempty in Hv |].
  destruct fuel as [| fuel]; [simpl in Hf; lia |]. exists fuel.
  rewrite !length_app in Hf. simpl in Hf. split; [lia |].
  change ((c :: l) ++ ?t) with (c :: (l ++ t)). cbn [unmarshal_entry].
  change (c :: (l ++ ?t)) with ((c :: l) ++ t). rewrite <- Hv.
  change (append_varint_n 9 (wiretag tag 2)) with (appendVarint (wiretag tag 2)).
  rewrite varint_roundtrip by (apply wiretag_u64; lia).
  rewrite wiretag_tag, wiretag_wire by lia.
  destruct Ht as [-> | ->]; unfold unmarshalUTF8String; cbn -[take_delimited app appendVarint len];
    by rewrite take_delimited_append, Hu, string_of_bytes_of by done.
Qed.

Lemma unmarshal_entry_kv k v :
  utf8_valid (bytes_of k) = true -> utf8_valid (bytes_of v) = true ->
  let b := append_delimited 1 (bytes_of k) ++ append_delimited 2 (bytes_of v) in
  len b < pow64 ->
  unmarshal_entry (length b) b ("", "") false = inr ((k, v), false).
Proof.
  intros Hk Hv b Hl. unfold b in *. clear b. rewrite len_app in Hl.
  pose proof (append_delimited_len 1 (bytes_of k)).
  pose proof (append_delimited_len 2 (bytes_of v)).
  pose proof (len_nonneg (bytes_of k)). pose proof (len_nonneg (bytes_of v)).
  destruct (unmarshal_entry_string
    (length (append_delimited 1 (bytes_of k) ++ append_delimited 2 (bytes_of v)))
    1 k (append_delimited 2 (bytes_of v)) ("", "") false) as (f1 & Hf1 & ->);
    [auto | done | lia | done |].
  rewrite <- (app_nil_r (append_delimited 2 (bytes_of v))) in Hf1 |- *.
  destruct (unmarshal_entry_string f1 2 v [] (k, "") false) as (f2 & Hf2 & E);
    [auto | done | lia | done |].
  simpl in E |- *. rewrite E. by destruct f2.
Qed.

Lemma parses_map_field tag set l b m :
  0 <= tag < 16 -> table tag = Some (unmarshal_map set) ->
  append_map tag l = (b, None) -> len b < pow64 ->
  parses table keep b m (foldl (fun m kv => set kv.1 kv.2 m) m l).
Proof.
  intros Ht Hfn. revert b m. induction l as [| [k v] l IH]; intros b m Hb Hl.
  { injection Hb as <-. apply parses_nil. }
  cbn [append_map] in Hb. unfold appendUTF8StringValue in Hb.
  destruct (append_map tag l) as [b2 e2] eqn:H2.
  destruct (utf8_valid (bytes_of k)) eqn:Hk; [| done].
  destruct (utf8_valid (bytes_of v)) eqn:Hv; [| done]. apply pair_equal_spec in Hb as [<- ->].
  rewrite len_app in Hl. pose proof (len_nonneg b2).
  set (e := append_delimited 1 (bytes_of k) ++ append_delimited 2 (bytes_of v)) in *.
  pose proof (append_delimited_len tag e). pose proof (len_nonneg (append_delimited tag e)).
  assert (len b2 < pow64) as Hl2 by lia.
  apply (parses_app _ _ _ _ _ (set k v m)); [| by apply IH].
  eapply parses_delimited; eauto. intros rest. unfold unmarshal_map. cbn [negb Z.eqb Pos.eqb].
  rewrite take_delimited_append by lia.
  assert (len e < pow64) as He by lia.
  pose proof (unmarshal_entry_kv k v Hk Hv He) as E. fold e in E. by rewrite E.
Qed.
End Fields.

(** A marshalling that reports no error emitted every field in order. *)
Lemma marshal_loop_ok fields u b later r :
  marshal_loop fields u b later = (r, None) ->
  later = None /\ Forall (fun f => f.2 = None) fields /\
  r = b ++ mjoin (fields.*1) ++ u.
Proof.
  revert b later. induction fields as [| [fb e] fields IH]; intros b later Hm; simpl in Hm.
  { injection Hm as <- ->. by repeat constructor. }
  destruct e as [[|] |]; [by apply IH in Hm as [? _] | done |].
  apply IH in Hm as (-> & Hf & ->). split; [done |]. split; [by constructor |].
  simpl. by rewrite <- !app_assoc.
Qed.

Lemma marshal_fields_ok fields b :
  marshal_fields fields [] = (b, None) ->
  Forall (fun f => f.2 = None) fields /\ b = mjoin (fields.*1).
Proof.
  intros (_ & Hf & ->)%marshal_loop_ok. split; [done |]. simpl. by rewrite app_nil_r.
Qed.
