(* ===== verification/Text.v ===== *)
(** * Text: what the code uses of the packages [strings], [unicode/utf8],
    [strconv] and [encoding/json] of the Go standard library *)
From Stdlib Require Import Ascii String.
From stdpp Require Import sorting.
From S2P Require Import Prelude Wire.

(** ** [strings.TrimSpace] on the bytes of a text *)

(** The UTF-8 encodings of the white space of Unicode. *)
Definition white_space : list (list byte) :=
  [[x09]; [x0a]; [x0b]; [x0c]; [x0d]; [x20]; [xc2; x85]; [xc2; xa0]; [xe1; x9a; x80];
   [xe2; x80; x80]; [xe2; x80; x81]; [xe2; x80; x82]; [xe2; x80; x83]; [xe2; x80; x84];
   [xe2; x80; x85]; [xe2; x80; x86]; [xe2; x80; x87]; [xe2; x80; x88]; [xe2; x80; x89];
   [xe2; x80; x8a]; [xe2; x80; xa8]; [xe2; x80; xa9]; [xe2; x80; xaf]; [xe2; x81; x9f];
   [xe3; x80; x80]].

Fixpoint strip (p b : list byte) : option (list byte) :=
  match p, b with
  | [], b => Some b
  | x :: p, y :: b => if Byte.eqb x y then strip p b else None
  | _ :: _, [] => None
  end.

Fixpoint strip_any (ps : list (list byte)) (b : list byte) : option (list byte) :=
  match ps with
  | [] => None
  | p :: ps => match strip p b with Some b' => Some b' | None => strip_any ps b end
  end.

Fixpoint trim (fuel : nat) (ps : list (list byte)) (b : list byte) : list byte :=
  match fuel with
  | O => b
  | S fuel => match strip_any ps b with Some b' => trim fuel ps b' | None => b end
  end.

Definition TrimSpace (b : list byte) : list byte :=
  let b := trim (length b) white_space b in
  rev (trim (length b) (rev (A := byte) <$> white_space) (rev b)).

(** A text whose first and last bytes begin and end no white space is left as
    it is. *)
Definition starts_any (ps : list (list byte)) (c : byte) : bool :=
  existsb (fun p => match p with x :: _ => Byte.eqb x c | [] => true end) ps.

Lemma strip_any_none ps c b : starts_any ps c = false -> strip_any ps (c :: b) = None.
Proof.
  induction ps as [| p ps IH]; [done |]. unfold starts_any. cbn [existsb strip_any].
  intros [Hp Hps]%orb_false_iff. destruct p as [| x p]; [done |]. cbn [strip].
  rewrite Hp. by apply IH.
Qed.

Lemma trim_none fuel ps b : strip_any ps b = None -> trim fuel ps b = b.
Proof. destruct fuel as [| fuel]; [done |]. cbn. by intros ->. Qed.

Lemma TrimSpace_id c b b' d :
  c :: b = b' ++ [d] -> starts_any white_space c = false ->
  starts_any (rev (A := byte) <$> white_space) d = false -> TrimSpace (c :: b) = c :: b.
Proof.
  intros Hb Hc Hd. unfold TrimSpace.
  rewrite (trim_none _ white_space (c :: b)) by by apply strip_any_none.
  rewrite trim_none; [apply rev_involutive |]. rewrite Hb, rev_app_distr. cbn [rev app].
  by apply strip_any_none.
Qed.

(** ** Digits *)
Definition is_digit (c : ascii) : bool :=
  let n := nat_of_ascii c in (48 <=? n)%nat && (n <=? 57)%nat.
Definition digit (c : ascii) : Z := Z.of_nat (nat_of_ascii c) - 48.
Definition dot : ascii := "."%char.

Fixpoint digits (s : string) : bool :=
  match s with EmptyString => true | String c s => is_digit c && digits s end.

(** The number [s] stands for when [x] has been read in front of it. *)
Fixpoint decimal (s : string) (x : Z) : Z :=
  match s with EmptyString => x | String c s => decimal s (x * 10 + digit c) end.

Lemma digit_bounds c : is_digit c = true -> 0 <= digit c <= 9.
Proof. unfold is_digit, digit. intros [H1%Nat.leb_le H2%Nat.leb_le]%andb_true_iff. lia. Qed.

Lemma decimal_ge s x : digits s = true -> 0 <= x -> x <= decimal s x.
Proof.
  revert x. induction s as [| c s IH]; intros x; cbn [decimal digits]; [done |].
  intros [Hc Hs]%andb_true_iff Hx. pose proof (digit_bounds c Hc).
  specialize (IH (x * 10 + digit c) Hs). lia.
Qed.

Lemma length_append s t : String.length (s +:+ t) = (String.length s + String.length t)%nat.
Proof.
  induction s as [| c s IH]; [done |].
  change (String c s +:+ t) with (String c (s +:+ t)). cbn. by rewrite IH.
Qed.

#[global] Arguments is_digit : simpl never.
#[global] Arguments digit : simpl never.

(** ** [json.Marshal] of a map of strings *)

(** The escapes of a byte below 128: control characters, the quote, the
    backslash, and the characters that matter to HTML. *)
Definition hex (n : Z) : byte := byte_of_Z (if n <? 10 then 48 + n else 87 + n).

Definition json_ascii (c : byte) : list byte :=
  let y := Z_of_byte c in
  if (y =? 34) || (y =? 92) then [x5c; c]
  else if y =? 10 then [x5c; x6e]
  else if y =? 13 then [x5c; x72]
  else if y =? 9 then [x5c; x74]
  else if (y <? 32) || (y =? 60) || (y =? 62) || (y =? 38) then
    bytes_of "\u00" ++ [hex (y / 16); hex (y mod 16)]
  else [c].

(** A byte that does not start a valid encoding is replaced by U+FFFD; the
    separators U+2028 and U+2029 are escaped. *)
Definition json_invalid : list byte := bytes_of "\ufffd".

Definition json_three (c c1 c2 : byte) : list byte :=
  if (Z_of_byte c =? 226) && (Z_of_byte c1 =? 128)
     && ((Z_of_byte c2 =? 168) || (Z_of_byte c2 =? 169)) then
    bytes_of "\u202" ++ [hex (Z_of_byte c2 mod 16)]
  else [c; c1; c2].

Fixpoint json_chars (b : list byte) : list byte :=
  match b with
  | [] => []
  | c :: r =>
      let y := Z_of_byte c in
      if y <? 128 then json_ascii c ++ json_chars r
      else if (194 <=? y) && (y <=? 223) then
        match r with
        | c1 :: r' =>
            if cont c1 then c :: c1 :: json_chars r' else json_invalid ++ json_chars r
        | _ => json_invalid ++ json_chars r
        end
      else if (224 <=? y) && (y <=? 239) then
        match r with
        | c1 :: c2 :: r' =>
            if cont_in (if y =? 224 then 160 else 128) (if y =? 237 then 159 else 191) c1
               && cont c2
            then json_three c c1 c2 ++ json_chars r' else json_invalid ++ json_chars r
        | _ => json_invalid ++ json_chars r
        end
      else if (240 <=? y) && (y <=? 244) then
        match r with
        | c1 :: c2 :: c3 :: r' =>
            if cont_in (if y =? 240 then 144 else 128) (if y =? 244 then 143 else 191) c1
               && cont c2 && cont c3
            then c :: c1 :: c2 :: c3 :: json_chars r' else json_invalid ++ json_chars r
        | _ => json_invalid ++ json_chars r
        end
      else json_invalid ++ json_chars r
  end.

Definition json_string (s : string) : list byte := [x22] ++ json_chars (bytes_of s) ++ [x22].

(** The entries in the order of their keys, byte by byte. *)
Definition key_le (x y : string * string) : Prop := String.leb x.1 y.1 = true.

#[export] Instance key_le_dec x y : Decision (key_le x y).
Proof. unfold key_le. apply _. Defined.

Definition json_entry (kv : string * string) : list byte :=
  json_string kv.1 ++ [x3a] ++ json_string kv.2.

Fixpoint json_entries (l : list (string * string)) : list byte :=
  match l with
  | [] => []
  | [kv] => json_entry kv
  | kv :: l => json_entry kv ++ [x2c] ++ json_entries l
  end.

Definition json_Marshal (m : gmap string string) : list byte :=
  [x7b] ++ json_entries (merge_sort key_le (map_to_list m)) ++ [x7d].

(** Nothing of a text can end the string it is written in: every quote in the
    encoding follows a backslash of an escape, and there is no control
    character. *)
Definition plain (c : byte) : bool := (32 <=? Z_of_byte c) && negb (Z_of_byte c =? 34).

Fixpoint escaped (b : list byte) : bool :=
  match b with
  | [] => true
  | c :: r =>
      if Z_of_byte c =? 92 then match r with d :: r => (32 <=? Z_of_byte d) && escaped r | [] => false end
      else plain c && escaped r
  end.

Lemma escaped_app b1 b2 : escaped b1 = true -> escaped b2 = true -> escaped (b1 ++ b2) = true.
Proof.
  intros H1 H2. revert b1 H1.
  assert (forall n b1, (length b1 <= n)%nat -> escaped b1 = true -> escaped (b1 ++ b2) = true)
    as Hn; [| intros b1; by apply (Hn (length b1))].
  induction n as [| n IH]; intros [| c r] Hl H1; cbn [length] in Hl; try lia; try done.
  cbn [app escaped] in *. destruct (Z_of_byte c =? 92).
  - destruct r as [| d r]; [done |]. cbn [app length] in *.
    apply andb_true_iff in H1 as [-> H1]. apply (IH r); [lia | done].
  - apply andb_true_iff in H1 as [-> H1]. apply (IH r); [lia | done].
Qed.

Lemma escaped_plain b : forallb (fun c => plain c && negb (Z_of_byte c =? 92)) b = true -> escaped b = true.
Proof.
  induction b as [| c b IH]; [done |]. cbn. intros [[Hp Hc]%andb_true_iff Hb]%andb_true_iff.
  destruct (Z_of_byte c =? 92); [done |]. by rewrite Hp, IH.
Qed.

(** Bytes of 128 and more are plain. *)
Lemma high_plain c : 128 <= Z_of_byte c -> plain c && negb (Z_of_byte c =? 92) = true.
Proof.
  intros Hc. unfold plain. rewrite (proj2 (Z.leb_le _ _)) by lia.
  by rewrite !(proj2 (Z.eqb_neq _ _)) by lia.
Qed.

Lemma json_ascii_escaped c : Z_of_byte c <? 128 = true -> escaped (json_ascii c) = true.
Proof. by destruct c. Qed.

Lemma json_three_escaped c c1 c2 :
  128 <= Z_of_byte c -> 128 <= Z_of_byte c1 -> 128 <= Z_of_byte c2 ->
  escaped (json_three c c1 c2) = true.
Proof.
  intros Hc H1 H2. unfold json_three. case_match eqn:E.
  - apply andb_true_iff in E as [_ E]. by destruct c2.
  - apply escaped_plain. cbn. by rewrite !high_plain.
Qed.

Lemma cont_in_high lo hi c : 128 <= lo -> cont_in lo hi c = true -> 128 <= Z_of_byte c.
Proof. unfold cont_in. intros Hlo [H%Z.leb_le _]%andb_true_iff. lia. Qed.

Lemma json_chars_escaped b : escaped (json_chars b) = true.
Proof.
  assert (forall n b, (length b <= n)%nat -> escaped (json_chars b) = true) as Hn;
    [| by apply (Hn (length b))].
  clear b. induction n as [| n IH]; intros [| c r] Hl; cbn [length] in Hl; try lia; try done.
  assert (escaped (json_chars r) = true) as Hr by (apply IH; lia).
  assert (escaped (json_invalid ++ json_chars r) = true) as Hi by by apply escaped_app.
  cbn [json_chars]. destruct (Z_of_byte c <? 128) eqn:Hc.
  { apply escaped_app; [by apply json_ascii_escaped | done]. }
  apply Z.ltb_ge in Hc.
  assert (forall l b, Forall (fun d => 128 <= Z_of_byte d) l -> escaped b = true ->
    escaped (l ++ b) = true) as Hhigh.
  { intros l b Hh Hb. apply escaped_app; [| done]. apply escaped_plain.
    apply forallb_forall. intros d Hd. apply high_plain.
    by apply (proj1 (List.Forall_forall _ _) Hh). }
  repeat case_match; try done;
    repeat match goal with H : _ && _ = true |- _ => apply andb_true_iff in H as [? ?] end;
    repeat match goal with H : cont _ = true |- _ => unfold cont in H end;
    repeat match goal with H : cont_in ?lo _ ?d = true |- _ =>
      apply cont_in_high in H; [| repeat case_match; lia] end.
  all: first
    [ apply escaped_app; [by apply json_three_escaped | apply IH; subst; cbn in *; lia]
    | apply (Hhigh [_; _; _; _]); [by repeat constructor | apply IH; subst; cbn in *; lia]
    | apply (Hhigh [_; _]); [by repeat constructor | apply IH; subst; cbn in *; lia] ].
Qed.

Example json_cases :
  string_of (json_Marshal {["b" := "1"; "a" := "<x> \"]}) = string_of ([x7b; x22; x61; x22; x3a; x22]
    ++ bytes_of "\u003cx\u003e \\" ++ [x22; x2c; x22; x62; x22; x3a; x22; x31; x22; x7d]).
Proof. by vm_compute. Qed.
