(* ===== verification/Utils.v ===== *)
(** * Helpers: [src/utils/strings.go]

    Membership in a slice.  No package of the program imports them. *)
From S2P Require Import Prelude.

Fixpoint InSliceOfStrings (s : string) (sl : list string) : bool :=
  match sl with
  | [] => false
  | item :: sl => if String.eqb item s then true else InSliceOfStrings s sl
  end.

Fixpoint InSliceOfUint64 (u : Z) (sl : list Z) : bool :=
  match sl with
  | [] => false
  | item :: sl => if item =? u then true else InSliceOfUint64 u sl
  end.

Lemma InSliceOfStrings_spec s sl : InSliceOfStrings s sl = bool_decide (s ∈ sl).
Proof.
  induction sl as [| item sl IH]; [done |]. cbn. rewrite IH.
  destruct (String.eqb_spec item s) as [-> | N].
  - by rewrite bool_decide_true by apply list_elem_of_here.
  - apply bool_decide_ext. set_solver.
Qed.

Lemma InSliceOfUint64_spec u sl : InSliceOfUint64 u sl = bool_decide (u ∈ sl).
Proof.
  induction sl as [| item sl IH]; [done |]. cbn. rewrite IH.
  destruct (Z.eqb_spec item u) as [-> | N].
  - by rewrite bool_decide_true by apply list_elem_of_here.
  - apply bool_decide_ext. set_solver.
Qed.
