(* ===== verification/Floats.v ===== *)
(** * Doubles

    The conversions to [float64] and the divisions of doubles that the program
    makes, as exact integers and fractions of a power of two, and how far they
    are from the exact values.  [Limiter], [Duration], [ByteFmt] and [Monitoring]
    use them. *)
From S2P Require Import Prelude.

(** The integer nearest to [n / d], ties to even. *)
Definition div_rne (n d : Z) : Z :=
  let q := n / d in
  let r := n mod d in
  if 2 * r <? d then q
  else if d <? 2 * r then q + 1
  else if Z.even q then q else q + 1.

(** The exponent [e] for which [n / d / 2^e] has 53 bits before the point. *)
Definition f64_exp (n d : Z) : Z :=
  let k := Z.log2 n - Z.log2 d in
  let below := if 0 <=? k then n <? d * 2 ^ k else n * 2 ^ (- k) <? d in
  (if below then k - 1 else k) - 52.

(** Round [n / d], both positive, to a double [m * 2^e] (IEEE 754 binary64,
    round to nearest even; the arguments are far from overflow and from the
    subnormal range). *)
Definition f64_round (n d : Z) : Z * Z :=
  let e := f64_exp n d in
  (div_rne (n * 2 ^ Z.max 0 (- e)) (d * 2 ^ Z.max 0 e), e).

(** [math.Floor] of the double [m * 2^e]. *)
Definition f64_floor (f : Z * Z) : Z :=
  let '(m, e) := f in (m * 2 ^ Z.max 0 e) / 2 ^ Z.max 0 (- e).

(** [float64(z)] of a non-negative integer.  A double nearest to an integer
    is an integer, so it is kept as a [Z]. *)
Definition f64_of_Z (z : Z) : Z :=
  if z <=? 0 then 0 else f64_floor (f64_round z 1).

(** [math.Floor(a / b)] for doubles [a >= 0] and [b > 0] that are integers. *)
Definition f64_div_floor (a b : Z) : Z :=
  if a <=? 0 then 0 else f64_floor (f64_round a b).

(** ** How far it rounds *)

Lemma div_rne_error n d : 0 < d -> 2 * Z.abs (div_rne n d * d - n) <= d.
Proof.
  intros Hd. unfold div_rne. pose proof (Z.div_mod n d) as Hdm.
  pose proof (Z.mod_pos_bound n d Hd) as Hmod.
  destruct (Z.ltb_spec (2 * (n mod d)) d); [nia |].
  destruct (Z.ltb_spec d (2 * (n mod d))); [nia |].
  destruct (Z.even (n / d)); nia.
Qed.

Lemma f64_exp_bound n d :
  0 < d -> d <= n ->
  d * 2 ^ Z.max 0 (f64_exp n d) * 2 ^ 52 <= n * 2 ^ Z.max 0 (- f64_exp n d).
Proof.
  intros Hd Hn.
  pose proof (Z.log2_spec n ltac:(lia)) as [Hn1 _].
  pose proof (Z.log2_spec d Hd) as [_ Hd2].
  pose proof (Z.log2_nonneg d) as Hld.
  pose proof (Z.log2_le_mono d n ltac:(lia)) as Hk.
  set (k := Z.log2 n - Z.log2 d).
  assert (forall j, 0 <= j -> d * 2 ^ j <= n ->
    d * 2 ^ Z.max 0 (j - 52) * 2 ^ 52 <= n * 2 ^ Z.max 0 (- (j - 52))) as Haux.
  { intros j Hj Hle. destruct (Z.le_gt_cases 52 j).
    - rewrite (Z.max_r 0 (j - 52)), (Z.max_l 0 (- (j - 52))) by lia.
      rewrite <- Z.mul_assoc, <- Z.pow_add_r by lia.
      replace (j - 52 + 52) with j by lia. lia.
    - rewrite (Z.max_l 0 (j - 52)), (Z.max_r 0 (- (j - 52))) by lia.
      replace (2 ^ 52) with (2 ^ j * 2 ^ (- (j - 52))) by
        (rewrite <- Z.pow_add_r by lia; f_equal; lia).
      pose proof (Z.pow_pos_nonneg 2 (- (j - 52))). nia. }
  unfold f64_exp. fold k. rewrite (proj2 (Z.leb_le 0 k)) by lia.
  destruct (Z.ltb_spec n (d * 2 ^ k)) as [Hb | Hb].
  - destruct (decide (k = 0)) as [E | Hk0].
    { rewrite E in Hb. change (2 ^ 0) with 1 in Hb. lia. }
    apply Haux; [lia |].
    assert (2 ^ Z.log2 n = 2 ^ Z.succ (Z.log2 d) * 2 ^ (k - 1)) as E.
    { rewrite <- Z.pow_add_r by lia. f_equal. lia. }
    pose proof (Z.pow_pos_nonneg 2 (k - 1)). nia.
  - apply Haux; lia.
Qed.

Lemma f64_round_error n d m e :
  0 < d -> d <= n -> f64_round n d = (m, e) ->
  2 ^ 53 * Z.abs (m * (d * 2 ^ Z.max 0 e) - n * 2 ^ Z.max 0 (- e))
  <= n * 2 ^ Z.max 0 (- e).
Proof.
  intros Hd Hn Hr. pose proof (f64_exp_bound n d Hd Hn) as Hb.
  unfold f64_round in Hr. injection Hr as <- <-.
  set (D := d * 2 ^ _) in *. set (N := n * _) in *.
  assert (0 < D) by (unfold D; pose proof (Z.pow_pos_nonneg 2 (Z.max 0 (f64_exp n d))); nia).
  pose proof (div_rne_error N D ltac:(lia)). lia.
Qed.

(** The floor of the rounded quotient, against the exact quotient. *)
Lemma f64_floor_bounds n d :
  0 < d -> d <= n ->
  2 ^ 53 * d * f64_floor (f64_round n d) <= n * (2 ^ 53 + 1) /\
  n * (2 ^ 53 - 1) < 2 ^ 53 * d * (f64_floor (f64_round n d) + 1).
Proof.
  intros Hd Hn. destruct (f64_round n d) as [m e] eqn:Hr.
  pose proof (f64_round_error _ _ _ _ Hd Hn Hr) as He. unfold f64_floor.
  set (P := 2 ^ Z.max 0 e) in *. set (Q := 2 ^ Z.max 0 (- e)) in *.
  assert (0 < Q) as HQ by (apply Z.pow_pos_nonneg; lia).
  pose proof (Z.mul_div_le (m * P) Q HQ) as H1.
  pose proof (Z.mul_succ_div_gt (m * P) Q HQ) as H2.
  set (F := m * P / Q) in *. split; apply (Z.mul_le_mono_pos_r _ _ Q HQ) || idtac.
  - nia.
  - apply (Z.mul_lt_mono_pos_r Q); [done |]. nia.
Qed.

Lemma f64_of_Z_exact z : 0 <= z < 2 ^ 53 -> f64_of_Z z = z.
Proof.
  intros Hz. unfold f64_of_Z. destruct (Z.leb_spec z 0); [lia |].
  assert (f64_exp z 1 <= 0) as He.
  { unfold f64_exp. change (Z.log2 1) with 0. rewrite Z.sub_0_r.
    rewrite (proj2 (Z.leb_le 0 _)) by apply Z.log2_nonneg.
    assert (Z.log2 z < 53) by (apply Z.log2_lt_pow2; lia).
    destruct (_ <? _); lia. }
  unfold f64_round, f64_floor. rewrite (Z.max_l 0 (f64_exp z 1)), (Z.max_r 0 (- _)) by lia.
  change (1 * 2 ^ 0) with 1. unfold div_rne. rewrite Z.mod_1_r, Z.div_1_r.
  simpl. rewrite Z.mul_1_r. apply Z.div_mul. pose proof (Z.pow_pos_nonneg 2 (- f64_exp z 1)). lia.
Qed.

Lemma f64_of_Z_error z : 0 < z -> 2 ^ 53 * Z.abs (f64_of_Z z - z) <= z.
Proof.
  intros Hz. destruct (Z.lt_ge_cases z (2 ^ 53)) as [Hs | Hb].
  { rewrite f64_of_Z_exact by lia. replace (z - z) with 0 by lia. simpl. lia. }
  unfold f64_of_Z. destruct (Z.leb_spec z 0); [lia |].
  assert (0 <= f64_exp z 1) as He.
  { unfold f64_exp. change (Z.log2 1) with 0. rewrite Z.sub_0_r.
    rewrite (proj2 (Z.leb_le 0 _)) by apply Z.log2_nonneg.
    assert (53 <= Z.log2 z) by (apply Z.log2_le_pow2; lia).
    destruct (_ <? _); lia. }
  destruct (f64_round z 1) as [m e] eqn:Hr.
  pose proof (f64_round_error z 1 m e Z.lt_0_1 ltac:(lia) Hr) as Herr.
  unfold f64_round in Hr. injection Hr as _ <-. unfold f64_floor.
  rewrite (Z.max_l 0 (- _)) in * by lia. rewrite Z.div_1_r. change (2 ^ 0) with 1 in *. lia.
Qed.

Lemma f64_floor_ge n d :
  0 < d -> d <= n -> n < 2 ^ 53 -> n / d <= f64_floor (f64_round n d).
Proof.
  intros Hd Hn Hs. assert (f64_exp n d <= 0) as He.
  { assert (Z.log2 n < 53) by (apply Z.log2_lt_pow2; lia).
    pose proof (Z.log2_nonneg d). unfold f64_exp. destruct (_ <=? _);
      destruct (_ <? _); lia. }
  unfold f64_round, f64_floor. rewrite (Z.max_l 0 (f64_exp n d)) by lia.
  set (Q := 2 ^ _). assert (0 < Q) as HQ by (apply Z.pow_pos_nonneg; lia).
  change (2 ^ 0) with 1. rewrite !Z.mul_1_r.
  apply Z.div_le_lower_bound; [done |].
  assert (n * Q / d <= div_rne (n * Q) d) as Hle.
  { unfold div_rne. repeat case_match; lia. }
  etransitivity; [| exact Hle]. apply Z.div_le_lower_bound; [done |].
  pose proof (Z.mul_div_le n d Hd). nia.
Qed.
