(* ===== verification/Limiter.v ===== *)
(** * The rate limiter: [src/limiter/limiter.go]

    A counter that a ticker goroutine moves into a store of per-interval
    values; [TotalStoredCount] caches the sum of the store and
    [IsAverageOverLimit] compares the mean with the limit.  Times are [Z]
    nanoseconds since the Unix epoch; every reading of the clock and every
    iteration order over the store is an argument of the definition that uses
    it. *)
From S2P Require Import Prelude Floats.

(** ** Data *)

(** [type StoreItem struct], the TTL as the time at which the item expires. *)
Record StoreItem := { Value : Z; TTL : Z }.

(** [type RateLimiter struct].  [ticker] is the period of the running
    ticker, [stopTicker] says whether the channel was closed; the [Store] is
    its [Items] map. *)
Record RateLimiter := {
  Limit : Z;
  BaseKey : string;
  Interval : Z;
  FlushInterval : Z;
  StoreMultiplier : Z;
  TotalStoredCount : Z;
  syncedCount : Z;
  currentCount : Z;
  currentKey : string;
  ticker : option Z;
  stopTicker : bool;
  Store : gmap string StoreItem;
}.

Definition set_counts (total synced current : Z) (r : RateLimiter) : RateLimiter :=
  {| Limit := Limit r; BaseKey := BaseKey r; Interval := Interval r;
     FlushInterval := FlushInterval r; StoreMultiplier := StoreMultiplier r;
     TotalStoredCount := total; syncedCount := synced; currentCount := current;
     currentKey := currentKey r; ticker := ticker r; stopTicker := stopTicker r;
     Store := Store r |}.

Definition set_store (key : string) (items : gmap string StoreItem)
    (r : RateLimiter) : RateLimiter :=
  {| Limit := Limit r; BaseKey := BaseKey r; Interval := Interval r;
     FlushInterval := FlushInterval r; StoreMultiplier := StoreMultiplier r;
     TotalStoredCount := TotalStoredCount r; syncedCount := syncedCount r;
     currentCount := currentCount r; currentKey := key; ticker := ticker r;
     stopTicker := stopTicker r; Store := items |}.

Definition set_ticker (t : option Z) (stop : bool) (r : RateLimiter) : RateLimiter :=
  {| Limit := Limit r; BaseKey := BaseKey r; Interval := Interval r;
     FlushInterval := FlushInterval r; StoreMultiplier := StoreMultiplier r;
     TotalStoredCount := TotalStoredCount r; syncedCount := syncedCount r;
     currentCount := currentCount r; currentKey := currentKey r; ticker := t;
     stopTicker := stop; Store := Store r |}.

(** ** Operations *)

(** [Store.Get], [Store.Set] and [Store.Len]. *)
Definition Store_Get (s : gmap string StoreItem) (key : string) : option StoreItem :=
  s !! key.

Definition Store_Set (s : gmap string StoreItem) (key : string) (value : StoreItem)
    : gmap string StoreItem := <[key := value]> s.

Definition Store_Len (s : gmap string StoreItem) : Z := Z.of_nat (size s).

(** [limiter.New]. *)
Definition New (baseKey : string) (limit interval flushInterval storeMultiplier : Z)
    : RateLimiter :=
  {| Limit := limit; BaseKey := baseKey; Interval := interval;
     FlushInterval := flushInterval; StoreMultiplier := storeMultiplier;
     TotalStoredCount := 0; syncedCount := 0; currentCount := 0;
     currentKey := ""; ticker := None; stopTicker := false; Store := ∅ |}.

(** The number that [updateCurrentKey] computes from the clock. *)
Definition time_index (now ns : Z) : Z :=
  u64 (f64_div_floor (f64_of_Z now) (f64_of_Z ns)).

Definition time_key (base : string) (now ns : Z) : string :=
  base +:+ ":" +:+ pretty (time_index now ns).

(** [updateCurrentKey]; [curTime] and [now] are its two clock readings. *)
Definition updateCurrentKey (curTime now : Z) (r : RateLimiter) : RateLimiter :=
  let key := time_key (BaseKey r) curTime (Interval r) in
  set_store key
    (Store_Set (Store r) key
       {| Value := 0; TTL := now + i64 (StoreMultiplier r * FlushInterval r) |}) r.

(** One iteration of the loop of [purgeExpiredKeys]; [now key] is the clock
    when [time.Since] is called for that key. *)
Definition purge_one (now : string -> Z) (r : RateLimiter)
    (entry : string * StoreItem) : RateLimiter :=
  let '(key, item) := entry in
  if negb (String.eqb key (currentKey r)) && (0 <? now key - TTL item) then
    set_counts (TotalStoredCount r +64 not64 (Value item -64 1)) (syncedCount r)
      (currentCount r) (set_store (currentKey r) (delete key (Store r)) r)
  else r.

(** [purgeExpiredKeys]; [order] is the order in which [range] visits the map. *)
Definition purgeExpiredKeys (now : string -> Z) (order : list (string * StoreItem))
    (r : RateLimiter) : RateLimiter :=
  foldl (purge_one now) r order.

(** [Flush], cut at its first atomic operation: the swap takes the count, the
    rest stores it. *)
Definition flush_swap (r : RateLimiter) : Z * RateLimiter :=
  (currentCount r, set_counts (TotalStoredCount r) (syncedCount r) 0 r).

Definition flush_store (flushCount : Z) (r : RateLimiter) : RateLimiter :=
  match Store_Get (Store r) (currentKey r) with
  | None => r
  | Some currentStored =>
      let value := Value currentStored +64 flushCount in
      let r1 := set_store (currentKey r)
                  (Store_Set (Store r) (currentKey r)
                     {| Value := value; TTL := TTL currentStored |}) r in
      set_counts (TotalStoredCount r +64 value) (syncedCount r +64 value)
        (currentCount r) r1
  end.

Definition Flush (r : RateLimiter) : RateLimiter :=
  let '(flushCount, r1) := flush_swap r in flush_store flushCount r1.

Definition Increment (delta : Z) (r : RateLimiter) : RateLimiter :=
  set_counts (TotalStoredCount r) (syncedCount r) (currentCount r +64 delta) r.

(** [IsOverLimit]: the excess (wrapping when there is none) and the verdict. *)
Definition IsOverLimit (r : RateLimiter) : Z * bool :=
  let rate := currentCount r in
  let limit := Limit r in
  if limit <? rate then (rate -64 limit, true) else (rate -64 limit, false).

Definition GetCurrent (r : RateLimiter) : Z := currentCount r.

(** [IsAverageOverLimit]: the excess, the mean and the verdict. *)
Definition IsAverageOverLimit (r : RateLimiter) : Z * Z * bool :=
  let length := Store_Len (Store r) + 1 in
  let total := TotalStoredCount r +64 currentCount r in
  let mean := total / u64 length in
  let limit := Limit r in
  if limit <? mean then (mean -64 limit, mean, true)
  else (mean -64 limit, mean, false).

(** The body of the ticker case of the goroutine that [Init] starts. *)
Definition tick (curTime ttlTime : Z) (now : string -> Z)
    (order : list (string * StoreItem)) (r : RateLimiter) : RateLimiter :=
  Flush (purgeExpiredKeys now order (updateCurrentKey curTime ttlTime r)).

(** [Stop]: closing a closed channel panics. *)
Definition Stop (r : RateLimiter) : outcome RateLimiter :=
  if stopTicker r then Panic "close of closed channel"
  else Ret (Flush (set_ticker (ticker r) true r)).

(** [Init]: [inl] is the returned error, [inr] the initialised limiter;
    [time.NewTicker] panics on a period that is not positive. *)
Definition Millisecond : Z := 1000000.

Definition Init (curTime ttlTime : Z) (r : RateLimiter)
    : outcome (string + RateLimiter) :=
  if Interval r <? Millisecond then Ret (inl "minimum interval is 1 millisecond")
  else
    let r1 := updateCurrentKey curTime ttlTime r in
    if FlushInterval r1 <=? 0 then Panic "non-positive interval for NewTicker"
    else Ret (inr (set_ticker (Some (FlushInterval r1)) (stopTicker r1) r1)).

(** ** Specification *)

(** The sum of the stored values, which [TotalStoredCount] is meant to cache. *)
Definition stored_sum (r : RateLimiter) : Z := map_sum Value (Store r).

(** What the store holds at a key before [updateCurrentKey] resets it. *)
Definition value_at (key : string) (r : RateLimiter) : Z :=
  from_option Value 0 (Store r !! key).

(** The difference between the cached sum and the sum. *)
Definition drift (r : RateLimiter) : Z := TotalStoredCount r - stored_sum r.

(** ** Accounting of the store *)

Lemma drift_set_counts total synced current r :
  drift (set_counts total synced current r) = total - stored_sum r.
Proof. done. Qed.

Lemma stored_sum_set_store k s r :
  stored_sum (set_store k s r) = map_sum Value s.
Proof. done. Qed.

(** [updateCurrentKey] resets the value at the new key without telling
    [TotalStoredCount]. *)
Lemma update_drift t1 t2 r :
  drift (updateCurrentKey t1 t2 r)
  = drift r + value_at (time_key (BaseKey r) t1 (Interval r)) r.
Proof.
  unfold drift, updateCurrentKey, Store_Set, value_at.
  rewrite stored_sum_set_store, map_sum_overwrite. unfold stored_sum. simpl. lia.
Qed.

(** Which entries [purgeExpiredKeys] removes. *)
Definition expired (now : string -> Z) (r : RateLimiter) (key : string)
    (item : StoreItem) : bool :=
  negb (String.eqb key (currentKey r)) && (0 <? now key - TTL item).

Lemma purge_one_drift now r key item :
  Store r !! key = Some item ->
  drift (purge_one now r (key, item)) ≡64 drift r.
Proof.
  intros Hk. simpl. destruct (_ && _); [| done].
  rewrite drift_set_counts, stored_sum_set_store, add_not_pred.
  rewrite (map_sum_delete _ _ _ item Hk), sub64_eq64.
  apply (eq64_shift _ _ 0). unfold drift, stored_sum. lia.
Qed.

Lemma purge_one_key now r e : currentKey (purge_one now r e) = currentKey r.
Proof. destruct e as [key item]. simpl. by destruct (_ && _). Qed.

Lemma purge_one_current now r e : currentCount (purge_one now r e) = currentCount r.
Proof. destruct e as [key item]. simpl. by destruct (_ && _). Qed.

Lemma expired_purge_one now r e k item :
  expired now (purge_one now r e) k item = expired now r k item.
Proof. unfold expired. by rewrite purge_one_key. Qed.

Lemma purge_one_lookup now r key item k :
  Store r !! key = Some item ->
  Store (purge_one now r (key, item)) !! k
  = if decide (k = key) then (if expired now r key item then None else Some item)
    else Store r !! k.
Proof.
  intros Hk. unfold purge_one, expired. destruct (_ && _); simpl; case_decide as Hd.
  - subst k. apply lookup_delete_eq.
  - by apply lookup_delete_ne.
  - by subst.
  - done.
Qed.

(** The entries still to be visited are in the store: what [range] maintains. *)
Definition visits (order : list (string * StoreItem)) (s : gmap string StoreItem) : Prop :=
  NoDup order.*1 /\ forall key item, (key, item) ∈ order -> s !! key = Some item.

Lemma visits_order order s : order ≡ₚ map_to_list s -> visits order s.
Proof.
  intros Hp. split.
  - rewrite Hp. apply NoDup_fst_map_to_list.
  - intros key item. rewrite Hp. apply elem_of_map_to_list.
Qed.

Lemma visits_purge_one now r key item order :
  visits ((key, item) :: order) (Store r) ->
  Store r !! key = Some item /\
  visits order (Store (purge_one now r (key, item))).
Proof.
  intros [Hnd Hin]. simpl in Hnd. apply list.NoDup_cons in Hnd as [Hk Hnd].
  assert (Store r !! key = Some item) as Hit by (apply Hin; left).
  split; [done |]. split; [done |]. intros k2 i2 H2.
  rewrite purge_one_lookup by done. rewrite decide_False.
  - apply Hin. by right.
  - intros ->. apply Hk. by apply (list_elem_of_fmap_2 fst _ (key, i2)).
Qed.

Lemma purge_drift now order r :
  visits order (Store r) -> drift (purgeExpiredKeys now order r) ≡64 drift r.
Proof.
  revert r. induction order as [| [key item] order IH]; intros r Hv; [done |].
  apply (visits_purge_one now) in Hv as [Hk Hv]. cbn [purgeExpiredKeys foldl].
  etransitivity; [by apply IH | by apply purge_one_drift].
Qed.

Lemma purge_key now order r :
  currentKey (purgeExpiredKeys now order r) = currentKey r.
Proof.
  revert r. induction order as [| e order IH]; intros r; [done |].
  cbn [purgeExpiredKeys foldl]. unfold purgeExpiredKeys in IH.
  rewrite IH. apply purge_one_key.
Qed.

Lemma purge_current now order r :
  currentCount (purgeExpiredKeys now order r) = currentCount r.
Proof.
  revert r. induction order as [| e order IH]; intros r; [done |].
  cbn [purgeExpiredKeys foldl]. unfold purgeExpiredKeys in IH.
  rewrite IH. apply purge_one_current.
Qed.

Lemma purge_lookup now order r k :
  visits order (Store r) ->
  Store (purgeExpiredKeys now order r) !! k
  = match Store r !! k with
    | Some item =>
        if bool_decide (k ∈ order.*1) && expired now r k item then None else Some item
    | None => None
    end.
Proof.
  revert r. induction order as [| [key item] order IH]; intros r Hv.
  { cbn. by destruct (Store r !! k). }
  apply (visits_purge_one now) in Hv as [Hk Hv]. cbn [purgeExpiredKeys foldl].
  unfold purgeExpiredKeys in IH. rewrite IH, purge_one_lookup by done.
  destruct (decide (k = key)) as [-> | Hne].
  - rewrite Hk, (bool_decide_eq_true_2 (key ∈ ((key, item) :: order).*1)) by left.
    destruct (expired now r key item) eqn:He; [done |].
    by rewrite expired_purge_one, He, andb_false_r.
  - destruct (Store r !! k) as [i2 |]; [| done]. rewrite expired_purge_one.
    assert (k ∈ ((key, item) :: order).*1 <-> k ∈ order.*1) as Hiff.
    { cbn. rewrite elem_of_cons. intuition congruence. }
    by rewrite (bool_decide_ext _ _ Hiff).
Qed.

(** A complete iteration: exactly the unexpired entries stay. *)
Lemma purge_lookup_all now order r k :
  order ≡ₚ map_to_list (Store r) ->
  Store (purgeExpiredKeys now order r) !! k
  = match Store r !! k with
    | Some item => if expired now r k item then None else Some item
    | None => None
    end.
Proof.
  intros Hp. rewrite purge_lookup by by apply visits_order.
  destruct (Store r !! k) as [item |] eqn:Hk; [| done].
  rewrite bool_decide_eq_true_2; [done |].
  rewrite Hp. apply (list_elem_of_fmap_2 fst _ (k, item)).
  by apply elem_of_map_to_list.
Qed.

(** [Flush] moves the count into the store, and adds the whole new value of
    the key, not the count, to the cached sum. *)
Lemma flush_drift r :
  is_Some (Store r !! currentKey r) ->
  drift (Flush r) ≡64 drift r + value_at (currentKey r) r.
Proof.
  intros [item Hk]. unfold Flush, flush_swap, flush_store, Store_Get, Store_Set.
  cbn -[drift map_sum]. rewrite Hk. rewrite drift_set_counts, stored_sum_set_store.
  rewrite map_sum_overwrite. cbn -[map_sum]. unfold value_at. rewrite Hk. simpl.
  rewrite !add64_eq64. apply (eq64_shift _ _ 0). unfold drift, stored_sum. lia.
Qed.

Lemma flush_none r :
  Store r !! currentKey r = None ->
  Flush r = set_counts (TotalStoredCount r) (syncedCount r) 0 r.
Proof. intros Hk. unfold Flush, flush_store, Store_Get. simpl. by rewrite Hk. Qed.

Lemma update_current_value t1 t2 r :
  value_at (currentKey (updateCurrentKey t1 t2 r)) (updateCurrentKey t1 t2 r) = 0.
Proof. unfold value_at, updateCurrentKey, Store_Set. simpl. by rewrite lookup_insert_eq. Qed.

Lemma update_current_in t1 t2 r :
  is_Some (Store (updateCurrentKey t1 t2 r) !! currentKey (updateCurrentKey t1 t2 r)).
Proof. unfold updateCurrentKey, Store_Set. simpl. rewrite lookup_insert_eq. eauto. Qed.

(** The current key is never purged. *)
Lemma purge_keeps_current now order r :
  order ≡ₚ map_to_list (Store r) ->
  Store (purgeExpiredKeys now order r) !! currentKey r = Store r !! currentKey r.
Proof.
  intros Hp. rewrite purge_lookup_all by done.
  destruct (Store r !! currentKey r); [| done].
  unfold expired. by rewrite String.eqb_refl.
Qed.

Lemma purge_value_at now order r :
  order ≡ₚ map_to_list (Store r) ->
  value_at (currentKey r) (purgeExpiredKeys now order r) = value_at (currentKey r) r.
Proof. intros Hp. unfold value_at. by rewrite purge_keeps_current. Qed.

(** [stored_sum] and [TotalStoredCount] across the second half of [Flush]. *)
Lemma flush_store_sum c r :
  is_Some (Store r !! currentKey r) ->
  stored_sum (flush_store c r) ≡64 stored_sum r + c.
Proof.
  intros [item Hk]. unfold flush_store, Store_Get, Store_Set. rewrite Hk.
  unfold stored_sum at 1. cbn -[map_sum]. rewrite map_sum_overwrite, Hk. cbn -[map_sum].
  rewrite add64_eq64. apply (eq64_shift _ _ 0). unfold stored_sum. lia.
Qed.

Lemma flush_store_total c r :
  is_Some (Store r !! currentKey r) ->
  TotalStoredCount (flush_store c r)
  ≡64 TotalStoredCount r + value_at (currentKey r) r + c.
Proof.
  intros [item Hk]. unfold flush_store, Store_Get, Store_Set, value_at. rewrite Hk.
  simpl. rewrite !add64_eq64. apply (eq64_shift _ _ 0). lia.
Qed.

Lemma flush_store_current c r : currentCount (flush_store c r) = currentCount r.
Proof. unfold flush_store. by destruct (Store_Get _ _). Qed.

Lemma flush_store_key c r :
  currentKey (flush_store c r) = currentKey r /\
  (is_Some (Store r !! currentKey r) ->
   is_Some (Store (flush_store c r) !! currentKey r)).
Proof.
  unfold flush_store, Store_Get, Store_Set. split.
  - by destruct (Store r !! _).
  - intros [item Hk]. rewrite Hk. simpl. rewrite lookup_insert_eq. eauto.
Qed.

Section Tick.
  Context (t1 t2 : Z) (now : string -> Z) (order : list (string * StoreItem)).
  Context (r : RateLimiter).
  Context (Horder : order ≡ₚ map_to_list (Store (updateCurrentKey t1 t2 r))).

Lemma tick_before_flush :
    currentKey (purgeExpiredKeys now order (updateCurrentKey t1 t2 r))
      = time_key (BaseKey r) t1 (Interval r) /\
    is_Some (Store (purgeExpiredKeys now order (updateCurrentKey t1 t2 r))
              !! time_key (BaseKey r) t1 (Interval r)) /\
    value_at (time_key (BaseKey r) t1 (Interval r))
      (purgeExpiredKeys now order (updateCurrentKey t1 t2 r)) = 0.
  Proof.
    change (time_key (BaseKey r) t1 (Interval r))
      with (currentKey (updateCurrentKey t1 t2 r)).
    split; [apply purge_key |]. split.
    - rewrite purge_keeps_current by done. apply update_current_in.
    - rewrite purge_value_at by done. apply update_current_value.
  Qed.

(** C30. One firing of the ticker moves [TotalStoredCount] away from the sum
      of the store by exactly the value the store already held at the new key:
      the cache is kept when the key is fresh, and drifts when two firings
      fall into the same interval. *)
Theorem tick_drift :
    drift (tick t1 t2 now order r)
    ≡64 drift r + value_at (time_key (BaseKey r) t1 (Interval r)) r.
  Proof using Horder.
    destruct tick_before_flush as (Hkey & Hin & Hval). unfold tick.
    rewrite flush_drift by (by rewrite Hkey). rewrite Hkey, Hval, Z.add_0_r.
    rewrite purge_drift by (by apply visits_order). by rewrite update_drift.
  Qed.

Lemma tick_lookup k :
    Store (tick t1 t2 now order r) !! k
    = if decide (k = time_key (BaseKey r) t1 (Interval r)) then
        Some {| Value := u64 (currentCount r);
                TTL := t2 + i64 (StoreMultiplier r * FlushInterval r) |}
      else match Store r !! k with
           | Some item => if now k <=? TTL item then Some item else None
           | None => None
           end.
  Proof using Horder.
    destruct tick_before_flush as (Hkey & _ & _).
    assert (Store (purgeExpiredKeys now order (updateCurrentKey t1 t2 r))
              !! time_key (BaseKey r) t1 (Interval r)
            = Some {| Value := 0;
                      TTL := t2 + i64 (StoreMultiplier r * FlushInterval r) |}) as Hin.
    { rewrite <- Hkey, purge_key, purge_keeps_current by done.
      unfold updateCurrentKey, Store_Set. apply lookup_insert_eq. }
    unfold tick, Flush, flush_store, flush_swap, Store_Get, Store_Set.
    cbn -[purgeExpiredKeys updateCurrentKey]. rewrite Hkey, Hin, purge_current.
    cbn -[purgeExpiredKeys updateCurrentKey]. case_decide as Hk.
    - subst k. by rewrite lookup_insert_eq.
    - rewrite lookup_insert_ne by done. rewrite purge_lookup_all by done.
      unfold updateCurrentKey, Store_Set, expired. cbn -[time_key].
      rewrite lookup_insert_ne by done. destruct (Store r !! k) as [i2 |]; [| done].
      rewrite (proj2 (String.eqb_neq k _)) by done. simpl.
      destruct (Z.ltb_spec 0 (now k - TTL i2)), (Z.leb_spec (now k) (TTL i2)); done || lia.
  Qed.

Lemma tick_current :
    currentCount (tick t1 t2 now order r) = 0 /\
    currentKey (tick t1 t2 now order r) = time_key (BaseKey r) t1 (Interval r).
  Proof using Horder.
    destruct tick_before_flush as (Hkey & _ & _). unfold tick, Flush.
    cbn -[purgeExpiredKeys updateCurrentKey flush_store].
    rewrite flush_store_current. split; [done |].
    by rewrite (proj1 (flush_store_key _ _)).
  Qed.

(** After a firing the count is empty, the current key is the key of
      the clock and is stored with the whole count, and every other stored
      entry was stored before and has not expired. *)
Theorem tick_store :
    currentCount (tick t1 t2 now order r) = 0 /\
    currentKey (tick t1 t2 now order r) = time_key (BaseKey r) t1 (Interval r) /\
    (exists item, Store (tick t1 t2 now order r)
                    !! time_key (BaseKey r) t1 (Interval r) = Some item /\
                  Value item = u64 (currentCount r)) /\
    forall k item,
      k <> time_key (BaseKey r) t1 (Interval r) ->
      Store (tick t1 t2 now order r) !! k = Some item <->
      Store r !! k = Some item /\ now k <= TTL item.
  Proof using Horder.
    destruct tick_current as [Hc Hk]. split_and!; [done.. | |].
    - eexists. rewrite tick_lookup, decide_True by done. by split.
    - intros k item Hne. rewrite tick_lookup, decide_False by done.
      destruct (Store r !! k) as [i2 |]; [| naive_solver].
      destruct (Z.leb_spec (now k) (TTL i2)); naive_solver lia.
  Qed.
End Tick.

(** [Stop] flushes the key that is already stored: the cached sum ends up
    too large by the whole value stored at the current key before. *)
Theorem stop_drift r r' :
  Stop r = Ret r' ->
  is_Some (Store r !! currentKey r) ->
  drift r' ≡64 drift r + value_at (currentKey r) r.
Proof.
  unfold Stop. destruct (stopTicker r); [done |]. intros [= <-] Hk.
  by rewrite flush_drift.
Qed.

(** ** The ticker goroutine interleaved with the goroutines that count

    Target connectors call [Increment] at any moment, also between the atomic
    swap of [Flush] and the store that follows.  The state carries the program
    counter of the ticker goroutine and three ghost sums. *)
Inductive ticker_pc :=
  | Waiting                    (* blocked in select *)
  | Purged                     (* updateCurrentKey and purgeExpiredKeys done *)
  | Swapped (flushCount : Z).  (* inside Flush, count taken, not yet stored *)

Record lim_state := {
  lim : RateLimiter;
  pc : ticker_pc;
  incremented : Z;   (* all deltas passed to Increment *)
  purged_sum : Z;    (* all values removed by purgeExpiredKeys *)
  overwritten : Z;   (* all values reset by updateCurrentKey *)
}.

Definition pending (s : lim_state) : Z :=
  match pc s with Swapped c => c | _ => 0 end.

Inductive lim_step : lim_state -> lim_state -> Prop :=
  | StepIncrement s delta :
      lim_step s
        {| lim := Increment delta (lim s); pc := pc s;
           incremented := incremented s + delta;
           purged_sum := purged_sum s; overwritten := overwritten s |}
  | StepTick s t1 t2 now order :
      pc s = Waiting ->
      let r1 := updateCurrentKey t1 t2 (lim s) in
      let r2 := purgeExpiredKeys now order r1 in
      order ≡ₚ map_to_list (Store r1) ->
      lim_step s
        {| lim := r2; pc := Purged; incremented := incremented s;
           purged_sum := purged_sum s + (stored_sum r1 - stored_sum r2);
           overwritten := overwritten s + value_at (currentKey r1) (lim s) |}
  | StepSwap s :
      pc s = Purged ->
      lim_step s
        {| lim := (flush_swap (lim s)).2; pc := Swapped (flush_swap (lim s)).1;
           incremented := incremented s;
           purged_sum := purged_sum s; overwritten := overwritten s |}
  | StepStore s c :
      pc s = Swapped c ->
      lim_step s
        {| lim := flush_store c (lim s); pc := Waiting;
           incremented := incremented s;
           purged_sum := purged_sum s; overwritten := overwritten s |}.

(** A limiter whose [Init] succeeded, before its goroutine first runs. *)
Definition lim_start (s : lim_state) : Prop :=
  exists base limit interval flush mult t1 t2,
    Init t1 t2 (New base limit interval flush mult) = Ret (inr (lim s)) /\
    pc s = Waiting /\ incremented s = 0 /\ purged_sum s = 0 /\ overwritten s = 0.

Definition lim_reachable (s : lim_state) : Prop :=
  exists s0, lim_start s0 /\ rtc lim_step s0 s.

Definition lim_inv (s : lim_state) : Prop :=
  incremented s ≡64 currentCount (lim s) + pending s + stored_sum (lim s)
                    + purged_sum s + overwritten s /\
  TotalStoredCount (lim s) ≡64 stored_sum (lim s) + overwritten s /\
  (pc s <> Waiting -> value_at (currentKey (lim s)) (lim s) = 0) /\
  is_Some (Store (lim s) !! currentKey (lim s)).

Lemma lim_inv_start s : lim_start s -> lim_inv s.
Proof.
  intros (base & limit & interval & flush & mult & t1 & t2 & Hi & Hpc & H1 & H2 & H3).
  unfold Init in Hi. destruct (_ <? Millisecond); [done |].
  destruct (_ <=? 0); [done |]. injection Hi as Hs.
  unfold lim_inv, pending, stored_sum. rewrite Hpc, H1, H2, H3, <- Hs.
  cbn -[map_sum time_key Store_Set]. unfold Store_Set.
  rewrite map_sum_overwrite, map_sum_empty, lookup_empty, lookup_insert_eq.
  cbn. split_and!; done.
Qed.

Lemma purge_total_sum now order r :
  visits order (Store r) ->
  TotalStoredCount (purgeExpiredKeys now order r)
  ≡64 TotalStoredCount r + stored_sum (purgeExpiredKeys now order r) - stored_sum r.
Proof.
  intros Hv. pose proof (purge_drift now order r Hv) as Hd. unfold drift in Hd.
  set (T' := TotalStoredCount (purgeExpiredKeys now order r)) in *.
  set (S' := stored_sum (purgeExpiredKeys now order r)) in *.
  replace T' with ((T' - S') + S') by lia. rewrite Hd.
  apply (eq64_shift _ _ 0). lia.
Qed.

Lemma lim_inv_tick s t1 t2 now order :
  lim_inv s -> pc s = Waiting ->
  order ≡ₚ map_to_list (Store (updateCurrentKey t1 t2 (lim s))) ->
  lim_inv
    {| lim := purgeExpiredKeys now order (updateCurrentKey t1 t2 (lim s));
       pc := Purged; incremented := incremented s;
       purged_sum := purged_sum s +
         (stored_sum (updateCurrentKey t1 t2 (lim s)) -
          stored_sum (purgeExpiredKeys now order (updateCurrentKey t1 t2 (lim s))));
       overwritten := overwritten s +
         value_at (currentKey (updateCurrentKey t1 t2 (lim s))) (lim s) |}.
Proof.
  intros (Hinc & Htot & _ & _) Hpc Hp.
  destruct (tick_before_flush t1 t2 now order (lim s) Hp) as (Hkey & Hin & Hval).
  pose proof (update_drift t1 t2 (lim s)) as Hd. unfold drift in Hd.
  unfold lim_inv, pending in *. rewrite Hpc in Hinc.
  cbn -[purgeExpiredKeys updateCurrentKey] in *. rewrite Hkey. split_and!; [| | done..].
  - rewrite purge_current, Hinc. apply (eq64_shift _ _ 0).
    cbn -[purgeExpiredKeys value_at] in *. lia.
  - rewrite purge_total_sum by by apply visits_order.
    cbn -[purgeExpiredKeys value_at stored_sum time_key] in *. rewrite Htot.
    apply (eq64_shift _ _ 0). lia.
Qed.

Lemma lim_inv_step s s' : lim_step s s' -> lim_inv s -> lim_inv s'.
Proof.
  intros Hstep Hinv. destruct Hstep as [s delta | s t1 t2 now order Hpc r1 r2 Hp | s Hpc | s c Hpc].
  - destruct Hinv as (Hinc & Htot & Hval & Hin). split_and!; [| done..].
    unfold pending in *. simpl. rewrite add64_eq64, Hinc. apply (eq64_shift _ _ 0).
    unfold stored_sum. simpl. lia.
  - by apply lim_inv_tick.
  - destruct Hinv as (Hinc & Htot & Hval & Hin). rewrite Hpc in Hval.
    split_and!; try done.
    + unfold pending in *. rewrite Hpc in Hinc. simpl in *. rewrite Hinc.
      apply (eq64_shift _ _ 0). unfold stored_sum. simpl. lia.
    + intros _. by apply Hval.
  - destruct Hinv as (Hinc & Htot & Hval & Hin). rewrite Hpc in Hval.
    destruct (flush_store_key c (lim s)) as [Hk Hin'].
    split_and!; cbn -[flush_store stored_sum].
    + unfold pending in *. rewrite Hpc in Hinc. cbn -[flush_store stored_sum].
      rewrite flush_store_current, flush_store_sum, Hinc by done.
      apply (eq64_shift _ _ 0). lia.
    + rewrite flush_store_total, flush_store_sum, Htot, Hval by done.
      apply (eq64_shift _ _ 0). lia.
    + done.
    + rewrite Hk. by apply Hin'.
Qed.

(** C24. No increment is lost or counted twice, however calls of [Increment]
    interleave with the atomic operations of a flush: modulo 2^64 the deltas
    are the live count, a count being flushed, the stored values, the purged
    values and the values overwritten by a repeated key; and
    [TotalStoredCount] exceeds the sum of the store by exactly the
    overwritten values. *)
Theorem limiter_conservation s :
  lim_reachable s ->
  incremented s ≡64 currentCount (lim s) + pending s + stored_sum (lim s)
                    + purged_sum s + overwritten s /\
  TotalStoredCount (lim s) ≡64 stored_sum (lim s) + overwritten s.
Proof.
  intros (s0 & Hs0 & Hrun).
  assert (lim_inv s) as (Hinc & Htot & _ & _); [| done].
  apply lim_inv_start in Hs0. revert Hs0.
  induction Hrun as [| x y z Hxy _ IH]; eauto using lim_inv_step.
Qed.

(** ** The verdicts *)

(** When the cached sum is right and nothing overflows, the average is
    over the limit exactly when the stored values and the live count reach
    [limit + 1] per window, the live window included; the excess is positive
    when over the limit and wraps around below zero when not. *)
Theorem average_over_limit r :
  is_u64 (Limit r) -> 0 <= currentCount r ->
  TotalStoredCount r = stored_sum r ->
  0 <= stored_sum r + currentCount r < pow64 ->
  Store_Len (Store r) + 1 < pow64 ->
  let '(excess, mean, over) := IsAverageOverLimit r in
  (over = true <->
     (Limit r + 1) * (Store_Len (Store r) + 1) <= stored_sum r + currentCount r) /\
  (over = true -> excess = mean - Limit r /\ 0 < excess < pow64) /\
  (over = false -> excess = 0 /\ mean = Limit r \/ excess = pow64 - (Limit r - mean)).
Proof.
  intros Hl Hc Ht Hs Hlen. unfold IsAverageOverLimit, add64.
  rewrite Ht, u64_small by done. unfold Store_Len in *. rewrite (u64_small (_ + 1)) by (split; lia).
  set (n := Z.of_nat (size (Store r)) + 1) in *. set (s := stored_sum r + currentCount r) in *.
  assert (0 < n) as Hn by lia.
  assert (0 <= s / n <= s) as Hm.
  { split; [apply Z.div_pos; lia |]. apply Z.div_le_upper_bound; nia. }
  assert (is_u64 (s / n)) as Hu by (unfold is_u64 in *; lia).
  pose proof (Z.mul_div_le s n Hn). pose proof (Z.mul_succ_div_gt s n Hn).
  unfold is_u64 in *.
  destruct (Z.ltb_spec (Limit r) (s / n)) as [Hlt | Hge]; split_and!; try done.
  - split; [intros _; nia | done].
  - intros _. rewrite u64_sub_pos by (unfold is_u64; lia). lia.
  - split; [done | intros]. nia.
  - intros _. destruct (decide (s / n = Limit r)) as [-> |].
    + left. rewrite u64_sub_pos by (unfold is_u64; lia). lia.
    + right. rewrite u64_sub_neg by (unfold is_u64; lia). lia.
Qed.

(** A limiter whose [Init] failed (an interval below a millisecond, for
    example a period that did not parse) never forgets: no [Flush] runs, and
    its average is the sum of all the bytes ever counted, so once that sum
    exceeds the limit every later check is over the limit. *)
Theorem uninitialised_never_recovers base limit interval flush mult deltas :
  is_u64 limit -> interval < Millisecond ->
  Forall (fun d => 0 <= d) deltas ->
  0 <= foldr Z.add 0 deltas < pow64 ->
  let r0 := New base limit interval flush mult in
  (forall t1 t2, Init t1 t2 r0 = Ret (inl "minimum interval is 1 millisecond")) /\
  (IsAverageOverLimit (foldl (flip Increment) r0 deltas)).2
  = (limit <? foldr Z.add 0 deltas).
Proof.
  intros Hl Hi Hpos Hsum r0. split.
  { intros. unfold Init. simpl. by rewrite (proj2 (Z.ltb_lt _ _) Hi). }
  assert (forall r, Store r = ∅ -> TotalStoredCount r = 0 -> 0 <= currentCount r ->
    currentCount r + foldr Z.add 0 deltas < pow64 ->
    let r' := foldl (flip Increment) r deltas in
    Store r' = ∅ /\ TotalStoredCount r' = 0 /\ Limit r' = Limit r /\
    currentCount r' = currentCount r + foldr Z.add 0 deltas) as Hrun.
  { clear Hsum. induction Hpos as [| d ds Hd Hds IH]; simpl; intros r Hs Ht Hc Hb.
    { split_and!; try done. lia. }
    assert (0 <= foldr Z.add 0 ds) by (clear -Hds; induction Hds; simpl; lia).
    destruct (IH (Increment d r)) as (E1 & E2 & E3 & E4); simpl;
      unfold add64; rewrite ?u64_small by (split; lia); try done; try lia.
    change (flip Increment r d) with (Increment d r).
    split_and!; try done. rewrite E4. simpl. unfold add64.
    rewrite u64_small by (split; lia). lia. }
  destruct (Hrun r0) as (E1 & E2 & E3 & E4); try done; try (simpl; lia).
  unfold IsAverageOverLimit, add64, Store_Len. rewrite E1, E2, E3, E4, map_size_empty.
  change (u64 (Z.of_nat 0 + 1)) with 1. change (currentCount r0) with 0.
  change (Limit r0) with limit.
  rewrite !Z.add_0_l, (u64_small (foldr _ _ _)), Z.div_1_r by done.
  by destruct (_ <? _).
Qed.

(** ** Concrete runs *)

(** 2019-05-28 in nanoseconds, a limiter of 20 bytes per second over ten
    seconds, and the same limiter after one flushed batch of 30 bytes. *)
Definition demo_time : Z := 1559000000000000000.
Definition second : Z := 1000000000.
Definition demo_new : RateLimiter := New "target" 20 second second 10.
Definition demo_ready : RateLimiter :=
  match Init demo_time demo_time demo_new with Ret (inr r) => r | _ => demo_new end.
Definition demo_flushed : RateLimiter := Flush (Increment 30 demo_ready).
Definition demo_order (t : Z) (r : RateLimiter) : list (string * StoreItem) :=
  map_to_list (Store (updateCurrentKey t t r)).

(** Two firings in one interval: the cached sum drifts by the 30 bytes. *)
Lemma tick_drift_witness :
  value_at (time_key (BaseKey demo_flushed) (demo_time + 1) (Interval demo_flushed))
    demo_flushed = 30 /\
  drift (tick (demo_time + 1) (demo_time + 1) (fun _ => demo_time)
           (demo_order (demo_time + 1) demo_flushed) demo_flushed)
  ≡64 drift demo_flushed
      + value_at (time_key (BaseKey demo_flushed) (demo_time + 1) (Interval demo_flushed))
          demo_flushed.
Proof.
  split; [by vm_compute |].
  apply (tick_drift (demo_time + 1) (demo_time + 1) (fun _ => demo_time)
           (demo_order (demo_time + 1) demo_flushed) demo_flushed).
  unfold demo_order. reflexivity.
Defined.

Lemma tick_store_witness :
  let r := Increment 7 demo_flushed in
  let t := demo_time + second in
  currentCount (tick t t (fun _ => t) (demo_order t r) r) = 0 /\
  Store_Len (Store (tick t t (fun _ => t) (demo_order t r) r)) = 2.
Proof.
  intros r t. split; [| by vm_compute].
  apply (tick_store t t (fun _ => t) (demo_order t r) r). unfold demo_order. reflexivity.
Defined.

Lemma stop_drift_witness :
  exists r', Stop demo_flushed = Ret r' /\
    value_at (currentKey demo_flushed) demo_flushed = 30 /\
    drift r' ≡64 drift demo_flushed + value_at (currentKey demo_flushed) demo_flushed.
Proof.
  assert (Stop demo_flushed = Ret (Flush (set_ticker (ticker demo_flushed) true demo_flushed)))
    as Hstop.
  { unfold Stop. replace (stopTicker demo_flushed) with false by by vm_compute. done. }
  eexists. split; [exact Hstop |]. split; [by vm_compute |].
  apply (stop_drift demo_flushed); [exact Hstop |]. eexists. by vm_compute.
Defined.

(** A run in which an increment arrives between the swap and the store. *)
Definition demo_state0 : lim_state :=
  {| lim := demo_ready; pc := Waiting; incremented := 0; purged_sum := 0;
     overwritten := 0 |}.

Lemma limiter_conservation_witness :
  exists s, lim_reachable s /\ pc s = Swapped 5 /\ currentCount (lim s) = 3 /\
    incremented s ≡64 currentCount (lim s) + pending s + stored_sum (lim s)
                      + purged_sum s + overwritten s /\
    TotalStoredCount (lim s) ≡64 stored_sum (lim s) + overwritten s.
Proof.
  set (t := demo_time + second).
  assert (exists s, lim_reachable s /\ pc s = Swapped 5 /\ currentCount (lim s) = 3)
    as (s & Hr & Hpc & Hc).
  { eexists. split.
    - exists demo_state0. split.
      { exists "target", 20, second, second, 10, demo_time, demo_time.
        split; [by vm_compute | done]. }
      eapply rtc_l; [apply (StepIncrement _ 5) |].
      eapply rtc_l; [apply (StepTick _ t t (fun _ => t) (demo_order t (Increment 5 demo_ready)));
                     [done | unfold demo_order; reflexivity] |].
      eapply rtc_l; [apply StepSwap; done |].
      eapply rtc_l; [apply (StepIncrement _ 3) |]. apply rtc_refl.
    - split; by vm_compute. }
  exists s. split_and!; try done; by apply limiter_conservation.
Defined.

Lemma average_over_limit_witness :
  let r := Increment 10 demo_flushed in
  (IsAverageOverLimit r = (0, 20, false)) /\
  (let '(excess, mean, over) := IsAverageOverLimit r in
   (over = true <->
      (Limit r + 1) * (Store_Len (Store r) + 1) <= stored_sum r + currentCount r) /\
   (over = true -> excess = mean - Limit r /\ 0 < excess < pow64) /\
   (over = false -> excess = 0 /\ mean = Limit r \/ excess = pow64 - (Limit r - mean))).
Proof.
  intros r. split; [by vm_compute |].
  apply (average_over_limit r); vm_compute; split || idtac; congruence || done.
Defined.

Lemma uninitialised_never_recovers_witness :
  let r0 := New "target" 20 0 0 10 in
  (forall t1 t2, Init t1 t2 r0 = Ret (inl "minimum interval is 1 millisecond")) /\
  (IsAverageOverLimit (foldl (flip Increment) r0 [15; 6])).2 = true.
Proof.
  apply (uninitialised_never_recovers "target" 20 0 0 10 [15; 6]).
  - by vm_compute.
  - by vm_compute.
  - repeat constructor; done.
  - by vm_compute.
Defined.
