(* ===== verification/LimiterTime.v ===== *)
(** * The rate limiter over time

    How far the double arithmetic of [updateCurrentKey] can be from the exact
    interval index, that distinct indices give distinct keys, and how many
    windows the store can hold when the ticker fires once per period. *)
From S2P Require Import Prelude Floats Limiter.

(** The interval a time falls into, in exact arithmetic. *)
Definition exact_index (now ns : Z) : Z := now / ns.

(** C37. For every time before the year 2262 and every interval that [Init]
    accepts, the index computed in doubles is within one of the exact index,
    and it is exact when the clock value fits 53 bits. *)
Theorem time_index_within_one now ns :
  0 <= now < 2 ^ 63 -> Millisecond <= ns < 2 ^ 53 ->
  ns <= now ->
  Z.abs (time_index now ns - exact_index now ns) <= 1 /\
  (now < 2 ^ 53 -> time_index now ns = exact_index now ns).
Proof.
  unfold exact_index. intros Hnow Hns Hle. unfold Millisecond in Hns. unfold time_index.
  rewrite (f64_of_Z_exact ns) by lia.
  pose proof (f64_of_Z_error now ltac:(lia)) as Ha.
  assert (ns <= f64_of_Z now) as Hna.
  { destruct (Z.lt_ge_cases now (2 ^ 53)); [rewrite f64_of_Z_exact by lia; lia |]. lia. }
  unfold f64_div_floor. destruct (Z.leb_spec (f64_of_Z now) 0); [lia |].
  destruct (f64_floor_bounds (f64_of_Z now) ns ltac:(lia) Hna) as [Hu Hlo].
  set (F := f64_floor _) in *. set (A := f64_of_Z now) in *.
  pose proof (Z.mul_div_le now ns ltac:(lia)).
  pose proof (Z.mul_succ_div_gt now ns ltac:(lia)).
  set (q := now / ns) in *.
  assert (ns * F < now + ns) as Hup by lia.
  assert (now < ns * (F + 1) + ns) as Hdown by lia.
  assert (q - 1 <= F <= q + 1) as Hq by nia.
  assert (0 <= F) as HF by nia. assert (F < pow64) as HF2 by (unfold pow64; nia).
  rewrite u64_small by done. split; [lia |]. intros Hsm.
  assert (A = now) as E by (apply f64_of_Z_exact; lia).
  pose proof (f64_floor_ge A ns ltac:(lia) Hna ltac:(lia)) as Hge.
  fold F in Hge. rewrite E in Hge, Hu. fold q in Hge. nia.
Qed.

(** Keys of distinct indices are distinct. *)
Lemma time_key_inj base t t' ns ns' :
  time_key base t ns = time_key base t' ns' -> time_index t ns = time_index t' ns'.
Proof.
  unfold time_key. intros H. apply (inj (String.append base)) in H.
  apply (inj (String.append ":")) in H. by apply (inj pretty) in H.
Qed.

(** ** How many windows are stored *)

(** Integers at least [F > 0] apart in an interval of length [M * F]. *)
Lemma spaced_bound (F M a : Z) (l : list Z) :
  0 < F -> 0 <= M -> NoDup l ->
  (forall x, x ∈ l -> a <= x <= a + M * F) ->
  (forall x y, x ∈ l -> y ∈ l -> x <> y -> F <= Z.abs (x - y)) ->
  Z.of_nat (length l) <= M + 1.
Proof.
  intros HF HM Hnd Hin Hsp. set (f x := (x - a) / F).
  assert (NoDup (f <$> l)) as Hf.
  { apply NoDup_fmap_2_strong; [| done]. intros x y Hx Hy Heq.
    destruct (decide (x = y)) as [| Hne]; [done |].
    pose proof (Hsp x y Hx Hy Hne). unfold f in Heq.
    pose proof (Z.div_mod (x - a) F ltac:(lia)). pose proof (Z.div_mod (y - a) F ltac:(lia)).
    pose proof (Z.mod_pos_bound (x - a) F HF). pose proof (Z.mod_pos_bound (y - a) F HF). nia. }
  assert (f <$> l ⊆+ seqZ 0 (M + 1)) as Hsub.
  { apply NoDup_submseteq; [done |]. intros z [x [-> Hx]]%list_elem_of_fmap.
    apply elem_of_seqZ. specialize (Hin x Hx). unfold f. split.
    - apply Z.div_pos; lia.
    - apply Z.div_lt_upper_bound; nia. }
  apply submseteq_length in Hsub. rewrite length_fmap, length_seqZ in Hsub. lia.
Qed.

(** Runs of an initialised limiter whose firings are at least one
    [FlushInterval] apart; [t] is the time of the last expiry computed. *)
Inductive ticking : RateLimiter -> Z -> Prop :=
  | ticking_init base limit interval flush mult t1 t2 r :
      Init t1 t2 (New base limit interval flush mult) = Ret (inr r) ->
      ticking r t2
  | ticking_increment r t d : ticking r t -> ticking (Increment d r) t
  | ticking_tick r t t1 t2 now order :
      ticking r t ->
      t + FlushInterval r <= t2 -> (forall k, t2 <= now k) ->
      order ≡ₚ map_to_list (Store (updateCurrentKey t1 t2 r)) ->
      ticking (tick t1 t2 now order r) t2.

Definition same_config (r r' : RateLimiter) : Prop :=
  FlushInterval r' = FlushInterval r /\ StoreMultiplier r' = StoreMultiplier r.

Lemma purge_config now order r : same_config r (purgeExpiredKeys now order r).
Proof.
  revert r. induction order as [| [k i] order IH]; intros r; [done |].
  cbn [purgeExpiredKeys foldl]. destruct (IH (purge_one now r (k, i))) as [E1 E2].
  unfold purgeExpiredKeys in *. unfold same_config. rewrite E1, E2. simpl.
  by destruct (_ && _).
Qed.

Lemma tick_config t1 t2 now order r : same_config r (tick t1 t2 now order r).
Proof.
  unfold tick, Flush, flush_store. cbn -[purgeExpiredKeys updateCurrentKey].
  pose proof (purge_config now order (updateCurrentKey t1 t2 r)) as [E1 E2].
  case_match; split; simpl; by rewrite ?E1, ?E2.
Qed.

Definition windows_inv (F M t : Z) (r : RateLimiter) : Prop :=
  FlushInterval r = F /\ StoreMultiplier r = M /\
  (forall k i, Store r !! k = Some i -> t <= TTL i <= t + M * F) /\
  (forall k1 k2 i1 i2, Store r !! k1 = Some i1 -> Store r !! k2 = Some i2 ->
     k1 <> k2 -> F <= Z.abs (TTL i1 - TTL i2)).

Lemma i64_small z : 0 <= z < 2 ^ 63 -> i64 z = z.
Proof.
  intros Hz. unfold i64. rewrite u64_small by (unfold is_u64, pow64; lia).
  change (pow64 / 2) with (2 ^ 63). by rewrite (proj2 (Z.ltb_lt z (2 ^ 63))) by lia.
Qed.

Lemma windows_tick F M t t1 t2 now order r :
  0 < F -> 0 <= M -> M * F < 2 ^ 63 ->
  windows_inv F M t r -> t + F <= t2 -> (forall k, t2 <= now k) ->
  order ≡ₚ map_to_list (Store (updateCurrentKey t1 t2 r)) ->
  windows_inv F M t2 (tick t1 t2 now order r).
Proof.
  intros HF HM Hmax (EF & EM & Hr & Hs) Ht Hnow Hord.
  destruct (tick_config t1 t2 now order r) as [E1 E2].
  assert (forall k i, Store (tick t1 t2 now order r) !! k = Some i ->
    (k = time_key (BaseKey r) t1 (Interval r) /\ TTL i = t2 + M * F) \/
    (k <> time_key (BaseKey r) t1 (Interval r) /\ Store r !! k = Some i /\ t2 <= TTL i))
    as Hcase.
  { intros k i. rewrite tick_lookup by done. case_decide as Hk.
    - intros [= <-]. left. simpl. rewrite EM, EF, i64_small by nia. done.
    - destruct (Store r !! k) as [i2 |]; [| done].
      destruct (Z.leb_spec (now k) (TTL i2)); [| done]. intros [= <-].
      right. specialize (Hnow k). split_and!; [done.. | lia]. }
  unfold windows_inv. rewrite E1, E2. split_and!; [done.. | |].
  - intros k i [[_ ->] | (_ & Hi & Hle)]%Hcase; [nia |]. specialize (Hr k i Hi). nia.
  - intros k1 k2 i1 i2 [[-> Hi1] | (Hk1 & Hi1 & Hl1)]%Hcase
      [[-> Hi2] | (Hk2 & Hi2 & Hl2)]%Hcase Hne.
    + done.
    + specialize (Hr k2 i2 Hi2). lia.
    + specialize (Hr k1 i1 Hi1). lia.
    + eauto.
Qed.

Lemma update_lookup t1 t2 r k :
  Store (updateCurrentKey t1 t2 r) !! k
  = if decide (k = time_key (BaseKey r) t1 (Interval r)) then
      Some {| Value := 0; TTL := t2 + i64 (StoreMultiplier r * FlushInterval r) |}
    else Store r !! k.
Proof.
  unfold updateCurrentKey, Store_Set. cbn -[time_key]. case_decide as Hk.
  - subst k. apply lookup_insert_eq.
  - by apply lookup_insert_ne.
Qed.

Lemma ticking_inv r t :
  ticking r t ->
  0 < FlushInterval r -> 0 <= StoreMultiplier r ->
  StoreMultiplier r * FlushInterval r < 2 ^ 63 ->
  windows_inv (FlushInterval r) (StoreMultiplier r) t r.
Proof.
  induction 1 as [base limit interval flush mult t1 t2 r Hi | r t d _ IH
                 | r t t1 t2 now order _ IH Ht Hnow Hord]; intros HF HM Hmax.
  - unfold Init in Hi. destruct (_ <? Millisecond); [done |].
    destruct (_ <=? 0); [done |]. injection Hi as <-.
    split_and!; [done.. | |].
    + intros k i. cbn -[updateCurrentKey Z.mul]. rewrite update_lookup.
      case_decide; [| done]. intros [= <-]. cbn -[Z.mul] in *. rewrite i64_small by nia. nia.
    + intros k1 k2 i1 i2. cbn -[updateCurrentKey Z.mul]. rewrite !update_lookup.
      cbn [Store New]; rewrite !lookup_empty. repeat case_decide; congruence.
  - by apply IH.
  - destruct (tick_config t1 t2 now order r) as [E1 E2]. rewrite E1, E2 in *.
    apply (windows_tick _ _ t); auto.
Qed.

(** C36. When firings are at least one period apart the store holds at most
    [StoreMultiplier + 1] windows, so memory is bounded and the average never
    looks further back. *)
Theorem store_bounded r t :
  ticking r t ->
  0 < FlushInterval r -> 0 <= StoreMultiplier r ->
  StoreMultiplier r * FlushInterval r < 2 ^ 63 ->
  Store_Len (Store r) <= StoreMultiplier r + 1.
Proof.
  intros Hrun HF HM Hmax.
  destruct (ticking_inv r t Hrun HF HM Hmax) as (_ & _ & Hr & Hs). unfold Store_Len.
  rewrite <- length_map_to_list, <- (length_fmap (fun e => TTL e.2)).
  apply (spaced_bound (FlushInterval r) (StoreMultiplier r) t); [done.. | | |].
  - apply NoDup_fmap_2_strong; [| apply NoDup_map_to_list].
    intros [k1 i1] [k2 i2] H1%elem_of_map_to_list H2%elem_of_map_to_list Heq. simpl in Heq.
    destruct (decide (k1 = k2)) as [<- | Hne]; [by simplify_eq |].
    specialize (Hs k1 k2 i1 i2 H1 H2 Hne). lia.
  - intros x ([k i] & -> & Hin%elem_of_map_to_list)%list_elem_of_fmap. by apply (Hr k).
  - intros x y ([k1 i1] & -> & H1%elem_of_map_to_list)%list_elem_of_fmap
      ([k2 i2] & -> & H2%elem_of_map_to_list)%list_elem_of_fmap Hne.
    apply (Hs k1 k2); [done.. |]. intros ->. simpl in *. congruence.
Qed.

(** ** Concrete runs *)

(** A nanosecond before the second: the double rounds up to the next index. *)
Lemma time_index_within_one_witness :
  let now := demo_time + 999999999 in
  time_index now second = exact_index now second + 1 /\
  Z.abs (time_index now second - exact_index now second) <= 1.
Proof.
  intros now. split; [by vm_compute |].
  apply (time_index_within_one now second); by vm_compute.
Defined.

Lemma store_bounded_witness :
  exists r, ticking r (demo_time + second) /\ Store_Len (Store r) = 2 /\
    Store_Len (Store r) <= StoreMultiplier r + 1.
Proof.
  set (t := demo_time + second).
  set (r := tick t t (fun _ => t) (demo_order t demo_ready) demo_ready).
  assert (ticking r t) as Hr.
  { apply (ticking_tick demo_ready demo_time).
    - by apply (ticking_init "target" 20 second second 10 demo_time).
    - by vm_compute.
    - done.
    - unfold demo_order. reflexivity. }
  exists r. split; [done |]. split; [by vm_compute |].
  apply (store_bounded r t Hr); by vm_compute.
Defined.
