(* ===== verification/Duration.v ===== *)
(** * [time.ParseDuration], which reads the period of a rate limit

    The function of the Go standard library that [src/cmd/run.go] calls; the
    fraction of a number goes through doubles, as it does there. *)
From Stdlib Require Import Ascii String.
From S2P Require Import Prelude Wire Text Floats Limiter.

Definition max_int64 : Z := 9223372036854775807.

(** [leadingInt]: [None] on overflow. *)
Fixpoint leadingInt (s : string) (x : Z) : option (Z * string) :=
  match s with
  | EmptyString => Some (x, s)
  | String c s' =>
      if is_digit c then
        if max_int64 / 10 <? x then None
        else let y := x * 10 + digit c in
             if max_int64 <? y then None else leadingInt s' y
      else Some (x, s)
  end.

(** [leadingFraction]: the digits, the power of ten they are over (a double,
    exact up to 10^22), and the rest; digits that overflow are skipped. *)
Fixpoint leadingFraction (s : string) (x scale : Z) (overflow : bool) : Z * Z * string :=
  match s with
  | EmptyString => (x, scale, s)
  | String c s' =>
      if is_digit c then
        if overflow then leadingFraction s' x scale true
        else if max_int64 / 10 <? x then leadingFraction s' x scale true
        else let y := x * 10 + digit c in
             if max_int64 <? y then leadingFraction s' x scale true
             else leadingFraction s' y (scale * 10) false
      else (x, scale, s)
  end.

(** The unit: up to the next dot or digit. *)
Fixpoint take_unit (s : string) : string * string :=
  match s with
  | EmptyString => ("", "")
  | String c s' =>
      if Ascii.eqb c dot || is_digit c then ("", s)
      else let '(u, r) := take_unit s' in (String c u, r)
  end.

Definition unitMap (u : string) : option Z :=
  if String.eqb u "ns" then Some 1
  else if String.eqb u "us" then Some 1000
  else if String.eqb u "µs" then Some 1000
  else if String.eqb u "μs" then Some 1000
  else if String.eqb u "ms" then Some 1000000
  else if String.eqb u "s" then Some 1000000000
  else if String.eqb u "m" then Some 60000000000
  else if String.eqb u "h" then Some 3600000000000
  else None.

(** [int64(float64(f) * (float64(unit) / scale))] for [f > 0]. *)
Definition fraction (f unit scale : Z) : Z :=
  let '(m, e) := f64_round unit scale in
  let f := f64_of_Z f in
  f64_floor (f64_round (f * m * 2 ^ Z.max 0 e) (2 ^ Z.max 0 (- e))).

(** Has the text a digit, or a dot, in front? *)
Definition starts_number (s : string) : bool :=
  match s with
  | String c _ => Ascii.eqb c dot || is_digit c
  | EmptyString => false
  end.

(** One number with its unit: its value and the rest. *)
Definition parse_one (s : string) : option (Z * string) :=
  if negb (starts_number s) then None
  else
    match leadingInt s 0 with
    | None => None
    | Some (v, s1) =>
        let pre := negb (String.length s =? String.length s1)%nat in
        let '(f, scale, s2, post) :=
          match s1 with
          | String c s' =>
              if Ascii.eqb c dot then
                let '(f, scale, s2) := leadingFraction s' 0 1 false in
                (f, scale, s2, negb (String.length s' =? String.length s2)%nat)
              else (0, 1, s1, false)
          | EmptyString => (0, 1, s1, false)
          end in
        if negb pre && negb post then None
        else
          let '(u, s3) := take_unit s2 in
          match u, unitMap u with
          | EmptyString, _ | _, None => None
          | _, Some unit =>
              if max_int64 / unit <? v then None
              else
                let v := v * unit in
                let v := if 0 <? f then v + fraction f unit scale else v in
                if max_int64 <? v then None else Some (v, s3)
          end
    end.

(** The loop: [None] when the fuel runs out, [Some None] on an error. *)
Fixpoint parse_loop (fuel : nat) (s : string) (d : Z) : option (option Z) :=
  match fuel with
  | O => None
  | S fuel =>
      match s with
      | EmptyString => Some (Some d)
      | _ =>
          match parse_one s with
          | None => Some None
          | Some (v, s) =>
              if max_int64 <? d + v then Some None else parse_loop fuel s (d + v)
          end
      end
  end.

(** [ParseDuration]: nanoseconds, or [None] for an error. *)
Definition ParseDuration (s : string) : option Z :=
  let '(neg, s) := match s with
                   | String c s' =>
                       if Ascii.eqb c "-" then (true, s')
                       else if Ascii.eqb c "+" then (false, s') else (false, s)
                   | EmptyString => (false, s)
                   end in
  if String.eqb s "0" then Some 0
  else if String.eqb s "" then None
  else
    match parse_loop (S (String.length s)) s 0 with
    | Some (Some d) => Some (if (neg : bool) then - d else d)
    | _ => None
    end.

(** ** The fuel is enough *)
Lemma leadingInt_length s x v r :
  leadingInt s x = Some (v, r) -> (String.length r <= String.length s)%nat.
Proof.
  revert x. induction s as [| c s IH]; intros x; cbn; [by intros [= _ <-] |].
  destruct (is_digit c); [| by intros [= _ <-]].
  destruct (_ <? x); [done |]. destruct (_ <? _); [done |]. intros Hr.
  apply IH in Hr. lia.
Qed.

Lemma leadingFraction_length s x scale o f sc r :
  leadingFraction s x scale o = (f, sc, r) -> (String.length r <= String.length s)%nat.
Proof.
  revert x scale o. induction s as [| c s IH]; intros x scale o; cbn; [by intros [= _ _ <-] |].
  destruct (is_digit c); [| by intros [= _ _ <-]].
  destruct o; [intros Hr; apply IH in Hr; lia |].
  destruct (_ <? x); [intros Hr; apply IH in Hr; lia |].
  destruct (_ <? _); intros Hr; apply IH in Hr; lia.
Qed.

Lemma take_unit_length s u r :
  take_unit s = (u, r) -> (String.length u + String.length r = String.length s)%nat.
Proof.
  revert u. induction s as [| c s IH]; intros u; cbn; [by intros [= <- <-] |].
  destruct (_ || _); [by intros [= <- <-] |].
  destruct (take_unit s) as [u' r'] eqn:E. intros [= <- <-]. cbn. by rewrite (IH u').
Qed.

Lemma parse_one_shrinks s v r :
  parse_one s = Some (v, r) -> (String.length r < String.length s)%nat.
Proof.
  unfold parse_one. destruct (negb _); [done |].
  destruct (leadingInt s 0) as [[v1 s1] |] eqn:Hi; [| done].
  apply leadingInt_length in Hi.
  match goal with |- context [match s1 with _ => _ end] =>
    destruct (match s1 with
      | String c s' =>
          if Ascii.eqb c dot then
            let '(f, scale, s2) := leadingFraction s' 0 1 false in
            (f, scale, s2, negb (String.length s' =? String.length s2)%nat)
          else (0, 1, s1, false)
      | EmptyString => (0, 1, s1, false)
      end) as [[[f scale] s2] post] eqn:Hf end.
  assert (String.length s2 <= String.length s1)%nat as Hs2.
  { destruct s1 as [| c s']; [by injection Hf as _ _ <- _ |].
    destruct (Ascii.eqb c dot); [| by injection Hf as _ _ <- _].
    destruct (leadingFraction s' 0 1 false) as [[f' sc'] r'] eqn:Hl.
    apply leadingFraction_length in Hl. injection Hf as _ _ <- _. cbn. lia. }
  destruct (negb _ && _); [done |]. destruct (take_unit s2) as [u s3] eqn:Hu.
  apply take_unit_length in Hu. destruct u as [| c u]; [done |].
  destruct (unitMap _); [| done]. destruct (_ <? v1); [done |].
  destruct (max_int64 <? _); [done |]. intros [= _ <-]. cbn in Hu. lia.
Qed.

Lemma parse_loop_terminates fuel s d :
  (String.length s < fuel)%nat -> parse_loop fuel s d <> None.
Proof.
  revert s d. induction fuel as [| fuel IH]; intros s d Hf; [lia |]. cbn [parse_loop].
  destruct s as [| c s]; [done |].
  destruct (parse_one (String c s)) as [[v r] |] eqn:Hp; [| done].
  apply parse_one_shrinks in Hp. destruct (max_int64 <? _); [done |]. apply IH. lia.
Qed.

(** ** A whole number with its unit *)
#[local] Arguments String.append !s1 s2 /.

Lemma leadingInt_decimal s r x :
  digits s = true -> 0 <= x -> decimal s x <= max_int64 ->
  match r with String c _ => is_digit c = false | EmptyString => True end ->
  leadingInt (s +:+ r) x = Some (decimal s x, r).
Proof.
  revert x. induction s as [| c s IH]; intros x; cbn.
  { intros _ _ _ Hr. destruct r as [| a r]; [done |]. cbn in Hr |- *. by rewrite Hr. }
  intros [Hc Hs]%andb_true_iff Hx Hd Hr. rewrite Hc.
  pose proof (digit_bounds c Hc). pose proof (decimal_ge s (x * 10 + digit c) Hs ltac:(lia)).
  change (922337203685477580 <? x) with (max_int64 / 10 <? x).
  assert (x <= max_int64 / 10) by (apply Z.div_le_lower_bound; lia).
  replace (max_int64 / 10 <? x) with false
    by (symmetry; apply Z.ltb_ge; lia).
  replace (max_int64 <? x * 10 + digit c) with false by (symmetry; apply Z.ltb_ge; lia).
  apply IH; [done | lia | done | done].
Qed.

(** The units hold no dot and no digit. *)
Lemma unit_taken u v :
  unitMap u = Some v -> 0 < v /\ take_unit u = (u, "") /\
  exists c u', u = String c u' /\ Ascii.eqb c dot = false /\ is_digit c = false.
Proof.
  unfold unitMap. repeat case_match; try done; intros [= <-];
    repeat match goal with E : String.eqb _ _ = true |- _ => apply String.eqb_eq in E as -> end;
    (split_and!; [lia | by vm_compute | by eexists _, _]).
Qed.

(** A run of digits with a unit, alone or after other numbers, is that many
    units when the product fits. *)
Lemma parse_one_number s u unit :
  digits s = true -> s <> "" -> unitMap u = Some unit -> decimal s 0 * unit <= max_int64 ->
  parse_one (s +:+ u) = Some (decimal s 0 * unit, "").
Proof.
  intros Hs Hne Hu Hfit. destruct (unit_taken u unit Hu) as (Hpos & Htake & c & u' & -> & Hc & Hd).
  pose proof (decimal_ge s 0 Hs ltac:(lia)).
  unfold parse_one.
  replace (starts_number (s +:+ String c u')) with true
    by (destruct s; [done |]; cbn in *; apply andb_true_iff in Hs as [-> _]; by rewrite orb_true_r).
  rewrite (leadingInt_decimal s (String c u') 0) by (done || nia). cbn [negb].
  replace (String.length (s +:+ String c u') =? String.length (String c u'))%nat with false
    by (symmetry; apply Nat.eqb_neq; rewrite length_append; destruct s; [done | cbn; lia]).
  cbn [negb andb]. rewrite Hc, Htake, Hu.
  replace (max_int64 / unit <? decimal s 0) with false
    by (symmetry; apply Z.ltb_ge, Z.div_le_lower_bound; nia).
  cbn [Z.ltb]. change (0 <? 0) with false. cbv iota.
  replace (max_int64 <? decimal s 0 * unit) with false by (symmetry; apply Z.ltb_ge; lia).
  done.
Qed.

Lemma ParseDuration_number s u unit :
  digits s = true -> s <> "" -> unitMap u = Some unit -> decimal s 0 * unit <= max_int64 ->
  ParseDuration (s +:+ u) = Some (decimal s 0 * unit).
Proof.
  intros Hs Hne Hu Hfit. pose proof (parse_one_number s u unit Hs Hne Hu Hfit) as Hone.
  destruct s as [| c s]; [done |]. cbn [String.append append] in *.
  destruct (unit_taken u unit Hu) as (_ & _ & c' & u' & -> & _ & _).
  unfold ParseDuration. pose proof Hs as Hs'. cbn in Hs'. apply andb_true_iff in Hs' as [Hc _].
  replace (Ascii.eqb c "-") with false
    by (symmetry; apply Ascii.eqb_neq; intros ->; by vm_compute in Hc).
  replace (Ascii.eqb c "+") with false
    by (symmetry; apply Ascii.eqb_neq; intros ->; by vm_compute in Hc).
  replace (String.eqb (String c (s +:+ String c' u')) "0") with false
    by (symmetry; apply String.eqb_neq; intros [= _ E]; by destruct s).
  cbn [String.eqb parse_loop]. rewrite Hone.
  rewrite Z.add_0_l.
  replace (max_int64 <? decimal (String c s) 0 * unit) with false
    by (symmetry; apply Z.ltb_ge; lia).
  done.
Qed.

(** ** Examples *)
Example durations :
  ParseDuration "1h" = Some 3600000000000 /\ ParseDuration "1m30s" = Some 90000000000 /\
  ParseDuration "1.5s" = Some 1500000000 /\ ParseDuration "-.5ms" = Some (-500000) /\
  ParseDuration "0" = Some 0 /\ ParseDuration "1" = None /\ ParseDuration "" = None /\
  ParseDuration "1 h" = None /\ ParseDuration "9223372036854775808ns" = None /\
  ParseDuration "0.1us" = Some 100.
Proof. by vm_compute. Qed.

(** ** [Duration.String], which the API prints intervals with *)

(** [fmtFrac]: the last [prec] digits of [v] without trailing zeros, behind a
    dot when any is left. *)
Fixpoint frac_digits (prec : nat) (v : Z) (print : bool) (acc : string) : string * bool :=
  match prec with
  | O => (acc, print)
  | S prec =>
      let print := print || negb (v mod 10 =? 0) in
      frac_digits prec (v / 10) print (if (print : bool) then pretty (v mod 10) +:+ acc else acc)
  end.

Definition fmtFrac (v : Z) (prec : nat) : string * Z :=
  let '(s, print) := frac_digits prec v false "" in
  ((if (print : bool) then "." +:+ s else s), v / 10 ^ Z.of_nat prec).

Definition Duration_String (d : Z) : string :=
  let u := Z.abs d in
  let body :=
    if u <? 1000000000 then
      if u =? 0 then "0s"
      else
        let '(prec, unit) := if u <? 1000 then (0%nat, "ns")
                             else if u <? 1000000 then (3%nat, "µs") else (6%nat, "ms") in
        let '(s, v) := fmtFrac u prec in pretty v +:+ s +:+ unit
    else
      let '(s, v) := fmtFrac u 9 in
      let seconds := pretty (v mod 60) +:+ s +:+ "s" in
      let m := v / 60 in
      if m =? 0 then seconds
      else
        let minutes := pretty (m mod 60) +:+ "m" +:+ seconds in
        let h := m / 60 in
        if h =? 0 then minutes else pretty h +:+ "h" +:+ minutes in
  if d <? 0 then "-" +:+ body else body.

Example duration_strings :
  Duration_String 0 = "0s" /\ Duration_String 1500000000 = "1.5s" /\
  Duration_String 3600000000000 = "1h0m0s" /\ Duration_String 1100 = "1.1µs" /\
  Duration_String (-90000000000) = "-1m30s" /\ Duration_String 2000000 = "2ms" /\
  ParseDuration (Duration_String 3661001000000) = Some 3661001000000.
Proof. by vm_compute. Qed.
