(* ===== verification/ByteFmt.v ===== *)
(** * Sizes in bytes as text: the vendored package [bytefmt]

    [ToBytes] reads the throughput of a rate limit, [ByteSize] prints the sizes
    that the API shows.  Numbers go through doubles, as they do there. *)
From Stdlib Require Import Ascii String.
From S2P Require Import Prelude Wire Text Floats Limiter.

(** The units: 1024 to the power of 0 to 4. *)
Definition BYTE : Z := 1.
Definition KILOBYTE : Z := 1024.
Definition MEGABYTE : Z := 1048576.
Definition GIGABYTE : Z := 1073741824.
Definition TERABYTE : Z := 1099511627776.

Definition invalidByteQuantityError : string :=
  "byte quantity must be a positive integer with a unit of measurement like M, MB, MiB, G, GiB, or GB".

(** ** [ByteSize] *)

(** [strconv.FormatFloat(v, 'f', 1, 64)] of the double [n / d], without a
    trailing [.0]: the nearest number of tenths, ties to even. *)
Definition format_tenths (n d : Z) : string :=
  let tenths := div_rne (10 * n) d in
  if tenths mod 10 =? 0 then pretty (tenths / 10)
  else pretty (tenths / 10) +:+ "." +:+ pretty (tenths mod 10).

Definition ByteSize (bytes : Z) : string :=
  let value := f64_of_Z bytes in
  if TERABYTE <=? bytes then format_tenths value TERABYTE +:+ "T"
  else if GIGABYTE <=? bytes then format_tenths value GIGABYTE +:+ "G"
  else if MEGABYTE <=? bytes then format_tenths value MEGABYTE +:+ "M"
  else if KILOBYTE <=? bytes then format_tenths value KILOBYTE +:+ "K"
  else if BYTE <=? bytes then format_tenths value BYTE +:+ "B"
  else "0".

(** ** [ToBytes] *)

(** [strings.ToUpper] as far as [ToBytes] can tell: the letters a to z, and the
    two letters beyond ASCII whose upper case is an ASCII letter.  Every other
    rune beyond ASCII stays one. *)
Fixpoint ToUpper (s : string) : string :=
  match s with
  | EmptyString => ""
  | String c s' =>
      let n := nat_of_ascii c in
      if (97 <=? n)%nat && (n <=? 122)%nat then String (ascii_of_nat (n - 32)) (ToUpper s')
      else match s' with
           | String c1 s'' =>
               if (n =? 196)%nat && (nat_of_ascii c1 =? 177)%nat then String "I" (ToUpper s'')
               else if (n =? 197)%nat && (nat_of_ascii c1 =? 191)%nat then
                 String "S" (ToUpper s'')
               else String c (ToUpper s')
           | EmptyString => String c ""
           end
  end.

(** Where the unit starts.  A byte beyond ASCII may or may not belong to a
    letter; the text is rejected in both cases. *)
Definition is_letter (c : ascii) : bool :=
  let n := nat_of_ascii c in
  ((65 <=? n)%nat && (n <=? 90)%nat) || ((97 <=? n)%nat && (n <=? 122)%nat) || (128 <=? n)%nat.

Fixpoint split_letter (s : string) : option (string * string) :=
  match s with
  | EmptyString => None
  | String c s' =>
      if is_letter c then Some ("", s)
      else match split_letter s' with
           | Some (a, b) => Some (String c a, b)
           | None => None
           end
  end.

(** [strconv.ParseFloat] of a text without letters: digits with at most one
    dot, after an optional sign; the value is [n / 10 ^ k].  [None] is an
    error. *)
Fixpoint take_digits (s : string) (x : Z) : Z * nat * string :=
  match s with
  | String c s' =>
      if is_digit c then
        let '(v, k, r) := take_digits s' (x * 10 + digit c) in (v, S k, r)
      else (x, 0%nat, s)
  | EmptyString => (x, 0%nat, s)
  end.

Definition ParseFloat (s : string) : option (bool * Z * Z) :=
  let '(neg, s) := match s with
                   | String c s' =>
                       if Ascii.eqb c "-" then (true, s')
                       else if Ascii.eqb c "+" then (false, s') else (false, s)
                   | EmptyString => (false, s)
                   end in
  let '(v, k, r) := take_digits s 0 in
  let '(v, j, r) := match r with
                    | String c r' => if Ascii.eqb c dot then take_digits r' v else (v, 0%nat, r)
                    | EmptyString => (v, 0%nat, r)
                    end in
  match r with
  | EmptyString =>
      if (k + j =? 0)%nat then None
      else if 2 ^ 1024 - 2 ^ 970 <=? v / 10 ^ Z.of_nat j then None
      else Some (neg, v, 10 ^ Z.of_nat j)
  | _ => None
  end.

Section ToBytes.
(** What the conversion of a double of 2^64 or more to [uint64] gives, which Go
    leaves to the implementation. *)
Context (wrapped : Z -> Z).

Definition to_uint64 (v : Z) : Z := if v <? pow64 then v else wrapped v.

Definition unit_of (multiple : string) : option Z :=
  if bool_decide (multiple ∈ ["T"; "TB"; "TIB"]) then Some TERABYTE
  else if bool_decide (multiple ∈ ["G"; "GB"; "GIB"]) then Some GIGABYTE
  else if bool_decide (multiple ∈ ["M"; "MB"; "MIB"]) then Some MEGABYTE
  else if bool_decide (multiple ∈ ["K"; "KB"; "KIB"]) then Some KILOBYTE
  else if String.eqb multiple "B" then Some BYTE
  else None.

(** [uint64(bytes * unit)] of the double next to [n / d]: a unit is a power of
    two, so that the product is exact. *)
Definition times_unit (n d unit : Z) : Z :=
  let '(m, e) := f64_round n d in f64_floor (m * unit, e).

Definition ToBytes (s : string) : string + Z :=
  let s := ToUpper (string_of (TrimSpace (bytes_of s))) in
  match split_letter s with
  | None => inl invalidByteQuantityError
  | Some (bytesString, multiple) =>
      match ParseFloat bytesString with
      | None => inl invalidByteQuantityError
      | Some (neg, n, d) =>
          (* a positive number below 2^-1075 is read as zero *)
          if neg || (n * 2 ^ 1075 <=? d) then inl invalidByteQuantityError
          else match unit_of multiple with
               | Some unit => inr (to_uint64 (times_unit n d unit))
               | None => inl invalidByteQuantityError
               end
      end
  end.
End ToBytes.

(** ** A whole number with a unit *)

(** An integer below 2^53 is a double. *)
Lemma f64_floor_exact n unit :
  0 < n < 2 ^ 53 -> (let '(m, e) := f64_round n 1 in f64_floor (m * unit, e)) = n * unit.
Proof.
  intros [Hn Hb]. unfold f64_round, f64_exp.
  pose proof (Z.log2_spec n Hn) as [Hlo _]. pose proof (Z.log2_nonneg n).
  assert (Z.log2 n < 53) by by apply Z.log2_lt_pow2.
  change (Z.log2 1) with 0. rewrite Z.sub_0_r.
  rewrite (proj2 (Z.leb_le _ _)) by done. rewrite Z.mul_1_l.
  rewrite (proj2 (Z.ltb_ge _ _)) by done.
  set (k := 52 - Z.log2 n). replace (- (Z.log2 n - 52)) with k by lia.
  replace (Z.log2 n - 52) with (- k) by lia.
  rewrite (Z.max_r 0 k), (Z.max_l 0 (- k)) by lia. change (2 ^ 0) with 1.
  unfold div_rne. rewrite Z.mul_1_r, Z.div_1_r, Z.mod_1_r. cbn [Z.mul Z.ltb Z.compare].
  unfold f64_floor. rewrite Z.opp_involutive, (Z.max_r 0 k), (Z.max_l 0 (- k)) by lia.
  change (2 ^ 0) with 1. rewrite Z.mul_1_r.
  change (2 * 0 <? 1) with true. cbv iota.
  replace (n * 2 ^ k * unit) with (n * unit * 2 ^ k) by lia.
  apply Z.div_mul, Z.pow_nonzero; lia.
Qed.

Lemma digit_cases c : is_digit c = true -> c ∈ list_ascii_of_string "0123456789".
Proof.
  intros Hc. apply (bool_decide_unpack _). revert Hc.
  by destruct c as [[] [] [] [] [] [] [] []].
Qed.

Ltac digit_case c H :=
  pose proof (digit_cases c H) as Hin; cbn in Hin; clear H;
  repeat (apply elem_of_cons in Hin as [-> | Hin]; [| ]); [.. | by apply elem_of_nil in Hin].

Lemma ToUpper_digits s u : digits s = true -> ToUpper (s +:+ u) = s +:+ ToUpper u.
Proof.
  induction s as [| c s IH]; [done |]. intros [Hc Hs]%andb_true_iff.
  change (String c s +:+ u) with (String c (s +:+ u)).
  change (String c s +:+ ToUpper u) with (String c (s +:+ ToUpper u)). rewrite <- IH by done.
  digit_case c Hc; cbn; by destruct (s +:+ u).
Qed.

Lemma split_letter_digits s c u :
  digits s = true -> is_letter c = true ->
  split_letter (s +:+ String c u) = Some (s, String c u).
Proof.
  intros Hs Hc. induction s as [| d s IH].
  - change ("" +:+ String c u) with (String c u). cbn [split_letter]. by rewrite Hc.
  - cbn in Hs. apply andb_true_iff in Hs as [Hd Hs].
    change (String d s +:+ String c u) with (String d (s +:+ String c u)).
    cbn [split_letter]. rewrite IH by done.
    by replace (is_letter d) with false by (digit_case d Hd; done).
Qed.

Lemma take_digits_all s x :
  digits s = true -> take_digits s x = (decimal s x, String.length s, "").
Proof.
  revert x. induction s as [| c s IH]; intros x; [done |]. cbn [digits take_digits decimal].
  intros [Hc Hs]%andb_true_iff. by rewrite Hc, IH.
Qed.

Lemma ParseFloat_digits s :
  digits s = true -> s <> "" -> decimal s 0 < 2 ^ 53 -> ParseFloat s = Some (false, decimal s 0, 1).
Proof.
  intros Hs Hne Hb. destruct s as [| c s]; [done |]. unfold ParseFloat.
  pose proof Hs as Hs'. cbn in Hs'. apply andb_true_iff in Hs' as [Hc _].
  replace (Ascii.eqb c "-") with false by (digit_case c Hc; done).
  replace (Ascii.eqb c "+") with false by (digit_case c Hc; done).
  rewrite take_digits_all by done. cbn [Nat.add String.length Nat.eqb]. rewrite Z.div_1_r.
  rewrite (proj2 (Z.leb_gt _ _)); [done |]. by etrans; [exact Hb |].
Qed.

(** The spellings of the units. *)
Definition spellings : list string :=
  ["T"; "TB"; "TIB"; "G"; "GB"; "GIB"; "M"; "MB"; "MIB"; "K"; "KB"; "KIB"; "B"].

Lemma unit_spelling u unit : unit_of u = Some unit -> u ∈ spellings.
Proof.
  unfold unit_of, spellings. repeat case_match; try done; intros _;
    repeat match goal with
    | E : bool_decide _ = true |- _ => apply bool_decide_eq_true_1 in E; revert E
    | E : String.eqb u _ = true |- _ => apply String.eqb_eq in E as ->
    | E : _ = false |- _ => clear E
    end; set_solver.
Qed.

(** What the definition looks at in a unit. *)
Definition unit_shape (u : string) : bool :=
  match u with
  | String c _ => is_letter c
  | EmptyString => false
  end && String.eqb (ToUpper u) u
  && match rev (bytes_of u) with
     | d :: _ => negb (starts_any (rev (A := byte) <$> white_space) d)
     | [] => false
     end.

Lemma spelling_shape u : u ∈ spellings -> unit_shape u = true.
Proof.
  intros Hu. assert (forallb unit_shape spellings = true) as H by by vm_compute.
  rewrite forallb_forall in H. apply H. by apply list_elem_of_In.
Qed.

Lemma digit_no_space c :
  is_digit c = true -> starts_any white_space (byte_of_ascii c) = false.
Proof. intros Hc. digit_case c Hc; done. Qed.

Lemma bytes_of_append s t : bytes_of (s +:+ t) = bytes_of s ++ bytes_of t.
Proof.
  induction s as [| c s IH]; [done |].
  change (String c s +:+ t) with (String c (s +:+ t)).
  change (bytes_of (String c ?x)) with (byte_of_ascii c :: bytes_of x). cbn. by rewrite IH.
Qed.

Lemma ToBytes_number wrapped s u unit :
  digits s = true -> 0 < decimal s 0 < 2 ^ 53 -> unit_of u = Some unit ->
  decimal s 0 * unit < pow64 -> ToBytes wrapped (s +:+ u) = inr (decimal s 0 * unit).
Proof.
  intros Hs Hb Hu Hfit. pose proof (spelling_shape u (unit_spelling u unit Hu)) as Hshape.
  unfold unit_shape in Hshape. apply andb_true_iff in Hshape as [Hshape Hlast].
  apply andb_true_iff in Hshape as [Hletter Hup%String.eqb_eq].
  destruct s as [| c s]; [cbn in Hb; lia |].
  assert (TrimSpace (bytes_of (String c s +:+ u)) = bytes_of (String c s +:+ u)) as Ht.
  { destruct (rev (bytes_of u)) as [| d l] eqn:Hd in Hlast; [done |].
    rewrite bytes_of_append. change (bytes_of (String c s)) with (byte_of_ascii c :: bytes_of s).
    cbn [app]. apply (TrimSpace_id _ _ (byte_of_ascii c :: bytes_of s ++ rev l) d).
    - rewrite <- (rev_involutive (bytes_of u)), Hd. cbn. by rewrite <- app_assoc.
    - apply digit_no_space. cbn in Hs. by apply andb_true_iff in Hs as [? _].
    - by apply negb_true_iff. }
  destruct u as [| a u]; [done |].
  unfold ToBytes. rewrite Ht, string_of_bytes_of, ToUpper_digits, Hup by done.
  rewrite split_letter_digits by done. rewrite ParseFloat_digits by (done || apply Hb).
  cbn [orb]. rewrite (proj2 (Z.leb_gt _ 1)).
  2: { apply Z.lt_le_trans with (1 * 2 ^ 1075); [done |].
       apply Z.mul_le_mono_nonneg_r; [done | lia]. }
  rewrite Hu. unfold times_unit, to_uint64. rewrite f64_floor_exact by done.
  by rewrite (proj2 (Z.ltb_lt _ _)).
Qed.

(** ** Examples *)
Example sizes :
  ByteSize 0 = "0" /\ ByteSize 1023 = "1023B" /\ ByteSize 1536 = "1.5K" /\
  ByteSize 1048575 = "1024K" /\ ByteSize 1048576 = "1M" /\
  ByteSize 18446744073709551615 = "16777216T".
Proof. by vm_compute. Qed.

Example quantities :
  let read := ToBytes (fun _ => 0) in
  read "1.5K" = inr 1536 /\ read " 10 mb" = inl invalidByteQuantityError /\
  read "10mib " = inr 10485760 /\ read "1KB" = inr 1024 /\ read ".5B" = inr 0 /\
  read "0B" = inl invalidByteQuantityError /\ read "-1B" = inl invalidByteQuantityError /\
  read "10" = inl invalidByteQuantityError /\ read "1K5" = inl invalidByteQuantityError /\
  read "16777216T" = inr 0.
Proof. by vm_compute. Qed.
