(* ===== verification/Message.v ===== *)
(** * Messages: [src/message/message.go] and [src/message/protobuf.pb.go]

    The message structs with their wire tables (the struct tags of the
    generated file), the codec interface that the other components use, its
    instances, and the conversions of [message.go]. *)
From S2P Require Import Prelude Wire.

(** ** Data: the generated structs

    [XXX_sizecache] is a cache of the library and is left out; a nil slice or
    map and an empty one are the same value. *)
Record Attributes := {
  Timestamp : Z;
  Type_ : string;
  Attributes_unrecognized : list byte;
}.

Record SourceMessage := {
  Id : string;
  Message_ : list byte;
  Meta : gmap string string;
  Attributes_ : option Attributes;
  SourceMessage_unrecognized : list byte;
}.

Record BrokerMessage := {
  Broker_Source : string;
  Broker_Targets : list string;
  Broker_SourceMessage : option SourceMessage;
  BrokerMessage_unrecognized : list byte;
}.

Record TargetMessage := {
  Target_Target : string;
  Target_Source : string;
  Target_SourceMessage : option SourceMessage;
  TargetMessage_unrecognized : list byte;
}.

(** The messages after [Reset]. *)
Definition Attributes_empty : Attributes := Build_Attributes 0 "" [].
Definition SourceMessage_empty : SourceMessage := Build_SourceMessage "" [] ∅ None [].
Definition BrokerMessage_empty : BrokerMessage := Build_BrokerMessage "" [] None [].
Definition TargetMessage_empty : TargetMessage := Build_TargetMessage "" "" None [].

(** ** The codec interface

    What [proto.Marshal] and [proto.Unmarshal] promise to the program: a
    message that was marshalled without error is read back.  [wf] bounds the
    integers and excludes bytes of unknown fields. *)
Class ProtoMessage (M : Type) := {
  Marshal : M -> list byte * option m_error;
  Unmarshal : list byte -> M * option pb_error;
  wf : M -> Prop;
  Unmarshal_Marshal m b :
    wf m -> Marshal m = (b, None) -> len b < pow64 -> Unmarshal b = (m, None);
}.
#[global] Hint Mode ProtoMessage ! : typeclass_instances.

(** Go does not specify the order in which [MapKeys] lists a map. *)
Class MapOrder := {
  map_order : gmap string string -> list (string * string);
  map_order_perm m : map_order m ≡ₚ map_to_list m;
}.

(** One legal order, for concrete runs. *)
Definition default_order : MapOrder :=
  {| map_order := map_to_list; map_order_perm m := reflexivity _ |}.

(** [foldl] of the decoded entries, in any order, rebuilds the map. *)
Lemma foldl_insert_order (l : list (string * string)) (m : gmap string string) :
  l ≡ₚ map_to_list m ->
  foldl (fun m kv => <[kv.1 := kv.2]> m) ∅ l = m.
Proof.
  intros Hp. transitivity (list_to_map (reverse l) : gmap string string).
  - assert (forall m0 : gmap string string,
      foldl (fun m kv => <[kv.1 := kv.2]> m) m0 l
      = foldr (fun kv m => <[kv.1 := kv.2]> m) m0 (reverse l)) as E.
    { clear Hp. intros m0. induction l as [| x l IH] using rev_ind; [done |].
      rewrite foldl_app, reverse_snoc. simpl. by rewrite IH. }
    apply E.
  - rewrite <- (list_to_map_to_list m). symmetry. apply list_to_map_proper.
    + apply NoDup_fst_map_to_list.
    + by rewrite reverse_Permutation.
Qed.

(** ** Attributes *)
Definition Attributes_table (tag : Z) : option (unmarshaler Attributes) :=
  match tag with
  | 1 => Some (unmarshalInt64Value (fun v m =>
           Build_Attributes v (Type_ m) (Attributes_unrecognized m)))
  | 2 => Some (unmarshalUTF8String (fun s m =>
           Build_Attributes (Timestamp m) s (Attributes_unrecognized m)))
  | _ => None
  end.

Definition Attributes_keep (b : list byte) (m : Attributes) : Attributes :=
  Build_Attributes (Timestamp m) (Type_ m) (Attributes_unrecognized m ++ b).

Definition Attributes_marshal (m : Attributes) : list byte * option m_error :=
  marshal_fields
    [appendVarintS64ValueNoZero 1 (Timestamp m);
     appendUTF8StringValueNoZero 2 (Type_ m)]
    (Attributes_unrecognized m).

Definition Attributes_merge : list byte -> Attributes -> Attributes * option pb_error :=
  unmarshal Attributes_table Attributes_keep.

Definition Attributes_wf (m : Attributes) : Prop :=
  - 2 ^ 63 <= Timestamp m < 2 ^ 63 /\ Attributes_unrecognized m = [].

(** ** SourceMessage *)
Definition SourceMessage_table (tag : Z) : option (unmarshaler SourceMessage) :=
  match tag with
  | 1 => Some (unmarshalUTF8String (fun s m =>
           Build_SourceMessage s (Message_ m) (Meta m) (Attributes_ m)
             (SourceMessage_unrecognized m)))
  | 2 => Some (unmarshalBytesValue (fun b m =>
           Build_SourceMessage (Id m) b (Meta m) (Attributes_ m)
             (SourceMessage_unrecognized m)))
  | 3 => Some (unmarshal_map (fun k v m =>
           Build_SourceMessage (Id m) (Message_ m) (<[k := v]> (Meta m)) (Attributes_ m)
             (SourceMessage_unrecognized m)))
  | 4 => Some (unmarshal_message Attributes_merge
           (fun m => default Attributes_empty (Attributes_ m))
           (fun a m => Build_SourceMessage (Id m) (Message_ m) (Meta m) (Some a)
             (SourceMessage_unrecognized m)))
  | _ => None
  end.

Definition SourceMessage_keep (b : list byte) (m : SourceMessage) : SourceMessage :=
  Build_SourceMessage (Id m) (Message_ m) (Meta m) (Attributes_ m)
    (SourceMessage_unrecognized m ++ b).

Definition SourceMessage_marshal `{MapOrder} (m : SourceMessage)
    : list byte * option m_error :=
  marshal_fields
    [appendUTF8StringValueNoZero 1 (Id m);
     appendBytes3 2 (Message_ m);
     append_map 3 (map_order (Meta m));
     append_message Attributes_marshal 4 (Attributes_ m)]
    (SourceMessage_unrecognized m).

Definition SourceMessage_merge
    : list byte -> SourceMessage -> SourceMessage * option pb_error :=
  unmarshal SourceMessage_table SourceMessage_keep.

Definition SourceMessage_wf (m : SourceMessage) : Prop :=
  SourceMessage_unrecognized m = [] /\
  match Attributes_ m with Some a => Attributes_wf a | None => True end.

(** ** BrokerMessage and TargetMessage *)
Definition BrokerMessage_table (tag : Z) : option (unmarshaler BrokerMessage) :=
  match tag with
  | 1 => Some (unmarshalUTF8String (fun s m =>
           Build_BrokerMessage s (Broker_Targets m) (Broker_SourceMessage m)
             (BrokerMessage_unrecognized m)))
  | 2 => Some (unmarshalUTF8String (fun s m =>
           Build_BrokerMessage (Broker_Source m) (Broker_Targets m ++ [s])
             (Broker_SourceMessage m) (BrokerMessage_unrecognized m)))
  | 3 => Some (unmarshal_message SourceMessage_merge
           (fun m => default SourceMessage_empty (Broker_SourceMessage m))
           (fun s m => Build_BrokerMessage (Broker_Source m) (Broker_Targets m) (Some s)
             (BrokerMessage_unrecognized m)))
  | _ => None
  end.

Definition BrokerMessage_keep (b : list byte) (m : BrokerMessage) : BrokerMessage :=
  Build_BrokerMessage (Broker_Source m) (Broker_Targets m) (Broker_SourceMessage m)
    (BrokerMessage_unrecognized m ++ b).

Definition BrokerMessage_marshal `{MapOrder} (m : BrokerMessage)
    : list byte * option m_error :=
  marshal_fields
    [appendUTF8StringValueNoZero 1 (Broker_Source m);
     appendUTF8StringSlice 2 (Broker_Targets m);
     append_message SourceMessage_marshal 3 (Broker_SourceMessage m)]
    (BrokerMessage_unrecognized m).

Definition TargetMessage_table (tag : Z) : option (unmarshaler TargetMessage) :=
  match tag with
  | 1 => Some (unmarshalUTF8String (fun s m =>
           Build_TargetMessage s (Target_Source m) (Target_SourceMessage m)
             (TargetMessage_unrecognized m)))
  | 2 => Some (unmarshalUTF8String (fun s m =>
           Build_TargetMessage (Target_Target m) s (Target_SourceMessage m)
             (TargetMessage_unrecognized m)))
  | 3 => Some (unmarshal_message SourceMessage_merge
           (fun m => default SourceMessage_empty (Target_SourceMessage m))
           (fun s m => Build_TargetMessage (Target_Target m) (Target_Source m) (Some s)
             (TargetMessage_unrecognized m)))
  | _ => None
  end.

Definition TargetMessage_keep (b : list byte) (m : TargetMessage) : TargetMessage :=
  Build_TargetMessage (Target_Target m) (Target_Source m) (Target_SourceMessage m)
    (TargetMessage_unrecognized m ++ b).

Definition TargetMessage_marshal `{MapOrder} (m : TargetMessage)
    : list byte * option m_error :=
  marshal_fields
    [appendUTF8StringValueNoZero 1 (Target_Target m);
     appendUTF8StringValueNoZero 2 (Target_Source m);
     append_message SourceMessage_marshal 3 (Target_SourceMessage m)]
    (TargetMessage_unrecognized m).

Definition submessage_wf (s : option SourceMessage) : Prop :=
  match s with Some m => SourceMessage_wf m | None => True end.

(** ** Round trips *)

(** Split the result of [marshal_fields] into its fields and bound each. *)
Ltac marshalled Hm :=
  apply marshal_fields_ok in Hm as [Hm ->];
  repeat match type of Hm with
    | Forall _ (_ :: _) =>
        let H := fresh "He" in apply Forall_cons_1 in Hm as [H Hm]; simpl in H
    end;
  simpl in *;
  repeat match goal with
    | H : (?f).2 = None |- _ =>
        let b := fresh "b" in let e := fresh "e" in let E := fresh "E" in
        destruct f as [b e] eqn:E; simpl in H; subst e; simpl in *
    end;
  rewrite ?len_app in *; change (len (@nil byte)) with 0 in *;
  repeat match goal with
    | b : list byte |- _ =>
        lazymatch goal with _ : 0 <= len b |- _ => fail | _ => idtac end;
        pose proof (len_nonneg b)
    end.

(** Parse the first of the remaining fields with the lemma of its kind. *)
Ltac parse_field lem :=
  eapply parses_app;
  [eapply lem; [lia | reflexivity | eassumption | ..];
   try lia; try assumption; try (by intros ->) |]; cbn beta iota.

Lemma Attributes_roundtrip m b :
  Attributes_wf m -> Attributes_marshal m = (b, None) -> len b < pow64 ->
  Attributes_merge b Attributes_empty = (m, None).
Proof.
  destruct m as [ts ty u]. intros [Hts Hu] Hm Hl. simpl in *. subst u.
  unfold Attributes_marshal in Hm. simpl in Hm. marshalled Hm.
  eapply parses_unmarshal.
  parse_field (parses_int64_field Attributes_table Attributes_keep 1).
  parse_field (parses_string_field Attributes_table Attributes_keep 2).
  apply parses_nil.
Qed.

Section RoundTrips.
Context `{MapOrder}.

(** Folding the map entries of a marshalled [Meta] over a message without
    entries gives back the map. *)
Lemma foldl_meta (l : list (string * string)) id b mt at_ u :
  foldl (fun m kv => Build_SourceMessage (Id m) (Message_ m) (<[kv.1 := kv.2]> (Meta m))
           (Attributes_ m) (SourceMessage_unrecognized m))
    (Build_SourceMessage id b mt at_ u) l
  = Build_SourceMessage id b (foldl (fun m kv => <[kv.1 := kv.2]> m) mt l) at_ u.
Proof. revert mt. induction l as [| kv l IH]; intros mt; [done |]. simpl. apply IH. Qed.

Lemma SourceMessage_roundtrip m b :
  SourceMessage_wf m -> SourceMessage_marshal m = (b, None) -> len b < pow64 ->
  SourceMessage_merge b SourceMessage_empty = (m, None).
Proof.
  destruct m as [id msg meta attrs u]. intros [Hu Ha] Hm Hl. simpl in *. subst u.
  unfold SourceMessage_marshal in Hm. simpl in Hm. marshalled Hm.
  eapply parses_unmarshal.
  parse_field (parses_string_field SourceMessage_table SourceMessage_keep 1).
  parse_field (parses_bytes_field SourceMessage_table SourceMessage_keep 2).
  parse_field (parses_map_field SourceMessage_table SourceMessage_keep 3).
  rewrite foldl_meta. simpl.
  rewrite (foldl_insert_order (map_order meta) meta) by apply map_order_perm.
  parse_field (parses_message_field SourceMessage_table SourceMessage_keep 4
                 Attributes_marshal).
  { intros a ba -> Hba Hlb. by apply Attributes_roundtrip. }
  destruct attrs; apply parses_nil.
Qed.

Lemma foldl_targets (l : list string) s ts sm u :
  foldl (flip (fun s m => Build_BrokerMessage (Broker_Source m) (Broker_Targets m ++ [s])
                 (Broker_SourceMessage m) (BrokerMessage_unrecognized m)))
    (Build_BrokerMessage s ts sm u) l
  = Build_BrokerMessage s (ts ++ l) sm u.
Proof.
  revert ts. induction l as [| x l IH]; intros ts; simpl; [by rewrite app_nil_r |].
  rewrite IH. by rewrite <- app_assoc.
Qed.

Lemma BrokerMessage_roundtrip m b :
  BrokerMessage_unrecognized m = [] -> submessage_wf (Broker_SourceMessage m) ->
  BrokerMessage_marshal m = (b, None) -> len b < pow64 ->
  unmarshal BrokerMessage_table BrokerMessage_keep b BrokerMessage_empty = (m, None).
Proof.
  destruct m as [s ts sm u]. intros Hu Hs Hm Hl. simpl in *. subst u.
  unfold BrokerMessage_marshal in Hm. simpl in Hm. marshalled Hm.
  eapply parses_unmarshal.
  parse_field (parses_string_field BrokerMessage_table BrokerMessage_keep 1).
  parse_field (parses_strings_field BrokerMessage_table BrokerMessage_keep 2).
  rewrite foldl_targets. simpl.
  parse_field (parses_message_field BrokerMessage_table BrokerMessage_keep 3
                 SourceMessage_marshal).
  { intros n bn -> Hbn Hlb. by apply SourceMessage_roundtrip. }
  destruct sm; apply parses_nil.
Qed.

Lemma TargetMessage_roundtrip m b :
  TargetMessage_unrecognized m = [] -> submessage_wf (Target_SourceMessage m) ->
  TargetMessage_marshal m = (b, None) -> len b < pow64 ->
  unmarshal TargetMessage_table TargetMessage_keep b TargetMessage_empty = (m, None).
Proof.
  destruct m as [t s sm u]. intros Hu Hs Hm Hl. simpl in *. subst u.
  unfold TargetMessage_marshal in Hm. simpl in Hm. marshalled Hm.
  eapply parses_unmarshal.
  parse_field (parses_string_field TargetMessage_table TargetMessage_keep 1).
  parse_field (parses_string_field TargetMessage_table TargetMessage_keep 2).
  parse_field (parses_message_field TargetMessage_table TargetMessage_keep 3
                 SourceMessage_marshal).
  { intros n bn -> Hbn Hlb. by apply SourceMessage_roundtrip. }
  destruct sm; apply parses_nil.
Qed.

(** *** The instances *)
#[export] Program Instance SourceMessage_proto : ProtoMessage SourceMessage := {|
  Marshal := SourceMessage_marshal;
  Unmarshal b := SourceMessage_merge b SourceMessage_empty;
  wf := SourceMessage_wf;
|}.
Next Obligation. intros. by apply SourceMessage_roundtrip. Qed.

#[export] Program Instance BrokerMessage_proto : ProtoMessage BrokerMessage := {|
  Marshal := BrokerMessage_marshal;
  Unmarshal b := unmarshal BrokerMessage_table BrokerMessage_keep b BrokerMessage_empty;
  wf m := BrokerMessage_unrecognized m = [] /\ submessage_wf (Broker_SourceMessage m);
|}.
Next Obligation. intros m b [Hu Hs] Hm Hl. by apply BrokerMessage_roundtrip. Qed.

#[export] Program Instance TargetMessage_proto : ProtoMessage TargetMessage := {|
  Marshal := TargetMessage_marshal;
  Unmarshal b := unmarshal TargetMessage_table TargetMessage_keep b TargetMessage_empty;
  wf m := TargetMessage_unrecognized m = [] /\ submessage_wf (Target_SourceMessage m);
|}.
Next Obligation. intros m b [Hu Hs] Hm Hl. by apply TargetMessage_roundtrip. Qed.
End RoundTrips.

(** ** [message.go] *)
Definition BrokerToTarget (target : string) (b : BrokerMessage) : TargetMessage :=
  {| Target_Target := target; Target_Source := Broker_Source b;
     Target_SourceMessage := Broker_SourceMessage b; TargetMessage_unrecognized := [] |}.

Definition SourceToBroker (source : string) (targets : list string) (s : SourceMessage)
    : BrokerMessage :=
  {| Broker_Source := source; Broker_Targets := targets;
     Broker_SourceMessage := Some s; BrokerMessage_unrecognized := [] |}.

Section Functions.
Context `{MapOrder}.

Definition ProtobufToBroker (data : list byte) : BrokerMessage * option pb_error :=
  Unmarshal data.
Definition ProtobufToSource (data : list byte) : SourceMessage * option pb_error :=
  Unmarshal data.
Definition ProtobufToTarget (data : list byte) : TargetMessage * option pb_error :=
  Unmarshal data.
Definition ToProtobuf {M} `{ProtoMessage M} (msg : M) : list byte * option m_error :=
  Marshal msg.

(** *** Marshalling fails exactly on strings that are not UTF-8 *)

Definition utf8_string (s : string) : Prop := utf8_valid (bytes_of s) = true.

Lemma string_field_error tag s :
  (appendUTF8StringValueNoZero tag s).2 = None <-> utf8_string s.
Proof.
  unfold appendUTF8StringValueNoZero, appendUTF8StringValue, utf8_string.
  destruct (String.eqb_spec s "") as [-> | _]; simpl; [done |].
  by destruct (utf8_valid _).
Qed.

Lemma strings_field_error tag l :
  (appendUTF8StringSlice tag l).2 = None <-> Forall utf8_string l.
Proof.
  induction l as [| s l IH]; simpl; [split; auto |]. rewrite list.Forall_cons, <- IH.
  destruct (appendUTF8StringSlice tag l) as [b2 e2]. unfold utf8_string. simpl.
  destruct (utf8_valid _); simpl; naive_solver.
Qed.

Lemma map_field_error tag l :
  (append_map tag l).2 = None <->
  Forall (fun kv => utf8_string kv.1 /\ utf8_string kv.2) l.
Proof.
  induction l as [| [k v] l IH]; simpl; [split; auto |]. rewrite list.Forall_cons, <- IH.
  destruct (append_map tag l) as [b2 e2]. unfold utf8_string. simpl.
  destruct (utf8_valid (bytes_of k)), (utf8_valid (bytes_of v)); simpl; naive_solver.
Qed.

Lemma message_field_error {M} (f : M -> list byte * option m_error) tag v :
  (append_message f tag v).2 = None <->
  match v with Some m => (f m).2 = None | None => True end.
Proof. destruct v as [m |]; simpl; [| done]. destruct (f m) as [b [e |]]; done. Qed.

Lemma marshal_fields_error fields u :
  (marshal_fields fields u).2 = None <-> Forall (fun f => f.2 = None) fields.
Proof.
  unfold marshal_fields. split.
  - destruct (marshal_loop _ _ _ _) as [r e] eqn:E. simpl. intros ->.
    by apply marshal_loop_ok in E as (_ & ? & _).
  - intros Hf. generalize (@nil byte). induction Hf as [| [b e] fs He _ IH]; intros acc; [done |].
    simpl in He. subst e. apply IH.
Qed.

Definition attributes_utf8 (a : option Attributes) : Prop :=
  match a with Some a => utf8_string (Type_ a) | None => True end.

(** Every string field of the message is UTF-8; the log line itself is bytes
    and may be anything. *)
Definition source_utf8 (m : SourceMessage) : Prop :=
  utf8_string (Id m) /\ map_Forall (fun k v => utf8_string k /\ utf8_string v) (Meta m) /\
  attributes_utf8 (Attributes_ m).

Lemma Attributes_error a :
  (Attributes_marshal a).2 = None <-> utf8_string (Type_ a).
Proof.
  unfold Attributes_marshal. rewrite marshal_fields_error, !list.Forall_cons, string_field_error.
  unfold appendVarintS64ValueNoZero. destruct (_ =? 0); naive_solver.
Qed.

Lemma map_order_Forall (P : string -> string -> Prop) (m : gmap string string) :
  Forall (fun kv => P kv.1 kv.2) (map_order m) <-> map_Forall P m.
Proof.
  rewrite map_Forall_to_list, !Forall_forall. unfold uncurry.
  pose proof (map_order_perm m) as Hp. split.
  - intros HF [k v] Hin. apply (HF (k, v)). by apply (Permutation_in _ (Permutation_sym Hp)).
  - intros HF [k v] Hin. apply (HF (k, v)). by apply (Permutation_in _ Hp).
Qed.

(** [ToProtobuf] of a source message reports an error exactly when one of
    its strings (id, meta keys and values, type) is not valid UTF-8: the bytes
    of the log line never matter. *)
Theorem source_marshal_error m :
  (ToProtobuf m).2 = None <-> source_utf8 m.
Proof.
  change (ToProtobuf m) with (SourceMessage_marshal m).
  unfold SourceMessage_marshal, source_utf8, attributes_utf8.
  rewrite marshal_fields_error, !list.Forall_cons, string_field_error, map_field_error,
    message_field_error,
    (map_order_Forall (fun k v => utf8_string k /\ utf8_string v)).
  assert ((appendBytes3 2 (Message_ m)).2 = None) by by destruct (Message_ m).
  pose proof Attributes_error. destruct (Attributes_ m); naive_solver.
Qed.

Lemma broker_marshal_error s ts m :
  (ToProtobuf (SourceToBroker s ts m)).2 = None <->
  utf8_string s /\ Forall utf8_string ts /\ (ToProtobuf m).2 = None.
Proof.
  change (ToProtobuf (SourceToBroker s ts m))
    with (BrokerMessage_marshal (SourceToBroker s ts m)).
  unfold BrokerMessage_marshal, SourceToBroker.
  cbn [Broker_Source Broker_Targets Broker_SourceMessage BrokerMessage_unrecognized].
  rewrite marshal_fields_error, !list.Forall_cons, string_field_error, strings_field_error,
    message_field_error. naive_solver.
Qed.

Lemma target_marshal_error t s m u :
  (ToProtobuf (BrokerToTarget t (Build_BrokerMessage s u (Some m) []))).2 = None <->
  utf8_string t /\ utf8_string s /\ (ToProtobuf m).2 = None.
Proof.
  change (ToProtobuf (BrokerToTarget t ?b)) with (TargetMessage_marshal (BrokerToTarget t b)).
  unfold TargetMessage_marshal, BrokerToTarget.
  cbn [Target_Source Target_Target Target_SourceMessage TargetMessage_unrecognized
       Broker_Source Broker_SourceMessage].
  rewrite marshal_fields_error, !list.Forall_cons, !string_field_error, message_field_error.
  naive_solver.
Qed.

(** C17. A log item that a source marshalled goes through the broker unchanged:
    decoding the item, wrapping it for the broker, decoding that in a worker
    and wrapping it for a target gives the target the original item, with the
    names of the source and of the target, and no step reports an error. *)
Theorem pipeline_roundtrip m source target targets b1 b2 b3 :
  SourceMessage_wf m ->
  utf8_string source -> utf8_string target -> Forall utf8_string targets ->
  ToProtobuf m = (b1, None) ->
  (ToProtobuf (SourceToBroker source targets m)).1 = b2 ->
  (ToProtobuf (BrokerToTarget target (SourceToBroker source targets m))).1 = b3 ->
  len b1 < pow64 -> len b2 < pow64 -> len b3 < pow64 ->
  ProtobufToSource b1 = (m, None) /\
  ToProtobuf (SourceToBroker source targets m) = (b2, None) /\
  ProtobufToBroker b2
  = ({| Broker_Source := source; Broker_Targets := targets;
        Broker_SourceMessage := Some m; BrokerMessage_unrecognized := [] |}, None) /\
  ToProtobuf (BrokerToTarget target (SourceToBroker source targets m)) = (b3, None) /\
  ProtobufToTarget b3
  = ({| Target_Target := target; Target_Source := source;
        Target_SourceMessage := Some m; TargetMessage_unrecognized := [] |}, None).
Proof.
  intros Hwf Hs Ht Hts H1 H2 H3 Hl1 Hl2 Hl3.
  assert ((ToProtobuf m).2 = None) as Hm by by rewrite H1.
  assert (ToProtobuf (SourceToBroker source targets m) = (b2, None)) as E2.
  { rewrite (surjective_pairing (ToProtobuf _)), H2. f_equal.
    by apply broker_marshal_error. }
  assert (ToProtobuf (BrokerToTarget target (SourceToBroker source targets m)) = (b3, None))
    as E3.
  { rewrite (surjective_pairing (ToProtobuf _)), H3. f_equal.
    by apply target_marshal_error. }
  split_and!; try done.
  - by apply Unmarshal_Marshal.
  - by apply (Unmarshal_Marshal (SourceToBroker source targets m)).
  - by apply (Unmarshal_Marshal (BrokerToTarget target (SourceToBroker source targets m))).
Qed.

(** C31. Whatever order the map iteration chose, the bytes of every message
    type decode to the message: the three codecs satisfy their interface. *)
Theorem codec_roundtrip (sm : SourceMessage) (bm : BrokerMessage) (tm : TargetMessage)
    b1 b2 b3 :
  wf sm -> wf bm -> wf tm ->
  ToProtobuf sm = (b1, None) -> ToProtobuf bm = (b2, None) -> ToProtobuf tm = (b3, None) ->
  len b1 < pow64 -> len b2 < pow64 -> len b3 < pow64 ->
  ProtobufToSource b1 = (sm, None) /\ ProtobufToBroker b2 = (bm, None) /\
  ProtobufToTarget b3 = (tm, None).
Proof. intros. split_and!; by apply Unmarshal_Marshal. Qed.
End Functions.

(** ** Concrete messages *)
#[local] Existing Instance default_order.

Definition demo_message : SourceMessage :=
  {| Id := "1"; Message_ := bytes_of "Test"; Meta := {["some-key" := "some-value"]};
     Attributes_ := Some {| Timestamp := -5; Type_ := "t"; Attributes_unrecognized := [] |};
     SourceMessage_unrecognized := [] |}.

Definition demo_bytes : list byte := (ToProtobuf demo_message).1.

Example demo_bytes_length : length demo_bytes = 49%nat.
Proof. by vm_compute. Qed.

(** A log line that is not UTF-8 is fine, a meta value that is not is an error. *)
Example utf8_cases :
  utf8_valid [xc3; xa9] = true /\ utf8_valid [xc0; x80] = false /\
  utf8_valid [xed; xa0; x80] = false /\ utf8_valid [xf0; x9f; x98; x80] = true.
Proof. by vm_compute. Qed.

Lemma pipeline_roundtrip_witness :
  let item := demo_message in
  let wrapped := SourceToBroker "src" ["a"; "b"] item in
  ProtobufToBroker (ToProtobuf wrapped).1 = (wrapped, None) /\
  ProtobufToTarget (ToProtobuf (BrokerToTarget "a" wrapped)).1
  = (BrokerToTarget "a" wrapped, None).
Proof.
  intros item wrapped.
  destruct (pipeline_roundtrip demo_message "src" "a" ["a"; "b"] demo_bytes
    (ToProtobuf wrapped).1 (ToProtobuf (BrokerToTarget "a" wrapped)).1)
    as (_ & _ & Hb & _ & Ht); [.. | by split]; try by vm_compute.
  repeat constructor.
Defined.

Lemma codec_roundtrip_witness :
  ProtobufToSource demo_bytes = (demo_message, None).
Proof.
  set (wrapped := SourceToBroker "src" ["a"] demo_message).
  destruct (codec_roundtrip demo_message wrapped (BrokerToTarget "a" wrapped)
    demo_bytes (ToProtobuf wrapped).1 (ToProtobuf (BrokerToTarget "a" wrapped)).1)
    as (Hs & _); [.. | exact Hs]; by vm_compute.
Defined.
