(* ===== verification/Bufio.v ===== *)
(** * Connections and buffered readers

    What [protocol.go] uses of the Go standard library: [net.Conn] as a
    sequence of segments and errors that will arrive, [bufio.Reader] with its
    default buffer of 4096 bytes, [io.EOF], and [encoding/binary]. *)
From S2P Require Import Prelude Wire.

(** ** Errors and connections *)
Inductive io_error := EOF | NetError (e : string).

#[export] Instance io_error_eq_dec : EqDecision io_error.
Proof. solve_decision. Defined.

(** What the peer's side of a connection will deliver: a segment of bytes, or
    a transient error; after the last event every read reports [EOF]. *)
Inductive net_event := Segment (bs : list byte) | Failure (e : string).

(** [conn.Read(p)] with [len(p) = n]. *)
Definition conn_read (n : Z) (rd : list net_event)
    : list byte * option io_error * list net_event :=
  match rd with
  | [] => ([], Some EOF, [])
  | Failure e :: rd => ([], Some (NetError e), rd)
  | Segment bs :: rd =>
      let k := Z.to_nat n in
      (take k bs, None,
       match drop k bs with [] => rd | rest => Segment rest :: rd end)
  end.

(** The writing side: what was sent, and the error that writes report once the
    connection is closed or broken. *)
Record conn := { sent : list (list byte); broken : option io_error }.

Definition conn_write (b : list byte) (c : conn) : option io_error * conn :=
  match broken c with
  | Some e => (Some e, c)
  | None => (None, {| sent := sent c ++ [b]; broken := None |})
  end.

Definition conn_close (c : conn) : conn :=
  {| sent := sent c; broken := Some (NetError "use of closed network connection") |}.

(** ** [bufio.Reader] *)
Record reader := { buf : list byte; rd : list net_event }.

Definition NewReader (rd : list net_event) : reader := {| buf := []; rd := rd |}.

Definition buffer_size : Z := 4096.

(** Copy at most [n] of the buffered bytes. *)
Definition read_buffered (n : Z) (r : reader) : list byte * option io_error * reader :=
  (take (Z.to_nat n) (buf r), None, {| buf := drop (Z.to_nat n) (buf r); rd := rd r |}).

(** [Reader.Read(p)] with [len(p) = n]: buffered bytes if there are any;
    otherwise one read of the connection, into [p] when [p] is at least as
    large as the buffer.  It returns fewer than [n] bytes without an error. *)
Definition Read (n : Z) (r : reader) : list byte * option io_error * reader :=
  if n =? 0 then ([], None, r)
  else match buf r with
       | [] =>
           if buffer_size <=? n then
             let '(bs, e, rd) := conn_read n (rd r) in (bs, e, {| buf := []; rd := rd |})
           else
             let '(bs, e, rd) := conn_read buffer_size (rd r) in
             match bs with
             | [] => ([], e, {| buf := []; rd := rd |})
             | _ => read_buffered n {| buf := bs; rd := rd |}
             end
       | _ => read_buffered n r
       end.

(** The slice [p] of length [n] after a read: the rest stays zero. *)
Definition filled (n : Z) (bs : list byte) : list byte :=
  bs ++ replicate (Z.to_nat n - length bs) x00.

(** ** [encoding/binary], little endian *)
Definition put_uint32 (v : Z) : list byte :=
  [byte_of_Z v; byte_of_Z (Z.shiftr v 8); byte_of_Z (Z.shiftr v 16);
   byte_of_Z (Z.shiftr v 24)].

Definition uint32_of (b : list byte) : Z :=
  match b with
  | b0 :: b1 :: b2 :: b3 :: _ =>
      Z_of_byte b0 + Z.shiftl (Z_of_byte b1) 8 + Z.shiftl (Z_of_byte b2) 16
      + Z.shiftl (Z_of_byte b3) 24
  | _ => 0
  end.

Lemma uint32_roundtrip v rest : 0 <= v < pow32 -> uint32_of (put_uint32 v ++ rest) = v.
Proof.
  intros Hv. unfold put_uint32, uint32_of. cbn [app]. rewrite !Z_of_byte_of_Z.
  rewrite !Z.shiftr_div_pow2, !Z.shiftl_mul_pow2 by lia.
  change (2 ^ 8) with 256. change (2 ^ 16) with (256 * 256).
  change (2 ^ 24) with (256 * 256 * 256). unfold pow32 in Hv.
  rewrite <- !Z.div_div by lia.
  pose proof (Z.div_mod v 256). pose proof (Z.div_mod (v / 256) 256).
  pose proof (Z.div_mod (v / 256 / 256) 256).
  assert (0 <= v / 256 / 256 / 256 < 256).
  { split; [repeat (apply Z.div_pos; [| lia]); lia |].
    repeat (apply Z.div_lt_upper_bound; [lia |]). lia. }
  rewrite (Z.mod_small (v / 256 / 256 / 256)) by done. lia.
Qed.

Lemma uint32_of_nonneg b : 0 <= uint32_of b.
Proof.
  unfold uint32_of. destruct b as [| b0 [| b1 [| b2 [| b3 b]]]]; try done.
  rewrite !Z.shiftl_mul_pow2 by lia.
  pose proof (Z_of_byte_range b0). pose proof (Z_of_byte_range b1).
  pose proof (Z_of_byte_range b2). pose proof (Z_of_byte_range b3). lia.
Qed.

(** ** Reading *)

(** The bytes and events still to come; every read that does not report [EOF]
    decreases it, or moves bytes into the buffer. *)
Definition event_size (e : net_event) : nat :=
  match e with Segment bs => S (length bs) | Failure _ => 1 end.

Definition reader_size (r : reader) : nat :=
  length (buf r) + sum_list_with event_size (rd r).

Lemma conn_read_size n rd bs e rd' :
  0 < n -> conn_read n rd = (bs, e, rd') -> e <> Some EOF ->
  (length bs + sum_list_with event_size rd' <= sum_list_with event_size rd)%nat /\
  (bs = [] -> (sum_list_with event_size rd' < sum_list_with event_size rd)%nat).
Proof.
  intros Hn. destruct rd as [| [s | err] rd]; simpl; intros [= <- <- <-] He;
    [done | | simpl; lia].
  pose proof (take_drop (Z.to_nat n) s) as Htd. apply (f_equal length) in Htd.
  rewrite length_app in Htd. split.
  - destruct (drop (Z.to_nat n) s) as [| x t]; simpl in *; lia.
  - intros Hnil. destruct s as [| x s]; [rewrite drop_nil; simpl; lia |].
    assert (Z.to_nat n <> 0%nat) by lia. by destruct (Z.to_nat n).
Qed.

Lemma Read_size n r bs e r' :
  0 < n -> Read n r = (bs, e, r') -> e <> Some EOF ->
  (reader_size r' < reader_size r)%nat.
Proof.
  intros Hn. unfold Read. rewrite (proj2 (Z.eqb_neq n 0)) by lia.
  assert (forall b rd0, b <> [] ->
    read_buffered n {| buf := b; rd := rd0 |} = (bs, e, r') ->
    (reader_size r' < length b + sum_list_with event_size rd0)%nat) as Hbuf.
  { intros b rd0 Hb [= <- <- <-]. unfold reader_size. simpl. rewrite length_drop.
    assert (length b <> 0)%nat by by destruct b. lia. }
  destruct r as [b rd0]. unfold reader_size at 2. simpl. destruct b as [| x b].
  - destruct (_ <=? _) eqn:Hbig.
    + destruct (conn_read n rd0) as [[bs1 e1] rd1] eqn:Hc. intros [= <- <- <-] He.
      destruct (conn_read_size _ _ _ _ _ Hn Hc He) as [H1 H2]. unfold reader_size. simpl.
      destruct bs1; [by apply H2 | simpl in H1; lia].
    + destruct (conn_read buffer_size rd0) as [[bs1 e1] rd1] eqn:Hc.
      destruct bs1 as [| y bs1].
      * intros [= <- <- <-] He. unfold reader_size. simpl.
        by apply (conn_read_size _ _ _ _ _ (eq_refl : 0 < buffer_size) Hc).
      * intros Hr He. assert (e1 <> Some EOF) as He1.
        { destruct rd0 as [| [|] rd0]; simpl in Hc; [done | | done]. by injection Hc as _ <- _. }
        destruct (conn_read_size _ _ _ _ _ (eq_refl : 0 < buffer_size) Hc He1) as [H1 _].
        apply Hbuf in Hr; [| done]. simpl in *. lia.
  - intros Hr He. apply Hbuf in Hr; done.
Qed.

Lemma Read_size_le n r bs e r' :
  0 <= n -> Read n r = (bs, e, r') -> e <> Some EOF ->
  (reader_size r' <= reader_size r)%nat.
Proof.
  intros Hn Hr He. destruct (Z.eqb_spec n 0) as [-> | Hne].
  - unfold Read in Hr. simpl in Hr. by injection Hr as _ _ <-.
  - apply Read_size in Hr; [lia | lia | done].
Qed.

(** Reading from a buffer that holds enough is exact. *)
Lemma Read_exact b rest rd0 :
  b <> [] ->
  Read (len b) {| buf := b ++ rest; rd := rd0 |} = (b, None, {| buf := rest; rd := rd0 |}).
Proof.
  intros Hb. unfold Read. assert (0 < len b) as Hl by (unfold len; destruct b; [done | simpl; lia]).
  rewrite (proj2 (Z.eqb_neq _ 0)) by lia.
  cbn [buf]. destruct (b ++ rest) as [| c l] eqn:E; [by destruct b |]. rewrite <- E.
  unfold read_buffered, len. cbn [buf rd]. rewrite Nat2Z.id.
  by rewrite take_app_length, drop_app_length.
Qed.

Lemma filled_exact b : filled (len b) b = b.
Proof. unfold filled, len. rewrite Nat2Z.id, Nat.sub_diag. apply app_nil_r. Qed.

(** A read on an empty buffer when a segment of at most the buffer size is
    next: the segment is buffered whole. *)
Lemma Read_refill n s rd0 :
  0 < n < buffer_size -> s <> [] -> len s <= buffer_size ->
  Read n {| buf := []; rd := Segment s :: rd0 |} = Read n {| buf := s; rd := rd0 |}.
Proof.
  intros Hn Hs Hl. unfold Read. rewrite (proj2 (Z.eqb_neq n 0)) by lia. cbn [buf rd].
  rewrite (proj2 (Z.leb_gt _ _)) by lia. cbn [conn_read].
  assert (length s <= Z.to_nat buffer_size)%nat by (unfold len in Hl; lia).
  rewrite take_ge, drop_ge by done. by destruct s.
Qed.
