(* ===== verification/Protocol.v ===== *)
(** * The wire protocol: [src/protocol/protocol.go]

    Length-prefixed protocol-buffer frames, the reading and writing loops and
    the HELLO / OK / BYE handshakes. *)
From S2P Require Import Prelude Wire Message Bufio.

(** ** Data *)
Definition CommandHello : string := "HELLO".
Definition CommandOk : string := "OK".
Definition CommandSourceMessage : string := "SMSG".
Definition CommandTargetLog : string := "TMSG".
Definition CommandBye : string := "BYE".

(** [type Message struct] of [protobuf.pb.go]. *)
Record Message := {
  Command : string;
  Data : list byte;
  Message_unrecognized : list byte;
}.

Definition Message_empty : Message := Build_Message "" [] [].

Definition Message_table (tag : Z) : option (unmarshaler Message) :=
  match tag with
  | 1 => Some (unmarshalUTF8String (fun s m =>
           Build_Message s (Data m) (Message_unrecognized m)))
  | 2 => Some (unmarshalBytesValue (fun b m =>
           Build_Message (Command m) b (Message_unrecognized m)))
  | _ => None
  end.

Definition Message_keep (b : list byte) (m : Message) : Message :=
  Build_Message (Command m) (Data m) (Message_unrecognized m ++ b).

Definition Message_marshal (m : Message) : list byte * option m_error :=
  marshal_fields
    [appendUTF8StringValueNoZero 1 (Command m); appendBytes3 2 (Data m)]
    (Message_unrecognized m).

Lemma Message_roundtrip m b :
  Message_unrecognized m = [] -> Message_marshal m = (b, None) -> len b < pow64 ->
  unmarshal Message_table Message_keep b Message_empty = (m, None).
Proof.
  destruct m as [c d u]. intros Hu Hm Hl. simpl in *. subst u.
  unfold Message_marshal in Hm. simpl in Hm. marshalled Hm.
  eapply parses_unmarshal.
  parse_field (parses_string_field Message_table Message_keep 1).
  parse_field (parses_bytes_field Message_table Message_keep 2).
  apply parses_nil.
Qed.

#[export] Program Instance Message_proto : ProtoMessage Message := {|
  Marshal := Message_marshal;
  Unmarshal b := unmarshal Message_table Message_keep b Message_empty;
  wf m := Message_unrecognized m = [];
|}.
Next Obligation. intros. by apply Message_roundtrip. Qed.

(** ** Reading *)
Inductive read_error := IoErr (e : io_error) | PbErr (e : pb_error).

#[export] Instance read_error_eq_dec : EqDecision read_error.
Proof. solve_decision. Defined.

(** [ReadMessage]: the message, the error and the reader afterwards.  Neither
    read is checked for the number of bytes it delivered. *)
Definition ReadMessage (r : reader) : Message * option read_error * reader :=
  let '(bs, err, r1) := Read 4 r in
  match err with
  | Some e => (Message_empty, Some (IoErr e), r1)
  | None =>
      let size := uint32_of (filled 4 bs) in
      let '(bs, err, r2) := Read size r1 in
      match err with
      | Some e => (Message_empty, Some (IoErr e), r2)
      | None =>
          let '(message, e) := Unmarshal (filled size bs) in
          (message, PbErr <$> e, r2)
      end
  end.

(** [ReadToChannel]: what it sends on [messageChan] (left) and [errorChan]
    (right), in order, until it returns; [None] when the fuel runs out. *)
Fixpoint ReadToChannel (fuel : nat) (r : reader) : option (list (Message + read_error)) :=
  match fuel with
  | O => None
  | S fuel =>
      let '(message, err, r') := ReadMessage r in
      match err with
      | Some (IoErr EOF) => Some []
      | Some e => cons (inr e) <$> ReadToChannel fuel r'
      | None => cons (inl message) <$> ReadToChannel fuel r'
      end
  end.

(** ** Writing *)
Inductive write_error := MarshalErr (e : m_error) | WriteErr (e : io_error).

Definition MessageToProtobuf (message : Message) : list byte + write_error :=
  match Marshal message with
  | (data, None) => inl data
  | (_, Some e) => inr (MarshalErr e)
  end.

(** The bytes [WriteProtobuf] sends: the length modulo 2^32, then the data. *)
Definition frame_bytes (data : list byte) : list byte := put_uint32 (u32 (len data)) ++ data.

Definition WriteProtobuf (c : conn) (data : list byte) : option write_error * conn :=
  let '(err, c) := conn_write (frame_bytes data) c in (WriteErr <$> err, c).

Definition WriteMessage (c : conn) (message : Message) : option write_error * conn :=
  match MessageToProtobuf message with
  | inr e => (Some e, c)
  | inl data => WriteProtobuf c data
  end.

Definition WriteNewMessage (c : conn) (command data : string)
    : Message * option write_error * conn :=
  let message := {| Command := command; Data := bytes_of data; Message_unrecognized := [] |} in
  let '(err, c) := WriteMessage c message in (message, err, c).

(** [WriteFromChannel] for the messages received so far: the errors it sent
    on [errorChan] and the connection. *)
Fixpoint WriteFromChannel (c : conn) (messages : list Message) : list write_error * conn :=
  match messages with
  | [] => ([], c)
  | message :: messages =>
      let '(err, c) := WriteMessage c message in
      let '(errs, c) := WriteFromChannel c messages in
      (match err with Some e => e :: errs | None => errs end, c)
  end.

(** ** Handshakes *)
Definition WaitForCommand (command : string) (r : reader) : bool * reader :=
  let '(message, err, r') := ReadMessage r in
  (match err with
   | Some _ => false
   | None => String.eqb (Command message) command
   end, r').

Definition WaitForHello (r : reader) : bool * reader := WaitForCommand CommandHello r.
Definition WaitForOk (r : reader) : bool * reader := WaitForCommand CommandOk r.

Definition SendHello (c : conn) : bool * conn :=
  let '(_, err, c) := WriteNewMessage c CommandHello "" in
  (match err with Some _ => false | None => true end, c).

Definition SendOk (c : conn) : conn := (WriteNewMessage c CommandOk "").2.
Definition SendBye (c : conn) : conn := (WriteNewMessage c CommandBye "").2.

(** ** Frames *)

(** The frame of a message that marshals without error. *)
Definition frame (m : Message) : list byte := frame_bytes (Marshal m).1.

(** A message that can be framed: it marshals, and its length fits 32 bits. *)
Definition framable (m : Message) : Prop :=
  Message_unrecognized m = [] /\ (Marshal m).2 = None /\ len (Marshal m).1 < pow32.

Lemma framable_unmarshal m :
  framable m -> Unmarshal (Marshal m).1 = (m, None).
Proof.
  intros (Hu & He & Hl). apply Unmarshal_Marshal; [done | |].
  - rewrite <- He. apply surjective_pairing.
  - unfold pow32, pow64 in *. lia.
Qed.

Lemma frame_length m : len (frame m) = 4 + len (Marshal m).1.
Proof. unfold frame, frame_bytes. by rewrite len_app. Qed.

(** Reading the header and the body of a frame whose bytes are buffered. *)
Lemma ReadMessage_buffered data rest rd0 :
  len data < pow32 ->
  ReadMessage {| buf := frame_bytes data ++ rest; rd := rd0 |}
  = (let '(m, e) := Unmarshal data in
     (m, PbErr <$> e, {| buf := rest; rd := rd0 |})).
Proof.
  intros Hl. unfold ReadMessage, frame_bytes. rewrite <- app_assoc.
  change 4 with (len (put_uint32 (u32 (len data)))) at 1.
  rewrite Read_exact by done.
  change 4 with (len (put_uint32 (u32 (len data)))). rewrite filled_exact.
  rewrite <- (app_nil_r (put_uint32 _)), uint32_roundtrip by apply Z.mod_pos_bound, eq_refl.
  unfold u32. rewrite Z.mod_small by auto with u64.
  destruct data as [| b data].
  - reflexivity.
  - rewrite Read_exact by done. rewrite filled_exact. by destruct (Unmarshal _).
Qed.

Lemma ReadMessage_frame m rest rd0 :
  framable m ->
  ReadMessage {| buf := frame m ++ rest; rd := rd0 |}
  = (m, None, {| buf := rest; rd := rd0 |}).
Proof.
  intros Hm. unfold frame. rewrite ReadMessage_buffered by apply Hm.
  by rewrite framable_unmarshal.
Qed.

(** A segment no longer than the buffer is buffered whole by the header read. *)
Lemma ReadMessage_refill s rd0 :
  s <> [] -> len s <= buffer_size ->
  ReadMessage {| buf := []; rd := Segment s :: rd0 |} = ReadMessage {| buf := s; rd := rd0 |}.
Proof. intros Hs Hl. unfold ReadMessage. by rewrite Read_refill. Qed.

(** ** Streams of frames *)

Lemma reader_step_size r m err r' :
  ReadMessage r = (m, err, r') -> err <> Some (IoErr EOF) ->
  (reader_size r' < reader_size r)%nat.
Proof.
  unfold ReadMessage. intros Hr He.
  destruct (Read 4 r) as [[bs e1] r1] eqn:H1.
  assert (e1 <> Some EOF -> (reader_size r1 < reader_size r)%nat) as Hs1 by
    (intros; by apply (Read_size 4 r bs e1)).
  destruct e1 as [e1 |].
  { injection Hr as _ <- <-. apply Hs1. congruence. }
  specialize (Hs1 ltac:(done)).
  destruct (Read (uint32_of (filled 4 bs)) r1) as [[bs2 e2] r2] eqn:H2.
  pose proof (uint32_of_nonneg (filled 4 bs)) as Hpos.
  assert (e2 <> Some EOF -> (reader_size r2 <= reader_size r1)%nat) as Hs2 by
    (intros; by apply (Read_size_le _ _ _ _ _ Hpos H2)).
  destruct e2 as [e2 |].
  - injection Hr as _ <- <-. assert (e2 <> EOF) by congruence.
    assert (Some e2 <> Some EOF) as Hne by congruence. specialize (Hs2 Hne). lia.
  - destruct (Unmarshal _) as [m' e']. injection Hr as _ _ <-.
    specialize (Hs2 ltac:(done)). lia.
Qed.

Lemma read_to_channel_fuel r fuel fuel' out :
  ReadToChannel fuel r = Some out -> (fuel <= fuel')%nat ->
  ReadToChannel fuel' r = Some out.
Proof.
  revert r fuel' out. induction fuel as [| fuel IH]; intros r fuel' out; [done |].
  destruct fuel' as [| fuel']; [lia |]. simpl. intros Hrun Hle.
  destruct (ReadMessage r) as [[m e] r'].
  destruct e as [[[|]|] |]; try done;
    (destruct (ReadToChannel fuel r') as [o |] eqn:E; [| done]; simpl in Hrun;
     rewrite (IH _ fuel' o E) by lia; done).
Qed.

Lemma read_to_channel_ends r fuel :
  (reader_size r < fuel)%nat -> exists out, ReadToChannel fuel r = Some out.
Proof.
  revert r. induction fuel as [| fuel IH]; intros r Hf; [lia |]. simpl.
  destruct (ReadMessage r) as [[m e] r'] eqn:Hr.
  assert (e <> Some (IoErr EOF) -> exists out, ReadToChannel fuel r' = Some out) as Hgo.
  { intros He. apply IH. pose proof (reader_step_size _ _ _ _ Hr He). lia. }
  destruct e as [[[|]|] |]; [by exists [] | ..];
    (destruct Hgo as [out ->]; [done |]; simpl; eauto).
Qed.

(** C39. The reading loop always comes to an end on a connection that delivers
    finitely many bytes and errors: as many iterations as there are bytes and
    events left are enough. *)
Theorem read_to_channel_terminates r fuel :
  (reader_size r < fuel)%nat -> exists out, ReadToChannel fuel r = Some out.
Proof. exact (read_to_channel_ends r fuel). Qed.

(** The end of the stream is never reported: whatever arrives, no value
    that [ReadToChannel] sends on [errorChan] is [io.EOF], so a receiver that
    waits for [io.EOF] there waits for ever. *)
Theorem read_to_channel_hides_eof fuel r out :
  ReadToChannel fuel r = Some out -> inr (IoErr EOF) ∉ out.
Proof.
  revert r out. induction fuel as [| fuel IH]; intros r out; [done |]. simpl.
  destruct (ReadMessage r) as [[m e] r'].
  destruct e as [[[|s]|p] |]; intros Hrun.
  - injection Hrun as <-. apply not_elem_of_nil.
  - destruct (ReadToChannel fuel r') as [o |] eqn:E; [| done]. injection Hrun as <-.
    rewrite not_elem_of_cons. split; [done | by apply (IH r')].
  - destruct (ReadToChannel fuel r') as [o |] eqn:E; [| done]. injection Hrun as <-.
    rewrite not_elem_of_cons. split; [done | by apply (IH r')].
  - destruct (ReadToChannel fuel r') as [o |] eqn:E; [| done]. injection Hrun as <-.
    rewrite not_elem_of_cons. split; [done | by apply (IH r')].
Qed.

(** Messages batched into segments that end on frame boundaries. *)
Definition segments (batches : list (list Message)) : list net_event :=
  (fun ms => Segment (ms ≫= frame)) <$> batches.

Lemma read_batch ms rest rd0 fuel out :
  Forall framable ms ->
  ReadToChannel fuel {| buf := rest; rd := rd0 |} = Some out ->
  ReadToChannel (length ms + fuel) {| buf := (ms ≫= frame) ++ rest; rd := rd0 |}
  = Some ((inl <$> ms) ++ out).
Proof.
  intros Hms Hout. induction Hms as [| m ms Hm _ IH]; [done |].
  cbn [length Nat.add ReadToChannel].
  replace (((m :: ms) ≫= frame) ++ rest) with (frame m ++ (ms ≫= frame) ++ rest)
    by by rewrite bind_cons, app_assoc.
  rewrite ReadMessage_frame by done. by rewrite IH.
Qed.

Lemma bind_frame_nonempty ms : ms <> [] -> ms ≫= frame <> [].
Proof.
  destruct ms as [| m ms]; [done |]. intros _ H. rewrite bind_cons in H.
  apply app_nil in H as [H _]. pose proof (frame_length m) as Hl. rewrite H in Hl.
  pose proof (len_nonneg (Marshal m).1). change (len (@nil byte)) with 0 in Hl. lia.
Qed.

Lemma ReadToChannel_frames batches :
  Forall (fun ms => ms <> [] /\ Forall framable ms /\ len (ms ≫= frame) <= buffer_size)
    batches ->
  exists fuel, ReadToChannel fuel (NewReader (segments batches))
               = Some (inl <$> mjoin batches).
Proof.
  unfold NewReader. induction 1 as [| ms batches (Hne & Hms & Hl) _ [fuel IH]].
  { by exists 1%nat. }
  exists (length ms + fuel)%nat. unfold segments. rewrite fmap_cons.
  fold (segments batches).
  pose proof (read_batch ms [] (segments batches) fuel _ Hms IH) as Hb.
  rewrite app_nil_r in Hb. change (mjoin (ms :: batches)) with (ms ++ mjoin batches).
  rewrite fmap_app, <- Hb.
  destruct ms as [| m ms]; [done |]. cbn [length Nat.add ReadToChannel].
  by rewrite ReadMessage_refill by (done || by apply bind_frame_nonempty).
Qed.

(** C21. Framing: messages that arrive in segments of at most 4096 bytes ending
    on frame boundaries are delivered on [messageChan] one by one, in order,
    each equal to the message that was written, and nothing else is sent; any
    larger fuel gives the same. *)
Theorem read_to_channel_frames batches :
  Forall (fun ms => ms <> [] /\ Forall framable ms /\ len (ms ≫= frame) <= buffer_size)
    batches ->
  exists fuel0, forall fuel, (fuel0 <= fuel)%nat ->
    ReadToChannel fuel (NewReader (segments batches)) = Some (inl <$> mjoin batches).
Proof.
  intros Hb. destruct (ReadToChannel_frames batches Hb) as [fuel0 Hr]. exists fuel0.
  intros fuel Hle. by eapply read_to_channel_fuel.
Qed.

(** ** Reads that deliver less than asked for *)

(** The payload of a message with data is a prefix that depends on the data
    only through its length, and the data. *)
Definition payload_prefix (m : Message) : list byte :=
  (appendUTF8StringValueNoZero 1 (Command m)).1
  ++ appendVarint (wiretag 2 2) ++ appendVarint (len (Data m)).

Lemma payload_split m :
  Message_unrecognized m = [] -> (Marshal m).2 = None -> Data m <> [] ->
  (Marshal m).1 = payload_prefix m ++ Data m.
Proof.
  destruct m as [c d u]. cbn [Message_unrecognized Data]. intros -> He Hd.
  change (Marshal ?x) with (Message_marshal x) in *. unfold Message_marshal in *.
  cbn [Message_unrecognized Data Command] in *.
  assert (appendBytes3 2 d = (append_delimited 2 d, None)) as E by by destruct d.
  rewrite E in *. destruct (marshal_fields _ []) as [b e] eqn:Hm. simpl in He. subst e.
  apply marshal_fields_ok in Hm as [_ ->].
  unfold payload_prefix, append_delimited. cbn [Command Data fst fmap list_fmap].
  change (mjoin [?x; ?y]) with (x ++ y ++ []). by rewrite app_nil_r, <- !app_assoc.
Qed.

Lemma same_length_framable c d d' :
  framable (Build_Message c d []) -> d <> [] -> length d' = length d ->
  framable (Build_Message c d' []) /\
  payload_prefix (Build_Message c d' []) = payload_prefix (Build_Message c d []).
Proof.
  intros (_ & He & Hl) Hd Hlen.
  assert (d' <> []) as Hd' by (destruct d, d'; done).
  assert (payload_prefix (Build_Message c d' []) = payload_prefix (Build_Message c d []))
    as Hp by (unfold payload_prefix, len; simpl; by rewrite Hlen).
  assert ((Marshal (Build_Message c d' [])).2 = None) as He'.
  { change (Marshal ?x) with (Message_marshal x) in *. unfold Message_marshal in *.
    rewrite marshal_fields_error, !list.Forall_cons in *. destruct He as (? & _ & _).
    split_and!; try done. by destruct d'. }
  split; [| done]. split_and!; [done.. |].
  rewrite payload_split in * by done. rewrite Hp. rewrite len_app in *.
  unfold len in *. simpl in *. by rewrite Hlen.
Qed.

(** The data as it is seen when only the first [n] bytes of the payload came. *)
Definition truncated (m : Message) (n : nat) : list byte :=
  take (n - length (payload_prefix m)) (Data m)
  ++ replicate (length (Marshal m).1 - n) x00.

(** When the buffer holds the header and [n] bytes of the payload, reaching at
    least into the data, the message is decoded from these bytes and zeros. *)
Lemma ReadMessage_short m n rd0 :
  framable m -> (length (payload_prefix m) <= n)%nat -> (n < length (Marshal m).1)%nat ->
  (0 < n)%nat ->
  ReadMessage {| buf := take (4 + n) (frame m); rd := rd0 |}
  = ({| Command := Command m; Data := truncated m n; Message_unrecognized := [] |},
     None, {| buf := []; rd := rd0 |}).
Proof.
  intros Hm Hpre Hn H0. pose proof Hm as (Hu & He & Hl).
  destruct m as [c d u]. cbn [Message_unrecognized] in Hu. subst u.
  assert (d <> []) as Hd.
  { intros ->. assert (length (Marshal (Build_Message c [] [])).1
      <= length (payload_prefix (Build_Message c [] [])))%nat; [| lia].
    change (Marshal ?x) with (Message_marshal x) in *. unfold Message_marshal in *.
    destruct (marshal_fields _ _) as [b e] eqn:Hmf. simpl in He. subst e.
    apply marshal_fields_ok in Hmf as [_ ->]. unfold payload_prefix. simpl.
    rewrite !length_app. simpl. lia. }
  pose proof (payload_split _ (eq_refl : Message_unrecognized (Build_Message c d []) = [])
    He Hd) as HP.
  set (m := Build_Message c d []) in *. set (P := (Marshal m).1) in *.
  set (d' := truncated m n).
  assert (length d' = length d) as Hlen.
  { unfold d', truncated. fold P. rewrite length_app, length_take, length_replicate.
    rewrite HP, length_app in *. simpl in *. lia. }
  destruct (same_length_framable c d d' Hm Hd Hlen) as [Hm' Hpp].
  assert (d' <> []) as Hd' by (destruct d, d'; done).
  assert (filled (len P) (take n P) = (Marshal (Build_Message c d' [])).1) as Hfill.
  { destruct Hm' as (_ & He' & _). rewrite payload_split by done. rewrite Hpp. fold m.
    unfold filled, len, d', truncated. cbn [Data]. fold P. rewrite Nat2Z.id, length_take.
    rewrite (Nat.min_l n) by lia. rewrite HP at 1.
    rewrite take_app_ge by done. by rewrite <- app_assoc. }
  unfold ReadMessage, frame, frame_bytes. fold P.
  change (take (4 + n) (put_uint32 ?x ++ ?y)) with (put_uint32 x ++ take n y).
  change 4 with (len (put_uint32 (u32 (len P)))) at 1. rewrite Read_exact by done.
  change 4 with (len (put_uint32 (u32 (len P)))). rewrite filled_exact.
  rewrite <- (app_nil_r (put_uint32 _)), uint32_roundtrip by apply Z.mod_pos_bound, eq_refl.
  unfold u32. rewrite Z.mod_small by auto with u64.
  assert (Read (len P) {| buf := take n P; rd := rd0 |}
          = (take n P, None, {| buf := []; rd := rd0 |})) as ->.
  { unfold Read. rewrite (proj2 (Z.eqb_neq _ 0)) by (unfold len; lia). cbn [buf].
    destruct (take n P) as [| b t] eqn:Ht.
    { apply (f_equal length) in Ht. rewrite length_take in Ht. simpl in Ht. lia. }
    rewrite <- Ht. unfold read_buffered. cbn [buf rd]. unfold len. rewrite Nat2Z.id.
    rewrite take_ge, drop_ge by (rewrite length_take; lia). done. }
  rewrite Hfill, framable_unmarshal by done. done.
Qed.

(** How much of a payload fits the buffer behind the header. *)
Definition body_room : nat := Z.to_nat (buffer_size - 4).

Lemma body_room_eq : Z.of_nat body_room = buffer_size - 4.
Proof. unfold body_room, buffer_size. lia. Qed.

#[global] Opaque body_room.

(** C35. A frame whose payload is longer than 4092 bytes is never read whole,
    even when it arrives in one piece: [ReadMessage] returns, without an
    error, a message whose data is cut at the buffer size and filled with
    zeros, and leaves the rest of the frame to be read as the next header. *)
Theorem long_message_corrupted m rd0 :
  framable m -> len (payload_prefix m) <= buffer_size - 4 ->
  buffer_size - 4 < len (Marshal m).1 ->
  ReadMessage {| buf := []; rd := Segment (frame m) :: rd0 |}
  = ({| Command := Command m; Data := truncated m body_room; Message_unrecognized := [] |},
     None, {| buf := []; rd := Segment (drop (4 + body_room) (frame m)) :: rd0 |}).
Proof.
  intros Hm Hpre Hl. pose proof body_room_eq as Hbr. unfold len in Hpre, Hl.
  pose proof (eq_refl : buffer_size = 4096) as Hbs.
  rewrite <- ReadMessage_short by first [exact Hm | lia].
  assert (4 + body_room < length (frame m))%nat as Hf.
  { pose proof (frame_length m) as E. unfold len in E. lia. }
  assert (4 + body_room = Z.to_nat buffer_size)%nat as Hk by lia. rewrite Hk in *.
  set (k := Z.to_nat buffer_size) in *. unfold ReadMessage.
  assert (Read 4 {| buf := []; rd := Segment (frame m) :: rd0 |}
          = Read 4 {| buf := take k (frame m); rd := Segment (drop k (frame m)) :: rd0 |})
    as ->; [| reflexivity].
  unfold Read. cbn [Z.eqb buf rd]. rewrite (proj2 (Z.leb_gt _ _)) by reflexivity.
  cbn [conn_read]. fold k.
  destruct (drop k (frame m)) as [| b t] eqn:Hd.
  { apply (f_equal length) in Hd. rewrite length_drop in Hd. cbn [length] in Hd. lia. }
  destruct (take k (frame m)) eqn:Ht; [| reflexivity].
  apply (f_equal length) in Ht. rewrite length_take in Ht. cbn [length] in Ht. lia.
Qed.

(** A frame of any length whose segment boundary falls inside the data is
    misread the same way: the reader does not wait for the second segment. *)
Theorem split_message_corrupted m n rd0 :
  framable m -> (length (payload_prefix m) <= n)%nat -> (0 < n)%nat ->
  (n < length (Marshal m).1)%nat -> Z.of_nat (4 + n) <= buffer_size ->
  ReadMessage (NewReader (Segment (take (4 + n) (frame m))
                          :: Segment (drop (4 + n) (frame m)) :: rd0))
  = ({| Command := Command m; Data := truncated m n; Message_unrecognized := [] |},
     None, NewReader (Segment (drop (4 + n) (frame m)) :: rd0)).
Proof.
  intros Hm Hpre H0 Hn Hb. unfold NewReader.
  rewrite ReadMessage_refill.
  - by rewrite ReadMessage_short.
  - unfold frame, frame_bytes. done.
  - unfold len. rewrite length_take. lia.
Qed.

(** ** Writing *)

(** Writing a message has exactly three outcomes: a message that does not
    marshal or a broken connection reports an error and sends nothing;
    otherwise one frame is sent. *)
Theorem write_message_spec c m :
  WriteMessage c m
  = match (Marshal m).2, broken c with
    | Some e, _ => (Some (MarshalErr e), c)
    | None, Some e => (Some (WriteErr e), c)
    | None, None => (None, {| sent := sent c ++ [frame m]; broken := None |})
    end.
Proof.
  unfold WriteMessage, MessageToProtobuf, WriteProtobuf, conn_write, frame.
  destruct (Marshal m) as [b [e |]]; simpl; [done |].
  by destruct (broken c).
Qed.

Lemma write_from_channel_sent c ms :
  Forall framable ms -> broken c = None ->
  WriteFromChannel c ms = ([], {| sent := sent c ++ (frame <$> ms); broken := None |}).
Proof.
  intros Hms. revert c. induction Hms as [| m ms (_ & He & _) _ IH]; intros c Hc.
  { simpl. rewrite app_nil_r. destruct c. simpl in *. by subst. }
  cbn [WriteFromChannel].
  assert (WriteMessage c m
          = (None, {| sent := sent c ++ [frame m]; broken := None |})) as ->.
  { unfold WriteMessage, MessageToProtobuf, WriteProtobuf, conn_write, frame.
    destruct (Marshal m) as [b e]. simpl in *. subst e. by rewrite Hc. }
  rewrite IH by done. simpl. by rewrite <- app_assoc.
Qed.

(** Round trip: messages written through [WriteFromChannel], each write
    arriving as one segment of at most 4096 bytes, come out of [ReadToChannel]
    unchanged, in order, with no error on either side. *)
Theorem write_read_roundtrip ms :
  Forall (fun m => framable m /\ len (frame m) <= buffer_size) ms ->
  let '(errs, c) := WriteFromChannel {| sent := []; broken := None |} ms in
  errs = [] /\
  exists fuel, ReadToChannel fuel (NewReader (Segment <$> sent c)) = Some (inl <$> ms).
Proof.
  intros Hms. assert (Forall framable ms) as Hf by (revert Hms; apply Forall_impl; by intros m [? _]).
  rewrite write_from_channel_sent by done. split; [done |]. cbn [sent app]. clear Hf.
  induction Hms as [| m ms [Hm Hl] _ [fuel IH]]; [by exists 1%nat |].
  exists (S fuel). rewrite !fmap_cons. cbn [ReadToChannel]. unfold NewReader in *.
  assert (frame m <> []) as Hne by done.
  rewrite ReadMessage_refill by done.
  pose proof (ReadMessage_frame m [] (Segment <$> (frame <$> ms)) Hm) as E.
  rewrite app_nil_r in E. rewrite E, IH. done.
Qed.

(** The handshakes: on an open connection HELLO and OK are sent and are
    each recognised by the matching wait, by no other wait, leaving the reader
    after the frame; on a broken connection [SendHello] reports failure. *)
Lemma handshake sent0 rest :
  let c := {| sent := sent0; broken := None |} in
  exists hello ok,
    SendHello c = (true, {| sent := sent0 ++ [hello]; broken := None |}) /\
    SendOk c = {| sent := sent0 ++ [ok]; broken := None |} /\
    WaitForHello (NewReader (Segment hello :: rest)) = (true, NewReader rest) /\
    WaitForOk (NewReader (Segment ok :: rest)) = (true, NewReader rest) /\
    WaitForHello (NewReader (Segment ok :: rest)) = (false, NewReader rest) /\
    WaitForOk (NewReader (Segment hello :: rest)) = (false, NewReader rest) /\
    WaitForOk (NewReader []) = (false, NewReader []) /\
    forall e, (SendHello {| sent := sent0; broken := Some e |}).1 = false.
Proof.
  intros c. exists (frame (Build_Message CommandHello [] [])),
    (frame (Build_Message CommandOk [] [])).
  repeat (split; [reflexivity |]). intros e. reflexivity.
Qed.

(** ** Concrete runs *)
Definition demo_text (n : nat) : Message :=
  Build_Message CommandTargetLog (replicate n x41) [].

Lemma demo_framable n : (n <= 5000)%nat -> framable (demo_text n).
Proof.
  intros Hn. split_and!; [done | by destruct n |].
  destruct n as [| n]; [by vm_compute |].
  pose proof (payload_split (demo_text (S n)) eq_refl) as ->; [| done..].
  rewrite len_app. unfold payload_prefix. rewrite !len_app.
  assert (forall k v, len (append_varint_n k v) <= Z.of_nat k + 1) as Hv.
  { induction k as [| k IH]; intros v; simpl; destruct (_ <? _); unfold len in *; simpl; try lia.
    specialize (IH (Z.shiftr v 7)). lia. }
  pose proof (Hv 9%nat (len (Data (demo_text (S n))))) as H2.
  fold (appendVarint (len (Data (demo_text (S n))))) in H2.
  set (x := len (appendVarint (len (Data (demo_text (S n)))))) in *. clearbody x.
  assert (len (appendUTF8StringValueNoZero 1 (Command (demo_text (S n)))).1 = 6) as -> by done.
  assert (len (appendVarint (wiretag 2 2)) = 1) as -> by done.
  assert (len (Data (demo_text (S n))) = Z.of_nat (S n)) as ->
    by (unfold len, demo_text, Data; by rewrite length_replicate).
  unfold pow32. lia.
Qed.

Lemma read_to_channel_terminates_witness :
  exists out, ReadToChannel 8 (NewReader [Segment [x01; x02]; Failure "reset"]) = Some out.
Proof. apply read_to_channel_terminates. unfold reader_size. simpl. lia. Defined.

Lemma read_to_channel_hides_eof_witness :
  ReadToChannel 8 (NewReader [Segment [x01; x02]; Failure "reset"])
  = Some [inr (IoErr (NetError "reset"))] /\
  inr (IoErr EOF) ∉ ([inr (IoErr (NetError "reset"))] : list (Message + read_error)).
Proof.
  assert (ReadToChannel 8 (NewReader [Segment [x01; x02]; Failure "reset"])
          = Some [inr (IoErr (NetError "reset"))]) as E by by vm_compute.
  split; [exact E |]. exact (read_to_channel_hides_eof _ _ _ E).
Defined.

Lemma read_to_channel_frames_witness :
  exists fuel0, forall fuel, (fuel0 <= fuel)%nat ->
    ReadToChannel fuel (NewReader (segments [[demo_text 1; demo_text 2]; [demo_text 3]]))
    = Some (inl <$> mjoin [[demo_text 1; demo_text 2]; [demo_text 3]]).
Proof.
  apply read_to_channel_frames.
  repeat constructor; try done; try (apply demo_framable; lia).
Defined.

Lemma long_message_corrupted_witness :
  exists r, ReadMessage (NewReader [Segment (frame (demo_text 5000))])
    = ({| Command := CommandTargetLog; Data := truncated (demo_text 5000) body_room;
          Message_unrecognized := [] |}, None, r) /\
  truncated (demo_text 5000) body_room <> Data (demo_text 5000).
Proof.
  eexists. split.
  - apply (long_message_corrupted (demo_text 5000) []); [| by vm_compute..].
    apply demo_framable. by apply Nat.leb_le.
  - intros H. apply (f_equal (fun l : list byte => l !! 4999%nat)) in H.
    revert H. by vm_compute.
Defined.

Lemma split_message_corrupted_witness :
  ReadMessage (NewReader (Segment (take (4 + 9) (frame (demo_text 3)))
                          :: Segment (drop (4 + 9) (frame (demo_text 3))) :: []))
  = ({| Command := CommandTargetLog; Data := [x41; x00; x00]; Message_unrecognized := [] |},
     None, NewReader [Segment [x41; x41]]).
Proof.
  apply (split_message_corrupted (demo_text 3) 9 []).
  - apply demo_framable. lia.
  - by apply Nat.leb_le.
  - lia.
  - by apply Nat.ltb_lt.
  - by vm_compute.
Defined.

Lemma write_read_roundtrip_witness :
  exists fuel,
    ReadToChannel fuel (NewReader (Segment <$> [frame (demo_text 1); frame (demo_text 0)]))
    = Some (inl <$> [demo_text 1; demo_text 0]).
Proof.
  apply (write_read_roundtrip [demo_text 1; demo_text 0]).
  repeat constructor; try done; apply demo_framable; lia.
Defined.
