(* ===== verification/Pipe.v ===== *)
(** * A connection with two ends

    What one end has written arrives at the other in segments: each write is
    one, the network may join neighbours, however long that makes them, and it
    may cut a segment in two.  A read of [bufio] takes what has arrived, at most
    4096 bytes of it, and [ReadMessage] does not read again when that is not the
    whole message: a frame that is cut, or that does not fit behind what arrives
    with it, is corrupted.  What the theorems about connections ask of the
    network is that it cuts nothing. *)
From S2P Require Import Prelude Wire Message Bufio Protocol.

#[local] Arguments frame : simpl never.
#[local] Arguments ReadMessage : simpl never.

(** ** What is on the way *)

(** The reader of the other end, when an end that had written [old] has now
    written [new]. *)
Definition push (old new : list (list byte)) (r : reader) : reader :=
  {| buf := buf r; rd := rd r ++ (Segment <$> drop (length old) new) |}.

(** Two segments that the network delivers as one. *)
Fixpoint join (i : nat) (evs : list net_event) : option (list net_event) :=
  match i, evs with
  | O, Segment a :: Segment b :: evs => Some (Segment (a ++ b) :: evs)
  | S i, ev :: evs => cons ev <$> join i evs
  | _, _ => None
  end.

(** A segment that the network delivers in two parts. *)
Fixpoint cut (i n : nat) (evs : list net_event) : option (list net_event) :=
  match i, evs with
  | O, Segment a :: evs =>
      if bool_decide (0 < n < length a)%nat
      then Some (Segment (take n a) :: Segment (drop n a) :: evs) else None
  | S i, ev :: evs => cons ev <$> cut i n evs
  | _, _ => None
  end.

(** What may arrive of the writes [ws] of an end that waits for an answer to its
    second write, and to every further one, before it writes again: every
    write in one piece, and perhaps the second one with the first. *)
Inductive conveyed : list (list byte) -> list net_event -> Prop :=
  | conveyed_apart ws : conveyed ws (Segment <$> ws)
  | conveyed_joined a b ws : conveyed (a :: b :: ws) (Segment (a ++ b) :: (Segment <$> ws)).

(** The network that joins the first two writes whenever there are two. *)
Definition coalesce (ws : list (list byte)) : list net_event :=
  match ws with
  | a :: b :: ws => Segment (a ++ b) :: (Segment <$> ws)
  | _ => Segment <$> ws
  end.

Lemma coalesce_conveyed ws : conveyed ws (coalesce ws).
Proof. destruct ws as [| a [| b ws]]; [apply (conveyed_apart []) | apply (conveyed_apart [a]) | constructor]. Qed.

(** [ReadMessage] waits for the other end. *)
Definition blocked (peer : conn) (r : reader) : bool :=
  match broken peer with
  | Some _ => false
  | None => bool_decide ((ReadMessage r).1.2 = Some (IoErr EOF))
  end.

(** The messages that a reader is going to deliver, whole frames in segments
    that fit the buffer. *)
Definition batch (ms : list Message) : Prop :=
  ms <> [] /\ Forall framable ms /\ len (ms ≫= frame) <= buffer_size.

Definition holds (r : reader) (ms : list Message) : Prop :=
  exists b batches, buf r = b ≫= frame /\ rd r = segments batches /\ ms = b ++ mjoin batches /\
    Forall framable b /\ Forall batch batches.

Lemma holds_new : holds (NewReader []) [].
Proof. by exists [], []. Qed.

Lemma holds_push r ms m :
  holds r ms -> framable m -> len (frame m) <= buffer_size ->
  holds {| buf := buf r; rd := rd r ++ [Segment (frame m)] |} (ms ++ [m]).
Proof.
  intros (b & batches & Hb & Hr & -> & Hf & Hbs) Hm Hl. exists b, (batches ++ [[m]]).
  cbn [buf rd]. split_and!; [done | | | done |].
  - rewrite Hr. unfold segments. rewrite fmap_app. cbn. by rewrite app_nil_r.
  - rewrite join_app. cbn. by rewrite app_assoc.
  - rewrite Forall_app. split; [done |]. apply Forall_singleton. split_and!; [done | by apply Forall_singleton |].
    cbn. by rewrite app_nil_r.
Qed.

Lemma holds_read r m ms :
  holds r (m :: ms) -> exists r', ReadMessage r = (m, None, r') /\ holds r' ms.
Proof.
  intros (b & batches & Hb & Hr & E & Hf & Hbs). destruct r as [bs evs]. cbn in Hb, Hr. subst.
  destruct b as [| m' b].
  - destruct Hbs as [| ms' batches (Hne & Hms & Hl) Hbs]; [done |]. destruct ms' as [| m' ms']; [done |].
    cbn in E. injection E as <- ->. apply list.Forall_cons in Hms as [Hm Hms].
    exists {| buf := ms' ≫= frame; rd := segments batches |}. split; [| by exists ms', batches].
    unfold segments. rewrite fmap_cons.
    rewrite ReadMessage_refill by (done || by apply bind_frame_nonempty).
    rewrite bind_cons. by rewrite ReadMessage_frame.
  - cbn in E. injection E as <- ->. apply list.Forall_cons in Hf as [Hm Hf].
    exists {| buf := b ≫= frame; rd := segments batches |}. split; [| by exists b, batches].
    rewrite bind_cons. by rewrite ReadMessage_frame.
Qed.

Lemma holds_nothing r : holds r [] -> (ReadMessage r).1.2 = Some (IoErr EOF).
Proof.
  intros (b & batches & Hb & Hr & E & _ & Hbs). destruct r as [bs evs]. cbn in Hb, Hr. subst.
  symmetry in E. apply app_nil in E as [-> E].
  destruct Hbs as [| ms batches (Hne & _) _]; [done |]. by apply app_nil in E as [-> _].
Qed.

Lemma holds_ready p r m ms : holds r (m :: ms) -> blocked p r = false.
Proof.
  intros Hr. unfold blocked. destruct (broken p); [done |].
  by destruct (holds_read _ _ _ Hr) as (r' & -> & _).
Qed.

Lemma holds_blocks p r : holds r [] -> broken p = None -> blocked p r = true.
Proof. intros Hr Hp. unfold blocked. by rewrite Hp, (holds_nothing _ Hr). Qed.

Lemma bind_sublist_len (ms ms' : list Message) :
  ms `sublist_of` ms' -> len (ms ≫= frame) <= len (ms' ≫= frame).
Proof.
  induction 1 as [| m ms ms' _ IH | m ms ms' _ IH]; [done | |]; rewrite ?bind_cons, ?len_app in *;
    pose proof (len_nonneg (frame m)); lia.
Qed.

Lemma join_segments i batches evs :
  Forall batch batches -> len (mjoin batches ≫= frame) <= buffer_size ->
  join i (segments batches) = Some evs ->
  exists batches', evs = segments batches' /\ mjoin batches' = mjoin batches /\
    Forall batch batches'.
Proof.
  intros Hb. revert i evs. induction Hb as [| ms batches Hms Hb IH]; intros i evs Hlen.
  { by destruct i. }
  change (mjoin (ms :: batches)) with (ms ++ mjoin batches) in Hlen.
  destruct i as [| i]; cbn [segments fmap list_fmap join].
  - destruct Hb as [| ms' batches Hms' Hb]; [done |]. cbn [fmap list_fmap].
    intros [= <-]. exists ((ms ++ ms') :: batches). split_and!.
    + cbn. by rewrite bind_app.
    + cbn. by rewrite app_assoc.
    + constructor; [| done]. destruct Hms as (Hne & Hm & _), Hms' as (_ & Hm' & _).
      split_and!; [by destruct ms | by apply Forall_app |]. etrans; [| exact Hlen].
      apply bind_sublist_len, sublist_app; [done |].
      change (mjoin (ms' :: batches)) with (ms' ++ mjoin batches). by apply sublist_inserts_r.
  - destruct (join i _) as [evs' |] eqn:E; [| done]. intros [= <-].
    destruct (IH i evs') as (batches' & -> & Hj & Hbs); [| done |].
    { etrans; [| exact Hlen]. by apply bind_sublist_len, sublist_inserts_l. }
    exists (ms :: batches'). split_and!; [done | | by constructor].
    change (ms ++ mjoin batches' = ms ++ mjoin batches). by rewrite Hj.
Qed.

(** Joining is harmless when all that is on its way fits the buffer. *)
Lemma holds_join r ms i evs :
  holds r ms -> len (ms ≫= frame) <= buffer_size -> join i (rd r) = Some evs ->
  holds {| buf := buf r; rd := evs |} ms.
Proof.
  intros (b & batches & Hb & Hr & -> & Hf & Hbs) Hlen E. rewrite Hr in E.
  apply join_segments in E as (batches' & -> & Hj & Hbs'); [| done |].
  - exists b, batches'. by rewrite Hj.
  - etrans; [| exact Hlen]. by apply bind_sublist_len, sublist_inserts_l.
Qed.

(** Writes that arrive one by one, or the first two together. *)
Lemma holds_batches batches :
  Forall batch batches -> holds (NewReader (segments batches)) (mjoin batches).
Proof. intros Hb. by exists [], batches. Qed.

Lemma holds_conveyed ms evs :
  Forall framable ms -> Forall (fun m => len (frame m) <= buffer_size) ms ->
  len (take 2 ms ≫= frame) <= buffer_size -> conveyed (frame <$> ms) evs ->
  holds (NewReader evs) ms.
Proof.
  intros Hf Hl Htwo Ha.
  assert (forall ms, Forall framable ms -> Forall (fun m => len (frame m) <= buffer_size) ms ->
    Forall batch ((fun m => [m]) <$> ms) /\ mjoin ((fun m => [m]) <$> ms) = ms /\
    segments ((fun m => [m]) <$> ms) = Segment <$> (frame <$> ms)) as Hone.
  { clear. intros ms Hf Hl. split_and!.
    - rewrite Forall_fmap. apply list.Forall_forall. intros m Hin. rewrite list.Forall_forall in Hf, Hl.
      pose proof (Hf m Hin) as Hm. pose proof (Hl m Hin) as Hlm. unfold compose.
      split_and!; [done | by apply Forall_singleton |]. cbn. by rewrite app_nil_r.
    - clear. induction ms as [| m ms IH]; [done |]. cbn. by f_equal.
    - unfold segments. rewrite <- !list_fmap_compose. apply list_fmap_ext. intros i m _. cbn.
      by rewrite app_nil_r. }
  inversion Ha as [ws Hws Hevs | a b ws Hws Hevs]; subst.
  - destruct (Hone ms Hf Hl) as (Hb & Hj & <-). rewrite <- Hj at 2. by apply holds_batches.
  - destruct ms as [| m1 [| m2 ms]]; try done. cbn [fmap list_fmap] in Hws. injection Hws as -> -> ->.
    change (list_fmap _ _ frame ms) with (frame <$> ms).
    apply list.Forall_cons in Hf as [H1 [H2 Hf]%list.Forall_cons], Hl as [_ [_ Hl]%list.Forall_cons]. 
    destruct (Hone ms Hf Hl) as (Hb & Hj & <-).
    assert (m1 :: m2 :: ms = mjoin ([m1; m2] :: ((fun m => [m]) <$> ms))) as ->.
    { change (m1 :: m2 :: ms = [m1; m2] ++ mjoin ((fun m => [m]) <$> ms)). by rewrite Hj. }
    replace (Segment (frame m1 ++ frame m2)) with (Segment ([m1; m2] ≫= frame))
      by (cbn; by rewrite app_nil_r).
    apply (holds_batches ([m1; m2] :: _)). constructor; [| done]. split_and!; [done | | exact Htwo].
    constructor; [done |]. by apply Forall_singleton.
Qed.

(** All that a reader holds is delivered. *)
Lemma holds_channel r ms :
  holds r ms -> exists fuel0, forall fuel, (fuel0 <= fuel)%nat ->
    ReadToChannel fuel r = Some (inl <$> ms).
Proof.
  revert r. induction ms as [| m ms IH]; intros r Hr.
  - exists 1%nat. intros [| fuel]; [lia |]. intros _. cbn [ReadToChannel].
    pose proof (holds_nothing r Hr) as E. destruct (ReadMessage r) as [[m e] r']. cbn in E. by subst e.
  - destruct (holds_read _ _ _ Hr) as (r' & E & Hr'). destruct (IH r' Hr') as [fuel0 Hf].
    exists (S fuel0). intros [| fuel] Hle; [lia |]. cbn [ReadToChannel]. rewrite E.
    by rewrite Hf by lia.
Qed.

(** A frame that would fit the buffer alone is cut when what is read with it
    leaves too little room. *)
Lemma joined_message_corrupted h m rd0 :
  framable h -> framable m ->
  len (frame h) + 4 + len (payload_prefix m) <= buffer_size ->
  len (frame h) + 4 < buffer_size -> buffer_size < len (frame h) + len (frame m) ->
  let n := Z.to_nat (buffer_size - len (frame h) - 4) in
  exists r, ReadMessage (NewReader (Segment (frame h ++ frame m) :: rd0)) = (h, None, r) /\
    ReadMessage r
    = ({| Command := Command m; Data := truncated m n; Message_unrecognized := [] |}, None,
       {| buf := []; rd := Segment (drop (4 + n) (frame m)) :: rd0 |}).
Proof.
  intros Hh Hm Hp H0 Hb n. set (k := Z.to_nat buffer_size).
  assert (length (frame h) + (4 + n) = k)%nat as Hk by (unfold n, k, len in *; lia).
  assert (take k (frame h ++ frame m) = frame h ++ take (4 + n) (frame m)) as Htake.
  { rewrite <- Hk, take_app, take_ge by lia. do 2 f_equal. lia. }
  assert (drop k (frame h ++ frame m) = drop (4 + n) (frame m)) as Hdrop.
  { rewrite <- Hk, <- drop_drop, drop_app_length. done. }
  exists {| buf := take (4 + n) (frame m); rd := Segment (drop (4 + n) (frame m)) :: rd0 |}.
  pose proof (frame_length m) as Hfl. split.
  - rewrite <- (ReadMessage_frame h) by done. unfold NewReader, ReadMessage.
    assert (Read 4 {| buf := []; rd := Segment (frame h ++ frame m) :: rd0 |}
      = Read 4 {| buf := frame h ++ take (4 + n) (frame m);
                  rd := Segment (drop (4 + n) (frame m)) :: rd0 |}) as ->; [| done].
    unfold Read. cbn [Z.eqb buf rd]. rewrite (proj2 (Z.leb_gt _ _)) by reflexivity. cbn [conn_read].
    fold k. rewrite Htake, Hdrop.
    destruct (drop (4 + n) (frame m)) as [| b l] eqn:Hd; [| by destruct (frame h)].
    apply (f_equal length) in Hd. rewrite length_drop in Hd. cbn [length] in Hd.
    unfold n, len in *. lia.
  - apply ReadMessage_short; [done | unfold n, len in *; lia..].
Qed.

Lemma push_nothing old r : push old old r = r.
Proof. unfold push. rewrite drop_all. cbn. rewrite app_nil_r. by destruct r. Qed.

Lemma push_one old b r :
  push old (old ++ [b]) r = {| buf := buf r; rd := rd r ++ [Segment b] |}.
Proof. unfold push. by rewrite drop_app_length. Qed.

(** ** The goroutine of [ReadToChannel] *)

(** It reads, is at a send, or has returned. *)
Inductive fetcher := Reading | Offers (ev : Message + read_error) | Gone.

(** The message that it offers; [None] when it will never offer one. *)
Definition offered (f : fetcher) : option (list Message) :=
  match f with Reading => Some [] | Offers (inl m) => Some [m] | _ => None end.

(** One turn: what it does with what it has read. *)
Definition fetch_step (r : reader) : fetcher * reader :=
  match ReadMessage r with
  | (_, Some (IoErr EOF), r) => (Gone, r)
  | (_, Some err, r) => (Offers (inr err), r)
  | (m, None, r) => (Offers (inl m), r)
  end.

Lemma fetch_next r m ms :
  holds r (m :: ms) -> exists r', fetch_step r = (Offers (inl m), r') /\ holds r' ms.
Proof.
  intros Hr. destruct (holds_read _ _ _ Hr) as (r' & E & Hr'). exists r'. unfold fetch_step.
  by rewrite E.
Qed.
