(* ===== verification/Config.v ===== *)
(** * Configuration: [src/config/config.go], the data and the rule [alphadash]

    The structs that the YAML file is decoded into.  A nil map or slice and an
    empty one are told apart only where the code does. *)
From Stdlib Require Import Ascii String.
From S2P Require Import Prelude.

(** [BreachBehaviour] defines how a breach is treated and actioned. *)
Record BreachBehaviour := {
  Action : string;
  Breach_Target : string;
  AlertLevel : string;
}.

(** [RateLimitMode] defines how the throughput is calculated. *)
Record RateLimitMode := {
  Mode_Type : string;
  Period : string;
  Duration : Z;
}.

(** [RateLimit] is the config of rate limiting to apply to a target. *)
Record RateLimit := {
  Throughput : string;
  Mode : RateLimitMode;
  BreachBehaviour_ : BreachBehaviour;
}.

(** [Source] is the configuration of a source of log items. *)
Record Source := {
  Source_Provider : string;
  Source_Endpoint : string;
  Source_Targets : list string;
  Source_Config : gmap string string;
}.

(** [Target] is the config of a target to send logs to.  [AlertChannels] is
    [None] when the key is missing from the file. *)
Record Target := {
  Target_Provider : string;
  Target_Endpoint : string;
  AlertChannels : option (list (gmap string (list string)));
  RateLimit_ : list RateLimit;
  Target_Config : gmap string string;
}.

(** [AlertChannel] defines a channel to send alerts to. *)
Record AlertChannel := {
  Channel_Provider : string;
  Suppress : string;
  Channel_Config : gmap string string;
}.

(** [Config] contains the setup of the log shipper; a map is [None] when its
    key is missing from the file. *)
Record Config := {
  Sources : option (gmap string Source);
  Targets : option (gmap string Target);
  Alerting : option (gmap string AlertChannel);
}.

(** [NewConfig]: the zero value. *)
Definition NewConfig : Config := {| Sources := None; Targets := None; Alerting := None |}.

(** [alphadash], the rule that [Validate] registers for names: some line of the
    text is made of letters, digits, dashes and underscores, since the regular
    expression is multi-line. *)
Definition dash_char (c : ascii) : bool :=
  let n := nat_of_ascii c in
  ((97 <=? n)%nat && (n <=? 122)%nat) || ((65 <=? n)%nat && (n <=? 90)%nat)
  || ((48 <=? n)%nat && (n <=? 57)%nat) || (n =? 45)%nat || (n =? 95)%nat.

(** [good]: the line so far has only such characters; [some]: it has one. *)
Fixpoint alphadash_line (s : string) (good some : bool) : bool :=
  match s with
  | EmptyString => good && some
  | String c s =>
      if (nat_of_ascii c =? 10)%nat then (good && some) || alphadash_line s true false
      else alphadash_line s (good && dash_char c) true
  end.

Definition alphadash (s : string) : bool := alphadash_line s true false.

(** A name that is not of that form passes when one of its lines is. *)
Example alphadash_cases :
  alphadash "my-source_1" = true /\ alphadash "my source" = false /\ alphadash "" = false /\
  alphadash ("my source!" +:+ String (ascii_of_nat 10) "ok") = true.
Proof. by vm_compute. Qed.
