(* ===== verification/Validate.v ===== *)
(** * The rules of a configuration: [Validate] of [src/config/config.go]

    The rules are texts in the tags of the structs, and what they mean is code
    of the vendored package go-playground/validator.v9 (cache.go, which parses
    a tag, validator.go, which walks through a value with it, baked_in.go, the
    single rules).  This file translates as much of that as the tags reach, and
    characterises the configurations that pass. *)
From Stdlib Require Import Ascii String.
From S2P Require Import Prelude Config.

(** ** Tags *)

(** [cTag], with its [typeof]; the tags of the keys are those up to [endkeys]. *)
Inductive tag :=
  | OmitEmpty
  | Dive
  | Keys (keys : list string)
  | EndKeys
  | Rule (name param : string).

(** [strings.Split] at a character. *)
Fixpoint split_at (sep : ascii) (s : string) (word : string) : list string :=
  match s with
  | EmptyString => [word]
  | String c s =>
      if Ascii.eqb c sep then word :: split_at sep s EmptyString
      else split_at sep s (word +:+ String c EmptyString)
  end.

(** [strings.SplitN(t, "=", 2)]: the name and the parameter of a rule. *)
Fixpoint rule_of (t name : string) : tag :=
  match t with
  | EmptyString => Rule name ""
  | String c t =>
      if Ascii.eqb c "="%char then Rule name t
      else rule_of t (name +:+ String c EmptyString)
  end.

(** [strings.Fields], for words that are separated by spaces. *)
Definition fields (s : string) : list string :=
  filter (fun w => w <> "") (split_at " "%char s EmptyString).

(** [parseFieldTagsRecursive], without aliases and the alternatives of [|].
    [keys] holds the tags since [keys]. *)
Fixpoint parse_tags (tags : list string) (keys : option (list string)) : list tag :=
  match tags with
  | [] => match keys with Some ks => [Keys ks] | None => [] end
  | t :: tags =>
      match keys with
      | Some ks =>
          if String.eqb t "endkeys" then Keys (ks ++ [t]) :: parse_tags tags None
          else parse_tags tags (Some (ks ++ [t]))
      | None =>
          if String.eqb t "dive" then Dive :: parse_tags tags None
          else if String.eqb t "keys" then parse_tags tags (Some [])
          else if String.eqb t "endkeys" then [EndKeys]
          else if String.eqb t "omitempty" then OmitEmpty :: parse_tags tags None
          else rule_of t "" :: parse_tags tags None
      end
  end.

Definition tags_of (text : string) : list tag :=
  if String.eqb text "" then [] else parse_tags (split_at ","%char text EmptyString) None.

(** ** Values *)

(** What reflection shows of a value; a struct is its exported fields with
    their tags.  [None] is a nil slice or map. *)
Inductive value :=
  | VString (s : string)
  | VInt (z : Z)
  | VSlice (l : option (list value))
  | VMap (m : option (list (string * value)))
  | VStruct (l : list (string * value)).

(** [hasValue]; it is not called with a struct. *)
Definition hasValue (v : value) : bool :=
  match v with
  | VString s => negb (String.eqb s "")
  | VInt z => negb (z =? 0)
  | VSlice l => match l with Some _ => true | None => false end
  | VMap m => match m with Some _ => true | None => false end
  | VStruct _ => true
  end.

(** [field.String()]: the placeholder for values of another kind. *)
Definition field_string (v : value) : string :=
  match v with VString s => s | _ => "<Value>" end.

(** [isAlphanum]: the whole text, of letters and digits. *)
Definition alnum_char (c : ascii) : bool :=
  let n := nat_of_ascii c in
  ((97 <=? n)%nat && (n <=? 122)%nat) || ((65 <=? n)%nat && (n <=? 90)%nat)
  || ((48 <=? n)%nat && (n <=? 57)%nat).

Fixpoint alnum_chars (s : string) : bool :=
  match s with
  | EmptyString => true
  | String c s => alnum_char c && alnum_chars s
  end.

Definition alphanum (s : string) : bool := negb (String.eqb s "") && alnum_chars s.

(** [isGte] with the number 1, for slices and maps. *)
Definition at_least_one (v : value) : bool :=
  match v with
  | VSlice (Some (_ :: _)) | VMap (Some (_ :: _)) => true
  | VInt z => 1 <=? z
  | VString s => negb (String.eqb s "")
  | _ => false
  end.

(** The text of a url without what follows the first [#]. *)
Fixpoint before_hash (s : string) : string :=
  match s with
  | EmptyString => EmptyString
  | String c s => if Ascii.eqb c "#"%char then EmptyString else String c (before_hash s)
  end.

(** ** Walking through a value *)

(** Errors are collected: the value passes when no rule fails. *)
Definition also (a b : outcome bool) : outcome bool :=
  match a, b with
  | Panic why, _ => Panic why
  | Ret _, Panic why => Panic why
  | Ret x, Ret y => Ret (x && y)
  end.

Section Walk.

(** [url.ParseRequestURI]: [None] on an error, else the scheme. *)
Variable ParseRequestURI : string -> option string.

(** [isURL]. *)
Definition isURL (s : string) : bool :=
  let s := before_hash s in
  if String.eqb s "" then false
  else match ParseRequestURI s with
       | None => false
       | Some scheme => negb (String.eqb scheme "")
       end.

(** The rules that the tags name; [alphadash] is the one that [Validate]
    registers. *)
Definition apply_rule (name param : string) (v : value) : outcome bool :=
  if String.eqb name "required" then Ret (hasValue v)
  else if String.eqb name "min" then
    if String.eqb param "1" then Ret (at_least_one v) else Panic "parameter"
  else if String.eqb name "alphadash" then Ret (alphadash (field_string v))
  else if String.eqb name "alphanum" then Ret (alphanum (field_string v))
  else if String.eqb name "oneof" then
    Ret (bool_decide (field_string v ∈ fields param))
  else if String.eqb name "url" then Ret (isURL (field_string v))
  else Panic ("Undefined validation function '" +:+ name +:+ "'").

(** The tags on a key of a map, which is a text. *)
Fixpoint check_key (tags : list tag) (s : string) : outcome bool :=
  match tags with
  | [] | EndKeys :: _ => Ret true
  | OmitEmpty :: tags => if String.eqb s "" then Ret true else check_key tags s
  | Rule name param :: tags =>
      match apply_rule name param (VString s) with
      | Ret true => check_key tags s
      | o => o
      end
  | Dive :: _ | Keys _ :: _ => Panic "dive error! can't dive on a non slice or map"
  end.

(** [traverseField] and [validateStruct].  On a struct the first tag is left
    out and the others do not matter; on other values the tags are applied in
    order, up to the first that fails. *)
Fixpoint traverseField (v : value) {struct v} : list tag -> outcome bool :=
  match v with
  | VStruct l =>
      fun _ => foldr (fun tv r => also (traverseField tv.2 (tags_of tv.1)) r) (Ret true) l
  | _ =>
      fix tags_loop (tags : list tag) : outcome bool :=
        match tags with
        | [] | EndKeys :: _ => Ret true
        | OmitEmpty :: tags => if hasValue v then tags_loop tags else Ret true
        | Dive :: tags =>
            match v with
            | VSlice (Some l) =>
                foldr (fun x r => also (traverseField x tags) r) (Ret true) l
            | VMap (Some m) =>
                foldr (fun kx r =>
                  also match tags with
                       | Keys ks :: tags =>
                           also (check_key (parse_tags ks None) kx.1)
                             match tags with [] => Ret true | _ => traverseField kx.2 tags end
                       | _ => traverseField kx.2 tags
                       end r) (Ret true) m
            | VSlice None | VMap None => Ret true
            | _ => Panic "dive error! can't dive on a non slice or map"
            end
        | Keys _ :: _ => Panic "keys"
        | Rule name param :: tags =>
            match apply_rule name param v with
            | Ret true => tags_loop tags
            | o => o
            end
        end
  end.
End Walk.

(** ** The configuration, as reflection shows it *)
Definition text_map (m : gmap string string) : value :=
  VMap (Some ((fun kv => (kv.1, VString kv.2)) <$> map_to_list m)).

Definition source_value (s : Source) : value := VStruct [
  ("required,alphadash", VString (Source_Provider s));
  ("omitempty,url", VString (Source_Endpoint s));
  ("min=1", VSlice (Some (VString <$> Source_Targets s)));
  ("", text_map (Source_Config s))].

Definition mode_value (m : RateLimitMode) : value := VStruct [
  ("required,oneof=average", VString (Mode_Type m));
  ("required,alphanum", VString (Period m));
  ("required", VInt (Duration m))].

Definition breach_value (b : BreachBehaviour) : value := VStruct [
  ("oneof=fallback discard", VString (Action b));
  ("omitempty,alphadash", VString (Breach_Target b));
  ("oneof=DEBUG INFO WARN ERROR CRITICAL", VString (AlertLevel b))].

Definition rate_limit_value (r : RateLimit) : value := VStruct [
  ("required,alphanum", VString (Throughput r));
  ("required,dive", mode_value (Mode r));
  ("dive", breach_value (BreachBehaviour_ r))].

Definition channel_map_value (m : gmap string (list string)) : value :=
  VMap (Some ((fun kv => (kv.1, VSlice (Some (VString <$> kv.2)))) <$> map_to_list m)).

Definition target_value (t : Target) : value := VStruct [
  ("required,alphadash", VString (Target_Provider t));
  ("omitempty,url", VString (Target_Endpoint t));
  ("required,dive,dive,keys,alphadash,endkeys,dive,alphadash",
   VSlice ((fun l : list _ => channel_map_value <$> l) <$> AlertChannels t));
  ("omitempty,dive", VSlice (Some (rate_limit_value <$> RateLimit_ t)));
  ("", text_map (Target_Config t))].

Definition channel_value (c : AlertChannel) : value := VStruct [
  ("alphadash", VString (Channel_Provider c));
  ("alphanum", VString (Suppress c));
  ("", text_map (Channel_Config c))].

Definition struct_map {A} (f : A -> value) (m : option (gmap string A)) : value :=
  VMap ((fun m => (fun kv => (kv.1, f kv.2)) <$> map_to_list m) <$> m).

Definition map_rules : string := "required,min=1,dive,keys,alphadash,endkeys,dive".

Definition config_value (c : Config) : value := VStruct [
  (map_rules, struct_map source_value (Sources c));
  (map_rules, struct_map target_value (Targets c));
  (map_rules, struct_map channel_value (Alerting c))].

(** [Validate]; the text of the error is left out. *)
Definition Validate (ParseRequestURI : string -> option string) (c : Config) : outcome bool :=
  traverseField ParseRequestURI (config_value c) [].

(** ** The configurations that pass *)
#[local] Arguments alphadash : simpl never.
#[local] Arguments alphanum : simpl never.
#[local] Arguments isURL : simpl never.
#[local] Arguments fields : simpl never.

Section Accepted.
Variable ParseRequestURI : string -> option string.

Definition endpoint_ok (s : string) : bool := String.eqb s "" || isURL ParseRequestURI s.

Definition source_ok (s : Source) : bool :=
  alphadash (Source_Provider s) && endpoint_ok (Source_Endpoint s)
  && match Source_Targets s with [] => false | _ => true end.

Definition mode_ok (m : RateLimitMode) : bool :=
  String.eqb (Mode_Type m) "average" && alphanum (Period m) && negb (Duration m =? 0).

Definition breach_ok (b : BreachBehaviour) : bool :=
  bool_decide (Action b ∈ ["fallback"; "discard"])
  && (String.eqb (Breach_Target b) "" || alphadash (Breach_Target b))
  && bool_decide (AlertLevel b ∈ ["DEBUG"; "INFO"; "WARN"; "ERROR"; "CRITICAL"]).

Definition rate_limit_ok (r : RateLimit) : bool :=
  alphanum (Throughput r) && mode_ok (Mode r) && breach_ok (BreachBehaviour_ r).

Definition channels_ok (m : gmap string (list string)) : bool :=
  forallb (fun kv => alphadash kv.1 && forallb alphadash kv.2) (map_to_list m).

Definition target_ok (t : Target) : bool :=
  alphadash (Target_Provider t) && endpoint_ok (Target_Endpoint t)
  && match AlertChannels t with Some l => forallb channels_ok l | None => false end
  && forallb rate_limit_ok (RateLimit_ t).

Definition channel_ok (c : AlertChannel) : bool :=
  alphadash (Channel_Provider c) && alphanum (Suppress c).

(** A map with an entry, all of whose names and values are right. *)
Definition map_ok {A} (ok : A -> bool) (m : option (gmap string A)) : bool :=
  match m with
  | Some m =>
      negb (size m =? 0)%nat && forallb (fun kv => alphadash kv.1 && ok kv.2) (map_to_list m)
  | None => false
  end.

Definition config_ok (c : Config) : bool :=
  map_ok source_ok (Sources c) && map_ok target_ok (Targets c) && map_ok channel_ok (Alerting c).

#[local] Notation traverse := (traverseField ParseRequestURI).

(** A list of checks that give booleans gives their conjunction. *)
Lemma all_checks {A} (f : A -> outcome bool) (g : A -> bool) l :
  (forall a, f a = Ret (g a)) -> foldr (fun a r => also (f a) r) (Ret true) l = Ret (forallb g l).
Proof. intros Hf. induction l as [| a l IH]; cbn; [done |]. by rewrite Hf, IH. Qed.

Lemma all_fmap {A B} (f : B -> outcome bool) (h : A -> B) (g : A -> bool) l :
  (forall a, f (h a) = Ret (g a)) ->
  foldr (fun b r => also (f b) r) (Ret true) (h <$> l) = Ret (forallb g l).
Proof. intros Hf. induction l as [| a l IH]; cbn; [done |]. by rewrite Hf, IH. Qed.

(** The tags, once parsed. *)
Definition map_tags : list tag :=
  [Rule "required" ""; Rule "min" "1"; Dive; Keys ["alphadash"; "endkeys"]; Dive].

Lemma map_rules_tags : tags_of map_rules = map_tags.
Proof. by vm_compute. Qed.

(** *** The values of a struct, rule by rule *)
Lemma traverse_struct l tags :
  traverse (VStruct l) tags
  = foldr (fun tv r => also (traverse tv.2 (tags_of tv.1)) r) (Ret true) l.
Proof. done. Qed.

Lemma alphadash_not_empty s : alphadash s = true -> s <> "".
Proof. by intros Hs ->. Qed.

Lemma name_rule s : traverse (VString s) (tags_of "required,alphadash") = Ret (alphadash s).
Proof.
  change (tags_of _) with [Rule "required" ""; Rule "alphadash" ""]. cbn.
  destruct (String.eqb_spec s "") as [-> | Hs]; [done |]. cbn. by destruct (alphadash s).
Qed.

Lemma alphanum_rule s : traverse (VString s) (tags_of "required,alphanum") = Ret (alphanum s).
Proof.
  change (tags_of _) with [Rule "required" ""; Rule "alphanum" ""]. cbn.
  destruct (String.eqb_spec s "") as [-> | Hs]; [done |]. cbn. by destruct (alphanum s).
Qed.

Lemma endpoint_rule s : traverse (VString s) (tags_of "omitempty,url") = Ret (endpoint_ok s).
Proof.
  change (tags_of _) with [OmitEmpty; Rule "url" ""]. unfold endpoint_ok. cbn.
  destruct (String.eqb s ""); [done |]. cbn. by destruct (isURL _ s).
Qed.

Lemma optional_name_rule s :
  traverse (VString s) [OmitEmpty; Rule "alphadash" ""] = Ret (String.eqb s "" || alphadash s).
Proof. cbn. destruct (String.eqb s ""); [done |]. cbn. by destruct (alphadash s). Qed.

Lemma oneof_rule s param :
  traverse (VString s) [Rule "oneof" param] = Ret (bool_decide (s ∈ fields param)).
Proof. cbn. by destruct (bool_decide _). Qed.

Lemma free_rule v : match v with VStruct _ => False | _ => True end -> traverse v (tags_of "") = Ret true.
Proof. by destruct v. Qed.

Lemma source_passes s : traverse (source_value s) [] = Ret (source_ok s).
Proof.
  unfold source_value, source_ok. rewrite traverse_struct. cbn [foldr fst snd].
  rewrite name_rule, endpoint_rule, free_rule by done.
  change (tags_of "min=1") with [Rule "min" "1"]. cbn.
  destruct (Source_Targets s); cbn; by destruct (alphadash _), (endpoint_ok _).
Qed.

Lemma mode_passes m : traverse (mode_value m) [] = Ret (mode_ok m).
Proof.
  unfold mode_value, mode_ok. rewrite traverse_struct. cbn [foldr fst snd].
  rewrite alphanum_rule.
  change (tags_of "required,oneof=average") with [Rule "required" ""; Rule "oneof" "average"].
  change (tags_of "required") with [Rule "required" ""]. cbn.
  assert (bool_decide (Mode_Type m ∈ fields "average") = (Mode_Type m =? "average")%string) as ->.
  { change (fields "average") with ["average"].
    destruct (String.eqb_spec (Mode_Type m) "average") as [-> | Hm];
      [by apply bool_decide_eq_true_2; left | apply bool_decide_eq_false_2].
    by intros Hin%list_elem_of_singleton. }
  destruct (String.eqb_spec (Mode_Type m) "") as [-> | _]; cbn.
  - by destruct (alphanum _), (Duration m =? 0).
  - by destruct (String.eqb _ _), (alphanum _), (Duration m =? 0).
Qed.

Lemma breach_passes b : traverse (breach_value b) [] = Ret (breach_ok b).
Proof.
  unfold breach_value, breach_ok. rewrite traverse_struct. cbn [foldr fst snd].
  change (tags_of "oneof=fallback discard") with [Rule "oneof" "fallback discard"].
  change (tags_of "omitempty,alphadash") with [OmitEmpty; Rule "alphadash" ""].
  change (tags_of "oneof=DEBUG INFO WARN ERROR CRITICAL")
    with [Rule "oneof" "DEBUG INFO WARN ERROR CRITICAL"].
  rewrite !oneof_rule, optional_name_rule. cbn.
  by rewrite andb_true_r, andb_assoc.
Qed.

Lemma rate_limit_passes r : traverse (rate_limit_value r) [] = Ret (rate_limit_ok r).
Proof.
  unfold rate_limit_value, rate_limit_ok. rewrite traverse_struct. cbn [foldr fst snd].
  rewrite alphanum_rule.
  change (traverse (mode_value (Mode r)) (tags_of "required,dive"))
    with (traverse (mode_value (Mode r)) []).
  change (traverse (breach_value (BreachBehaviour_ r)) (tags_of "dive"))
    with (traverse (breach_value (BreachBehaviour_ r)) []).
  rewrite mode_passes, breach_passes. cbn. by rewrite andb_true_r, andb_assoc.
Qed.

Lemma channel_passes c : traverse (channel_value c) [] = Ret (channel_ok c).
Proof.
  unfold channel_value, channel_ok. rewrite traverse_struct. cbn [foldr fst snd].
  change (tags_of "alphadash") with [Rule "alphadash" ""].
  change (tags_of "alphanum") with [Rule "alphanum" ""].
  rewrite free_rule by done. cbn.
  by destruct (alphadash _), (alphanum _).
Qed.

(** *** Maps and slices *)
Lemma key_passes s :
  check_key ParseRequestURI (parse_tags ["alphadash"; "endkeys"] None) s = Ret (alphadash s).
Proof.
  change (parse_tags _ None) with [Rule "alphadash" ""; EndKeys]. cbn.
  by destruct (alphadash s).
Qed.

Lemma channels_pass m :
  traverse (channel_map_value m) [Dive; Keys ["alphadash"; "endkeys"]; Dive; Rule "alphadash" ""]
  = Ret (channels_ok m).
Proof.
  unfold channel_map_value, channels_ok. cbn [traverseField].
  apply (all_fmap _ _ (fun kv => alphadash kv.1 && forallb alphadash kv.2)). intros [k l].
  cbn [fst snd]. rewrite key_passes. cbn [traverseField].
  rewrite (all_fmap _ _ alphadash); [done |]. intros s. cbn. by destruct (alphadash s).
Qed.

Lemma target_passes t : traverse (target_value t) [] = Ret (target_ok t).
Proof.
  unfold target_value, target_ok. rewrite traverse_struct. cbn [foldr fst snd].
  rewrite name_rule, endpoint_rule, free_rule by done.
  change (tags_of "required,dive,dive,keys,alphadash,endkeys,dive,alphadash")
    with [Rule "required" ""; Dive; Dive; Keys ["alphadash"; "endkeys"]; Dive;
          Rule "alphadash" ""].
  change (tags_of "omitempty,dive") with [OmitEmpty; Dive].
  assert (traverse (VSlice (Some (rate_limit_value <$> RateLimit_ t))) [OmitEmpty; Dive]
          = Ret (forallb rate_limit_ok (RateLimit_ t))) as ->.
  { cbn [traverseField hasValue]. by rewrite (all_fmap _ _ rate_limit_ok)
      by (intros r; exact (rate_limit_passes r)). }
  destruct (AlertChannels t) as [l |].
  - cbn [fmap option_fmap option_map].
    assert (traverse (VSlice (Some (channel_map_value <$> l)))
      [Rule "required" ""; Dive; Dive; Keys ["alphadash"; "endkeys"]; Dive; Rule "alphadash" ""]
      = Ret (forallb channels_ok l)) as ->.
    { cbn [traverseField]. unfold apply_rule. cbn [String.eqb Ascii.eqb Bool.eqb hasValue].
      by rewrite (all_fmap _ _ channels_ok) by (intros m; exact (channels_pass m)). }
    by destruct (alphadash _), (endpoint_ok _), (forallb channels_ok l), (forallb _ _).
  - cbn. by destruct (alphadash _), (endpoint_ok _), (forallb _ _).
Qed.

Lemma map_passes {A} (f : A -> value) (ok : A -> bool) m :
  (forall a, exists l, f a = VStruct l) -> (forall a, traverse (f a) [] = Ret (ok a)) ->
  traverse (struct_map f m) (tags_of map_rules) = Ret (map_ok ok m).
Proof.
  intros Hstruct Hok. rewrite map_rules_tags. unfold struct_map, map_ok, map_tags.
  destruct m as [m |]; [| done]. cbn [fmap option_fmap option_map traverseField].
  unfold apply_rule. cbn [String.eqb Ascii.eqb Bool.eqb hasValue].
  assert (size m = length (map_to_list m)) as -> by (by rewrite length_map_to_list).
  set (l := map_to_list m).
  assert (at_least_one (VMap (Some ((fun kv => (kv.1, f kv.2)) <$> l)))
          = negb (length l =? 0)%nat) as -> by by destruct l.
  destruct (length l =? 0)%nat; [done |]. cbn [negb andb].
  rewrite (all_fmap _ _ (fun kv => alphadash kv.1 && ok kv.2)); [done |].
  intros [k a]. cbn [fst snd]. rewrite key_passes.
  assert (traverse (f a) [Dive] = Ret (ok a)) as ->.
  { rewrite <- Hok. destruct (Hstruct a) as [fs ->]. done. }
  done.
Qed.

(** C25. [Validate] accepts exactly the configurations in which each of the three
    maps has an entry, every name is made of letters, digits, dashes and
    underscores, and every provider, endpoint, rate limit, breach behaviour and
    alert channel has the form its tags ask for; and it never panics. *)
Theorem Validate_spec c : Validate ParseRequestURI c = Ret (config_ok c).
Proof.
  unfold Validate, config_value, config_ok. rewrite traverse_struct. cbn [foldr fst snd].
  rewrite (map_passes source_value source_ok), (map_passes target_value target_ok),
    (map_passes channel_value channel_ok);
    eauto using source_passes, target_passes, channel_passes; try (intros a; by eexists).
  cbn. by rewrite andb_true_r, andb_assoc.
Qed.
End Accepted.

(** ** The configurations of the tests *)
Definition no_uri (s : string) : option string := None.

(** The one of [TestValidateIsSuccessful], with the provider of the source, its
    target and the alert level as parameters. *)
Definition test_config (provider target level : string) : Config := {|
  Sources := Some {["my_source" := {| Source_Provider := provider; Source_Endpoint := "";
    Source_Targets := [target]; Source_Config := {["some_value" := "abc"]} |}]};
  Targets := Some {["a_target" := {| Target_Provider := "some_provider"; Target_Endpoint := "";
    AlertChannels := Some [{["channel1" := []]}; {["channel2" := ["CRITICAL"]]}];
    RateLimit_ := [{| Throughput := "10KB";
      Mode := {| Mode_Type := "average"; Period := "1s"; Duration := 10 |};
      BreachBehaviour_ := {| Action := "discard"; Breach_Target := ""; AlertLevel := level |} |}];
    Target_Config := ∅ |}]};
  Alerting := Some {["channel1" := {| Channel_Provider := "some_provider"; Suppress := "5m";
                                      Channel_Config := ∅ |};
                     "channel2" := {| Channel_Provider := "other_provider"; Suppress := "10m";
                                      Channel_Config := ∅ |}]} |}.

Example TestValidateIsSuccessful :
  Validate no_uri (test_config "some_provider" "a_target" "CRITICAL") = Ret true.
Proof. by vm_compute. Qed.

Example TestValidateIsFailure :
  Validate no_uri (test_config "lll@" "lll@" "POTATO") = Ret false /\
  Validate no_uri (test_config "lll@" "a_target" "CRITICAL") = Ret false /\
  Validate no_uri (test_config "some_provider" "a_target" "POTATO") = Ret false.
Proof. by vm_compute. Qed.

(** What the rules do not see: the targets of a source may have any name, and
    need not be targets of the configuration. *)
Lemma unknown_targets_pass c s name targets :
  config_ok no_uri c = true -> Sources c = Some {[name := s]} -> targets <> [] ->
  config_ok no_uri {| Sources := Some {[name := {| Source_Provider := Source_Provider s;
      Source_Endpoint := Source_Endpoint s; Source_Targets := targets;
      Source_Config := Source_Config s |}]};
    Targets := Targets c; Alerting := Alerting c |} = true.
Proof.
  unfold config_ok. intros Hok Hs Ht. rewrite Hs in Hok.
  apply andb_prop in Hok as [[Hs1 Ht1]%andb_prop Ha]. cbn [Sources Targets Alerting].
  rewrite Ht1, Ha. unfold map_ok in *. rewrite !map_to_list_singleton, map_size_singleton in *.
  cbn in *. rewrite !andb_true_r in *. apply andb_prop in Hs1 as [-> Hs1].
  unfold source_ok in *. cbn. apply andb_prop in Hs1 as [-> _]. by destruct targets.
Qed.
