(* ===== verification/Monitoring.v ===== *)
(** * Monitoring: [src/monitoring]

    Statistics, connections, processes and the monitor that stores them.  The
    Prometheus counters are code of a library: what the program tells them is
    kept as a list of events. *)
From S2P Require Import Prelude Floats Wire Bufio.

(** ** Statistics: [stats.go] *)

(** The calls made on the six Prometheus metrics, with the double they are made
    with: [float64(delta)], which is a whole number. *)
Inductive prom_event :=
  | BytesAdd (delta : Z) | InboundAdd (delta : Z) | OutboundAdd (delta : Z)
  | DroppedAdd (delta : Z) | ResentAdd (delta : Z) | InFlightInc | InFlightDec.

Record Stats := {
  BytesProcessed : Z;
  MessagesInbound : Z;
  MessagesOutbound : Z;
  MessagesInFlight : Z;
  DroppedMessages : Z;
  ResentMessages : Z;
  prom : list prom_event;
}.

Definition NewStats : Stats := Build_Stats 0 0 0 0 0 0 [].

Definition IncrementBytes (delta : Z) (s : Stats) : Stats :=
  Build_Stats (BytesProcessed s +64 delta) (MessagesInbound s) (MessagesOutbound s)
    (MessagesInFlight s) (DroppedMessages s) (ResentMessages s) (prom s ++ [BytesAdd (f64_of_Z delta)]).

Definition IncrementMessagesInbound (delta : Z) (s : Stats) : Stats :=
  Build_Stats (BytesProcessed s) (MessagesInbound s +64 delta) (MessagesOutbound s)
    (MessagesInFlight s) (DroppedMessages s) (ResentMessages s)
    (prom s ++ [InboundAdd (f64_of_Z delta)]).

Definition IncrementMessagesOutbound (delta : Z) (s : Stats) : Stats :=
  Build_Stats (BytesProcessed s) (MessagesInbound s) (MessagesOutbound s +64 delta)
    (MessagesInFlight s) (DroppedMessages s) (ResentMessages s)
    (prom s ++ [OutboundAdd (f64_of_Z delta)]).

Definition IncrementDroppedMessages (delta : Z) (s : Stats) : Stats :=
  Build_Stats (BytesProcessed s) (MessagesInbound s) (MessagesOutbound s)
    (MessagesInFlight s) (DroppedMessages s +64 delta) (ResentMessages s)
    (prom s ++ [DroppedAdd (f64_of_Z delta)]).

Definition IncrementResentMessages (delta : Z) (s : Stats) : Stats :=
  Build_Stats (BytesProcessed s) (MessagesInbound s) (MessagesOutbound s)
    (MessagesInFlight s) (DroppedMessages s) (ResentMessages s +64 delta)
    (prom s ++ [ResentAdd (f64_of_Z delta)]).

Definition AddInFlightMessage (s : Stats) : Stats :=
  Build_Stats (BytesProcessed s) (MessagesInbound s) (MessagesOutbound s)
    (MessagesInFlight s +64 1) (DroppedMessages s) (ResentMessages s)
    (prom s ++ [InFlightInc]).

Definition RemoveInFlightMessage (s : Stats) : Stats :=
  Build_Stats (BytesProcessed s) (MessagesInbound s) (MessagesOutbound s)
    (MessagesInFlight s +64 not64 0) (DroppedMessages s) (ResentMessages s)
    (prom s ++ [InFlightDec]).

Definition GetBytesProcessed (s : Stats) : Z := BytesProcessed s.
Definition GetMessagesInbound (s : Stats) : Z := MessagesInbound s.
Definition GetMessagesOutbound (s : Stats) : Z := MessagesOutbound s.
Definition GetInFlightMessages (s : Stats) : Z := MessagesInFlight s.
Definition GetDroppedMessages (s : Stats) : Z := DroppedMessages s.
Definition GetResentMessages (s : Stats) : Z := ResentMessages s.

(** ** Logs *)
Inductive Level := FatalLevel | ErrorLevel | InfoLevel.

(** The message of a log entry: a text, or the text of an error value. *)
Inductive log_message :=
  | LogText (s : string)
  | LogIo (e : io_error)
  | LogDecode (e : pb_error)
  | LogEncode (e : m_error).

(** [LogItem], without the time at which it was made. *)
Record LogItem := { LogLevel : Level; LogMessage : log_message }.

(** ** Connections and processes: [connection.go], [process.go] *)
Record Details := { Host : string; Port : Z }.

(** A pointer to a limiter is its position among the rules of the target. *)
Record Connection := {
  ConnDetails : Details;
  ConnName : string;
  ConnType : string;
  Provider : string;
  ConnStats : Stats;
  State : string;
  LastLog : option LogItem;
  RateLimiters : list nat;
}.

Definition NewConnection (details : Details) (provider name connectionType : string)
    (rateLimiters : list nat) : Connection :=
  {| ConnDetails := details; ConnName := name; ConnType := connectionType;
     Provider := provider; ConnStats := NewStats; State := ""; LastLog := None;
     RateLimiters := rateLimiters |}.

Definition SetState (state : string) (c : Connection) : Connection :=
  {| ConnDetails := ConnDetails c; ConnName := ConnName c; ConnType := ConnType c;
     Provider := Provider c; ConnStats := ConnStats c; State := state;
     LastLog := LastLog c; RateLimiters := RateLimiters c |}.

Definition on_stats (f : Stats -> Stats) (c : Connection) : Connection :=
  {| ConnDetails := ConnDetails c; ConnName := ConnName c; ConnType := ConnType c;
     Provider := Provider c; ConnStats := f (ConnStats c); State := State c;
     LastLog := LastLog c; RateLimiters := RateLimiters c |}.

Record Process := {
  ProcName : string;
  ProcType : string;
  ProcStats : Stats;
  ProcState : string;
  ProcLastLog : option LogItem;
}.

Definition NewProcess (name processType : string) : Process :=
  {| ProcName := name; ProcType := processType; ProcStats := NewStats; ProcState := "";
     ProcLastLog := None |}.

Definition Process_SetState (state : string) (p : Process) : Process :=
  {| ProcName := ProcName p; ProcType := ProcType p; ProcStats := ProcStats p;
     ProcState := state; ProcLastLog := ProcLastLog p |}.

Definition on_proc_stats (f : Stats -> Stats) (p : Process) : Process :=
  {| ProcName := ProcName p; ProcType := ProcType p; ProcStats := f (ProcStats p);
     ProcState := ProcState p; ProcLastLog := ProcLastLog p |}.

(** ** The monitor: [monitor.go]

    The stores hold pointers; a pointer is the index of a connection or
    process in the heap of the program. *)
Record Monitor := { Connections : list nat; Processes : list nat }.

Definition NewMonitor : Monitor := {| Connections := []; Processes := [] |}.

(** [Add] of the two stores: an append under the lock of the store. *)
Definition ConnectionStore_Add (conn : nat) (cs : list nat) : list nat := cs ++ [conn].
Definition ProcessStore_Add (proc : nat) (ps : list nat) : list nat := ps ++ [proc].

Definition AddConnection (conn : nat) (m : Monitor) : Monitor :=
  {| Connections := ConnectionStore_Add conn (Connections m); Processes := Processes m |}.

Definition AddProcess (proc : nat) (m : Monitor) : Monitor :=
  {| Connections := Connections m; Processes := ProcessStore_Add proc (Processes m) |}.

(** [LogForConnection] and [LogForProcess] on a monitor that is not nil; the
    line that goes to the logger is output only. *)
Definition LogForConnection (level : Level) (msg : log_message) (c : Connection)
    : Connection :=
  {| ConnDetails := ConnDetails c; ConnName := ConnName c; ConnType := ConnType c;
     Provider := Provider c; ConnStats := ConnStats c; State := State c;
     LastLog := Some {| LogLevel := level; LogMessage := msg |};
     RateLimiters := RateLimiters c |}.

Definition LogForProcess (level : Level) (msg : log_message) (p : Process) : Process :=
  {| ProcName := ProcName p; ProcType := ProcType p; ProcStats := ProcStats p;
     ProcState := ProcState p;
     ProcLastLog := Some {| LogLevel := level; LogMessage := msg |} |}.

(** ** The counters against the metrics *)

(** What a list of metric events adds up to, per counter. *)
Record totals := {
  t_bytes : Z; t_inbound : Z; t_outbound : Z; t_inflight : Z; t_dropped : Z; t_resent : Z;
}.

Definition add_event (t : totals) (e : prom_event) : totals :=
  match e with
  | BytesAdd d => Build_totals (t_bytes t + d) (t_inbound t) (t_outbound t) (t_inflight t)
                    (t_dropped t) (t_resent t)
  | InboundAdd d => Build_totals (t_bytes t) (t_inbound t + d) (t_outbound t)
                      (t_inflight t) (t_dropped t) (t_resent t)
  | OutboundAdd d => Build_totals (t_bytes t) (t_inbound t) (t_outbound t + d)
                       (t_inflight t) (t_dropped t) (t_resent t)
  | DroppedAdd d => Build_totals (t_bytes t) (t_inbound t) (t_outbound t) (t_inflight t)
                      (t_dropped t + d) (t_resent t)
  | ResentAdd d => Build_totals (t_bytes t) (t_inbound t) (t_outbound t) (t_inflight t)
                     (t_dropped t) (t_resent t + d)
  | InFlightInc => Build_totals (t_bytes t) (t_inbound t) (t_outbound t)
                     (t_inflight t + 1) (t_dropped t) (t_resent t)
  | InFlightDec => Build_totals (t_bytes t) (t_inbound t) (t_outbound t)
                     (t_inflight t - 1) (t_dropped t) (t_resent t)
  end.

Definition prom_totals (l : list prom_event) : totals :=
  foldl add_event (Build_totals 0 0 0 0 0 0) l.

(** The operations on statistics, as data. *)
Inductive stat_op :=
  | OpBytes (d : Z) | OpInbound (d : Z) | OpOutbound (d : Z) | OpDropped (d : Z)
  | OpResent (d : Z) | OpAddInFlight | OpRemoveInFlight.

Definition stat_apply (o : stat_op) : Stats -> Stats :=
  match o with
  | OpBytes d => IncrementBytes d
  | OpInbound d => IncrementMessagesInbound d
  | OpOutbound d => IncrementMessagesOutbound d
  | OpDropped d => IncrementDroppedMessages d
  | OpResent d => IncrementResentMessages d
  | OpAddInFlight => AddInFlightMessage
  | OpRemoveInFlight => RemoveInFlightMessage
  end.

Definition stats_agree (s : Stats) (t : totals) : Prop :=
  BytesProcessed s = u64 (t_bytes t) /\ MessagesInbound s = u64 (t_inbound t) /\
  MessagesOutbound s = u64 (t_outbound t) /\ MessagesInFlight s = u64 (t_inflight t) /\
  DroppedMessages s = u64 (t_dropped t) /\ ResentMessages s = u64 (t_resent t).

Lemma add64_u64 a b : u64 a +64 b = u64 (a + b).
Proof. unfold add64. apply (eq64_add (u64 a) a (u64_eq64 a) b b eq_refl). Qed.

(** The delta of an operation is one that a double holds. *)
Definition told_exactly (o : stat_op) : Prop :=
  match o with
  | OpBytes d | OpInbound d | OpOutbound d | OpDropped d | OpResent d => 0 <= d <= 2 ^ 53
  | OpAddInFlight | OpRemoveInFlight => True
  end.

Lemma f64_small d : 0 <= d <= 2 ^ 53 -> f64_of_Z d = d.
Proof.
  intros Hd. destruct (decide (d = 2 ^ 53)) as [-> | Hne]; [vm_compute; reflexivity |].
  apply f64_of_Z_exact. lia.
Qed.

Lemma stat_apply_agrees o s t :
  told_exactly o -> stats_agree s t ->
  exists e, prom (stat_apply o s) = prom s ++ [e] /\
            stats_agree (stat_apply o s) (add_event t e).
Proof.
  intros Ho (H1 & H2 & H3 & H4 & H5 & H6).
  destruct o; eexists; (split; [reflexivity |]); unfold stats_agree;
    cbn [stat_apply IncrementBytes IncrementMessagesInbound IncrementMessagesOutbound
      IncrementDroppedMessages IncrementResentMessages AddInFlightMessage RemoveInFlightMessage
      add_event BytesProcessed MessagesInbound MessagesOutbound MessagesInFlight DroppedMessages
      ResentMessages t_bytes t_inbound t_outbound t_inflight t_dropped t_resent told_exactly] in *;
    rewrite ?f64_small by done;
    rewrite ?H1, ?H2, ?H3, ?H4, ?H5, ?H6, ?add64_u64; split_and!; try done.
  apply (eq64_shift _ _ 1). unfold not64, pow64. lia.
Qed.

(** What a counter of the API and its metric add up to when the deltas are
    large: the metric is told the nearest double, off by at most one part in 2^53
    ([f64_of_Z_error]). *)
Lemma large_delta_rounded :
  let s := IncrementBytes (2 ^ 53 + 1) NewStats in
  BytesProcessed s = 2 ^ 53 + 1 /\ t_bytes (prom_totals (prom s)) = 2 ^ 53.
Proof. split; vm_compute; reflexivity. Qed.

(** C40. After any sequence of operations, none of them with a delta of more than
    2^53, which a double no longer holds, the six counters that the API reads are,
    modulo 2^64, exactly what the Prometheus metrics were told: the sum of the
    doubles. *)
Theorem stats_match_metrics ops :
  Forall told_exactly ops ->
  let s := foldl (fun s o => stat_apply o s) NewStats ops in
  stats_agree s (prom_totals (prom s)).
Proof.
  assert (forall s, stats_agree s (prom_totals (prom s)) -> Forall told_exactly ops ->
    let s' := foldl (fun s o => stat_apply o s) s ops in
    stats_agree s' (prom_totals (prom s'))) as Hgen; [| by intros Hops; apply Hgen].
  induction ops as [| o ops IH]; intros s Hs Hops; [done |].
  apply list.Forall_cons in Hops as [Ho Hops]. cbn [foldl]. apply IH; [| done].
  destruct (stat_apply_agrees o s _ Ho Hs) as (e & He & Ha). rewrite He.
  unfold prom_totals in *. by rewrite foldl_app.
Qed.

Lemma stats_match_metrics_witness :
  let s := foldl (fun s o => stat_apply o s) NewStats
    [OpBytes (2 ^ 53); OpInbound 1; OpAddInFlight; OpRemoveInFlight; OpRemoveInFlight] in
  MessagesInFlight s = 2 ^ 64 - 1 /\ BytesProcessed s = u64 (t_bytes (prom_totals (prom s))).
Proof.
  split; [vm_compute; reflexivity |].
  apply (stats_match_metrics
    [OpBytes (2 ^ 53); OpInbound 1; OpAddInFlight; OpRemoveInFlight; OpRemoveInFlight]).
  repeat constructor; vm_compute; discriminate.
Defined.
