(* ===== verification/Connector.v ===== *)
(** * Connectors: [src/broker/connector.go], the data of [src/broker/broker.go]

    The handlers of the broker's goroutines, one iteration of each [select]
    loop at a time, in a state-and-panic monad.  A send on an unbuffered
    channel is recorded in the order in which the goroutine performs it; the
    rendezvous with the receiver is the business of the file [Broker]. *)
From S2P Require Import Prelude Wire Message Bufio Protocol Limiter Monitoring Config.

(** ** Data *)

(** [broker.RateLimitRule]: the limiter belongs to this rule alone. *)
Record RateLimitRule := {
  rule_limiter : RateLimiter;
  rule_breach : Config.BreachBehaviour;
}.

(** [broker.Source] and [broker.Target]; of the configuration they embed, the
    connectors read the provider only. *)
Record Source := {
  Source_ConnectionDetails : Details;
  Source_Config_ : Config.Source;
  Source_Targets_ : list string;
}.

Record Target := {
  Target_ConnectionDetails : Details;
  Target_Config_ : Config.Target;
  RateLimitRules : list RateLimitRule;
}.

(** [ConnectorManager].  A connector is known by its name; a wait group is its
    counter, a stop channel says whether it was closed, [None] is a nil
    monitor. *)
Record ConnectorManager := {
  SourceConnectors : gset string;
  TargetConnectors : gset string;
  TargetWaitGroup : Z;
  SourceWaitGroup : Z;
  InFlightWaitGroup : Z;
  TargetStop : bool;
  SourceStop : bool;
  MessagesInFlight_ : Z;
  Monitor_ : option Monitor;
}.

Definition NewConnectorManager (monitor : option Monitor) : ConnectorManager :=
  {| SourceConnectors := ∅; TargetConnectors := ∅; TargetWaitGroup := 0;
     SourceWaitGroup := 0; InFlightWaitGroup := 0; TargetStop := false;
     SourceStop := false; MessagesInFlight_ := 0; Monitor_ := monitor |}.

(** Replace the wait groups, or the state of the messages in flight. *)
Definition set_groups (t s : Z) (m : ConnectorManager) : ConnectorManager :=
  {| SourceConnectors := SourceConnectors m; TargetConnectors := TargetConnectors m;
     TargetWaitGroup := t; SourceWaitGroup := s;
     InFlightWaitGroup := InFlightWaitGroup m; TargetStop := TargetStop m;
     SourceStop := SourceStop m; MessagesInFlight_ := MessagesInFlight_ m;
     Monitor_ := Monitor_ m |}.

Definition set_inflight (wg count : Z) (m : ConnectorManager) : ConnectorManager :=
  {| SourceConnectors := SourceConnectors m; TargetConnectors := TargetConnectors m;
     TargetWaitGroup := TargetWaitGroup m; SourceWaitGroup := SourceWaitGroup m;
     InFlightWaitGroup := wg; TargetStop := TargetStop m; SourceStop := SourceStop m;
     MessagesInFlight_ := count; Monitor_ := Monitor_ m |}.

Definition set_monitor (mo : option Monitor) (m : ConnectorManager) : ConnectorManager :=
  {| SourceConnectors := SourceConnectors m; TargetConnectors := TargetConnectors m;
     TargetWaitGroup := TargetWaitGroup m; SourceWaitGroup := SourceWaitGroup m;
     InFlightWaitGroup := InFlightWaitGroup m; TargetStop := TargetStop m;
     SourceStop := SourceStop m; MessagesInFlight_ := MessagesInFlight_ m;
     Monitor_ := mo |}.

Definition on_limiter (f : RateLimiter -> RateLimiter) (rule : RateLimitRule)
    : RateLimitRule :=
  {| rule_limiter := f (rule_limiter rule); rule_breach := rule_breach rule |}.

(** The state of one goroutine: the manager it shares, the record the monitor
    has of it and its address, the rules of its target, its connection in both
    directions, and the channel sends it has performed. *)
Record world := {
  mgr : ConnectorManager;
  mon : Connection;
  self : nat;
  rules : list RateLimitRule;
  out : conn;
  inp : reader;
  sends : list (string * list byte);
}.

Definition set_mgr (m : ConnectorManager) (w : world) : world :=
  {| mgr := m; mon := mon w; self := self w; rules := rules w; out := out w;
     inp := inp w; sends := sends w |}.
Definition set_mon (f : Connection -> Connection) (w : world) : world :=
  {| mgr := mgr w; mon := f (mon w); self := self w; rules := rules w; out := out w;
     inp := inp w; sends := sends w |}.
Definition set_rules (rs : list RateLimitRule) (w : world) : world :=
  {| mgr := mgr w; mon := mon w; self := self w; rules := rs; out := out w;
     inp := inp w; sends := sends w |}.
Definition set_out (c : conn) (w : world) : world :=
  {| mgr := mgr w; mon := mon w; self := self w; rules := rules w; out := c;
     inp := inp w; sends := sends w |}.
Definition set_inp (r : reader) (w : world) : world :=
  {| mgr := mgr w; mon := mon w; self := self w; rules := rules w; out := out w;
     inp := r; sends := sends w |}.
Definition add_send (target : string) (data : list byte) (w : world) : world :=
  {| mgr := mgr w; mon := mon w; self := self w; rules := rules w; out := out w;
     inp := inp w; sends := sends w ++ [(target, data)] |}.

(** The code of a connector's goroutine. *)
Definition M : Type -> Type := go world.

Definition set_state (s : string) : M unit := mmodify (set_mon (SetState s)).
Definition stat (o : stat_op) : M unit := mmodify (set_mon (on_stats (stat_apply o))).

(** [if Monitor != nil { LogForConnection }] and the unguarded call. *)
Definition log_guarded (level : Level) (msg : log_message) : M unit :=
  mmodify (fun w =>
    match Monitor_ (mgr w) with
    | Some _ => set_mon (LogForConnection level msg) w
    | None => w
    end).

Definition log_unguarded (level : Level) (msg : log_message) : M unit :=
  mo <~ mget (fun w => Monitor_ (mgr w)) ;;
  match mo with
  | Some _ => mmodify (set_mon (LogForConnection level msg))
  | None => mpanic nil_deref
  end.

(** [if Monitor != nil { Monitor.AddConnection(monitoringConnection) }]. *)
Definition register : M unit :=
  mmodify (fun w => set_mgr (set_monitor (AddConnection (self w) <$> Monitor_ (mgr w))
                               (mgr w)) w).

(** ** Manager operations *)

(** [WaitGroup.Add]: a negative counter panics. *)
Definition wait_group_add (delta : Z) (wg : Z) : outcome Z :=
  if wg + delta <? 0 then Panic "sync: negative WaitGroup counter" else Ret (wg + delta).

(** Closing a channel that is closed panics. *)
Definition close_channel (closed : bool) : outcome bool :=
  if closed then Panic "close of closed channel" else Ret true.

Definition AddMessage (delta : Z) (m : ConnectorManager) : outcome ConnectorManager :=
  match wait_group_add delta (InFlightWaitGroup m) with
  | Ret wg => Ret (set_inflight wg (MessagesInFlight_ m +64 u64 delta) m)
  | Panic why => Panic why
  end.

Definition CompleteMessage (m : ConnectorManager) : outcome ConnectorManager :=
  match wait_group_add (-1) (InFlightWaitGroup m) with
  | Ret wg => Ret (set_inflight wg (MessagesInFlight_ m +64 not64 0) m)
  | Panic why => Panic why
  end.

Definition target_done (m : ConnectorManager) : outcome ConnectorManager :=
  match wait_group_add (-1) (TargetWaitGroup m) with
  | Ret wg => Ret (set_groups wg (SourceWaitGroup m) m)
  | Panic why => Panic why
  end.

Definition source_done (m : ConnectorManager) : outcome ConnectorManager :=
  match wait_group_add (-1) (SourceWaitGroup m) with
  | Ret wg => Ret (set_groups (TargetWaitGroup m) wg m)
  | Panic why => Panic why
  end.

Definition on_mgr (f : ConnectorManager -> outcome ConnectorManager) : M unit :=
  fun w => match f (mgr w) with
           | Ret m => Ret (tt, set_mgr m w)
           | Panic why => Panic why
           end.

(** Who sends to targets: a goroutine that shares the manager and records its
    channel sends. *)
Class Sender (St : Type) := {
  manager_of : St -> ConnectorManager;
  record_send : string -> list byte -> St -> St;
}.

#[export] Instance world_sender : Sender world :=
  {| manager_of := mgr; record_send := add_send |}.

(** [TargetConnector.Send]: the send on [Inbound], recorded. *)
Definition target_send `{Sender St} (target : string) (msg : list byte)
    : go St (option string) :=
  fun w => Ret (None, record_send target msg w).

(** [SendToTarget]: [Some] is the error for a target that does not exist. *)
Definition SendToTarget `{Sender St} (target : string) (msg : list byte)
    : go St (option string) :=
  known <~ mget (fun w => bool_decide (target ∈ TargetConnectors (manager_of w))) ;;
  if (known : bool) then target_send target msg
  else mreturn (Some ("unable to find target: " +:+ target)).

(** ** The target connector *)

(** Protocol calls on the connection of the goroutine. *)
Definition write_new_message (command data : string) : M (option write_error) :=
  fun w =>
    let '(_, err, c) := WriteNewMessage (out w) command data in Ret (err, set_out c w).

Definition wait_for_ok : M bool :=
  fun w => let '(ok, r) := WaitForOk (inp w) in Ret (ok, set_inp r w).

Definition write_log (e : write_error) : log_message :=
  match e with MarshalErr e => LogEncode e | WriteErr e => LogIo e end.

(** The assignment [m.Targets = newTargets]. *)
Definition set_targets (targets : list string) (m : BrokerMessage) : BrokerMessage :=
  {| Broker_Source := Broker_Source m; Broker_Targets := targets;
     Broker_SourceMessage := Broker_SourceMessage m;
     BrokerMessage_unrecognized := BrokerMessage_unrecognized m |}.

(** The double quote. *)
Definition quote : string := String (Ascii.ascii_of_nat 34) EmptyString.

#[local] Arguments ToProtobuf : simpl never.

Section Handlers.
Context `{MapOrder}.

(** [handleRateLimiting], the loop over the rules. *)
Fixpoint rate_limit_loop (rs : list RateLimitRule) (m : BrokerMessage) : M bool :=
  match rs with
  | [] => mreturn true
  | rule :: rs =>
      let '(_, _, over) := IsAverageOverLimit (rule_limiter rule) in
      if (over : bool) then
        if String.eqb (Action (rule_breach rule)) "discard" then
          on_mgr CompleteMessage ;;;
          stat OpRemoveInFlight ;;;
          stat (OpDropped 1) ;;;
          mreturn false
        else if String.eqb (Action (rule_breach rule)) "fallback" then
          let m := set_targets [Breach_Target (rule_breach rule)] m in
          match ToProtobuf m with
          | (_, Some e) =>
              set_state "dead" ;;;
              log_guarded ErrorLevel (LogEncode e) ;;;
              mreturn false
          | (rawData, None) =>
              log_guarded InfoLevel
                (LogText ("rate limit reached, falling back to target " +:+ quote
                          +:+ Breach_Target (rule_breach rule) +:+ quote)) ;;;
              err <~ SendToTarget (Breach_Target (rule_breach rule)) rawData ;;
              stat (OpOutbound 1) ;;;
              stat (OpResent 1) ;;;
              match err with
              | Some e => log_guarded ErrorLevel (LogText e)
              | None => mreturn tt
              end ;;;
              mreturn false
          end
        else rate_limit_loop rs m
      else rate_limit_loop rs m
  end.

Definition handleRateLimiting (m : BrokerMessage) : M bool :=
  rs <~ mget rules ;; rate_limit_loop rs m.

(** The case [data := <-t.Inbound] of [TargetConnector.Handle]: [true] to go
    on with the loop, [false] when the handler returns. *)
Definition target_receive (name : string) (data : list byte) : M bool :=
  set_state "processing" ;;;
  stat (OpBytes (len data)) ;;;
  stat (OpInbound 1) ;;;
  stat OpAddInFlight ;;;
  match ProtobufToBroker data with
  | (_, Some e) =>
      set_state "dead" ;;;
      log_guarded FatalLevel (LogDecode e) ;;;
      stat (OpDropped 1) ;;;
      mreturn false
  | (l, None) =>
      match ToProtobuf (BrokerToTarget name l) with
      | (_, Some e) =>
          set_state "dead" ;;;
          log_guarded FatalLevel (LogEncode e) ;;;
          stat (OpDropped 1) ;;;
          mreturn false
      | (rawData, None) =>
          passed <~ handleRateLimiting l ;;
          if negb passed then
            log_guarded InfoLevel
              (LogText "log failed rate limit check, waiting for next message") ;;;
            mreturn true
          else
            err <~ write_new_message CommandTargetLog (string_of rawData) ;;
            match err with
            | Some e =>
                set_state "dead" ;;;
                log_guarded FatalLevel (write_log e) ;;;
                stat (OpDropped 1) ;;;
                mreturn false
            | None =>
                stat (OpOutbound 1) ;;;
                ok <~ wait_for_ok ;;
                if negb ok then
                  on_mgr CompleteMessage ;;;
                  set_state "dead" ;;;
                  (* err is nil here: evaluating err.Error() panics *)
                  (mo <~ mget (fun w => Monitor_ (mgr w)) ;;
                   match mo with Some _ => mpanic nil_deref | None => mreturn tt end) ;;;
                  stat (OpDropped 1) ;;;
                  mreturn false
                else
                  mmodify (fun w => set_rules
                    (on_limiter (Increment (u64 (len rawData))) <$> rules w) w) ;;;
                  on_mgr CompleteMessage ;;;
                  stat OpRemoveInFlight ;;;
                  mreturn true
            end
      end
  end.

(** The case [<-t.StopChan]. *)
Definition target_stop : M unit :=
  mmodify (fun w => set_out (conn_close (SendBye (out w))) w) ;;;
  set_state "finished".

(** The deferred [SendBye] and [Close] of both handlers. *)
Definition deferred : M unit :=
  mmodify (fun w => set_out (conn_close (SendBye (out w))) w).

(** What happens at the [select] of a target connector: a message, the stop
    signal, or meanwhile a firing of the ticker of the [i]-th limiter. *)
Inductive target_event :=
  | Inbound (data : list byte)
  | Ticker (i : nat) (curTime ttlTime : Z) (now : string -> Z)
      (order : list (string * StoreItem))
  | StopTarget.

(** One pass through the [select]: [false] when the handler returns. *)
Definition target_select (name : string) (event : target_event) : M bool :=
  match event with
  | Inbound data => target_receive name data
  | Ticker i curTime ttlTime now order =>
      mmodify (fun w =>
        set_rules (alter (on_limiter (tick curTime ttlTime now order)) i (rules w)) w) ;;;
      mreturn true
  | StopTarget => target_stop ;;; mreturn false
  end.

(** One iteration of the receive loop, with the deferred calls when it is the
    last one. *)
Definition target_iteration (name : string) (event : target_event) : M bool :=
  set_state "waiting" ;;;
  continue <~ target_select name event ;;
  (if (continue : bool) then mreturn tt else deferred ;;; on_mgr target_done) ;;;
  mreturn continue.

(** The receive loop, for the events that occur. *)
Fixpoint target_loop (name : string) (events : list target_event) : M unit :=
  match events with
  | [] => set_state "waiting"
  | event :: events =>
      continue <~ target_iteration name event ;;
      if (continue : bool) then target_loop name events else mreturn tt
  end.

(** [TargetConnector.Handle]; [dial] is the error of [OpenTCPConnection].  A
    failure to send HELLO is reported, and the loop is entered all the same. *)
Definition target_handle (name : string) (target : Target) (dial : option io_error)
    (events : list target_event) : M unit :=
  mmodify (fun w => set_rules (RateLimitRules target) w) ;;;
  mmodify (set_mon (fun _ =>
    NewConnection (Target_ConnectionDetails target)
      (Target_Provider (Target_Config_ target)) name "target"
      (seq 0 (length (RateLimitRules target))))) ;;;
  set_state "starting" ;;;
  register ;;;
  match dial with
  | Some e =>
      set_state "dead" ;;; log_unguarded FatalLevel (LogIo e) ;;; on_mgr target_done
  | None =>
      ready <~ (fun w => let '(ok, c) := SendHello (out w) in Ret (ok, set_out c w)) ;;
      (if negb ready then
         set_state "dead" ;;;
         log_guarded FatalLevel (LogText "did not receive HELLO from server")
       else mreturn tt) ;;;
      target_loop name events
  end.

(** ** The source connector *)

(** The case [msg := <-receiveChan] of [SourceConnector.Handle]; the send on
    [Outbound] is recorded under the empty name. *)
Definition source_receive (name : string) (targets : list string) (msg : Message) : M bool :=
  if String.eqb (Command msg) CommandSourceMessage then
    set_state "processing" ;;;
    stat (OpBytes (len (Data msg))) ;;;
    stat (OpInbound 1) ;;;
    stat OpAddInFlight ;;;
    match ProtobufToSource (Data msg) with
    | (_, Some e) =>
        set_state "dead" ;;;
        log_guarded FatalLevel (LogDecode e) ;;;
        mreturn false
    | (sourceMsg, None) =>
        let l := SourceToBroker name targets sourceMsg in
        match ToProtobuf l with
        | (_, Some e) =>
            set_state "dead" ;;;
            log_guarded FatalLevel (LogEncode e) ;;;
            mreturn false
        | (rawData, None) =>
            mmodify (fun w => set_out (SendOk (out w)) w) ;;;
            on_mgr (AddMessage (len (Broker_Targets l))) ;;;
            mmodify (add_send "" rawData) ;;;
            stat (OpOutbound 1) ;;;
            stat OpRemoveInFlight ;;;
            mreturn true
        end
    end
  else mreturn true.

Inductive source_event :=
  | Received (msg : Message)
  | ReadError (e : option read_error)
  | StopSource.

Definition read_log (e : read_error) : log_message :=
  match e with IoErr e => LogIo e | PbErr e => LogDecode e end.

(** One pass through the [select] of a source connector. *)
Definition source_select (name : string) (targets : list string) (event : source_event)
    : M bool :=
  match event with
  | Received msg => source_receive name targets msg
  | ReadError None => mreturn true
  | ReadError (Some e) =>
      (if decide (e = IoErr EOF) then set_state "finished"
       else set_state "dead" ;;; log_guarded FatalLevel (read_log e)) ;;;
      mreturn false
  | StopSource =>
      mmodify (fun w => set_out (conn_close (out w)) w) ;;;
      set_state "finished" ;;;
      mreturn false
  end.

Definition source_iteration (name : string) (targets : list string) (event : source_event)
    : M bool :=
  set_state "waiting" ;;;
  continue <~ source_select name targets event ;;
  (if (continue : bool) then mreturn tt else deferred ;;; on_mgr source_done) ;;;
  mreturn continue.

Fixpoint source_loop (name : string) (targets : list string) (events : list source_event)
    : M unit :=
  match events with
  | [] => set_state "waiting"
  | event :: events =>
      continue <~ source_iteration name targets event ;;
      if (continue : bool) then source_loop name targets events else mreturn tt
  end.

(** [SourceConnector.Handle].  A failed HELLO returns before the deferred calls
    on the connection are registered. *)
Definition source_handle (name : string) (source : Source) (dial : option io_error)
    (events : list source_event) : M unit :=
  mmodify (set_mon (fun _ =>
    NewConnection (Source_ConnectionDetails source)
      (Source_Provider (Source_Config_ source)) name "source" [])) ;;;
  set_state "starting" ;;;
  register ;;;
  match dial with
  | Some e =>
      set_state "dead" ;;; log_guarded FatalLevel (LogIo e) ;;; on_mgr source_done
  | None =>
      ready <~ (fun w => let '(ok, c) := SendHello (out w) in Ret (ok, set_out c w)) ;;
      if negb ready then
        set_state "dead" ;;;
        log_guarded FatalLevel (LogText "failed to send hello to source") ;;;
        on_mgr source_done
      else source_loop name (Source_Targets_ source) events
  end.

(** [SourceConnector.Send]. *)
Definition source_send (msg : list byte) : string :=
  "not implemented, sources do not receive messages".

(** ** Specification of a delivery *)

(** A rule that decides: its limiter is over its average limit and its action
    is one of the two that the code knows. *)
Definition decides (rule : RateLimitRule) : bool :=
  (IsAverageOverLimit (rule_limiter rule)).2
  && (String.eqb (Action (rule_breach rule)) "discard"
      || String.eqb (Action (rule_breach rule)) "fallback").

(** What becomes of a message handed to a target connector. *)
Inductive fate :=
  | Delivered (rawData : list byte)
  | Discarded
  | Resent (target : string) (data : list byte)
  | Stranded
  | Unencoded
  | Refused
  | Dead.

Definition breach_fate (rule : RateLimitRule) (l : BrokerMessage) (w : world) : fate :=
  if String.eqb (Action (rule_breach rule)) "discard" then Discarded
  else
    let target := Breach_Target (rule_breach rule) in
    match ToProtobuf (set_targets [target] l) with
    | (_, Some _) => Unencoded
    | (rawData, None) =>
        if bool_decide (target ∈ TargetConnectors (mgr w)) then Resent target rawData
        else Stranded
    end.

Definition target_fate (name : string) (data : list byte) (w : world) : fate :=
  match ProtobufToBroker data with
  | (_, Some _) => Dead
  | (l, None) =>
      match ToProtobuf (BrokerToTarget name l) with
      | (_, Some _) => Dead
      | (rawData, None) =>
          match List.find decides (rules w) with
          | Some rule => breach_fate rule l w
          | None =>
              match (WriteNewMessage (out w) CommandTargetLog (string_of rawData)).1.2 with
              | Some _ => Dead
              | None => if (WaitForOk (inp w)).1 then Delivered rawData else Refused
              end
          end
      end
  end.

(** How many in-flight tokens a fate gives back, and what it sends on. *)
Definition tokens (f : fate) : Z :=
  match f with Delivered _ | Discarded | Refused => 1 | _ => 0 end.
Definition resends (f : fate) : list (string * list byte) :=
  match f with Resent target data => [(target, data)] | _ => [] end.
Definition survives (f : fate) : bool :=
  match f with Refused | Dead => false | _ => true end.

Definition fate_ops (f : fate) : list stat_op :=
  match f with
  | Delivered _ => [OpOutbound 1; OpRemoveInFlight]
  | Discarded => [OpRemoveInFlight; OpDropped 1]
  | Resent _ _ | Stranded => [OpOutbound 1; OpResent 1]
  | Unencoded => []
  | Refused => [OpOutbound 1; OpDropped 1]
  | Dead => [OpDropped 1]
  end.

(** The limiters are charged for what was delivered. *)
Definition charge (f : fate) (rs : list RateLimitRule) : list RateLimitRule :=
  match f with
  | Delivered rawData => on_limiter (Increment (u64 (len rawData))) <$> rs
  | _ => rs
  end.

(** Give [k] in-flight tokens back; nothing else of the manager changes. *)
Definition give_back (k : Z) (m : ConnectorManager) : ConnectorManager :=
  set_inflight (InFlightWaitGroup m - k) (u64 (MessagesInFlight_ m - k)) m.

Lemma give_back_0 m : is_u64 (MessagesInFlight_ m) -> give_back 0 m = m.
Proof. intros Hm. unfold give_back. rewrite !Z.sub_0_r, u64_small by done. by destruct m. Qed.

(** The state after a message that met the fate [f]. *)
Record accounts (f : fate) (w w' : world) : Prop := {
  acc_mgr : mgr w' = give_back (tokens f) (mgr w);
  acc_sends : sends w' = sends w ++ resends f;
  acc_rules : rules w' = charge f (rules w);
  acc_out : match f with
            | Delivered rawData =>
                out w' = (WriteNewMessage (out w) CommandTargetLog (string_of rawData)).2
            | Refused | Dead => True
            | _ => out w' = out w
            end;
}.

Definition run_stats (ops : list stat_op) (s : Stats) : Stats :=
  foldl (fun s o => stat_apply o s) s ops.

(** The loop over the rules, by the first rule that decides. *)
Lemma rate_limit_loop_spec rs m w :
  0 < InFlightWaitGroup (mgr w) -> is_u64 (MessagesInFlight_ (mgr w)) ->
  match List.find decides rs with
  | None => rate_limit_loop rs m w = Ret (true, w)
  | Some rule =>
      let f := breach_fate rule m w in
      exists w', rate_limit_loop rs m w = Ret (false, w') /\
        accounts f w w' /\
        ConnStats (mon w') = run_stats (fate_ops f) (ConnStats (mon w))
  end.
Proof.
  intros Hwg Hc. induction rs as [| rule rs IH]; [done |].
  cbn [List.find rate_limit_loop]. unfold decides at 1.
  destruct (IsAverageOverLimit _) as [[excess mean] over]. cbn [snd].
  destruct over; [| exact IH]. cbn [andb].
  destruct (String.eqb (Action _) "discard") eqn:Hd; cbn [orb].
  - unfold breach_fate. rewrite Hd. unfold mbind_, on_mgr, CompleteMessage, wait_group_add.
    rewrite (proj2 (Z.ltb_ge _ 0)) by lia. cbn. eexists. split; [reflexivity |].
    split; [| done]. split; cbn; rewrite ?app_nil_r, ?add_not_zero; done.
  - destruct (String.eqb (Action _) "fallback"); [| exact IH].
    unfold breach_fate. rewrite Hd.
    destruct (ToProtobuf _) as [raw [e |]]; unfold SendToTarget, target_send, set_state,
      log_guarded, stat, mbind_, mmodify, mreturn, mget;
      destruct (Monitor_ (mgr w)) eqn:Hm; cbn; try destruct (bool_decide _); cbn;
      rewrite ?Hm; cbn; (eexists; split; [reflexivity |]; split; [| done]);
      (split; cbn -[give_back]; rewrite ?app_nil_r, ?give_back_0 by done; congruence).
Qed.

(** The state in which the fate is decided: the counters of the arrival. *)
Definition arrived (data : list byte) (w : world) : world :=
  set_mon (fun c => on_stats AddInFlightMessage (on_stats (IncrementMessagesInbound 1)
    (on_stats (IncrementBytes (len data)) (SetState "processing" c)))) w.

Lemma accounts_arrived f data w w' : accounts f (arrived data w) w' -> accounts f w w'.
Proof. intros []. by split. Qed.

Lemma breach_fate_arrived rule l data w :
  breach_fate rule l (arrived data w) = breach_fate rule l w.
Proof. done. Qed.

Lemma breach_survives rule l w : survives (breach_fate rule l w) = true.
Proof.
  unfold breach_fate. destruct (String.eqb _ _); [done |].
  destruct (ToProtobuf _) as [? [|]]; [done |]. by destruct (bool_decide _).
Qed.

Lemma breach_not_refused rule l w : breach_fate rule l w <> Refused.
Proof. intros E. pose proof (breach_survives rule l w) as Hs. by rewrite E in Hs. Qed.

(** A branch that ends the handler: the logging depends on the monitor, the
    accounts do not. *)
Ltac dead_branch w :=
  unfold set_state, log_guarded, stat, mbind_, mmodify, mreturn;
  let Hm := fresh "Hm" in
  destruct (Monitor_ (mgr w)) eqn:Hm; cbn; rewrite ?Hm; cbn; split_and!; try done;
  split; cbn -[give_back]; rewrite ?app_nil_r, ?give_back_0 by done; done.

Lemma target_receive_accounts name data w :
  0 < InFlightWaitGroup (mgr w) -> is_u64 (MessagesInFlight_ (mgr w)) ->
  let f := target_fate name data w in
  match target_receive name data w with
  | Ret (continue, w') =>
      (f = Refused -> Monitor_ (mgr w) = None) /\ continue = survives f /\
      accounts f w w' /\
      ConnStats (mon w')
      = run_stats ([OpBytes (len data); OpInbound 1; OpAddInFlight] ++ fate_ops f)
          (ConnStats (mon w))
  | Panic why => f = Refused /\ Monitor_ (mgr w) <> None /\ why = nil_deref
  end.
Proof.
  intros Hwg Hc f. unfold f, target_fate, target_receive.
  unfold mbind_ at 1 2 3 4, set_state at 1, stat at 1 2 3, mmodify at 1 2 3 4.
  change (set_mon (on_stats (stat_apply OpAddInFlight)) _) with (arrived data w).
  destruct (ProtobufToBroker data) as [l [e |]].
  { by dead_branch w. }
  destruct (ToProtobuf _) as [raw [e |]].
  { by dead_branch w. }
  pose proof (rate_limit_loop_spec (rules w) l (arrived data w) Hwg Hc) as Hloop.
  unfold mbind_ at 1, handleRateLimiting, mget. unfold mbind_ at 1.
  change (rules (arrived data w)) with (rules w).
  destruct (List.find decides (rules w)) as [rule |].
  - destruct Hloop as (w' & -> & Ha & Hs). rewrite breach_fate_arrived in *.
    apply accounts_arrived in Ha.
    pose proof (breach_not_refused rule l w). rewrite breach_survives.
    unfold negb, log_guarded, mbind_, mmodify, mreturn.
    rewrite (acc_mgr _ _ _ Ha). cbn [give_back set_inflight Monitor_].
    destruct (Monitor_ (mgr w)); cbn; split_and!; try done; destruct Ha; by split.
  - rewrite Hloop. unfold negb, write_new_message, mbind_ at 1.
    change (out (arrived data w)) with (out w).
    destruct (WriteNewMessage _ _ _) as [[wm [e |]] c] eqn:Hw; cbn [fst snd].
    + by dead_branch w.
    + unfold stat at 1, wait_for_ok, mbind_ at 1 2, mmodify at 1.
      change (inp (set_mon _ (set_out c (arrived data w)))) with (inp w).
      destruct (WaitForOk (inp w)) as [[|] r]; cbn [fst snd];
        unfold on_mgr, CompleteMessage, wait_group_add, set_state, stat, mbind_, mmodify,
          mreturn, mget, mpanic; cbn;
        rewrite (proj2 (Z.ltb_ge _ 0)) by lia; cbn.
      * split_and!; try done.
        split; cbn; rewrite ?app_nil_r, ?add_not_zero; [done.. | by rewrite Hw].
      * destruct (Monitor_ (mgr w)) eqn:Hm; cbn; [done |]. split_and!; try done.
        split; cbn; rewrite ?app_nil_r, ?add_not_zero; done.
Qed.

(** C16. Every message handed to a target connector meets exactly the fate that
    [target_fate] computes from its bytes, the rules, the connection and the
    reply: the number of in-flight tokens given back, the message sent on, the
    limiters charged, the statistics and whether the handler goes on are those
    of the fate; the only panic is the one of a refused delivery under a
    monitor. *)
Theorem target_receive_spec name data w :
  0 < InFlightWaitGroup (mgr w) -> is_u64 (MessagesInFlight_ (mgr w)) ->
  let f := target_fate name data w in
  match target_receive name data w with
  | Ret (continue, w') =>
      (f = Refused -> Monitor_ (mgr w) = None) /\ continue = survives f /\
      accounts f w w' /\
      ConnStats (mon w')
      = run_stats ([OpBytes (len data); OpInbound 1; OpAddInFlight] ++ fate_ops f)
          (ConnStats (mon w))
  | Panic why => f = Refused /\ Monitor_ (mgr w) <> None /\ why = nil_deref
  end.
Proof. exact (target_receive_accounts name data w). Qed.

(** What a write of a framable message leaves on an open connection. *)
Lemma write_new_message_frame sent0 command data :
  let m := {| Command := command; Data := bytes_of data; Message_unrecognized := [] |} in
  (Marshal m).2 = None ->
  WriteNewMessage {| sent := sent0; broken := None |} command data
  = (m, None, {| sent := sent0 ++ [frame m]; broken := None |}).
Proof.
  intros m Hm. unfold WriteNewMessage, WriteMessage, MessageToProtobuf. fold m.
  unfold frame. destruct (Marshal m) as [b [e |]]; [done |]. done.
Qed.

(** A delivered message reaches the target's server: what the connector
    writes is one TMSG frame; whatever follows it on the wire, [ReadMessage]
    gives back the frame's message, and its data decodes to the source message
    of the broker message, with the names of the source and of this target. *)
Theorem target_delivery name data l raw w continue w' sent0 :
  0 < InFlightWaitGroup (mgr w) -> is_u64 (MessagesInFlight_ (mgr w)) ->
  wf l -> ProtobufToBroker data = (l, None) ->
  out w = {| sent := sent0; broken := None |} ->
  target_fate name data w = Delivered raw ->
  let m := {| Command := CommandTargetLog; Data := raw; Message_unrecognized := [] |} in
  framable m -> len raw < pow64 ->
  target_receive name data w = Ret (continue, w') ->
  out w' = {| sent := sent0 ++ [frame m]; broken := None |} /\
  ProtobufToTarget raw = (BrokerToTarget name l, None) /\
  forall rest rd0, ReadMessage {| buf := frame m ++ rest; rd := rd0 |}
                   = (m, None, {| buf := rest; rd := rd0 |}).
Proof.
  intros Hwg Hc Hwf Hd Hout Hf m Hm Hl Hr.
  pose proof (target_receive_accounts name data w Hwg Hc) as Hspec.
  rewrite Hr, Hf in Hspec. destruct Hspec as (_ & _ & Ha & _).
  pose proof (acc_out _ _ _ Ha) as Hw. cbn in Hw.
  rewrite Hout, write_new_message_frame, bytes_of_string_of in Hw
    by (cbn [Command Data]; rewrite bytes_of_string_of; apply Hm).
  split_and!; [exact Hw | | intros; by apply ReadMessage_frame].
  unfold target_fate in Hf. rewrite Hd in Hf.
  destruct (ToProtobuf (BrokerToTarget name l)) as [raw' [e |]] eqn:Ht; [done |].
  assert (raw' = raw) as ->.
  { unfold breach_fate in Hf. repeat case_match; congruence. }
  apply Unmarshal_Marshal; [| exact Ht | exact Hl]. split; [done | apply Hwf].
Qed.

(** A message resent by a breached rule goes to the fallback target of the
    first rule that decides, a known target, and carries the same source name
    and source message, for that target alone; nothing is written to the
    target that is over its limit. *)
Theorem target_resend name data l w target d continue w' :
  0 < InFlightWaitGroup (mgr w) -> is_u64 (MessagesInFlight_ (mgr w)) ->
  wf l -> ProtobufToBroker data = (l, None) ->
  target_fate name data w = Resent target d -> len d < pow64 ->
  target_receive name data w = Ret (continue, w') ->
  continue = true /\ sends w' = sends w ++ [(target, d)] /\ out w' = out w /\
  InFlightWaitGroup (mgr w') = InFlightWaitGroup (mgr w) /\
  target ∈ TargetConnectors (mgr w) /\
  ProtobufToBroker d = (set_targets [target] l, None) /\
  exists rule, List.find decides (rules w) = Some rule /\
    target = Breach_Target (rule_breach rule).
Proof.
  intros Hwg Hc Hwf Hd Hf Hl Hr.
  pose proof (target_receive_accounts name data w Hwg Hc) as Hspec.
  rewrite Hr, Hf in Hspec. destruct Hspec as (_ & -> & [Hi Hs _ Ho] & _).
  cbn in Hs, Ho. apply (f_equal InFlightWaitGroup) in Hi. cbn in Hi.
  unfold target_fate in Hf. rewrite Hd in Hf.
  destruct (ToProtobuf (BrokerToTarget name l)) as [raw' [e |]]; [done |].
  destruct (List.find _ _) as [rule |].
  - unfold breach_fate in Hf. case_match; [done |].
    destruct (ToProtobuf (set_targets _ l)) as [d' [|]] eqn:Hp; [done |].
    case_match eqn:Hb; [| done]. injection Hf as <- <-.
    apply bool_decide_eq_true in Hb. split_and!; try done; [lia | | by exists rule].
    apply Unmarshal_Marshal; [| exact Hp | exact Hl]. exact Hwf.
  - by repeat case_match.
Qed.

(** What a source connector does with an item. *)
Lemma source_receive_item name targets msg item w sent0 :
  0 <= InFlightWaitGroup (mgr w) ->
  ProtobufToSource (Data msg) = (item, None) -> wf item -> (ToProtobuf item).2 = None ->
  utf8_string name -> Forall utf8_string targets ->
  len (ToProtobuf (SourceToBroker name targets item)).1 < pow64 ->
  out w = {| sent := sent0; broken := None |} ->
  if String.eqb (Command msg) CommandSourceMessage then
    exists data w',
      source_receive name targets msg w = Ret (true, w') /\
      ProtobufToBroker data = (SourceToBroker name targets item, None) /\
      InFlightWaitGroup (mgr w') = InFlightWaitGroup (mgr w) + len targets /\
      MessagesInFlight_ (mgr w') = MessagesInFlight_ (mgr w) +64 u64 (len targets) /\
      sends w' = sends w ++ [("", data)] /\
      out w' = {| sent := sent0 ++ [frame (Build_Message CommandOk [] [])]; broken := None |}
      /\ ConnStats (mon w')
         = run_stats [OpBytes (len (Data msg)); OpInbound 1; OpAddInFlight; OpOutbound 1;
                      OpRemoveInFlight] (ConnStats (mon w))
  else source_receive name targets msg w = Ret (true, w).
Proof.
  intros Hwg Hd Hwf Hm Hn Ht Hl Hout. unfold source_receive.
  destruct (String.eqb (Command msg) CommandSourceMessage); [| done].
  rewrite Hd. cbv zeta.
  assert (Hb : (ToProtobuf (SourceToBroker name targets item)).2 = None)
    by (by apply broker_marshal_error).
  destruct (ToProtobuf (SourceToBroker name targets item)) as [data e] eqn:E.
  cbn in Hb, Hl. subst e.
  unfold on_mgr, AddMessage, wait_group_add, set_state, stat, mbind_, mmodify, mreturn.
  cbn [mgr set_mgr set_out set_mon Broker_Targets SourceToBroker out].
  assert (0 <= len targets) by apply len_nonneg.
  rewrite (proj2 (Z.ltb_ge _ 0)) by lia. rewrite Hout.
  exists data. eexists. split; [reflexivity |].
  split; [apply Unmarshal_Marshal; [split; [done | apply Hwf] | exact E | exact Hl] |].
  done.
Qed.

(** C26. A source connector acknowledges an item, counts one token per
    configured target and then sends one broker message, which decodes to the
    item with the source's name and targets; a message with another command
    changes nothing.  An item of a source without targets is acknowledged and
    sent, with no token. *)
Theorem source_receive_spec name targets msg item w sent0 :
  0 <= InFlightWaitGroup (mgr w) ->
  ProtobufToSource (Data msg) = (item, None) -> wf item -> (ToProtobuf item).2 = None ->
  utf8_string name -> Forall utf8_string targets ->
  len (ToProtobuf (SourceToBroker name targets item)).1 < pow64 ->
  out w = {| sent := sent0; broken := None |} ->
  if String.eqb (Command msg) CommandSourceMessage then
    exists data w',
      source_receive name targets msg w = Ret (true, w') /\
      ProtobufToBroker data = (SourceToBroker name targets item, None) /\
      InFlightWaitGroup (mgr w') = InFlightWaitGroup (mgr w) + len targets /\
      MessagesInFlight_ (mgr w') = MessagesInFlight_ (mgr w) +64 u64 (len targets) /\
      sends w' = sends w ++ [("", data)] /\
      out w' = {| sent := sent0 ++ [frame (Build_Message CommandOk [] [])]; broken := None |}
      /\ ConnStats (mon w')
         = run_stats [OpBytes (len (Data msg)); OpInbound 1; OpAddInFlight; OpOutbound 1;
                      OpRemoveInFlight] (ConnStats (mon w))
  else source_receive name targets msg w = Ret (true, w).
Proof. exact (source_receive_item name targets msg item w sent0). Qed.

(** A target that cannot be reached: without a monitor the handler panics on
    the nil pointer; with one the record is marked dead, the wait group is
    released and nothing is written. *)
Theorem target_dial_failure name target e events w :
  0 < TargetWaitGroup (mgr w) ->
  match Monitor_ (mgr w) with
  | None => target_handle name target (Some e) events w = Panic nil_deref
  | Some mo => exists w',
      target_handle name target (Some e) events w = Ret (tt, w') /\
      State (mon w') = "dead" /\
      LastLog (mon w') = Some {| LogLevel := FatalLevel; LogMessage := LogIo e |} /\
      Monitor_ (mgr w') = Some (AddConnection (self w) mo) /\
      TargetWaitGroup (mgr w') = TargetWaitGroup (mgr w) - 1 /\
      out w' = out w
  end.
Proof.
  intros Hwg. unfold target_handle, register, log_unguarded, on_mgr, target_done,
    wait_group_add, set_state, mbind_, mmodify, mget, mpanic. cbn.
  destruct (Monitor_ (mgr w)) as [mo |] eqn:Hm; cbn; [| done]. rewrite ?Hm. cbn.
  rewrite (proj2 (Z.ltb_ge _ 0)) by lia. eexists. split; [reflexivity | done].
Qed.

(** ** Connector lifetimes *)

(** Closing is final and a broken connection takes no more bytes. *)
Lemma write_broken c command data e :
  broken c = Some e -> (WriteNewMessage c command data).2 = c.
Proof.
  intros Hb. unfold WriteNewMessage, WriteMessage, MessageToProtobuf.
  destruct (Marshal _) as [b [?|]]; [done |]. unfold WriteProtobuf, conn_write. by rewrite Hb.
Qed.

(** A target that is told to stop sends exactly one BYE: the one of the
    deferred call finds the connection closed. *)
Theorem target_stop_one_bye name events w sent0 :
  out w = {| sent := sent0; broken := None |} -> 0 < TargetWaitGroup (mgr w) ->
  exists w', target_loop name (StopTarget :: events) w = Ret (tt, w') /\
    sent (out w') = sent0 ++ [frame (Build_Message CommandBye [] [])] /\
    broken (out w') <> None /\ State (mon w') = "finished" /\
    TargetWaitGroup (mgr w') = TargetWaitGroup (mgr w) - 1.
Proof.
  intros Hout Hwg. cbn [target_loop].
  unfold target_iteration, target_select, target_stop, deferred, on_mgr, target_done, wait_group_add, set_state, mbind_,
    mmodify. cbn -[SendBye].
  rewrite (proj2 (Z.ltb_ge _ 0)) by lia. eexists. split; [reflexivity |].
  cbn -[SendBye]. rewrite Hout. done.
Qed.
End Handlers.

(** ** Concrete runs *)
#[local] Existing Instance default_order.

Definition demo_details : Details := {| Host := "127.0.0.1"; Port := 1 |}.

Definition demo_manager (wg : Z) : ConnectorManager :=
  {| SourceConnectors := ∅; TargetConnectors := {["a"; "b"]}; TargetWaitGroup := 2;
     SourceWaitGroup := 0; InFlightWaitGroup := wg; TargetStop := false;
     SourceStop := false; MessagesInFlight_ := wg; Monitor_ := Some NewMonitor |}.

Definition demo_rule (limit : Z) (action target : string) : RateLimitRule :=
  {| rule_limiter := Increment 30 (Limiter.New "a" limit 1000000000 1000000000 10);
     rule_breach := {| Action := action; Breach_Target := target; AlertLevel := "WARN" |} |}.

(** One message in flight, a target that answers [reply]. *)
Definition demo_world (rs : list RateLimitRule) (reply : list Message) : world :=
  {| mgr := demo_manager 1; mon := NewConnection demo_details "stdout" "a" "target" [];
     self := 0; rules := rs; out := {| sent := []; broken := None |};
     inp := NewReader (Segment <$> (frame <$> reply)); sends := [] |}.

Definition demo_ok : Message := Build_Message CommandOk [] [].
Definition demo_item : BrokerMessage := SourceToBroker "src" ["a"] demo_message.
Definition demo_data : list byte := (ToProtobuf demo_item).1.
Definition demo_raw : list byte := (ToProtobuf (BrokerToTarget "a" demo_item)).1.

Definition is_discarded (f : fate) : bool := match f with Discarded => true | _ => false end.
Definition is_resent (f : fate) : bool := match f with Resent _ _ => true | _ => false end.
Definition is_stranded (f : fate) : bool := match f with Stranded => true | _ => false end.
Definition is_refused (f : fate) : bool := match f with Refused => true | _ => false end.

(** Each fate is met by some message. *)
Example fates :
  target_fate "a" demo_data (demo_world [demo_rule 50 "discard" ""] [demo_ok])
  = Delivered demo_raw /\
  is_discarded (target_fate "a" demo_data
    (demo_world [demo_rule 10 "alert" ""; demo_rule 10 "discard" ""] [demo_ok])) = true /\
  is_resent (target_fate "a" demo_data (demo_world [demo_rule 10 "fallback" "b"] [])) = true /\
  is_stranded (target_fate "a" demo_data (demo_world [demo_rule 10 "fallback" "c"] []))
  = true /\
  is_refused (target_fate "a" demo_data (demo_world [] [])) = true /\
  target_fate "a" [x08] (demo_world [] []) = Dead.
Proof. by vm_compute. Qed.

Lemma target_receive_spec_witness :
  target_receive "a" demo_data (demo_world [] []) = Panic nil_deref.
Proof.
  assert (H2 : is_u64 (MessagesInFlight_ (mgr (demo_world [] [])))) by done.
  pose proof (target_receive_spec "a" demo_data (demo_world [] []) eq_refl H2) as Hs.
  destruct (target_receive "a" demo_data (demo_world [] [])) as [[continue w'] | why] eqn:E.
  - exfalso. revert E. by vm_compute.
  - by destruct Hs as (_ & _ & ->).
Defined.

(** The value of a run that returns. *)
Definition run_of {A} (w : world) (o : outcome (A * world)) : world :=
  match o with Ret (_, w') => w' | Panic _ => w end.

Lemma target_delivery_witness :
  let w := demo_world [demo_rule 50 "discard" ""] [demo_ok] in
  sent (out (run_of w (target_receive "a" demo_data w)))
  = [frame {| Command := CommandTargetLog; Data := demo_raw; Message_unrecognized := [] |}].
Proof.
  intros w.
  destruct (target_delivery "a" demo_data demo_item demo_raw w true
    (run_of w (target_receive "a" demo_data w)) []) as [-> _]; [.. | done]; try by vm_compute.
Defined.

Definition demo_resent : list byte := (ToProtobuf (set_targets ["b"] demo_item)).1.

Lemma target_resend_witness :
  let w := demo_world [demo_rule 10 "alert" ""; demo_rule 10 "fallback" "b"] [] in
  sends (run_of w (target_receive "a" demo_data w)) = [("b", demo_resent)] /\
  ProtobufToBroker demo_resent = (SourceToBroker "src" ["b"] demo_message, None).
Proof.
  intros w.
  destruct (target_resend "a" demo_data demo_item w "b" demo_resent true
    (run_of w (target_receive "a" demo_data w))) as (_ & Hs & _ & _ & _ & Hd & _);
    [.. | exact (conj Hs Hd)]; try by vm_compute.
Defined.

Lemma source_receive_spec_witness :
  exists data w',
    source_receive "src" ["a"; "b"] (Build_Message CommandSourceMessage demo_bytes [])
      (demo_world [] []) = Ret (true, w') /\
    InFlightWaitGroup (mgr w') = 3 /\ sends w' = [("", data)].
Proof.
  destruct (source_receive_spec "src" ["a"; "b"]
    (Build_Message CommandSourceMessage demo_bytes []) demo_message (demo_world [] []) [])
    as (data & w' & Hr & _ & Hwg & _ & Hs & _).
  1-5: by vm_compute.
  - repeat constructor.
  - by vm_compute.
  - done.
  - exists data, w'. split; [exact Hr |]. split; [exact Hwg | exact Hs].
Defined.

Lemma target_dial_failure_witness :
  target_handle "a" {| Target_ConnectionDetails := demo_details;
    Target_Config_ := {| Target_Provider := "stdout"; Target_Endpoint := "";
      AlertChannels := None; RateLimit_ := []; Target_Config := ∅ |};
    RateLimitRules := [] |} (Some (NetError "connection refused")) []
    (set_mgr (set_monitor None (demo_manager 0)) (demo_world [] [])) = Panic nil_deref.
Proof.
  exact (target_dial_failure "a" _ (NetError "connection refused") []
    (set_mgr (set_monitor None (demo_manager 0)) (demo_world [] [])) eq_refl).
Defined.

Lemma target_stop_one_bye_witness :
  exists w', target_loop "a" [StopTarget] (demo_world [] []) = Ret (tt, w') /\
    sent (out w') = [frame (Build_Message CommandBye [] [])].
Proof.
  destruct (target_stop_one_bye "a" [] (demo_world [] []) [] eq_refl eq_refl)
    as (w' & Hr & Hs & _).
  exists w'. exact (conj Hr Hs).
Defined.
