(* ===== verification/Worker.v ===== *)
(** * Workers: [src/broker/worker.go]

    The worker processes between the sources and the targets.  The channel
    sends of a worker are recorded in order, as those of a connector are. *)
From S2P Require Import Prelude Wire Message Bufio Protocol Monitoring Connector.

(** ** Data *)

(** [WorkerManager]: the counter of its wait group, whether its stop channel
    was closed, and its monitor. *)
Record WorkerManager := {
  Worker_WaitGroup : Z;
  Worker_StopChan : bool;
  Worker_Monitor : option Monitor;
}.

(** The state of one worker: its manager, the connector manager it shares,
    its own process record, and the sends it has performed. *)
Record Worker := {
  Manager : WorkerManager;
  ConnectorManager_ : ConnectorManager;
  ProcessMonitor : Process;
  worker_sends : list (string * list byte);
}.

Definition set_process (f : Process -> Process) (w : Worker) : Worker :=
  {| Manager := Manager w; ConnectorManager_ := ConnectorManager_ w;
     ProcessMonitor := f (ProcessMonitor w); worker_sends := worker_sends w |}.

Definition set_manager (m : WorkerManager) (w : Worker) : Worker :=
  {| Manager := m; ConnectorManager_ := ConnectorManager_ w;
     ProcessMonitor := ProcessMonitor w; worker_sends := worker_sends w |}.

#[export] Instance worker_sender : Sender Worker := {|
  manager_of := ConnectorManager_;
  record_send target msg w :=
    {| Manager := Manager w; ConnectorManager_ := ConnectorManager_ w;
       ProcessMonitor := ProcessMonitor w;
       worker_sends := worker_sends w ++ [(target, msg)] |};
|}.

(** ** The manager *)
Definition NewWorkerManager (monitor : option Monitor) : WorkerManager :=
  {| Worker_WaitGroup := 0; Worker_StopChan := false; Worker_Monitor := monitor |}.

(** [WorkerManager.Start]: the manager, and the processes of the workers whose
    goroutines it started, in order; [base] is the address of the first. *)
Fixpoint start_workers (i n : nat) (base : nat) (m : WorkerManager)
    : WorkerManager * list Process :=
  match n with
  | O => (m, [])
  | S n =>
      let processMonitor :=
        Process_SetState "starting" (NewProcess ("worker_" +:+ pretty (Z.of_nat i)) "worker") in
      let m := {| Worker_WaitGroup := Worker_WaitGroup m + 1;
                  Worker_StopChan := Worker_StopChan m;
                  Worker_Monitor := AddProcess (base + i) <$> Worker_Monitor m |} in
      let '(m, ps) := start_workers (S i) n base m in
      (m, processMonitor :: ps)
  end.

Definition WorkerManager_Start (workers : Z) (base : nat) (m : WorkerManager)
    : WorkerManager * list Process :=
  start_workers 0 (Z.to_nat workers) base m.

(** [Stop] up to the wait, which blocks until the counter is zero. *)
Definition WorkerManager_Stop (m : WorkerManager) : outcome WorkerManager :=
  match close_channel (Worker_StopChan m) with
  | Ret closed => Ret {| Worker_WaitGroup := Worker_WaitGroup m; Worker_StopChan := closed;
                         Worker_Monitor := Worker_Monitor m |}
  | Panic why => Panic why
  end.

Definition Wait_returns (m : WorkerManager) : bool := Worker_WaitGroup m =? 0.

Definition worker_done (m : WorkerManager) : outcome WorkerManager :=
  match wait_group_add (-1) (Worker_WaitGroup m) with
  | Ret wg => Ret {| Worker_WaitGroup := wg; Worker_StopChan := Worker_StopChan m;
                     Worker_Monitor := Worker_Monitor m |}
  | Panic why => Panic why
  end.

(** ** A worker *)
Definition proc_state (s : string) : go Worker unit :=
  mmodify (set_process (Process_SetState s)).
Definition proc_stat (o : stat_op) : go Worker unit :=
  mmodify (set_process (on_proc_stats (stat_apply o))).

Section Workers.
Context `{MapOrder}.

(** The loop over [l.Targets]. *)
Fixpoint send_to_targets (targets : list string) (data : list byte) : go Worker unit :=
  match targets with
  | [] => mreturn tt
  | target :: targets =>
      err <~ SendToTarget target data ;;
      match err with None => proc_stat (OpOutbound 1) | Some _ => mreturn tt end ;;;
      send_to_targets targets data
  end.

(** The case [data := <-receiver]; the monitor is used without a check. *)
Definition worker_receive (data : list byte) : go Worker unit :=
  proc_state "processing" ;;;
  proc_stat (OpBytes (len data)) ;;;
  proc_stat (OpInbound 1) ;;;
  proc_stat OpAddInFlight ;;;
  match ProtobufToBroker data with
  | (_, Some e) =>
      mo <~ mget (fun w => Worker_Monitor (Manager w)) ;;
      match mo with
      | Some _ => mmodify (set_process (LogForProcess ErrorLevel (LogDecode e)))
      | None => mpanic nil_deref
      end
  | (l, None) =>
      send_to_targets (Broker_Targets l) data ;;;
      proc_stat OpRemoveInFlight
  end.

Inductive worker_event := Receive (data : list byte) | StopWorker.

(** One iteration of the loop of [Worker.Start]. *)
Definition worker_iteration (event : worker_event) : go Worker bool :=
  proc_state "waiting" ;;;
  match event with
  | Receive data => worker_receive data ;;; mreturn true
  | StopWorker =>
      proc_state "finished" ;;;
      (fun w => match worker_done (Manager w) with
                | Ret m => Ret (false, set_manager m w)
                | Panic why => Panic why
                end)
  end.

(** [Worker.Start], for the events that occur. *)
Fixpoint worker_loop (events : list worker_event) : go Worker unit :=
  match events with
  | [] => proc_state "waiting"
  | event :: events =>
      continue <~ worker_iteration event ;;
      if (continue : bool) then worker_loop events else mreturn tt
  end.

(** ** What a worker does with a message *)

(** The targets of a message that exist, in the order of the message. *)
Definition known_targets (m : ConnectorManager) (targets : list string) : list string :=
  filter (fun t => t ∈ TargetConnectors m) targets.

Lemma send_to_targets_spec targets data w :
  exists w',
    send_to_targets targets data w = Ret (tt, w') /\
    worker_sends w' = worker_sends w
      ++ ((fun t => (t, data)) <$> known_targets (ConnectorManager_ w) targets) /\
    ProcStats (ProcessMonitor w')
    = run_stats (replicate (length (known_targets (ConnectorManager_ w) targets))
                   (OpOutbound 1)) (ProcStats (ProcessMonitor w)) /\
    ConnectorManager_ w' = ConnectorManager_ w /\ Manager w' = Manager w /\
    ProcState (ProcessMonitor w') = ProcState (ProcessMonitor w).
Proof.
  revert w. induction targets as [| t targets IH]; intros w.
  { exists w. unfold known_targets. simpl. by rewrite app_nil_r. }
  cbn [send_to_targets]. unfold mbind_, SendToTarget, mbind_, mget, target_send.
  cbn [manager_of worker_sender record_send]. unfold known_targets. rewrite filter_cons.
  destruct (decide (t ∈ TargetConnectors (ConnectorManager_ w))) as [Hin | Hout].
  - rewrite bool_decide_eq_true_2 by done. unfold proc_stat, mmodify.
    match goal with |- context [send_to_targets targets data ?w1] =>
      destruct (IH w1) as (w' & -> & Hs & Hst & Hm & Hmm & Hp) end.
    exists w'. cbn in *. rewrite Hs, Hst. by rewrite <- app_assoc.
  - rewrite bool_decide_eq_false_2 by done. unfold mreturn. apply IH.
Qed.

(** What a worker does with a message, in every case. *)
Lemma worker_receive_cases data w :
  match ProtobufToBroker data, Worker_Monitor (Manager w) with
  | (l, None), _ =>
      let ts := known_targets (ConnectorManager_ w) (Broker_Targets l) in
      exists w', worker_receive data w = Ret (tt, w') /\
        worker_sends w' = worker_sends w ++ ((fun t => (t, data)) <$> ts) /\
        ConnectorManager_ w' = ConnectorManager_ w /\
        ProcStats (ProcessMonitor w')
        = run_stats ([OpBytes (len data); OpInbound 1; OpAddInFlight]
                     ++ replicate (length ts) (OpOutbound 1) ++ [OpRemoveInFlight])
            (ProcStats (ProcessMonitor w))
  | (_, Some e), Some _ =>
      exists w', worker_receive data w = Ret (tt, w') /\
        worker_sends w' = worker_sends w /\ ConnectorManager_ w' = ConnectorManager_ w /\
        ProcLastLog (ProcessMonitor w')
        = Some {| LogLevel := ErrorLevel; LogMessage := LogDecode e |} /\
        ProcStats (ProcessMonitor w')
        = run_stats [OpBytes (len data); OpInbound 1; OpAddInFlight]
            (ProcStats (ProcessMonitor w))
  | (_, Some e), None => worker_receive data w = Panic nil_deref
  end.
Proof.
  unfold worker_receive. destruct (ProtobufToBroker data) as [l [e |]].
  - unfold proc_state, proc_stat, mbind_, mmodify, mget, mpanic. cbn.
    destruct (Worker_Monitor (Manager w)); [| done]. by eexists.
  - unfold proc_state, proc_stat. unfold mbind_, mmodify.
    match goal with |- context [send_to_targets _ data ?w1] =>
      destruct (send_to_targets_spec (Broker_Targets l) data w1)
        as (w' & -> & Hs & Hst & Hm & _) end.
    eexists. split; [reflexivity |]. cbn in *. rewrite Hst.
    unfold run_stats. by rewrite !foldl_app.
Qed.

(** C27. A worker hands a message it can decode, byte for byte, to each of its
    targets that exists, in the order of the message, and skips the others
    without a trace: the token of a target that does not exist is never given
    back.  A message it cannot decode goes nowhere and stays counted as in
    flight, or, without a monitor, ends the program. *)
Theorem worker_receive_spec data w :
  match ProtobufToBroker data, Worker_Monitor (Manager w) with
  | (l, None), _ =>
      let ts := known_targets (ConnectorManager_ w) (Broker_Targets l) in
      exists w', worker_receive data w = Ret (tt, w') /\
        worker_sends w' = worker_sends w ++ ((fun t => (t, data)) <$> ts) /\
        ConnectorManager_ w' = ConnectorManager_ w /\
        ProcStats (ProcessMonitor w')
        = run_stats ([OpBytes (len data); OpInbound 1; OpAddInFlight]
                     ++ replicate (length ts) (OpOutbound 1) ++ [OpRemoveInFlight])
            (ProcStats (ProcessMonitor w))
  | (_, Some e), Some _ =>
      exists w', worker_receive data w = Ret (tt, w') /\
        worker_sends w' = worker_sends w /\ ConnectorManager_ w' = ConnectorManager_ w /\
        ProcLastLog (ProcessMonitor w')
        = Some {| LogLevel := ErrorLevel; LogMessage := LogDecode e |} /\
        ProcStats (ProcessMonitor w')
        = run_stats [OpBytes (len data); OpInbound 1; OpAddInFlight]
            (ProcStats (ProcessMonitor w))
  | (_, Some e), None => worker_receive data w = Panic nil_deref
  end.
Proof. exact (worker_receive_cases data w). Qed.
End Workers.

(** The worker manager starts one process per worker, each registered, each
    counted, named in order. *)
Lemma start_workers_spec i n base m m' ps :
  start_workers i n base m = (m', ps) ->
  length ps = n /\ Worker_WaitGroup m' = Worker_WaitGroup m + Z.of_nat n /\
  Worker_StopChan m' = Worker_StopChan m /\
  Processes <$> Worker_Monitor m'
  = (fun mo => Processes mo ++ seq (base + i) n) <$> Worker_Monitor m /\
  ProcName <$> ps = (fun k => "worker_" +:+ pretty (Z.of_nat k)) <$> seq i n.
Proof.
  revert i m m' ps. induction n as [| n IH]; intros i m m' ps.
  { intros [= <- <-]. cbn. split_and!; [done | lia | done | | done].
    destruct (Worker_Monitor m) as [mo |]; [| done]. simpl. by rewrite app_nil_r. }
  cbn [start_workers]. match goal with |- context [start_workers (S i) n base ?m1] =>
    destruct (start_workers (S i) n base m1) as [m2 ps2] eqn:E end.
  intros [= <- <-]. apply IH in E as (Hl & Hw & Hc & Hp & Hn). cbn in *.
  split_and!; [by rewrite Hl | lia | done | | by rewrite <- Hn].
  rewrite Hp. destruct (Worker_Monitor m) as [mo |]; [| done]. simpl.
  unfold ProcessStore_Add. rewrite <- app_assoc. replace (base + S i)%nat with (S (base + i)) by lia. done.
Qed.

(** ** Concrete runs *)
#[local] Existing Instance default_order.

Example worker_example :
  let w := {| Manager := NewWorkerManager (Some NewMonitor);
              ConnectorManager_ := demo_manager 2;
              ProcessMonitor := NewProcess "worker_0" "worker"; worker_sends := [] |} in
  let data := (ToProtobuf (SourceToBroker "src" ["b"; "x"; "a"] demo_message)).1 in
  match worker_receive data w with
  | Ret (_, w') => worker_sends w' = [("b", data); ("a", data)]
  | Panic _ => False
  end.
Proof. by vm_compute. Qed.
