(* ===== verification/Broker.v ===== *)
(** * The broker: [src/broker/broker.go], and the goroutines together

    The broker as a system of goroutines that share the connector manager: the
    connectors and workers run one iteration of their loops at a time, channels
    are unbuffered, so that a send and the receiver's iteration are one step,
    and [Broker.Start] waits for the wait groups phase by phase. *)
From S2P Require Import Prelude Wire Message Bufio Protocol Limiter Monitoring Config.
From S2P Require Import Connector Worker.

(** ** The broker value *)
Record Broker := {
  Sources : gmap string Source;
  Targets : gmap string Target;
  NumWorkers : Z;
  Broker_WorkerManager : WorkerManager;
  Broker_ConnectorManager : ConnectorManager;
  Broker_Monitor : option Monitor;
}.

Definition NewBroker (workers : Z) (monitor : option Monitor) : Broker :=
  {| Sources := ∅; Targets := ∅; NumWorkers := workers;
     Broker_WorkerManager := NewWorkerManager monitor;
     Broker_ConnectorManager := NewConnectorManager monitor; Broker_Monitor := monitor |}.

Definition AddSource (name : string) (source : Source) (b : Broker) : Broker :=
  {| Sources := <[name := source]> (Sources b); Targets := Targets b;
     NumWorkers := NumWorkers b; Broker_WorkerManager := Broker_WorkerManager b;
     Broker_ConnectorManager := Broker_ConnectorManager b;
     Broker_Monitor := Broker_Monitor b |}.

Definition AddTarget (name : string) (target : Target) (b : Broker) : Broker :=
  {| Sources := Sources b; Targets := <[name := target]> (Targets b);
     NumWorkers := NumWorkers b; Broker_WorkerManager := Broker_WorkerManager b;
     Broker_ConnectorManager := Broker_ConnectorManager b;
     Broker_Monitor := Broker_Monitor b |}.

(** ** The connector manager: starting and stopping *)
Definition set_connectors (ss ts : gset string) (m : ConnectorManager) : ConnectorManager :=
  {| SourceConnectors := ss; TargetConnectors := ts; TargetWaitGroup := TargetWaitGroup m;
     SourceWaitGroup := SourceWaitGroup m; InFlightWaitGroup := InFlightWaitGroup m;
     TargetStop := TargetStop m; SourceStop := SourceStop m;
     MessagesInFlight_ := MessagesInFlight_ m; Monitor_ := Monitor_ m |}.

Definition set_stops (t s : bool) (m : ConnectorManager) : ConnectorManager :=
  {| SourceConnectors := SourceConnectors m; TargetConnectors := TargetConnectors m;
     TargetWaitGroup := TargetWaitGroup m; SourceWaitGroup := SourceWaitGroup m;
     InFlightWaitGroup := InFlightWaitGroup m; TargetStop := t; SourceStop := s;
     MessagesInFlight_ := MessagesInFlight_ m; Monitor_ := Monitor_ m |}.

(** The bodies of the two loops of [Start]. *)
Definition start_target (name : string) (m : ConnectorManager) : ConnectorManager :=
  let m := set_connectors (SourceConnectors m) ({[name]} ∪ TargetConnectors m) m in
  set_groups (TargetWaitGroup m + 1) (SourceWaitGroup m) m.

Definition start_source (name : string) (m : ConnectorManager) : ConnectorManager :=
  let m := set_connectors ({[name]} ∪ SourceConnectors m) (TargetConnectors m) m in
  set_groups (TargetWaitGroup m) (SourceWaitGroup m + 1) m.

Definition ConnectorManager_Start (sources : gmap string Source)
    (targets : gmap string Target) (m : ConnectorManager) : ConnectorManager :=
  map_fold (fun name _ m => start_source name m)
    (map_fold (fun name _ m => start_target name m) m targets) sources.

(** [StopSources] and [StopTargets], the step that closes the channel. *)
Definition StopSources (m : ConnectorManager) : outcome ConnectorManager :=
  match close_channel (SourceStop m) with
  | Ret closed => Ret (set_stops (TargetStop m) closed m)
  | Panic why => Panic why
  end.

Definition StopTargets (m : ConnectorManager) : outcome ConnectorManager :=
  match close_channel (TargetStop m) with
  | Ret closed => Ret (set_stops closed (SourceStop m) m)
  | Panic why => Panic why
  end.

(** ** The system *)

(** Where a goroutine is: not yet run, at its [select], blocked in the first
    of its channel sends, or returned. *)
Inductive status := NotStarted | Idle | Sending (q : list (string * list byte)) | Exited.

Definition after (q : list (string * list byte)) : status :=
  match q with [] => Idle | _ => Sending q end.

(** Where [Broker.Start] waits. *)
Inductive phase := WaitSources | WaitWorkers | WaitInFlight | WaitTargets | Done.

(** The goroutines and what they share.  The last three fields are ghosts: the
    tokens the sources added, the tokens of targets that do not exist, and the
    fates of the messages that reached a target. *)
Record sys := {
  cm : ConnectorManager;
  wm : WorkerManager;
  srcs : gmap string (status * Source * world);
  tgts : gmap string (status * Target * world);
  wrks : gmap nat (status * Worker);
  main : phase;
  accepted : Z;
  unknown : Z;
  fates : list fate;
}.

Definition set_srcs (m : ConnectorManager) (x : gmap string (status * Source * world))
    (s : sys) : sys :=
  {| cm := m; wm := wm s; srcs := x; tgts := tgts s; wrks := wrks s; main := main s;
     accepted := accepted s; unknown := unknown s; fates := fates s |}.
Definition set_tgts (m : ConnectorManager) (x : gmap string (status * Target * world))
    (s : sys) : sys :=
  {| cm := m; wm := wm s; srcs := srcs s; tgts := x; wrks := wrks s; main := main s;
     accepted := accepted s; unknown := unknown s; fates := fates s |}.
Definition set_wrks (m : WorkerManager) (x : gmap nat (status * Worker)) (s : sys) : sys :=
  {| cm := cm s; wm := m; srcs := srcs s; tgts := tgts s; wrks := x; main := main s;
     accepted := accepted s; unknown := unknown s; fates := fates s |}.
Definition set_main (m : ConnectorManager) (w : WorkerManager) (p : phase) (s : sys) : sys :=
  {| cm := m; wm := w; srcs := srcs s; tgts := tgts s; wrks := wrks s; main := p;
     accepted := accepted s; unknown := unknown s; fates := fates s |}.
Definition ghost (a u : Z) (f : list fate) (s : sys) : sys :=
  {| cm := cm s; wm := wm s; srcs := srcs s; tgts := tgts s; wrks := wrks s;
     main := main s; accepted := accepted s + a; unknown := unknown s + u;
     fates := fates s ++ f |}.

(** A goroutine gets hold of what is shared, with no send performed yet. *)
Definition enter (m : ConnectorManager) (w : world) : world :=
  {| mgr := m; mon := mon w; self := self w; rules := rules w; out := out w;
     inp := inp w; sends := [] |}.

Definition enter_worker (m : ConnectorManager) (wmg : WorkerManager) (w : Worker) : Worker :=
  {| Manager := wmg; ConnectorManager_ := m; ProcessMonitor := ProcessMonitor w;
     worker_sends := [] |}.

#[local] Arguments ProtobufToBroker : simpl never.
#[local] Arguments ToProtobuf : simpl never.

Section System.
Context `{MapOrder}.

(** *** Sources *)

(** The goroutine of a source runs [Handle] up to its loop. *)
Definition source_start (name : string) (dial : option io_error) (s : sys)
    : option (outcome sys) :=
  match srcs s !! name with
  | Some (NotStarted, source, w) =>
      Some match source_handle name source dial [] (enter (cm s) w) with
           | Ret (_, w') =>
               let st := match dial with
                         | None => if (SendHello (out w)).1 then Idle else Exited
                         | Some _ => Exited
                         end in
               Ret (set_srcs (mgr w') (<[name := (st, source, w')]> (srcs s)) s)
           | Panic why => Panic why
           end
  | _ => None
  end.

(** One iteration; [accepted] counts the tokens it adds. *)
Definition source_turn (name : string) (event : source_event) (s : sys)
    : option (outcome sys) :=
  match srcs s !! name with
  | Some (Idle, source, w) =>
      Some match source_iteration name (Source_Targets_ source) event (enter (cm s) w) with
           | Ret (continue, w') =>
               let st := if (continue : bool) then after (sends w') else Exited in
               Ret (ghost (InFlightWaitGroup (mgr w') - InFlightWaitGroup (cm s)) 0 []
                      (set_srcs (mgr w') (<[name := (st, source, w')]> (srcs s)) s))
           | Panic why => Panic why
           end
  | _ => None
  end.

(** *** Targets *)
Definition target_start (name : string) (dial : option io_error) (s : sys)
    : option (outcome sys) :=
  match tgts s !! name with
  | Some (NotStarted, target, w) =>
      Some match target_handle name target dial [] (enter (cm s) w) with
           | Ret (_, w') =>
               let st := match dial with None => Idle | Some _ => Exited end in
               Ret (set_tgts (mgr w') (<[name := (st, target, w')]> (tgts s)) s)
           | Panic why => Panic why
           end
  | _ => None
  end.

Definition event_fates (name : string) (event : target_event) (w : world) : list fate :=
  match event with Inbound data => [target_fate name data w] | _ => [] end.

Definition target_turn (name : string) (event : target_event) (s : sys)
    : option (outcome sys) :=
  match tgts s !! name with
  | Some (Idle, target, w) =>
      Some match target_iteration name event (enter (cm s) w) with
           | Ret (continue, w') =>
               let st := if (continue : bool) then after (sends w') else Exited in
               Ret (ghost 0 0 (event_fates name event (enter (cm s) w))
                      (set_tgts (mgr w') (<[name := (st, target, w')]> (tgts s)) s))
           | Panic why => Panic why
           end
  | _ => None
  end.

(** *** Workers *)
Definition unknown_targets (m : ConnectorManager) (data : list byte) : Z :=
  len (filter (fun t => t ∉ TargetConnectors m) (Broker_Targets (ProtobufToBroker data).1)).

Definition event_unknown (m : ConnectorManager) (event : worker_event) : Z :=
  match event with Receive data => unknown_targets m data | StopWorker => 0 end.

Definition worker_turn (i : nat) (event : worker_event) (s : sys) : option (outcome sys) :=
  match wrks s !! i with
  | Some (Idle, w) =>
      Some match worker_iteration event (enter_worker (cm s) (wm s) w) with
           | Ret (continue, w') =>
               let st := if (continue : bool) then after (worker_sends w') else Exited in
               Ret (ghost 0 (event_unknown (cm s) event) []
                      (set_wrks (Manager w') (<[i := (st, w')]> (wrks s)) s))
           | Panic why => Panic why
           end
  | _ => None
  end.

(** *** Rendezvous: the receiver's iteration, then the sender goes on *)
Definition then_ (o : option (outcome sys)) (f : sys -> sys) : option (outcome sys) :=
  match o with
  | Some (Ret s) => Some (Ret (f s))
  | o => o
  end.

(** A source hands its message to a worker. *)
Definition handover (name : string) (i : nat) (s : sys) : option (outcome sys) :=
  match srcs s !! name with
  | Some (Sending ((_, data) :: q), source, w) =>
      then_ (worker_turn i (Receive data) s)
        (fun s => set_srcs (cm s) (<[name := (after q, source, w)]> (srcs s)) s)
  | _ => None
  end.

(** A worker hands its message to the next of its targets. *)
Definition dispatch (i : nat) (s : sys) : option (outcome sys) :=
  match wrks s !! i with
  | Some (Sending ((target, data) :: q), w) =>
      then_ (target_turn target (Inbound data) s)
        (fun s => set_wrks (wm s) (<[i := (after q, w)]> (wrks s)) s)
  | _ => None
  end.

(** A target hands a message to its fallback target. *)
Definition fall_back (name : string) (s : sys) : option (outcome sys) :=
  match tgts s !! name with
  | Some (Sending ((target, data) :: q), t, w) =>
      then_ (target_turn target (Inbound data) s)
        (fun s => set_tgts (cm s) (<[name := (after q, t, w)]> (tgts s)) s)
  | _ => None
  end.

(** *** [Broker.Start], after the goroutines were started, and [Broker.Stop] *)
Definition broker_start (s : sys) : option (outcome sys) :=
  match main s with
  | WaitSources =>
      if SourceWaitGroup (cm s) =? 0 then
        Some match WorkerManager_Stop (wm s) with
             | Ret w => Ret (set_main (cm s) w WaitWorkers s)
             | Panic why => Panic why
             end
      else None
  | WaitWorkers =>
      if Wait_returns (wm s) then Some (Ret (set_main (cm s) (wm s) WaitInFlight s)) else None
  | WaitInFlight =>
      if InFlightWaitGroup (cm s) =? 0 then
        Some match StopTargets (cm s) with
             | Ret m => Ret (set_main m (wm s) WaitTargets s)
             | Panic why => Panic why
             end
      else None
  | WaitTargets =>
      if TargetWaitGroup (cm s) =? 0 then Some (Ret (set_main (cm s) (wm s) Done s)) else None
  | Done => None
  end.

Definition broker_stop (s : sys) : outcome sys :=
  match StopSources (cm s) with
  | Ret m => Ret (set_main m (wm s) (main s) s)
  | Panic why => Panic why
  end.

(** *** The steps *)
Inductive action :=
  | SourceStart (name : string) (dial : option io_error)
  | TargetStart (name : string) (dial : option io_error)
  | WorkerStart (i : nat)
  | SourceEvent (name : string) (event : source_event)
  | LimiterTick (name : string) (i : nat) (curTime ttlTime : Z) (now : string -> Z)
      (order : list (string * StoreItem))
  | StopSignalSource (name : string)
  | StopSignalTarget (name : string)
  | StopSignalWorker (i : nat)
  | Handover (name : string) (i : nat)
  | Dispatch (i : nat)
  | FallBack (name : string)
  | BrokerStart
  | BrokerStop.

Definition worker_start (i : nat) (s : sys) : option (outcome sys) :=
  match wrks s !! i with
  | Some (NotStarted, w) => Some (Ret (set_wrks (wm s) (<[i := (Idle, w)]> (wrks s)) s))
  | _ => None
  end.

Definition exec (a : action) (s : sys) : option (outcome sys) :=
  match a with
  | SourceStart name dial => source_start name dial s
  | TargetStart name dial => target_start name dial s
  | WorkerStart i => worker_start i s
  | SourceEvent name StopSource => None
  | SourceEvent name event => source_turn name event s
  | LimiterTick name i curTime ttlTime now order =>
      target_turn name (Ticker i curTime ttlTime now order) s
  | StopSignalSource name => if SourceStop (cm s) then source_turn name StopSource s else None
  | StopSignalTarget name => if TargetStop (cm s) then target_turn name StopTarget s else None
  | StopSignalWorker i => if Worker_StopChan (wm s) then worker_turn i StopWorker s else None
  | Handover name i => handover name i s
  | Dispatch i => dispatch i s
  | FallBack name => fall_back name s
  | BrokerStart => broker_start s
  | BrokerStop => Some (broker_stop s)
  end.

(** ** What an iteration does to the shared manager *)

(** The in-flight counter of the manager follows its wait group. *)
Definition counted (m : ConnectorManager) : Prop :=
  MessagesInFlight_ m = u64 (InFlightWaitGroup m).

(** [m'] is [m] with the wait groups moved by [dt], [ds] and [di]. *)
Record moved (m m' : ConnectorManager) (dt ds di : Z) : Prop := {
  mv_targets : TargetConnectors m' = TargetConnectors m;
  mv_tw : TargetWaitGroup m' = TargetWaitGroup m + dt;
  mv_sw : SourceWaitGroup m' = SourceWaitGroup m + ds;
  mv_in : InFlightWaitGroup m' = InFlightWaitGroup m + di;
  mv_tstop : TargetStop m' = TargetStop m;
  mv_sstop : SourceStop m' = SourceStop m;
  mv_counted : counted m';
  mv_monitor : Monitor_ m' = None <-> Monitor_ m = None;
}.

Lemma moved_refl m : counted m -> moved m m 0 0 0.
Proof. intros. by split; rewrite ?Z.add_0_r. Qed.

(** Close the goals of a [moved] between two explicit managers. *)
Ltac moved :=
  split; cbn; try done; try lia;
  match goal with |- counted _ => unfold counted in *; cbn in * | _ => idtac end.

Lemma give_back_moved k m : counted m -> moved m (give_back k m) 0 0 (- k).
Proof.
  intros Hc. moved. rewrite Hc.
  apply (eq64_sub _ _ (u64_eq64 (InFlightWaitGroup m)) k k eq_refl).
Qed.

(** What the peers of the broker are trusted for: the items of a source have
    no unknown fields, and messages have less than 2^64 bytes. *)
Definition admissible_event (name : string) (targets : list string) (event : source_event)
    : Prop :=
  match event with
  | Received msg => forall item, ProtobufToSource (Data msg) = (item, None) ->
      wf item /\ len (ToProtobuf (SourceToBroker name targets item)).1 < pow64
  | _ => True
  end.

(** What a source connector sends in one iteration. *)
Definition carries (targets : list string) (q : list (string * list byte)) : Prop :=
  exists data l, q = [("", data)] /\ ProtobufToBroker data = (l, None) /\
    Broker_Targets l = targets.

Lemma source_exit w :
  0 < SourceWaitGroup (mgr w) ->
  exists w', (deferred ;;; on_mgr source_done) w = Ret (tt, w') /\
    mgr w' = set_groups (TargetWaitGroup (mgr w)) (SourceWaitGroup (mgr w) - 1) (mgr w) /\
    sends w' = sends w.
Proof.
  intros Hw. unfold deferred, on_mgr, source_done, wait_group_add, mbind_, mmodify. cbn.
  rewrite (proj2 (Z.ltb_ge _ 0)) by lia. by eexists.
Qed.

Lemma target_exit w :
  0 < TargetWaitGroup (mgr w) ->
  exists w', (deferred ;;; on_mgr target_done) w = Ret (tt, w') /\
    mgr w' = set_groups (TargetWaitGroup (mgr w) - 1) (SourceWaitGroup (mgr w)) (mgr w) /\
    sends w' = sends w.
Proof.
  intros Hw. unfold deferred, on_mgr, target_done, wait_group_add, mbind_, mmodify. cbn.
  rewrite (proj2 (Z.ltb_ge _ 0)) by lia. by eexists.
Qed.

Lemma source_select_spec name targets event w :
  counted (mgr w) -> 0 <= InFlightWaitGroup (mgr w) ->
  admissible_event name targets event ->
  exists continue w', source_select name targets event w = Ret (continue, w') /\
    ((mgr w' = mgr w /\ sends w' = sends w) \/
     (continue = true /\ moved (mgr w) (mgr w') 0 0 (len targets) /\
      exists q, sends w' = sends w ++ q /\ carries targets q)).
Proof.
  intros Hc Hin Ha. destruct event as [msg | [e |] |].
  - cbn [source_select]. unfold source_receive.
    destruct (String.eqb _ _); [| by eexists _, _; split; [| left]].
    cbn [admissible_event] in Ha.
    destruct (ProtobufToSource (Data msg)) as [item [e |]].
    { unfold set_state, log_guarded, stat, mbind_, mmodify, mreturn. cbn.
      destruct (Monitor_ (mgr w)); eexists _, _; (split; [done |]); by left. }
    destruct (Ha item eq_refl) as [Hwf Hl]. cbv zeta.
    destruct (ToProtobuf _) as [data [e |]] eqn:E.
    { unfold set_state, log_guarded, stat, mbind_, mmodify, mreturn. cbn.
      destruct (Monitor_ (mgr w)); eexists _, _; (split; [done |]); by left. }
    unfold on_mgr, AddMessage, wait_group_add, set_state, stat, mbind_, mmodify, mreturn.
    cbn. pose proof (len_nonneg targets). rewrite (proj2 (Z.ltb_ge _ 0)) by lia.
    eexists _, _. split; [done |]. right. split; [done |]. split.
    + moved. rewrite Hc.
      apply (eq64_add _ _ (u64_eq64 _) _ _ (u64_eq64 _)).
    + exists [("", data)]. split; [done |]. exists data, (SourceToBroker name targets item).
      split_and!; [done | | done]. apply Unmarshal_Marshal; [| exact E | exact Hl].
      split; [done | apply Hwf].
  - cbn [source_select]. unfold set_state, log_guarded, mbind_, mmodify, mreturn.
    destruct (decide _); [by eexists _, _; split; [| left] |]. cbn.
    destruct (Monitor_ (mgr w)); eexists _, _; (split; [done |]); by left.
  - eexists _, _. split; [done |]. by left.
  - eexists _, _. split; [done |]. by left.
Qed.

Lemma source_iteration_spec name targets event w :
  counted (mgr w) -> 0 <= InFlightWaitGroup (mgr w) -> 0 < SourceWaitGroup (mgr w) ->
  admissible_event name targets event ->
  exists continue w' di q,
    source_iteration name targets event w = Ret (continue, w') /\
    moved (mgr w) (mgr w') 0 (if (continue : bool) then 0 else -1) di /\
    sends w' = sends w ++ q /\
    ((q = [] /\ di = 0) \/ (continue = true /\ di = len targets /\ carries targets q)).
Proof.
  intros Hc Hin Hw Ha. unfold source_iteration, set_state. unfold mbind_ at 1, mmodify at 1.
  set (w1 := set_mon _ w).
  destruct (source_select_spec name targets event w1) as (continue & w2 & Hs & Hcase); try done.
  unfold mbind_ at 1. rewrite Hs. unfold mreturn.
  destruct Hcase as [[Hm Hq] | (-> & Hm & q & Hq & Hd)].
  - destruct continue.
    + eexists true, w2, 0, []. split; [done |]. rewrite Hm, Hq, app_nil_r.
      split; [by apply moved_refl |]. auto.
    + unfold mbind_ at 1. destruct (source_exit w2) as (w3 & -> & Hm3 & Hq3); [by rewrite Hm |].
      eexists false, w3, 0, []. split; [done |]. rewrite Hm3, Hq3, Hm, Hq, app_nil_r.
      split; [by moved | auto].
  - eexists true, w2, (len targets), q. split; [done |]. split; [done |]. auto.
Qed.

(** The fates of an event add up. *)
Definition zsum {A} (f : A -> Z) (l : list A) : Z := foldr (fun a z => f a + z) 0 l.

Lemma zsum_app {A} (f : A -> Z) l1 l2 : zsum f (l1 ++ l2) = zsum f l1 + zsum f l2.
Proof. induction l1 as [| a l1 IH]; simpl; [done |]. rewrite IH. lia. Qed.

Lemma zsum_nonneg {A} (f : A -> Z) l : (forall a, 0 <= f a) -> 0 <= zsum f l.
Proof. intros Hf. induction l as [| a l IH]; simpl; [done |]. specialize (Hf a). lia. Qed.

(** The token of a message that is neither settled nor sent on. *)
Definition lost (f : fate) : Z :=
  match f with Stranded | Unencoded | Dead => 1 | _ => 0 end.

Lemma fate_balance f : tokens f + len (resends f) + lost f = 1.
Proof. by destruct f. Qed.

Lemma dead_resends f : survives f = false -> resends f = [].
Proof. by destruct f. Qed.

Lemma target_iteration_spec name event w :
  counted (mgr w) -> 0 < TargetWaitGroup (mgr w) ->
  match event with Inbound _ => 0 < InFlightWaitGroup (mgr w) | _ => True end ->
  let fs := event_fates name event w in
  match target_iteration name event w with
  | Ret (continue, w') =>
      moved (mgr w) (mgr w') (if (continue : bool) then 0 else -1) 0 (- zsum tokens fs) /\
      sends w' = sends w ++ (fs ≫= resends) /\
      (continue = false -> (fs ≫= resends) = [])
  | Panic why => why = nil_deref /\ fs = [Refused] /\ Monitor_ (mgr w) <> None
  end.
Proof.
  intros Hc Hw Hin fs. unfold target_iteration, set_state.
  unfold mbind_ at 1, mmodify at 1. set (w1 := set_mon _ w).
  destruct event as [data | |].
  - cbn [target_select]. unfold mbind_ at 1.
    assert (Hu : is_u64 (MessagesInFlight_ (mgr w1))) by (cbn; rewrite Hc; apply u64_range).
    pose proof (target_receive_accounts name data w1 Hin Hu) as Hspec. cbv zeta in Hspec.
    change (target_fate name data w1) with (target_fate name data w) in Hspec.
    subst fs. cbn [event_fates zsum foldr]. change ([?f] ≫= resends) with (resends f ++ []).
    rewrite app_nil_r, Z.add_0_r.
    destruct (target_receive name data w1) as [[continue w2] | why].
    + destruct Hspec as (_ & -> & [Hm Hs _ _] & _).
      pose proof (give_back_moved (tokens (target_fate name data w)) (mgr w) Hc) as Hg.
      change (mgr w1) with (mgr w) in Hm. change (sends w1) with (sends w) in Hs.
      destruct (survives _) eqn:Hv.
      * unfold mbind_, mreturn. rewrite Hm. split_and!; [done | done | done].
      * destruct (target_exit w2) as (w3 & Hx & Hm3 & Hs3); [by rewrite Hm |].
        unfold mbind_ at 1. rewrite Hx. unfold mreturn. rewrite Hm3, Hs3, Hs, Hm.
        split_and!; [| done | intros _; by apply dead_resends].
        destruct Hg. by moved.
    + by destruct Hspec as (-> & Hm & ->).
  - subst fs. unfold target_select, mbind_, mmodify, mreturn. cbn. rewrite app_nil_r.
    split_and!; [by apply moved_refl | done | done].
  - subst fs. cbn [target_select event_fates]. unfold target_stop, set_state.
    unfold mbind_ at 1 2 3, mmodify at 1 2, mreturn at 1.
    match goal with |- context [mbind_ _ _ ?w2] => set (wx := w2) end.
    destruct (target_exit wx) as (w3 & Hx & Hm3 & Hs3); [done |].
    unfold mbind_ at 1. rewrite Hx. unfold mreturn. rewrite Hm3, Hs3. cbn. rewrite app_nil_r.
    split_and!; [by moved | done | done].
Qed.

Lemma worker_iteration_spec event w :
  0 < Worker_WaitGroup (Manager w) ->
  match event with
  | Receive data => forall l, ProtobufToBroker data = (l, None) ->
      exists w' q, worker_iteration event w = Ret (true, w') /\ Manager w' = Manager w /\
        worker_sends w' = worker_sends w ++ q /\
        len q + unknown_targets (ConnectorManager_ w) data = len (Broker_Targets l)
  | StopWorker =>
      exists w', worker_iteration event w = Ret (false, w') /\
        Worker_WaitGroup (Manager w') = Worker_WaitGroup (Manager w) - 1 /\
        Worker_StopChan (Manager w') = Worker_StopChan (Manager w) /\
        worker_sends w' = worker_sends w
  end.
Proof.
  intros Hw. destruct event as [data |].
  - intros l Hl. unfold worker_iteration, worker_receive. rewrite Hl.
    unfold proc_state, proc_stat, mbind_, mmodify.
    match goal with |- context [send_to_targets ?ts data ?w1] =>
      destruct (send_to_targets_spec ts data w1) as (w' & -> & Hs & _ & Hm & Hmm & _) end.
    unfold mreturn. eexists _, _. split; [done |]. cbn in *. split_and!; [done | exact Hs |].
    unfold unknown_targets, known_targets, len. rewrite length_fmap, Hl. cbn [fst].
    clear Hs. induction (Broker_Targets l) as [| t ts IH]; [done |].
    rewrite !filter_cons. destruct (decide (t ∈ _)) as [Hin | Hout].
    + rewrite decide_False by tauto. cbn [length] in *. lia.
    + rewrite decide_True by done. cbn [length] in *. lia.
  - unfold worker_iteration, proc_state, mbind_, mmodify, worker_done, wait_group_add.
    cbn. rewrite (proj2 (Z.ltb_ge _ 0)) by lia. by eexists.
Qed.

(** Starting a connector. *)
Lemma source_handle_spec name source dial w :
  counted (mgr w) -> 0 < SourceWaitGroup (mgr w) ->
  exists w', source_handle name source dial [] w = Ret (tt, w') /\
    moved (mgr w) (mgr w') 0
      (match dial with None => if (SendHello (out w)).1 then 0 else -1 | Some _ => -1 end) 0.
Proof.
  intros Hc Hw. unfold source_handle, register, set_state. unfold mbind_, mmodify.
  destruct dial as [e |].
  - unfold log_guarded, on_mgr, source_done, wait_group_add, mmodify. cbn.
    destruct (Monitor_ (mgr w)) eqn:Hm; cbn; rewrite (proj2 (Z.ltb_ge _ 0)) by lia;
      (eexists; split; [done |]; split; cbn; rewrite ?Hm; done || lia).
  - match goal with |- context [SendHello (out ?x)] => change (out x) with (out w) end.
    destruct (SendHello (out w)) as [[|] c]; cbn [fst snd negb].
    + cbn. eexists. split; [done |].
      destruct (Monitor_ (mgr w)) eqn:Hm; split; cbn; rewrite ?Hm; done || lia.
    + unfold log_guarded, on_mgr, source_done, wait_group_add, mmodify. cbn.
      destruct (Monitor_ (mgr w)) eqn:Hm; cbn; rewrite (proj2 (Z.ltb_ge _ 0)) by lia;
        (eexists; split; [done |]; split; cbn; rewrite ?Hm; done || lia).
Qed.

Lemma target_handle_spec name target dial w :
  counted (mgr w) -> 0 < TargetWaitGroup (mgr w) ->
  match target_handle name target dial [] w with
  | Ret (_, w') =>
      moved (mgr w) (mgr w') (match dial with None => 0 | Some _ => -1 end) 0 0
  | Panic why => why = nil_deref /\ Monitor_ (mgr w) = None /\ dial <> None
  end.
Proof.
  intros Hc Hw. unfold target_handle, register, set_state. unfold mbind_, mmodify.
  destruct dial as [e |].
  - unfold log_unguarded, on_mgr, target_done, wait_group_add, mbind_, mget, mpanic, mmodify.
    cbn. destruct (Monitor_ (mgr w)) eqn:Hm; cbn; [| done].
    rewrite (proj2 (Z.ltb_ge _ 0)) by lia. split; cbn; rewrite ?Hm; done || lia.
  - match goal with |- context [SendHello (out ?x)] => change (out x) with (out w) end.
    unfold log_guarded, mreturn, mmodify.
    destruct (SendHello (out w)) as [[|] c]; cbn;
      destruct (Monitor_ (mgr w)) eqn:Hm; split; cbn; rewrite ?Hm; done || lia.
Qed.
End System.
