(* ===== verification/Shutdown.v ===== *)
(** * The broker at work and its shutdown

    The initial state that [Broker.Start] sets up, the reachable states, the
    token invariant of [InFlightWaitGroup], and what it gives: no wait group
    goes negative, the targets are stopped only when every message has met its
    fate, and a token that nobody gives back keeps the broker running. *)
From S2P Require Import Prelude Wire Message Bufio Protocol Limiter Monitoring Config.
From S2P Require Import Connector Worker Broker.

#[local] Arguments ProtobufToBroker : simpl never.
#[local] Arguments ToProtobuf : simpl never.

(** ** The initial state *)

(** What the environment gives to the goroutine of a connector: its connection
    once dialled and the address of its monitoring record. *)
Record peer := { peer_out : conn; peer_in : reader; peer_address : nat }.

Definition fresh_world (m : ConnectorManager) (p : peer) : world :=
  {| mgr := m; mon := NewConnection {| Host := ""; Port := 0 |} "" "" "" [];
     self := peer_address p; rules := []; out := peer_out p; inp := peer_in p; sends := [] |}.

(** [Broker.Start] up to its first wait: every goroutine is started, none has
    run.  [base] is the address of the record of the first worker. *)
Definition Start (peers : string -> peer) (base : nat) (b : Broker) : sys :=
  let m := ConnectorManager_Start (Sources b) (Targets b) (Broker_ConnectorManager b) in
  let '(w, ps) := WorkerManager_Start (NumWorkers b) base (Broker_WorkerManager b) in
  {| cm := m; wm := w;
     srcs := map_imap (fun name src => Some (NotStarted, src, fresh_world m (peers name)))
               (Sources b);
     tgts := map_imap (fun name tgt => Some (NotStarted, tgt, fresh_world m (peers name)))
               (Targets b);
     wrks := map_seq 0 ((fun p => (NotStarted,
               {| Manager := w; ConnectorManager_ := m; ProcessMonitor := p;
                  worker_sends := [] |})) <$> ps);
     main := WaitSources; accepted := 0; unknown := 0; fates := [] |}.

#[local] Arguments zsum : simpl never.

Create HintDb tokens.

Section Invariant.
Context `{MapOrder}.

(** The assumption on the peers, for a step. *)
Definition admissible (a : action) (s : sys) : Prop :=
  match a with
  | SourceEvent name event =>
      forall st src w, srcs s !! name = Some (st, src, w) ->
      admissible_event name (Source_Targets_ src) event
  | _ => True
  end.

Definition step (s s' : sys) : Prop :=
  exists a, admissible a s /\ exec a s = Some (Ret s').

Definition reachable (s : sys) : Prop :=
  exists peers base b, Broker_ConnectorManager b = NewConnectorManager (Broker_Monitor b) /\
    Broker_WorkerManager b = NewWorkerManager (Broker_Monitor b) /\
    rtc step (Start peers base b) s.

(** ** The invariant *)

(** The tokens of a goroutine that is blocked in a send. *)
Definition queue_tokens (st : status) : Z :=
  match st with Sending q => len q | _ => 0 end.
Definition source_tokens (x : status * Source * world) : Z :=
  queue_tokens x.1.1 * len (Source_Targets_ x.1.2).
Definition target_tokens (x : status * Target * world) : Z := queue_tokens x.1.1.
Definition worker_tokens (x : status * Worker) : Z := queue_tokens x.1.

Definition queued (s : sys) : Z :=
  map_sum source_tokens (srcs s) + map_sum target_tokens (tgts s)
  + map_sum worker_tokens (wrks s).

(** A goroutine that has not returned is counted by its wait group. *)
Definition live (st : status) : Z := match st with Exited => 0 | _ => 1 end.
Definition source_live (x : status * Source * world) : Z := live x.1.1.
Definition target_live (x : status * Target * world) : Z := live x.1.1.
Definition worker_live (x : status * Worker) : Z := live x.1.

Definition phase_ok (s : sys) : Prop :=
  match main s with
  | WaitSources => Worker_StopChan (wm s) = false /\ TargetStop (cm s) = false
  | WaitWorkers => SourceWaitGroup (cm s) = 0 /\ TargetStop (cm s) = false /\
                   Worker_StopChan (wm s) = true
  | WaitInFlight => SourceWaitGroup (cm s) = 0 /\ Worker_WaitGroup (wm s) = 0 /\
                    TargetStop (cm s) = false /\ Worker_StopChan (wm s) = true
  | WaitTargets => SourceWaitGroup (cm s) = 0 /\ Worker_WaitGroup (wm s) = 0 /\
                   InFlightWaitGroup (cm s) = 0 /\ TargetStop (cm s) = true
  | Done => SourceWaitGroup (cm s) = 0 /\ Worker_WaitGroup (wm s) = 0 /\
            InFlightWaitGroup (cm s) = 0 /\ TargetWaitGroup (cm s) = 0
  end.

Definition carries_ok (x : status * Source * world) : Prop :=
  match x with
  | (Sending q, src, _) => carries (Source_Targets_ src) q
  | _ => True
  end.

(** [extra] tokens are on their way from a sender that is not yet unblocked to
    a receiver that has run. *)
Record inv (extra : Z) (s : sys) : Prop := {
  inv_in : InFlightWaitGroup (cm s)
           = queued s + unknown s + zsum lost (fates s) - extra;
  inv_acc : accepted s = InFlightWaitGroup (cm s) + zsum tokens (fates s);
  inv_counted : counted (cm s);
  inv_sw : SourceWaitGroup (cm s) = map_sum source_live (srcs s);
  inv_tw : TargetWaitGroup (cm s) = map_sum target_live (tgts s);
  inv_ww : Worker_WaitGroup (wm s) = map_sum worker_live (wrks s);
  inv_unknown : 0 <= unknown s;
  inv_carries : map_Forall (fun _ => carries_ok) (srcs s);
  inv_phase : phase_ok s;
}.

Lemma queue_tokens_nonneg st : 0 <= queue_tokens st.
Proof. destruct st; try done. apply len_nonneg. Qed.

Lemma source_tokens_nonneg x : 0 <= source_tokens x.
Proof.
  apply Z.mul_nonneg_nonneg; [apply queue_tokens_nonneg | apply len_nonneg].
Qed.

Lemma live_nonneg st : 0 <= live st.
Proof. by destruct st. Qed.

Lemma queue_after q : queue_tokens (after q) = len q.
Proof. by destruct q. Qed.

Lemma live_after q : live (after q) = 1.
Proof. by destruct q. Qed.

Lemma lost_nonneg f : 0 <= lost f.
Proof. by destruct f. Qed.

(** What the invariant says about one goroutine. *)
Lemma live_source s name st src w :
  inv 0 s -> srcs s !! name = Some (st, src, w) -> live st = 1 ->
  0 < SourceWaitGroup (cm s).
Proof.
  intros Hi Hk Hl. rewrite (inv_sw _ _ Hi).
  pose proof (map_sum_ge source_live _ _ _ (fun x => live_nonneg x.1.1) Hk).
  unfold source_live in *. cbn in *. lia.
Qed.

Lemma live_target s name st tgt w :
  inv 0 s -> tgts s !! name = Some (st, tgt, w) -> live st = 1 ->
  0 < TargetWaitGroup (cm s).
Proof.
  intros Hi Hk Hl. rewrite (inv_tw _ _ Hi).
  pose proof (map_sum_ge target_live _ _ _ (fun x => live_nonneg x.1.1) Hk).
  unfold target_live in *. cbn in *. lia.
Qed.

Lemma live_worker s i st w :
  inv 0 s -> wrks s !! i = Some (st, w) -> live st = 1 -> 0 < Worker_WaitGroup (wm s).
Proof.
  intros Hi Hk Hl. rewrite (inv_ww _ _ Hi).
  pose proof (map_sum_ge worker_live _ _ _ (fun x => live_nonneg x.1) Hk).
  unfold worker_live in *. cbn in *. lia.
Qed.

Lemma queued_parts s :
  0 <= map_sum source_tokens (srcs s) /\ 0 <= map_sum target_tokens (tgts s) /\
  0 <= map_sum worker_tokens (wrks s) /\ 0 <= zsum lost (fates s).
Proof.
  split_and!; try (apply map_sum_nonneg; intros; apply queue_tokens_nonneg).
  - apply map_sum_nonneg, source_tokens_nonneg.
  - apply zsum_nonneg, lost_nonneg.
Qed.

Lemma inflight_nonneg s : inv 0 s -> 0 <= InFlightWaitGroup (cm s).
Proof.
  intros Hi. pose proof (queued_parts s) as (? & ? & ? & ?). pose proof (inv_unknown _ _ Hi).
  rewrite (inv_in _ _ Hi). unfold queued. lia.
Qed.

Lemma worker_holds s i st w :
  inv 0 s -> wrks s !! i = Some (st, w) -> queue_tokens st <= InFlightWaitGroup (cm s).
Proof.
  intros Hi Hk. pose proof (queued_parts s) as (? & ? & ? & ?).
  pose proof (inv_unknown _ _ Hi).
  pose proof (map_sum_ge worker_tokens _ _ _ (fun x => queue_tokens_nonneg x.1) Hk).
  rewrite (inv_in _ _ Hi). unfold queued, worker_tokens in *. cbn in *. lia.
Qed.

Lemma target_holds s name st tgt w :
  inv 0 s -> tgts s !! name = Some (st, tgt, w) ->
  queue_tokens st <= InFlightWaitGroup (cm s).
Proof.
  intros Hi Hk. pose proof (queued_parts s) as (? & ? & ? & ?).
  pose proof (inv_unknown _ _ Hi).
  pose proof (map_sum_ge target_tokens _ _ _ (fun x => queue_tokens_nonneg x.1.1) Hk).
  rewrite (inv_in _ _ Hi). unfold queued, target_tokens in *. cbn in *. lia.
Qed.

(** Replacing one goroutine. *)
Lemma source_sums (m : gmap string _) name st src w st' w' :
  m !! name = Some (st, src, w) ->
  map_sum source_tokens (<[name := (st', src, w')]> m)
  = map_sum source_tokens m
    + (queue_tokens st' - queue_tokens st) * len (Source_Targets_ src) /\
  map_sum source_live (<[name := (st', src, w')]> m)
  = map_sum source_live m + live st' - live st.
Proof.
  intros Hk. split; rewrite (map_sum_replace _ _ _ _ _ Hk).
  - change (source_tokens (st, src, w)) with (queue_tokens st * len (Source_Targets_ src)).
    change (source_tokens (st', src, w')) with (queue_tokens st' * len (Source_Targets_ src)).
    lia.
  - change (source_live (st, src, w)) with (live st).
    change (source_live (st', src, w')) with (live st'). lia.
Qed.

Lemma target_sums (m : gmap string _) name st tgt w st' w' :
  m !! name = Some (st, tgt, w) ->
  map_sum target_tokens (<[name := (st', tgt, w')]> m)
  = map_sum target_tokens m + queue_tokens st' - queue_tokens st /\
  map_sum target_live (<[name := (st', tgt, w')]> m)
  = map_sum target_live m + live st' - live st.
Proof.
  intros Hk. split; rewrite (map_sum_replace _ _ _ _ _ Hk).
  - change (target_tokens (st, tgt, w)) with (queue_tokens st).
    change (target_tokens (st', tgt, w')) with (queue_tokens st'). lia.
  - change (target_live (st, tgt, w)) with (live st).
    change (target_live (st', tgt, w')) with (live st'). lia.
Qed.

Lemma worker_sums (m : gmap nat _) i st w st' w' :
  m !! i = Some (st, w) ->
  map_sum worker_tokens (<[i := (st', w')]> m)
  = map_sum worker_tokens m + queue_tokens st' - queue_tokens st /\
  map_sum worker_live (<[i := (st', w')]> m)
  = map_sum worker_live m + live st' - live st.
Proof.
  intros Hk. split; rewrite (map_sum_replace _ _ _ _ _ Hk).
  - change (worker_tokens (st, w)) with (queue_tokens st).
    change (worker_tokens (st', w')) with (queue_tokens st'). lia.
  - change (worker_live (st, w)) with (live st).
    change (worker_live (st', w')) with (live st'). lia.
Qed.

(** The phase is kept when the wait groups move only as it allows. *)
Lemma phase_moved s s' dt ds di :
  phase_ok s -> moved (cm s) (cm s') dt ds di -> main s' = main s -> wm s' = wm s ->
  (ds = 0 \/ 0 < SourceWaitGroup (cm s)) -> (dt = 0 \/ 0 < TargetWaitGroup (cm s)) ->
  (di = 0 \/ 0 < SourceWaitGroup (cm s) \/ 0 < InFlightWaitGroup (cm s)) ->
  phase_ok s'.
Proof.
  intros Hp [_ Ht Hs Hi Hts _ _ _] Hmain Hwm Hds Hdt Hdi. unfold phase_ok in *.
  rewrite Hmain, Hwm. destruct (main s); intuition (congruence || lia).
Qed.

(** ** Every step preserves the invariant *)

Lemma source_turn_inv name event s :
  inv 0 s ->
  (forall st src w, srcs s !! name = Some (st, src, w) ->
   admissible_event name (Source_Targets_ src) event) ->
  match source_turn name event s with
  | Some (Ret s') => inv 0 s'
  | Some (Panic _) => False
  | None => True
  end.
Proof.
  intros Hi Ha. unfold source_turn.
  destruct (srcs s !! name) as [[[st src] w] |] eqn:Hk; [| done]. destruct st; try done.
  pose proof (live_source _ _ _ _ _ Hi Hk eq_refl) as Hsw.
  pose proof (inflight_nonneg _ Hi) as Hin.
  destruct (source_iteration_spec name (Source_Targets_ src) event (enter (cm s) w))
    as (continue & w' & di & q & -> & Hm & Hq & Hcase);
    [apply (inv_counted _ _ Hi) | done | done | by eapply Ha |].
  cbn in Hm, Hq. rewrite Hq.
  set (st' := if continue then after q else Exited).
  destruct (source_sums (srcs s) name Idle src w st' w' Hk) as [Htok Hlive].
  assert (queue_tokens st' * len (Source_Targets_ src) = di /\
          live st' = 1 + (if continue then 0 else -1) /\
          carries_ok (st', src, w')) as (Hdi & Hl & Hcar).
  { subst st'. destruct Hcase as [[-> ->] | (-> & -> & Hcar)].
    - by destruct continue.
    - destruct Hcar as (data & l & -> & ?). split_and!; [| done | by exists data, l].
      cbn [after queue_tokens]. change (len [("", data)]) with 1. lia. }
  pose proof (phase_moved s (set_srcs (mgr w') (<[name := (st', src, w')]> (srcs s)) s)
    _ _ _ (inv_phase _ _ Hi) Hm eq_refl eq_refl (or_intror Hsw) (or_introl eq_refl)
    (or_intror (or_introl Hsw))) as Hph.
  destruct Hi as [Hii Hacc _ Hs Ht Hw Hu Hcars _], Hm as [_ Htw Hswm Hinm _ _ Hc _].
  cbn [queue_tokens live] in *. rewrite Z.sub_0_r, Hdi in Htok.
  split; cbn; unfold queued in *; cbn in *; rewrite ?app_nil_r, ?Z.add_0_r; try done; try lia.
  by apply map_Forall_insert_2.
Qed.

Definition arrives (event : target_event) : Z :=
  match event with Inbound _ => 1 | _ => 0 end.

Lemma event_balance name event w :
  zsum tokens (event_fates name event w) + len (event_fates name event w ≫= resends)
  + zsum lost (event_fates name event w) = arrives event.
Proof.
  destruct event as [data | |]; [| done..]. cbn [event_fates arrives].
  change ([?f] ≫= resends) with (resends f ++ []). rewrite app_nil_r.
  unfold zsum. cbn [foldr]. pose proof (fate_balance (target_fate name data w)). lia.
Qed.

Lemma target_turn_inv name event s :
  inv 0 s -> (arrives event = 0 \/ 0 < InFlightWaitGroup (cm s)) ->
  match target_turn name event s with
  | Some (Ret s') =>
      inv (arrives event) s' /\ wrks s' = wrks s /\ wm s' = wm s /\
      exists st tgt w w', tgts s !! name = Some (Idle, tgt, w) /\
        tgts s' = <[name := (st, tgt, w')]> (tgts s)
  | Some (Panic why) =>
      why = nil_deref /\ Monitor_ (cm s) <> None /\ arrives event = 1
  | None => True
  end.
Proof.
  intros Hi Hin. unfold target_turn.
  destruct (tgts s !! name) as [[[st tgt] w] |] eqn:Hk; [| done]. destruct st; try done.
  pose proof (live_target _ _ _ _ _ Hi Hk eq_refl) as Htw.
  pose proof (target_iteration_spec name event (enter (cm s) w)) as Hspec.
  cbv zeta in Hspec. pose proof (event_balance name event (enter (cm s) w)) as Hbal.
  set (fs := event_fates name event (enter (cm s) w)) in *.
  specialize (Hspec (inv_counted _ _ Hi) Htw).
  destruct (target_iteration _ _ _) as [[continue w'] | why].
  2: { destruct Hspec as (-> & Hf & Hm); [by destruct event, Hin |].
       split_and!; [done | done |]. destruct event; done. }
  destruct Hspec as (Hm & Hq & Hdead); [by destruct event, Hin |].
  cbn [enter mgr sends app] in Hm, Hq. rewrite Hq.
  set (st' := if continue then after (fs ≫= resends) else Exited).
  destruct (target_sums (tgts s) name Idle tgt w st' w' Hk) as [Htok Hlive].
  assert (queue_tokens st' = len (fs ≫= resends) /\
          live st' = 1 + (if continue then 0 else -1)) as (Hdi & Hl).
  { subst st'. destruct continue; [by rewrite queue_after, live_after |].
    by rewrite (Hdead eq_refl). }
  assert (Hzero : arrives event = 0 -> zsum tokens fs = 0).
  { intros Ha. pose proof (zsum_nonneg tokens fs (fun f => ltac:(by destruct f))).
    pose proof (zsum_nonneg lost fs lost_nonneg). pose proof (len_nonneg (fs ≫= resends)).
    lia. }
  assert (Hph : phase_ok (ghost 0 0 fs
    (set_tgts (mgr w') (<[name := (st', tgt, w')]> (tgts s)) s))).
  { eapply (phase_moved s); [apply Hi | exact Hm | done | done | by left | by right |].
    destruct Hin; [left; by rewrite Hzero | auto]. }
  destruct Hi as [Hii Hacc _ Hs Ht Hw Hu Hcars _], Hm as [_ Htwm Hswm Hinm _ _ Hc _].
  cbn [queue_tokens live] in *. split; [| split_and!; [done | done | by eexists _, _, _, _]].
  split; cbn; unfold queued in *; cbn in *; rewrite ?zsum_app, ?Z.add_0_r; try done; lia.
Qed.

(** *** Workers *)
Lemma worker_turn_stop_inv i s :
  inv 0 s ->
  match worker_turn i StopWorker s with
  | Some (Ret s') => inv 0 s'
  | Some (Panic _) => False
  | None => True
  end.
Proof.
  intros Hi. unfold worker_turn.
  destruct (wrks s !! i) as [[st w] |] eqn:Hk; [| done]. destruct st; try done.
  pose proof (live_worker _ _ _ _ Hi Hk eq_refl) as Hww.
  destruct (worker_iteration_spec StopWorker (enter_worker (cm s) (wm s) w) Hww)
    as (w' & -> & Hwg & Hst & _).
  destruct (worker_sums (wrks s) i Idle w Exited w' Hk) as [Htok Hlive].
  destruct Hi as [Hii Hacc Hc Hs Ht Hw Hu Hcars Hph].
  cbn [queue_tokens live enter_worker Manager] in *.
  split; cbn; unfold queued in *; cbn in *; rewrite ?app_nil_r, ?Z.add_0_r; try done; try lia.
  unfold phase_ok in *. cbn in *. destruct (main s); intuition (congruence || lia).
Qed.

Lemma worker_turn_receive_inv i data l s :
  inv 0 s -> ProtobufToBroker data = (l, None) ->
  match worker_turn i (Receive data) s with
  | Some (Ret s') =>
      inv (len (Broker_Targets l)) s' /\ srcs s' = srcs s
  | Some (Panic _) => False
  | None => True
  end.
Proof.
  intros Hi Hl. unfold worker_turn.
  destruct (wrks s !! i) as [[st w] |] eqn:Hk; [| done]. destruct st; try done.
  pose proof (live_worker _ _ _ _ Hi Hk eq_refl) as Hww.
  destruct (worker_iteration_spec (Receive data) (enter_worker (cm s) (wm s) w) Hww l Hl)
    as (w' & q & -> & Hm & Hq & Hlen).
  cbn [enter_worker worker_sends app Manager ConnectorManager_] in *. rewrite Hq, Hm.
  destruct (worker_sums (wrks s) i Idle w (after q) w' Hk) as [Htok Hlive].
  rewrite queue_after in Htok. rewrite live_after in Hlive.
  assert (0 <= unknown_targets (cm s) data) by apply len_nonneg.
  destruct Hi as [Hii Hacc Hc Hs Ht Hw Hu Hcars Hph]. cbn [queue_tokens live] in *.
  split; [| done].
  split; cbn; unfold queued in *; cbn in *; rewrite ?app_nil_r, ?Z.add_0_r; try done; lia.
Qed.

(** *** Rendezvous *)
Lemma handover_inv name i s :
  inv 0 s ->
  match handover name i s with
  | Some (Ret s') => inv 0 s'
  | Some (Panic _) => False
  | None => True
  end.
Proof.
  intros Hi. unfold handover.
  destruct (srcs s !! name) as [[[st src] w] |] eqn:Hk; [| done].
  destruct st as [| | [| [x data] q] |]; try done.
  pose proof (inv_carries _ _ Hi _ _ Hk) as (data' & l & Hq & Hl & Ht).
  injection Hq as -> -> ->.
  pose proof (worker_turn_receive_inv i data' l s Hi Hl) as Hturn.
  destruct (worker_turn i (Receive data') s) as [[s' |] |]; cbn [then_]; [| done..].
  destruct Hturn as [Hi' Hsrcs]. cbn [after]. rewrite <- Hsrcs in Hk.
  destruct (source_sums (srcs s') name _ src w Idle w Hk) as [Htok Hlive].
  destruct Hi' as [Hii Hacc Hc Hs Htw Hw Hu Hcars Hph]. cbn [queue_tokens live] in *.
  change (len [("", data')]) with 1 in Htok. rewrite Ht in *.
  split; cbn; unfold queued in *; cbn in *; try done; try lia.
  by apply map_Forall_insert_2.
Qed.

Lemma dispatch_inv i s :
  inv 0 s ->
  match dispatch i s with
  | Some (Ret s') => inv 0 s'
  | Some (Panic why) => why = nil_deref /\ Monitor_ (cm s) <> None
  | None => True
  end.
Proof.
  intros Hi. unfold dispatch.
  destruct (wrks s !! i) as [[st w] |] eqn:Hk; [| done].
  destruct st as [| | [| [target data] q] |]; try done.
  pose proof (worker_holds _ _ _ _ Hi Hk) as Hin. pose proof (len_nonneg q).
  assert (len ((target, data) :: q) = 1 + len q) as Hlen
    by (unfold len; cbn [length]; lia).
  cbn [queue_tokens] in Hin.
  assert (Hpos : 0 < InFlightWaitGroup (cm s)) by lia.
  pose proof (target_turn_inv target (Inbound data) s Hi (or_intror Hpos)) as Hturn.
  destruct (target_turn target (Inbound data) s) as [[s' |] |]; cbn [then_]; [| naive_solver..].
  destruct Hturn as (Hi' & Hwrks & Hwm & _). rewrite <- Hwrks in Hk.
  destruct (worker_sums (wrks s') i _ w (after q) w Hk) as [Htok Hlive].
  rewrite queue_after in Htok. rewrite live_after in Hlive.
  destruct Hi' as [Hii Hacc Hc Hs Htw Hw Hu Hcars Hph]. cbn [queue_tokens live arrives] in *.
  split; cbn; unfold queued in *; cbn in *; try done; lia.
Qed.

Lemma fall_back_inv name s :
  inv 0 s ->
  match fall_back name s with
  | Some (Ret s') => inv 0 s'
  | Some (Panic why) => why = nil_deref /\ Monitor_ (cm s) <> None
  | None => True
  end.
Proof.
  intros Hi. unfold fall_back.
  destruct (tgts s !! name) as [[[st tgt] w] |] eqn:Hk; [| done].
  destruct st as [| | [| [target data] q] |]; try done.
  pose proof (target_holds _ _ _ _ _ Hi Hk) as Hin. pose proof (len_nonneg q).
  assert (len ((target, data) :: q) = 1 + len q) as Hlen
    by (unfold len; cbn [length]; lia).
  cbn [queue_tokens] in Hin.
  assert (Hpos : 0 < InFlightWaitGroup (cm s)) by lia.
  pose proof (target_turn_inv target (Inbound data) s Hi (or_intror Hpos)) as Hturn.
  destruct (target_turn target (Inbound data) s) as [[s' |] |]; cbn [then_]; [| naive_solver..].
  destruct Hturn as (Hi' & _ & _ & st2 & tgt2 & w2 & w2' & Hk2 & Htgts).
  assert (name <> target) by (intros ->; congruence).
  assert (tgts s' !! name = Some (Sending ((target, data) :: q), tgt, w)) as Hk'
    by (rewrite Htgts, lookup_insert_ne; done).
  destruct (target_sums (tgts s') name _ tgt w (after q) w Hk') as [Htok Hlive].
  rewrite queue_after in Htok. rewrite live_after in Hlive.
  destruct Hi' as [Hii Hacc Hc Hs Htw Hw Hu Hcars Hph]. cbn [queue_tokens live arrives] in *.
  split; cbn; unfold queued in *; cbn in *; try done; lia.
Qed.

(** *** Starting a goroutine *)
Lemma source_start_inv name dial s :
  inv 0 s ->
  match source_start name dial s with
  | Some (Ret s') => inv 0 s'
  | Some (Panic _) => False
  | None => True
  end.
Proof.
  intros Hi. unfold source_start.
  destruct (srcs s !! name) as [[[st src] w] |] eqn:Hk; [| done]. destruct st; try done.
  pose proof (live_source _ _ _ _ _ Hi Hk eq_refl) as Hsw.
  destruct (source_handle_spec name src dial (enter (cm s) w) (inv_counted _ _ Hi) Hsw)
    as (w' & -> & Hm). cbn [enter mgr out] in Hm.
  set (st' := match dial with
              | None => if (SendHello (out w)).1 then Idle else Exited
              | Some _ => Exited
              end).
  destruct (source_sums (srcs s) name NotStarted src w st' w' Hk) as [Htok Hlive].
  assert (queue_tokens st' = 0 /\ carries_ok (st', src, w') /\
    live st' = 1 + match dial with
                   | None => if (SendHello (out w)).1 then 0 else -1
                   | Some _ => -1
                   end) as (Hq & Hcar & Hl)
    by (subst st'; destruct dial; [done |]; by destruct (SendHello (out w)).1).
  pose proof (phase_moved s (set_srcs (mgr w') (<[name := (st', src, w')]> (srcs s)) s)
    _ _ _ (inv_phase _ _ Hi) Hm eq_refl eq_refl (or_intror Hsw) (or_introl eq_refl)
    (or_introl eq_refl)) as Hph.
  destruct Hi as [Hii Hacc _ Hs Ht Hw Hu Hcars _], Hm as [_ Htwm Hswm Hinm _ _ Hc _].
  cbn [queue_tokens live] in *. rewrite Hq in Htok.
  split; cbn; unfold queued in *; cbn in *; try done; try lia.
  by apply map_Forall_insert_2.
Qed.

Lemma target_start_inv name dial s :
  inv 0 s ->
  match target_start name dial s with
  | Some (Ret s') => inv 0 s'
  | Some (Panic why) => why = nil_deref /\ Monitor_ (cm s) = None /\ dial <> None
  | None => True
  end.
Proof.
  intros Hi. unfold target_start.
  destruct (tgts s !! name) as [[[st tgt] w] |] eqn:Hk; [| done]. destruct st; try done.
  pose proof (live_target _ _ _ _ _ Hi Hk eq_refl) as Htw.
  pose proof (target_handle_spec name tgt dial (enter (cm s) w) (inv_counted _ _ Hi) Htw)
    as Hspec.
  destruct (target_handle _ _ _ _ _) as [[[] w'] | why]; [| exact Hspec].
  rename Hspec into Hm. cbn [enter mgr out] in Hm.
  set (st' := match dial with None => Idle | Some _ => Exited end).
  destruct (target_sums (tgts s) name NotStarted tgt w st' w' Hk) as [Htok Hlive].
  assert (queue_tokens st' = 0 /\
    live st' = 1 + match dial with None => 0 | Some _ => -1 end) as (Hq & Hl)
    by (subst st'; by destruct dial).
  pose proof (phase_moved s (set_tgts (mgr w') (<[name := (st', tgt, w')]> (tgts s)) s)
    _ _ _ (inv_phase _ _ Hi) Hm eq_refl eq_refl (or_introl eq_refl) (or_intror Htw)
    (or_introl eq_refl)) as Hph.
  destruct Hi as [Hii Hacc _ Hs Ht Hw Hu Hcars _], Hm as [_ Htwm Hswm Hinm _ _ Hc _].
  cbn [queue_tokens live] in *.
  split; cbn; unfold queued in *; cbn in *; try done; lia.
Qed.

Lemma worker_start_inv i s :
  inv 0 s ->
  match worker_start i s with
  | Some (Ret s') => inv 0 s'
  | Some (Panic _) => False
  | None => True
  end.
Proof.
  intros Hi. unfold worker_start.
  destruct (wrks s !! i) as [[st w] |] eqn:Hk; [| done]. destruct st; try done.
  destruct (worker_sums (wrks s) i NotStarted w Idle w Hk) as [Htok Hlive].
  destruct Hi as [Hii Hacc Hc Hs Ht Hw Hu Hcars Hph]. cbn [queue_tokens live] in *.
  split; cbn; unfold queued in *; cbn in *; try done; lia.
Qed.

(** *** The main goroutine *)
Lemma broker_start_inv s :
  inv 0 s ->
  match broker_start s with
  | Some (Ret s') => inv 0 s'
  | Some (Panic _) => False
  | None => True
  end.
Proof.
  intros Hi. pose proof (inv_phase _ _ Hi) as Hph. unfold broker_start, phase_ok in *.
  destruct Hi as [Hii Hacc Hc Hs Ht Hw Hu Hcars _].
  destruct (main s) eqn:Hmain.
  - destruct (Z.eqb_spec (SourceWaitGroup (cm s)) 0); [| done].
    destruct Hph as [Hstop Htstop]. unfold WorkerManager_Stop, close_channel. rewrite Hstop.
    by split.
  - destruct (Wait_returns (wm s)) eqn:Hret; [| done].
    apply Z.eqb_eq in Hret. split; try done. unfold phase_ok. cbn. tauto.
  - destruct (Z.eqb_spec (InFlightWaitGroup (cm s)) 0); [| done].
    destruct Hph as (? & ? & Hstop & _). unfold StopTargets, close_channel. rewrite Hstop.
    by split.
  - destruct (Z.eqb_spec (TargetWaitGroup (cm s)) 0); [| done].
    split; try done. unfold phase_ok. cbn. tauto.
  - done.
Qed.

Lemma broker_stop_inv s :
  inv 0 s ->
  match broker_stop s with
  | Ret s' => inv 0 s'
  | Panic _ => SourceStop (cm s) = true
  end.
Proof.
  intros Hi. unfold broker_stop, StopSources, close_channel.
  destruct (SourceStop (cm s)) eqn:Hstop; [done |]. destruct Hi. by split.
Qed.

(** *** All steps *)

(** The panics that a step can end in. *)
Definition panic_cause (a : action) (why : string) (s : sys) : Prop :=
  match a with
  | Dispatch _ | FallBack _ => why = nil_deref /\ Monitor_ (cm s) <> None
  | TargetStart _ dial => why = nil_deref /\ Monitor_ (cm s) = None /\ dial <> None
  | BrokerStop => SourceStop (cm s) = true
  | _ => False
  end.

Lemma exec_inv a s :
  inv 0 s -> admissible a s ->
  match exec a s with
  | Some (Ret s') => inv 0 s'
  | Some (Panic why) => panic_cause a why s
  | None => True
  end.
Proof.
  intros Hi Ha. destruct a; cbn [exec panic_cause].
  - by apply source_start_inv.
  - by apply target_start_inv.
  - by apply worker_start_inv.
  - pose proof (source_turn_inv name event s Hi Ha). by destruct event.
  - pose proof (target_turn_inv name (Ticker i curTime ttlTime now order) s Hi
      (or_introl eq_refl)) as Ht.
    destruct (target_turn _ _ _) as [[s' |] |]; naive_solver.
  - destruct (SourceStop _); [| done]. by apply source_turn_inv.
  - destruct (TargetStop _); [| done].
    pose proof (target_turn_inv name StopTarget s Hi (or_introl eq_refl)) as Ht.
    destruct (target_turn _ _ _) as [[s' |] |]; naive_solver.
  - destruct (Worker_StopChan _); [| done]. by apply worker_turn_stop_inv.
  - by apply handover_inv.
  - by apply dispatch_inv.
  - by apply fall_back_inv.
  - by apply broker_start_inv.
  - pose proof (broker_stop_inv s Hi). by destruct (broker_stop s).
Qed.

(** *** The initial state *)
Lemma start_groups (sources : gmap string Source) (targets : gmap string Target) m :
  let m' := ConnectorManager_Start sources targets m in
  SourceWaitGroup m' = SourceWaitGroup m + Z.of_nat (size sources) /\
  TargetWaitGroup m' = TargetWaitGroup m + Z.of_nat (size targets) /\
  InFlightWaitGroup m' = InFlightWaitGroup m /\ MessagesInFlight_ m' = MessagesInFlight_ m /\
  TargetStop m' = TargetStop m /\ SourceStop m' = SourceStop m /\
  SourceConnectors m' = dom sources ∪ SourceConnectors m /\
  TargetConnectors m' = dom targets ∪ TargetConnectors m.
Proof.
  cbv zeta. unfold ConnectorManager_Start.
  set (m1 := map_fold (fun name _ m => start_target name m) m targets).
  assert (SourceWaitGroup m1 = SourceWaitGroup m /\
    TargetWaitGroup m1 = TargetWaitGroup m + Z.of_nat (size targets) /\
    InFlightWaitGroup m1 = InFlightWaitGroup m /\
    MessagesInFlight_ m1 = MessagesInFlight_ m /\
    TargetStop m1 = TargetStop m /\ SourceStop m1 = SourceStop m /\
    SourceConnectors m1 = SourceConnectors m /\
    TargetConnectors m1 = dom targets ∪ TargetConnectors m)
    as (E1 & E2 & E3 & E4 & E5 & E6 & E7 & E8).
  { subst m1. apply (map_fold_weak_ind (fun r (ts : gmap string Target) =>
      SourceWaitGroup r = _ /\ TargetWaitGroup r = _ + Z.of_nat (size ts) /\
      InFlightWaitGroup r = _ /\ MessagesInFlight_ r = _ /\ TargetStop r = _ /\
      SourceStop r = _ /\ SourceConnectors r = _ /\ TargetConnectors r = dom ts ∪ _)).
    - rewrite map_size_empty, dom_empty_L. split_and!; try done; [lia | set_solver].
    - intros i x ts r Hi (? & Ht & ? & ? & ? & ? & ? & Hc). cbn.
      rewrite map_size_insert_None, dom_insert_L by done. rewrite Ht, Hc.
      split_and!; try done; [lia | set_solver]. }
  rewrite <- E1, <- E2, <- E3, <- E4, <- E5, <- E6, <- E7, <- E8.
  apply (map_fold_weak_ind (fun r (ts : gmap string Source) =>
      SourceWaitGroup r = _ + Z.of_nat (size ts) /\ TargetWaitGroup r = _ /\
      InFlightWaitGroup r = _ /\ MessagesInFlight_ r = _ /\ TargetStop r = _ /\
      SourceStop r = _ /\ SourceConnectors r = dom ts ∪ _ /\ TargetConnectors r = _)).
  - rewrite map_size_empty, dom_empty_L. split_and!; try done; [lia | set_solver].
  - intros i x ts r Hi (Ht & ? & ? & ? & ? & ? & Hc & ?). cbn.
    rewrite map_size_insert_None, dom_insert_L by done. rewrite Ht, Hc.
    split_and!; try done; [lia | set_solver].
Qed.

Lemma size_imap_Some {A B} (f : string -> A -> B) (m : gmap string A) :
  size (map_imap (fun k x => Some (f k x)) m) = size m.
Proof.
  rewrite <- !(size_dom (D := gset string)). f_equal.
  apply (dom_imap_L (D := gset string)). intros i. rewrite elem_of_dom.
  split; [intros [x Hx]; by exists x | intros (x & Hx & _); by exists x].
Qed.

Lemma map_sum_imap {A B} (g : B -> Z) (f : string -> A -> B) (m : gmap string A) c :
  (forall k x, g (f k x) = c) ->
  (c = 0 \/ c = 1) ->
  map_sum g (map_imap (fun k x => Some (f k x)) m) = c * Z.of_nat (size m).
Proof.
  intros Hg Hc.
  assert (forall k b, map_imap (fun k x => Some (f k x)) m !! k = Some b -> g b = c) as Hall.
  { intros k b. rewrite map_lookup_imap. destruct (m !! k) as [x |]; [| done].
    intros [= <-]. apply Hg. }
  destruct Hc as [-> | ->].
  - by rewrite map_sum_all0.
  - rewrite map_sum_size by done. rewrite size_imap_Some. lia.
Qed.

Lemma map_sum_seq {A} (g : A -> Z) n (l : list A) :
  map_sum g (map_seq (M := gmap nat A) n l) = zsum g l.
Proof.
  revert n. induction l as [| a l IH]; intros n; [apply map_sum_empty |].
  rewrite map_seq_cons, map_sum_insert by (apply lookup_map_seq_None; lia). by rewrite IH.
Qed.

Lemma zsum_const {A} (g : A -> Z) c l :
  (forall a, a ∈ l -> g a = c) -> zsum g l = c * len l.
Proof.
  induction l as [| a l IH]; intros Hg; [unfold zsum, len; cbn; lia |].
  change (zsum g (a :: l)) with (g a + zsum g l).
  rewrite (Hg a), IH by (set_solver || (intros; apply Hg; set_solver)).
  unfold len. cbn [length]. lia.
Qed.

Lemma start_inv peers base b :
  Broker_ConnectorManager b = NewConnectorManager (Broker_Monitor b) ->
  Broker_WorkerManager b = NewWorkerManager (Broker_Monitor b) ->
  inv 0 (Start peers base b).
Proof.
  intros Hcm Hwm. unfold Start, WorkerManager_Start. rewrite Hcm, Hwm.
  pose proof (start_groups (Sources b) (Targets b) (NewConnectorManager (Broker_Monitor b)))
    as (Hsw & Htw & Hin & Hmf & Hts & Hss & _ & _). cbv zeta in *.
  set (m := ConnectorManager_Start _ _ _) in *.
  destruct (start_workers _ _ _ _) as [w ps] eqn:Hw.
  apply start_workers_spec in Hw as (Hl & Hwg & Hst & _ & _).
  split; cbn [cm wm srcs tgts wrks main accepted unknown fates].
  - unfold queued. cbn [cm wm srcs tgts wrks unknown fates].
    rewrite (map_sum_imap _ _ _ 0), (map_sum_imap _ _ _ 0), map_sum_seq, (zsum_const _ 0)
      by (by auto || (intros a (p & -> & _)%list_elem_of_fmap; done)).
    rewrite Hin. done.
  - rewrite Hin. done.
  - unfold counted. by rewrite Hin, Hmf.
  - rewrite (map_sum_imap _ _ _ 1) by auto. rewrite Hsw. cbn. lia.
  - rewrite (map_sum_imap _ _ _ 1) by auto. rewrite Htw. cbn. lia.
  - rewrite map_sum_seq, (zsum_const _ 1)
      by (intros a (p & -> & _)%list_elem_of_fmap; done).
    unfold len. rewrite length_fmap, Hl, Hwg. cbn. lia.
  - done.
  - intros k x. rewrite map_lookup_imap. destruct (Sources b !! k); [| done]. by intros [= <-].
  - unfold phase_ok. cbn. by rewrite Hst, Hts.
Qed.

Lemma reachable_inv s : reachable s -> inv 0 s.
Proof.
  intros (peers & base & b & Hcm & Hwm & Hsteps).
  pose proof (start_inv peers base b Hcm Hwm) as Hi. revert Hi.
  induction Hsteps as [s | s1 s2 s3 (a & Ha & He) _ IH]; intros Hi; [done |].
  apply IH. pose proof (exec_inv a s1 Hi Ha) as Hx. by rewrite He in Hx.
Qed.

(** ** Theorems *)

(** C12. In every reachable state the in-flight wait group counts exactly the
    messages that wait in a channel send, plus the tokens of targets that do
    not exist and of messages that ended in a dead or unknown target; the
    counter [MessagesInFlight] is the wait group modulo 2^64, and a token that
    was added and is no longer counted was settled by one delivery, one
    discard or one refusal. *)
Theorem inflight_tokens s :
  reachable s ->
  InFlightWaitGroup (cm s) = queued s + unknown s + zsum lost (fates s) /\
  0 <= InFlightWaitGroup (cm s) /\
  MessagesInFlight_ (cm s) = u64 (InFlightWaitGroup (cm s)) /\
  accepted s = InFlightWaitGroup (cm s) + zsum tokens (fates s).
Proof.
  intros Hr. pose proof (reachable_inv s Hr) as Hi. split_and!.
  - rewrite (inv_in _ _ Hi). lia.
  - by apply inflight_nonneg.
  - apply (inv_counted _ _ Hi).
  - apply (inv_acc _ _ Hi).
Qed.

(** C33. No step of a reachable state makes a wait group negative or closes a
    stop channel twice: the only panics are the nil error of a refused
    delivery under a monitor, the nil monitor of a target that cannot be
    dialled, and a second [Broker.Stop]. *)
Theorem panics_only_for_cause s a why :
  reachable s -> admissible a s -> exec a s = Some (Panic why) -> panic_cause a why s.
Proof.
  intros Hr Ha He. pose proof (exec_inv a s (reachable_inv s Hr) Ha) as Hx.
  by rewrite He in Hx.
Qed.

(** C11. When the broker stops its targets, nothing is waiting anywhere, no
    message was lost, and each token the sources added was settled by exactly
    one delivery, discard or refusal. *)
Theorem shutdown_loses_nothing s :
  reachable s -> main s = WaitTargets \/ main s = Done ->
  queued s = 0 /\ unknown s = 0 /\
  (forall f, f ∈ fates s -> tokens f = 1 \/ exists t d, f = Resent t d) /\
  accepted s = zsum tokens (fates s).
Proof.
  intros Hr Hm. pose proof (reachable_inv s Hr) as Hi.
  assert (InFlightWaitGroup (cm s) = 0) as Hzero.
  { pose proof (inv_phase _ _ Hi) as Hp. unfold phase_ok in Hp.
    destruct Hm as [Hm | Hm]; rewrite Hm in Hp; tauto. }
  pose proof (queued_parts s) as (? & ? & ? & ?). pose proof (inv_unknown _ _ Hi).
  pose proof (inv_in _ _ Hi) as Hin. pose proof (inv_acc _ _ Hi). unfold queued in *.
  split_and!; [lia | lia | | lia].
  assert (zsum lost (fates s) = 0) as Hlost by lia. clear -Hlost.
  intros f Hf. apply list_elem_of_split in Hf as (l1 & l2 & E). rewrite E, zsum_app in Hlost.
  change (zsum lost (f :: l2)) with (lost f + zsum lost l2) in Hlost.
  pose proof (zsum_nonneg lost l1 lost_nonneg). pose proof (zsum_nonneg lost l2 lost_nonneg).
  pose proof (lost_nonneg f). assert (lost f = 0) as Hf by lia.
  destruct f; try done; cbn; eauto.
Qed.

(** *** Lost tokens *)

(** What a step may do to the ghosts. *)
Definition grows (s s' : sys) : Prop :=
  unknown s <= unknown s' /\ exists fs, fates s' = fates s ++ fs.

Lemma grows_refl s : grows s s.
Proof. split; [lia |]. exists []. by rewrite app_nil_r. Qed.

Lemma then_grows o f s s' :
  (forall s1, o = Some (Ret s1) -> grows s s1) ->
  (forall s1, unknown (f s1) = unknown s1 /\ fates (f s1) = fates s1) ->
  then_ o f = Some (Ret s') -> grows s s'.
Proof.
  intros Ho Hf. destruct o as [[s1 |] |]; [| done..]. intros [= <-].
  destruct (Ho s1 eq_refl) as [Hu [fs Hfs]]. destruct (Hf s1) as [E1 E2].
  split; [lia | exists fs; congruence].
Qed.

Lemma target_turn_grows name event s s' :
  target_turn name event s = Some (Ret s') -> grows s s'.
Proof.
  unfold target_turn. destruct (tgts s !! name) as [[[[] tgt] w] |]; try done.
  destruct (target_iteration _ _ _) as [[continue w'] |]; [| done]. intros [= <-].
  split; cbn; [lia | by eexists].
Qed.

Lemma worker_turn_grows i event s s' :
  worker_turn i event s = Some (Ret s') -> grows s s'.
Proof.
  unfold worker_turn. destruct (wrks s !! i) as [[[] w] |]; try done.
  destruct (worker_iteration _ _) as [[continue w'] |]; [| done]. intros [= <-].
  split; cbn; [| by eexists].
  assert (0 <= event_unknown (cm s) event) by (destruct event; [apply len_nonneg | done]).
  lia.
Qed.

(** A step that touches no ghost. *)
Ltac no_ghost := split; cbn; [lia | exists []; by rewrite ?app_nil_r].

Lemma exec_grows a s s' : exec a s = Some (Ret s') -> grows s s'.
Proof.
  destruct a; cbn [exec].
  - unfold source_start. destruct (srcs s !! name) as [[[[] src] w] |]; try done.
    destruct (source_handle _ _ _ _ _) as [[[] w'] |]; [| done]. intros [= <-].
    no_ghost.
  - unfold target_start. destruct (tgts s !! name) as [[[[] tgt] w] |]; try done.
    destruct (target_handle _ _ _ _ _) as [[[] w'] |]; [| done]. intros [= <-].
    no_ghost.
  - unfold worker_start. destruct (wrks s !! i) as [[[] w] |]; try done. intros [= <-].
    no_ghost.
  - assert (source_turn name event s = Some (Ret s') -> grows s s') as Hst.
    { unfold source_turn. destruct (srcs s !! name) as [[[[] src] w] |]; try done.
      destruct (source_iteration _ _ _ _) as [[continue w'] |]; [| done]. intros [= <-].
      no_ghost. }
    by destruct event.
  - apply target_turn_grows.
  - destruct (SourceStop _); [| done]. unfold source_turn.
    destruct (srcs s !! name) as [[[[] src] w] |]; try done.
    destruct (source_iteration _ _ _ _) as [[continue w'] |]; [| done]. intros [= <-].
    no_ghost.
  - destruct (TargetStop _); [| done]. apply target_turn_grows.
  - destruct (Worker_StopChan _); [| done]. apply worker_turn_grows.
  - unfold handover. destruct (srcs s !! name) as [[[[| | [| [x d] q] |] src] w] |]; try done.
    apply then_grows; [intros s1; apply worker_turn_grows | done].
  - unfold dispatch. destruct (wrks s !! i) as [[[| | [| [x d] q] |] w] |]; try done.
    apply then_grows; [intros s1; apply target_turn_grows | done].
  - unfold fall_back. destruct (tgts s !! name) as [[[[| | [| [x d] q] |] tgt] w] |]; try done.
    apply then_grows; [intros s1; apply target_turn_grows | done].
  - unfold broker_start. repeat case_match; intros; simplify_eq; no_ghost.
  - unfold broker_stop. case_match; intros; simplify_eq; no_ghost.
Qed.

Lemma reachable_steps s s' : reachable s -> rtc step s s' -> reachable s'.
Proof.
  intros (peers & base & b & Hc & Hw & Hs) Hss. exists peers, base, b.
  split_and!; [done | done |]. by transitivity s.
Qed.

Lemma steps_grow s s' : rtc step s s' -> grows s s'.
Proof.
  induction 1 as [s | s1 s2 s3 (a & _ & He) _ [Hu [fs Hf]]]; [apply grows_refl |].
  destruct (exec_grows a s1 s2 He) as [Hu1 [fs1 Hf1]].
  split; [lia |]. exists (fs1 ++ fs). by rewrite Hf, Hf1, <- app_assoc.
Qed.

(** C32. One token that nobody gives back, of a target that does not exist or of
    a message that ended in a dead or unknown target, and the broker never
    stops its targets, whatever happens next. *)
Theorem lost_token_blocks_shutdown s s' :
  reachable s -> 0 < unknown s + zsum lost (fates s) -> rtc step s s' ->
  main s' <> WaitTargets /\ main s' <> Done.
Proof.
  intros Hr Hlost Hsteps. pose proof (reachable_steps _ _ Hr Hsteps) as Hr'.
  destruct (steps_grow _ _ Hsteps) as [Hu [fs Hfs]].
  pose proof (reachable_inv _ Hr') as Hi. pose proof (inv_in _ _ Hi) as Hin.
  pose proof (queued_parts s') as (? & ? & ? & ?). unfold queued in *.
  rewrite Hfs, zsum_app in *. pose proof (zsum_nonneg lost fs lost_nonneg).
  pose proof (inv_phase _ _ Hi) as Hp. unfold phase_ok in Hp.
  split; intros Hm; rewrite Hm in Hp; lia.
Qed.

(** *** A target that falls back to itself *)
Lemma target_turn_keeps name event s s' n x :
  target_turn name event s = Some (Ret s') ->
  tgts s !! n = Some x -> x.1.1 <> Idle -> tgts s' !! n = Some x.
Proof.
  unfold target_turn. destruct (tgts s !! name) as [[[[] tgt] w] |] eqn:Hk; try done.
  destruct (target_iteration _ _ _) as [[continue w'] |]; [| done]. intros [= <-] Hn Hx.
  cbn. rewrite lookup_insert_ne; [done |]. intros ->. rewrite Hk in Hn. by injection Hn as <-.
Qed.

Lemma exec_keeps_self a s s' n data q tgt w :
  exec a s = Some (Ret s') ->
  tgts s !! n = Some (Sending ((n, data) :: q), tgt, w) ->
  tgts s' !! n = Some (Sending ((n, data) :: q), tgt, w).
Proof.
  intros He Hn. destruct a; cbn [exec] in He.
  - unfold source_start in He. by repeat case_match; simplify_eq.
  - unfold target_start in He. repeat case_match; simplify_eq; cbn;
      (rewrite lookup_insert_ne; [done | congruence]).
  - unfold worker_start in He. by repeat case_match; simplify_eq.
  - unfold source_turn in He. by repeat case_match; simplify_eq.
  - by eapply target_turn_keeps.
  - unfold source_turn in He. by repeat case_match; simplify_eq.
  - case_match; [| done]. by eapply target_turn_keeps.
  - unfold worker_turn in He. by repeat case_match; simplify_eq.
  - unfold handover, worker_turn, then_ in He. by repeat case_match; simplify_eq.
  - unfold dispatch, then_ in He. repeat case_match; simplify_eq; cbn;
      by eapply target_turn_keeps.
  - unfold fall_back, then_ in He. repeat case_match; simplify_eq. cbn.
    destruct (decide (name = n)) as [-> |].
    + unfold target_turn in *. by repeat case_match; simplify_eq.
    + rewrite lookup_insert_ne by done. by eapply target_turn_keeps.
  - unfold broker_start in He. by repeat case_match; simplify_eq.
  - unfold broker_stop in He. by repeat case_match; simplify_eq.
Qed.

(** A target whose breached rule falls back to the target itself waits for
    itself for ever: no step of any goroutine changes it, its token is never
    given back, and the broker never stops its targets. *)
Theorem self_fallback_deadlock s s' n data q tgt w :
  reachable s -> tgts s !! n = Some (Sending ((n, data) :: q), tgt, w) -> rtc step s s' ->
  tgts s' !! n = Some (Sending ((n, data) :: q), tgt, w) /\
  main s' <> WaitTargets /\ main s' <> Done.
Proof.
  intros Hr Hn Hsteps. pose proof (reachable_steps _ _ Hr Hsteps) as Hr'.
  assert (tgts s' !! n = Some (Sending ((n, data) :: q), tgt, w)) as Hn'.
  { clear Hr Hr'. induction Hsteps as [s | s1 s2 s3 (a & _ & He) _ IH]; [done |].
    apply IH. by eapply exec_keeps_self. }
  split; [done |]. pose proof (reachable_inv _ Hr') as Hi.
  pose proof (target_holds _ _ _ _ _ Hi Hn') as Hhold. cbn [queue_tokens] in Hhold.
  assert (0 < len ((n, data) :: q)) by (unfold len; cbn [length]; lia).
  pose proof (inv_phase _ _ Hi) as Hp. unfold phase_ok in Hp.
  split; intros Hm; rewrite Hm in Hp; lia.
Qed.
(** ** Running the broker *)

(** A check of [admissible] that can be evaluated. *)
Definition item_ok (m : SourceMessage) : bool :=
  match SourceMessage_unrecognized m with
  | [] =>
      match Attributes_ m with
      | None => true
      | Some a =>
          (- 2 ^ 63 <=? Timestamp a) && (Timestamp a <? 2 ^ 63)
          && match Attributes_unrecognized a with [] => true | _ => false end
      end
  | _ => false
  end.

Definition admissible_b (a : action) (s : sys) : bool :=
  match a with
  | SourceEvent name (Received msg) =>
      match srcs s !! name, ProtobufToSource (Data msg) with
      | Some (_, src, _), (item, None) =>
          item_ok item
          && (len (ToProtobuf (SourceToBroker name (Source_Targets_ src) item)).1 <? pow64)
      | _, _ => true
      end
  | _ => true
  end.

Lemma admissible_b_sound a s : admissible_b a s = true -> admissible a s.
Proof.
  destruct a; try done. destruct event as [msg | |]; try done.
  cbn [admissible admissible_b]. intros Hb st src w Hk item Hd. rewrite Hk, Hd in Hb.
  apply andb_prop in Hb as [Hi Hl%Z.ltb_lt]. split; [| exact Hl].
  unfold item_ok in Hi. change (SourceMessage_wf item). unfold SourceMessage_wf, Attributes_wf.
  destruct (SourceMessage_unrecognized item); [| done]. split; [done |].
  destruct (Attributes_ item) as [at_ |]; [| done].
  destruct (Attributes_unrecognized at_); [| by rewrite andb_false_r in Hi].
  rewrite andb_true_r in Hi. apply andb_prop in Hi as [H1%Z.leb_le H2%Z.ltb_lt]. done.
Qed.

(** A schedule of the broker; [None] when a step is not enabled, not
    admissible, or panics. *)
Fixpoint run (actions : list action) (s : sys) : option sys :=
  match actions with
  | [] => Some s
  | a :: actions =>
      if admissible_b a s then
        match exec a s with
        | Some (Ret s') => run actions s'
        | _ => None
        end
      else None
  end.

Lemma run_steps actions s s' : run actions s = Some s' -> rtc step s s'.
Proof.
  revert s. induction actions as [| a actions IH]; intros s; cbn [run].
  { intros [= <-]. done. }
  destruct (admissible_b a s) eqn:Ha; [| done].
  destruct (exec a s) as [[s1 |] |] eqn:He; [| done..]. intros Hr.
  apply rtc_l with s1; [| by apply IH]. exists a. split; [by apply admissible_b_sound | done].
Qed.

Lemma run_reachable peers base b actions s :
  Broker_ConnectorManager b = NewConnectorManager (Broker_Monitor b) ->
  Broker_WorkerManager b = NewWorkerManager (Broker_Monitor b) ->
  run actions (Start peers base b) = Some s -> reachable s.
Proof. intros Hc Hw Hr. exists peers, base, b. split_and!; [done.. | by eapply run_steps]. Qed.
End Invariant.

(** ** Concrete runs *)
#[local] Existing Instance default_order.

(** One source, one target [a] with the given rules, one worker; the source
    sends to the given targets. *)
Definition demo_broker (targets : list string) (rs : list RateLimitRule) : Broker :=
  AddTarget "a" {| Target_ConnectionDetails := demo_details;
    Target_Config_ := {| Target_Provider := "stdout"; Target_Endpoint := "";
      AlertChannels := None; RateLimit_ := []; Target_Config := ∅ |};
    RateLimitRules := rs |}
  (AddSource "src" {| Source_ConnectionDetails := demo_details;
    Source_Config_ := {| Source_Provider := "dummy"; Source_Endpoint := "";
      Source_Targets := targets; Source_Config := ∅ |};
    Source_Targets_ := targets |} (NewBroker 1 (Some NewMonitor))).

Definition demo_peers (name : string) : peer :=
  {| peer_out := {| sent := []; broken := None |};
     peer_in := NewReader [Segment (frame demo_ok); Segment (frame demo_ok)];
     peer_address := String.length name |}.

Definition demo_start (targets : list string) (rs : list RateLimitRule) : sys :=
  Start demo_peers 10 (demo_broker targets rs).

Definition demo_send : list action :=
  [TargetStart "a" None; SourceStart "src" None; WorkerStart 0;
   SourceEvent "src" (Received (Build_Message CommandSourceMessage demo_bytes []));
   Handover "src" 0].

Definition demo_stop : list action :=
  [BrokerStop; StopSignalSource "src"; BrokerStart; StopSignalWorker 0; BrokerStart].

Definition demo_finish : list action :=
  [BrokerStart; StopSignalTarget "a"; BrokerStart].

(** The state a run ends in. *)
Definition ran (o : option sys) (s : sys) : sys := default s o.

Definition demo_run (targets : list string) (rs : list RateLimitRule) (l : list action) : sys :=
  ran (run l (demo_start targets rs)) (demo_start targets rs).

Lemma demo_reachable targets rs l : reachable (demo_run targets rs l).
Proof.
  unfold demo_run, ran. destruct (run l _) as [s |] eqn:E; cbn.
  - by apply (run_reachable demo_peers 10 (demo_broker targets rs) l).
  - by apply (run_reachable demo_peers 10 (demo_broker targets rs) []).
Qed.

(** A message is delivered and the broker shuts down. *)
Lemma shutdown_loses_nothing_witness :
  let s := demo_run ["a"] [] (demo_send ++ [Dispatch 0] ++ demo_stop ++ demo_finish) in
  main s = Done /\ accepted s = 1 /\ queued s = 0.
Proof.
  intros s. assert (main s = Done) as Hm by by vm_compute.
  split; [exact Hm |]. split; [by vm_compute |].
  exact (proj1 (shutdown_loses_nothing s (demo_reachable _ _ _) (or_intror Hm))).
Defined.

Lemma inflight_tokens_witness :
  let s := demo_run ["a"; "x"] [] demo_send in
  InFlightWaitGroup (cm s) = 2 /\ queued s = 1 /\ unknown s = 1.
Proof.
  intros s. destruct (inflight_tokens s (demo_reachable _ _ _)) as (Hin & _).
  assert (queued s = 1) as Hq by by vm_compute.
  assert (unknown s = 1) as Hu by by vm_compute.
  assert (zsum lost (fates s) = 0) as Hl by by vm_compute.
  rewrite Hin, Hq, Hu, Hl. exact (conj eq_refl (conj eq_refl eq_refl)).
Defined.

(** The source sends to a target that does not exist: the broker waits for
    ever after its workers are gone. *)
Lemma lost_token_blocks_shutdown_witness :
  let s := demo_run ["a"; "x"] [] (demo_send ++ [Dispatch 0] ++ demo_stop) in
  main s = WaitInFlight /\ queued s = 0 /\
  forall s', rtc step s s' -> main s' <> WaitTargets /\ main s' <> Done.
Proof.
  intros s. split; [by vm_compute |]. split; [by vm_compute |]. intros s' Hs.
  apply (lost_token_blocks_shutdown s s'); [apply demo_reachable | by vm_compute | exact Hs].
Defined.

(** The second [Broker.Stop] panics. *)
Lemma panics_only_for_cause_witness :
  let s := demo_run ["a"] [] [BrokerStop] in
  exec BrokerStop s = Some (Panic "close of closed channel") /\ SourceStop (cm s) = true.
Proof.
  intros s. assert (exec BrokerStop s = Some (Panic "close of closed channel")) as He
    by by vm_compute.
  split; [exact He |].
  exact (panics_only_for_cause s BrokerStop _ (demo_reachable _ _ _) I He).
Defined.

Definition demo_self : sys :=
  demo_run ["a"] [demo_rule 10 "fallback" "a"] (demo_send ++ [Dispatch 0] ++ demo_stop).

Lemma self_fallback_deadlock_witness :
  exists data q tgt w, tgts demo_self !! "a" = Some (Sending (("a", data) :: q), tgt, w) /\
  forall s', rtc step demo_self s' -> main s' <> Done.
Proof.
  assert (match tgts demo_self !! "a" with
          | Some (Sending ((t, _) :: _), _, _) => String.eqb t "a"
          | _ => false
          end = true) as Hs by by vm_compute.
  destruct (tgts demo_self !! "a") as [[[[| | [| [t data] q] |] tgt] w] |] eqn:E;
    try discriminate Hs. apply String.eqb_eq in Hs. subst t.
  exists data, q, tgt, w. split; [done |]. intros s' Hsteps.
  destruct (self_fallback_deadlock demo_self s' "a" data q tgt w (demo_reachable _ _ _) E
    Hsteps) as (_ & _ & Hd). exact Hd.
Defined.
