(* ===== verification/Delivery.v ===== *)
(** * What the broker promises: a specification of the delivery of messages

    An abstract shipper knows the copies of messages that wait for a target,
    the number of copies that nobody will ever settle, and how far its shutdown
    is.  It takes an item, settles one copy, or goes on with its shutdown.  The
    goroutines of the file [Broker] refine it: every step of theirs is one of
    its steps, or changes nothing that it can see. *)
From S2P Require Import Prelude Wire Message Bufio Protocol Limiter Monitoring Config.
From S2P Require Import Connector Worker Broker Shutdown.

#[local] Arguments ProtobufToBroker : simpl never.
#[local] Arguments ProtobufToSource : simpl never.
#[local] Arguments ToProtobuf : simpl never.
#[local] Arguments zsum : simpl never.

(** ** The abstract shipper *)

(** A copy of a message: the target it is for, and its bytes. *)
Notation copy := (string * list byte)%type.

Record delivery := {
  pending : list copy;
  missing : Z;
  stage : phase;
}.

(** The order in which copies wait does not matter. *)
#[export] Instance delivery_equiv : Equiv delivery := fun a b =>
  pending a ≡ₚ pending b /\ missing a = missing b /\ stage a = stage b.

#[export] Instance delivery_equivalence : Equivalence (≡@{delivery}).
Proof.
  split.
  - intros a. done.
  - intros a b (? & ? & ?). by split_and!.
  - intros a b c (H1 & ? & ?) (H2 & ? & ?). split_and!; [by rewrite H1 | congruence..].
Qed.

#[export] Instance Build_delivery_proper :
  Proper ((≡ₚ) ==> (=) ==> (=) ==> (≡)) Build_delivery.
Proof. intros p p' Hp m ? <- st ? <-. done. Qed.

(** What an observer sees of the shipper. *)
Inductive label :=
  | Accept (source : string) (targets : list string) (item : SourceMessage)
  | Settle (target : string) (data : list byte) (f : fate)
  | Advance (p : phase).

(** The copies of a message for the targets that exist. *)
Definition copies (known : gset string) (data : list byte) (targets : list string) : list copy :=
  (fun t => (t, data)) <$> filter (fun t => t ∈ known) targets.

Definition misaddressed (known : gset string) (targets : list string) : Z :=
  len (filter (fun t => t ∉ known) targets).

Definition next (p : phase) : phase :=
  match p with
  | WaitSources => WaitWorkers
  | WaitWorkers => WaitInFlight
  | WaitInFlight => WaitTargets
  | WaitTargets | Done => Done
  end.

Section Spec.
Context `{MapOrder}.
Variable known : gset string.

(** The fates a copy may meet at its target: what is written to the target's
    server is the copy's item under the name of the target, and a copy that is
    sent on carries the same item to one other target. *)
Definition legal (target : string) (data : list byte) (f : fate) : Prop :=
  match f with
  | Delivered raw =>
      exists l, ProtobufToBroker data = (l, None) /\
        ToProtobuf (BrokerToTarget target l) = (raw, None)
  | Resent target' data' =>
      target' ∈ known /\
      exists l, ProtobufToBroker data = (l, None) /\
        ToProtobuf (set_targets [target'] l) = (data', None)
  | Discarded | Stranded | Unencoded | Refused =>
      exists l, ProtobufToBroker data = (l, None)
  | Dead => True
  end.

Inductive spec_step : label -> delivery -> delivery -> Prop :=
  | spec_accept source targets item data a b :
      stage a = WaitSources -> wf item ->
      ToProtobuf (SourceToBroker source targets item) = (data, None) ->
      len data < pow64 ->
      b ≡ {| pending := copies known data targets ++ pending a;
             missing := missing a + misaddressed known targets;
             stage := stage a |} ->
      spec_step (Accept source targets item) a b
  | spec_settle target data f rest a b :
      pending a ≡ₚ (target, data) :: rest -> legal target data f ->
      b ≡ {| pending := resends f ++ rest; missing := missing a + lost f;
             stage := stage a |} ->
      spec_step (Settle target data f) a b
  | spec_advance a b :
      stage a <> Done -> (stage a = WaitInFlight -> pending a = [] /\ missing a = 0) ->
      b ≡ {| pending := pending a; missing := missing a; stage := next (stage a) |} ->
      spec_step (Advance (stage a)) a b.

Inductive spec_run : delivery -> list label -> delivery -> Prop :=
  | spec_nil a b : a ≡ b -> spec_run a [] b
  | spec_cons a x b tr c : spec_step x a b -> spec_run b tr c -> spec_run a (x :: tr) c.

#[export] Instance spec_step_proper :
  Proper ((=) ==> (≡) ==> (≡) ==> iff) spec_step.
Proof.
  assert (forall x a a' b b', a ≡ a' -> b ≡ b' -> spec_step x a b -> spec_step x a' b')
    as Hone.
  { intros x a a' b b' (Hp & Hm & Hs) Hb Hst. destruct Hst as
      [source targets item data a b Hstage Hwf He Hl E
      | target data f rest a b Hr Hf E | a b Hd Hw E]; rewrite Hb in E.
    - eapply spec_accept; [congruence | done.. |]. by rewrite E, Hm, Hs, Hp.
    - eapply spec_settle; [by rewrite <- Hp | done |]. by rewrite E, Hm, Hs.
    - rewrite Hs. apply spec_advance; [congruence | |].
      + intros Hs'. rewrite <- Hs in Hs'. destruct (Hw Hs') as [Hn Hz].
        rewrite Hn in Hp. apply Permutation_nil in Hp. split; [done | congruence].
      + by rewrite E, Hm, Hs, Hp. }
  intros x ? <- a a' Ha b b' Hb. split; apply Hone; done.
Qed.
End Spec.

(** ** Bags of what the entries of a map hold *)
Definition bag {K A B} `{Countable K} (f : A -> list B) (m : gmap K A) : list B :=
  map_to_list m ≫= (fun kx => f kx.2).

Lemma bag_replace {K A B} `{Countable K} (f : A -> list B) (m : gmap K A) k x :
  m !! k = Some x ->
  exists rest, bag f m ≡ₚ f x ++ rest /\ forall y, bag f (<[k := y]> m) ≡ₚ f y ++ rest.
Proof.
  intros Hk. exists (bag f (delete k m)). unfold bag. split.
  - by rewrite <- (map_to_list_delete m k x Hk).
  - intros y. rewrite <- insert_delete_eq.
    by rewrite (map_to_list_insert (delete k m) k y) by apply lookup_delete_eq.
Qed.

Lemma bag_nil {K A B} `{Countable K} (f : A -> list B) (m : gmap K A) :
  (forall k x, m !! k = Some x -> f x = []) -> bag f m = [].
Proof.
  intros Hf. unfold bag. assert (forall kx, kx ∈ map_to_list m -> f kx.2 = []) as Hl.
  { intros [k x] Hin%elem_of_map_to_list. by apply (Hf k). }
  induction (map_to_list m) as [| kx l IH]; [done |]. cbn.
  rewrite (Hl kx), IH; [done | | by left]. intros; apply Hl; by right.
Qed.

Lemma bag_same {K A B} `{Countable K} (f : A -> list B) (m : gmap K A) k x y :
  m !! k = Some x -> f y = f x -> bag f (<[k := y]> m) ≡ₚ bag f m.
Proof.
  intros Hk E. destruct (bag_replace f m k x Hk) as (rest & -> & Hr). by rewrite Hr, E.
Qed.

(** ** What the goroutines hold *)
Definition queue (st : status) : list copy :=
  match st with Sending q => q | _ => [] end.

Lemma queue_of_after q : queue (after q) = q.
Proof. by destruct q. Qed.

Lemma queue_len st : queue_tokens st = len (queue st).
Proof. by destruct st. Qed.

Definition source_copies (known : gset string) (x : status * Source * world) : list copy :=
  queue x.1.1 ≫= (fun e => copies known e.2 (Source_Targets_ x.1.2)).

Definition source_missing (known : gset string) (x : status * Source * world) : Z :=
  len (queue x.1.1) * misaddressed known (Source_Targets_ x.1.2).

(** The abstraction. *)
Definition view (known : gset string) (s : sys) : delivery :=
  {| pending := bag (source_copies known) (srcs s) ++ bag (fun x => queue x.1) (wrks s)
                ++ bag (fun x => queue x.1.1) (tgts s);
     missing := map_sum (source_missing known) (srcs s) + unknown s + zsum lost (fates s);
     stage := main s |}.

(** What a step lets an observer see. *)
Section Refinement.
Context `{MapOrder}.

Definition accepted_item (name : string) (targets : list string) (event : source_event)
    : option (SourceMessage * list byte) :=
  match event with
  | Received msg =>
      if String.eqb (Command msg) CommandSourceMessage then
        match ProtobufToSource (Data msg) with
        | (item, None) =>
            match ToProtobuf (SourceToBroker name targets item) with
            | (data, None) => Some (item, data)
            | (_, Some _) => None
            end
        | (_, Some _) => None
        end
      else None
  | _ => None
  end.

Definition settles (target : string) (data : list byte) (s : sys) : list label :=
  match tgts s !! target with
  | Some (Idle, _, w) => [Settle target data (target_fate target data (enter (cm s) w))]
  | _ => []
  end.

Definition observe (a : action) (s : sys) : list label :=
  match a with
  | SourceEvent name event =>
      match srcs s !! name with
      | Some (_, src, _) =>
          match accepted_item name (Source_Targets_ src) event with
          | Some (item, _) => [Accept name (Source_Targets_ src) item]
          | None => []
          end
      | None => []
      end
  | Dispatch i =>
      match wrks s !! i with
      | Some (Sending ((target, data) :: _), _) => settles target data s
      | _ => []
      end
  | FallBack name =>
      match tgts s !! name with
      | Some (Sending ((target, data) :: _), _, _) => settles target data s
      | _ => []
      end
  | BrokerStart => [Advance (main s)]
  | _ => []
  end.

(** A run with its observations. *)
Inductive traced : sys -> list label -> sys -> Prop :=
  | traced_nil s : traced s [] s
  | traced_cons a s s1 tr s2 :
      admissible a s -> exec a s = Some (Ret s1) -> traced s1 tr s2 ->
      traced s (observe a s ++ tr) s2.

(** ** What one iteration does to the view *)

(** A source sends exactly the message it accepts. *)
Lemma source_select_emits name targets event w continue w' :
  source_select name targets event w = Ret (continue, w') ->
  TargetConnectors (mgr w') = TargetConnectors (mgr w) /\
  match accepted_item name targets event with
  | Some (_, data) => continue = true /\ sends w' = sends w ++ [("", data)]
  | None => sends w' = sends w
  end.
Proof.
  destruct event as [msg | [e |] |]; cbn [source_select accepted_item].
  - unfold source_receive. destruct (String.eqb _ _); [| by intros [= <- <-]].
    destruct (ProtobufToSource (Data msg)) as [item [e |]].
    + unfold set_state, log_guarded, stat, mbind_, mmodify, mreturn. cbn.
      destruct (Monitor_ (mgr w)); by intros [= <- <-].
    + cbv zeta. destruct (ToProtobuf _) as [data [e |]].
      * unfold set_state, log_guarded, stat, mbind_, mmodify, mreturn. cbn.
        destruct (Monitor_ (mgr w)); by intros [= <- <-].
      * unfold on_mgr, AddMessage, wait_group_add, set_state, stat, mbind_, mmodify, mreturn.
        cbn. destruct (_ <? 0); [done |]. by intros [= <- <-].
  - unfold set_state, log_guarded, mbind_, mmodify, mreturn.
    destruct (decide _); [by intros [= <- <-] |]. cbn.
    destruct (Monitor_ (mgr w)); by intros [= <- <-].
  - by intros [= <- <-].
  - by intros [= <- <-].
Qed.

Lemma source_iteration_emits name targets event w continue w' :
  source_iteration name targets event w = Ret (continue, w') ->
  TargetConnectors (mgr w') = TargetConnectors (mgr w) /\
  match accepted_item name targets event with
  | Some (_, data) => continue = true /\ sends w' = sends w ++ [("", data)]
  | None => sends w' = sends w
  end.
Proof.
  unfold source_iteration, set_state. unfold mbind_ at 1, mmodify at 1. unfold mbind_ at 1.
  destruct (source_select _ _ _ _) as [[c w2] |] eqn:E; [| done].
  apply source_select_emits in E as [Ht Hs]. change (mgr (set_mon _ w)) with (mgr w) in Ht.
  change (sends (set_mon _ w)) with (sends w) in Hs.
  destruct c; [by intros [= <- <-] |].
  unfold deferred, on_mgr, source_done, wait_group_add, mbind_, mmodify, mreturn. cbn.
  destruct (_ <? 0); [done |]. intros [= <- <-]. cbn. split; [done |].
  destruct (accepted_item _ _ _) as [[]|]; [| done]. by destruct Hs.
Qed.

Record source_effect (name : string) (event : source_event) (s s' : sys) : Prop := {
  se_tgts : tgts s' = tgts s;
  se_wrks : wrks s' = wrks s;
  se_known : TargetConnectors (cm s') = TargetConnectors (cm s);
  se_unknown : unknown s' = unknown s;
  se_fates : fates s' = fates s;
  se_main : main s' = main s;
  se_turn : exists src w st w', srcs s !! name = Some (Idle, src, w) /\
    srcs s' = <[name := (st, src, w')]> (srcs s) /\
    queue st = match accepted_item name (Source_Targets_ src) event with
               | Some (_, data) => [("", data)]
               | None => []
               end;
}.

Lemma source_turn_effect name event s s' :
  source_turn name event s = Some (Ret s') -> source_effect name event s s'.
Proof.
  unfold source_turn. destruct (srcs s !! name) as [[[[] src] w] |] eqn:Hk; try done.
  destruct (source_iteration _ _ _ _) as [[continue w'] |] eqn:E; [| done]. intros [= <-].
  apply source_iteration_emits in E as [Ht Hs]. cbn in Ht, Hs.
  split; cbn; rewrite ?app_nil_r, ?Z.add_0_r; try done.
  eexists src, w, _, w'. split_and!; [done | reflexivity |].
  destruct (accepted_item _ _ _) as [[item data] |].
  - destruct Hs as [-> ->]. done.
  - rewrite Hs. by destruct continue.
Qed.

Record target_effect (name : string) (event : target_event) (s s' : sys) : Prop := {
  te_srcs : srcs s' = srcs s;
  te_wrks : wrks s' = wrks s;
  te_known : TargetConnectors (cm s') = TargetConnectors (cm s);
  te_stop : SourceStop (cm s') = SourceStop (cm s);
  te_unknown : unknown s' = unknown s;
  te_main : main s' = main s;
  te_turn : exists tgt w st w', tgts s !! name = Some (Idle, tgt, w) /\
    tgts s' = <[name := (st, tgt, w')]> (tgts s) /\
    fates s' = fates s ++ event_fates name event (enter (cm s) w) /\
    queue st = event_fates name event (enter (cm s) w) ≫= resends;
}.

Lemma target_turn_effect name event s s' :
  inv 0 s -> (arrives event = 0 \/ 0 < InFlightWaitGroup (cm s)) ->
  target_turn name event s = Some (Ret s') -> target_effect name event s s'.
Proof.
  intros Hi Hin. unfold target_turn.
  destruct (tgts s !! name) as [[[[] tgt] w] |] eqn:Hk; try done.
  pose proof (live_target _ _ _ _ _ Hi Hk eq_refl) as Htw.
  pose proof (target_iteration_spec name event (enter (cm s) w)) as Hspec.
  cbv zeta in Hspec. specialize (Hspec (inv_counted _ _ Hi) Htw).
  destruct (target_iteration _ _ _) as [[continue w'] |]; [| done]. intros [= <-].
  destruct Hspec as (Hm & Hq & Hd); [by destruct event, Hin |]. cbn in Hq.
  split; cbn; rewrite ?Z.add_0_r; try done;
    [by apply (mv_targets _ _ _ _ _ Hm) | by apply (mv_sstop _ _ _ _ _ Hm) |].
  eexists tgt, w, _, w'. split_and!; [done | reflexivity | done |].
  rewrite Hq. destruct continue; [apply queue_of_after | by rewrite Hd].
Qed.

Record worker_effect (i : nat) (s s' : sys) (q : list copy) (lost_copies : Z) : Prop := {
  we_srcs : srcs s' = srcs s;
  we_tgts : tgts s' = tgts s;
  we_cm : cm s' = cm s;
  we_unknown : unknown s' = unknown s + lost_copies;
  we_fates : fates s' = fates s;
  we_main : main s' = main s;
  we_turn : exists w st w', wrks s !! i = Some (Idle, w) /\
    wrks s' = <[i := (st, w')]> (wrks s) /\ queue st = q;
}.

Lemma worker_stop_effect i s s' :
  worker_turn i StopWorker s = Some (Ret s') -> worker_effect i s s' [] 0.
Proof.
  unfold worker_turn. destruct (wrks s !! i) as [[[] w] |] eqn:Hk; try done.
  destruct (worker_iteration _ _) as [[continue w'] |] eqn:E; [| done]. intros [= <-].
  split; cbn; rewrite ?app_nil_r; try done.
  assert (continue = false) as ->.
  { unfold worker_iteration, proc_state, mbind_, mmodify in E.
    by destruct (worker_done _); simplify_eq. }
  by eexists w, _, w'.
Qed.

Lemma worker_receive_effect i data l s s' :
  ProtobufToBroker data = (l, None) ->
  worker_turn i (Receive data) s = Some (Ret s') ->
  worker_effect i s s' (copies (TargetConnectors (cm s)) data (Broker_Targets l))
    (misaddressed (TargetConnectors (cm s)) (Broker_Targets l)).
Proof.
  intros Hl. unfold worker_turn. destruct (wrks s !! i) as [[[] w] |] eqn:Hk; try done.
  unfold worker_iteration, worker_receive. rewrite Hl.
  unfold proc_state, proc_stat, mbind_, mmodify.
  match goal with |- context [send_to_targets ?ts data ?w1] =>
    destruct (send_to_targets_spec ts data w1) as (w' & -> & Hs & _ & Hm & _) end.
  unfold mreturn. intros [= <-]. cbn in Hs, Hm.
  split; cbn; rewrite ?app_nil_r; try done.
  - unfold unknown_targets. by rewrite Hl.
  - eexists w, _, _. split_and!; [done | reflexivity |]. by rewrite queue_of_after.
Qed.

(** ** The refinement *)
Lemma target_fate_legal name data w :
  legal (TargetConnectors (mgr w)) name data (target_fate name data w).
Proof.
  unfold target_fate, legal. destruct (ProtobufToBroker data) as [l [e |]]; [done |].
  destruct (ToProtobuf (BrokerToTarget name l)) as [raw [e |]] eqn:Hr; [done |].
  destruct (List.find decides (rules w)) as [rule |].
  - unfold breach_fate. destruct (String.eqb _ _); [by exists l |].
    destruct (ToProtobuf (set_targets _ l)) as [d [e |]] eqn:Hd; [by exists l |].
    destruct (bool_decide _) eqn:Hb; [| by exists l].
    apply bool_decide_eq_true in Hb. split; [done |]. by exists l.
  - destruct (_.1.2); [done |]. destruct (_.1); by exists l.
Qed.

Lemma one_step known x a b : spec_step known x a b -> spec_run known a [x] b.
Proof. intros. by eapply spec_cons, spec_nil. Qed.

(** A step that the observer does not see. *)
Lemma silent known s s' :
  bag (source_copies known) (srcs s') ++ bag (fun x => queue x.1) (wrks s')
    ++ bag (fun x => queue x.1.1) (tgts s') ≡ₚ pending (view known s) ->
  map_sum (source_missing known) (srcs s') + unknown s' + zsum lost (fates s')
    = missing (view known s) ->
  main s' = main s ->
  spec_run known (view known s) [] (view known s').
Proof. intros Hp Hm Hs. apply spec_nil. split_and!; [by rewrite <- Hp | done | done]. Qed.

Lemma source_missing_0 known st src w : queue st = [] -> source_missing known (st, src, w) = 0.
Proof. unfold source_missing. cbn. by intros ->. Qed.

Lemma source_turn_simulates name event s s' :
  inv 0 s ->
  (forall st src w, srcs s !! name = Some (st, src, w) ->
   admissible_event name (Source_Targets_ src) event) ->
  source_turn name event s = Some (Ret s') ->
  spec_run (TargetConnectors (cm s)) (view (TargetConnectors (cm s)) s)
    (observe (SourceEvent name event) s) (view (TargetConnectors (cm s)) s').
Proof.
  intros Hi Ha He. apply source_turn_effect in He as [Ht Hw Hk Hu Hf Hm Hturn].
  destruct Hturn as (src & w & st & w' & Hname & Hs' & Hq).
  set (known := TargetConnectors (cm s)) in *.
  destruct (bag_replace (source_copies known) (srcs s) name _ Hname) as (rest & Hr & Hr').
  specialize (Hr' (st, src, w')). cbn [observe]. rewrite Hname.
  pose proof (map_sum_replace (source_missing known) (srcs s) name _ (st, src, w') Hname)
    as Hsum.
  rewrite (source_missing_0 known Idle src w eq_refl) in Hsum. cbn in Hr.
  specialize (Ha _ _ _ Hname).
  destruct (accepted_item name (Source_Targets_ src) event) as [[item data] |] eqn:Hacc.
  - apply one_step. unfold accepted_item in Hacc. destruct event as [msg | |]; try done.
    destruct (String.eqb _ _); [| done].
    destruct (ProtobufToSource (Data msg)) as [item' [|]] eqn:Hdec; [done |].
    destruct (ToProtobuf _) as [data' [|]] eqn:Henc; [done |].
    injection Hacc as -> ->. destruct (Ha item Hdec) as [Hwf Hlen]. rewrite Henc in Hlen.
    assert (source_copies known (st, src, w') = copies known data (Source_Targets_ src)
      /\ source_missing known (st, src, w') = misaddressed known (Source_Targets_ src))
      as [Hc Hmi].
    { unfold source_copies, source_missing. cbn. rewrite Hq. cbn. rewrite app_nil_r.
      split; [done |]. change (len [("", data)]) with 1. lia. }
    apply (spec_accept known name (Source_Targets_ src) item data); try done.
    + cbn. pose proof (inv_phase _ _ Hi) as Hp. unfold phase_ok in Hp.
      pose proof (live_source _ _ _ _ _ Hi Hname eq_refl). destruct (main s); lia || done.
    + unfold view. cbn. rewrite Hs', Hw, Ht, Hu, Hf, Hm, Hr', Hc, Hsum, Hmi, Hr.
      split_and!; cbn; [solve_Permutation | lia | done].
  - assert (source_copies known (st, src, w') = [] /\ source_missing known (st, src, w') = 0)
      as [Hc Hmi] by (unfold source_copies; split; [cbn; by rewrite Hq | by apply source_missing_0]).
    apply silent; cbn; [| rewrite Hs', Hu, Hf, Hsum, Hmi; lia | done].
    rewrite Hs', Hw, Ht, Hr', Hc, Hr. done.
Qed.

(** A turn of a target that receives nothing settles nothing. *)
Lemma idle_turn_simulates name event s s' :
  inv 0 s -> arrives event = 0 -> target_turn name event s = Some (Ret s') ->
  spec_run (TargetConnectors (cm s)) (view (TargetConnectors (cm s)) s) []
    (view (TargetConnectors (cm s)) s').
Proof.
  intros Hi Hev He.
  destruct (target_turn_effect _ _ _ _ Hi (or_introl Hev) He) as [Hs Hw _ _ Hu Hm Hturn].
  destruct Hturn as (tgt & w & st & w' & Hk & Ht & Hf & Hq).
  assert (event_fates name event (enter (cm s) w) = []) as Hno by by destruct event.
  rewrite Hno in *. cbn in Hq. rewrite app_nil_r in Hf.
  apply silent; cbn; rewrite ?Hs, ?Hw, ?Hu, ?Hf, ?Hm; try done.
  rewrite Ht, (bag_same _ _ _ _ (st, tgt, w') Hk) by (cbn; by rewrite Hq). done.
Qed.

(** A rendezvous at a target settles the copy that the sender offers. *)
Lemma settle_simulates target data s s1 b rest :
  let known := TargetConnectors (cm s) in
  inv 0 s -> 0 < InFlightWaitGroup (cm s) ->
  target_turn target (Inbound data) s = Some (Ret s1) ->
  pending (view known s) ≡ₚ (target, data) :: rest ->
  (forall f tgt w st w', tgts s !! target = Some (Idle, tgt, w) ->
   tgts s1 = <[target := (st, tgt, w')]> (tgts s) -> queue st = resends f ->
   pending b ≡ₚ resends f ++ rest) ->
  missing b = map_sum (source_missing known) (srcs s) + unknown s1 + zsum lost (fates s1) ->
  stage b = main s ->
  spec_run known (view known s) (settles target data s) b.
Proof.
  intros known Hi Hin He Hp Hb Hm Hs.
  destruct (target_turn_effect _ _ _ _ Hi (or_intror Hin) He) as [_ _ _ _ Hu _ Hturn].
  destruct Hturn as (tgt & w & st & w' & Hk & Ht & Hf & Hq).
  set (f := target_fate target data (enter (cm s) w)).
  cbn [event_fates] in Hf, Hq. fold f in Hf, Hq.
  change ([f] ≫= resends) with (resends f ++ []) in Hq. rewrite app_nil_r in Hq.
  unfold settles. rewrite Hk. fold f. apply one_step.
  eapply (spec_settle _ target data f rest); [done | |].
  - apply (target_fate_legal target data (enter (cm s) w)).
  - split_and!; cbn; [by eapply Hb | | done].
    rewrite Hm, Hu, Hf, zsum_app. unfold zsum at 2. cbn. lia.
Qed.

Lemma dispatch_simulates i s s' :
  inv 0 s -> exec (Dispatch i) s = Some (Ret s') ->
  spec_run (TargetConnectors (cm s)) (view (TargetConnectors (cm s)) s)
    (observe (Dispatch i) s) (view (TargetConnectors (cm s)) s').
Proof.
  intros Hi He. cbn [exec observe] in *. unfold dispatch in He.
  destruct (wrks s !! i) as [[[| | [| [target data] q] |] w] |] eqn:Hk; try done.
  pose proof (worker_holds _ _ _ _ Hi Hk) as Hin. cbn [queue_tokens] in Hin.
  rewrite len_cons in Hin. pose proof (len_nonneg q).
  assert (0 < InFlightWaitGroup (cm s)) as Hpos by lia.
  destruct (target_turn target (Inbound data) s) as [[s1 |] |] eqn:Ht; try done.
  injection He as <-.
  destruct (target_turn_effect _ _ _ _ Hi (or_intror Hpos) Ht) as [Hs Hw _ _ _ Hm _].
  destruct (bag_replace (fun x : status * Worker => queue x.1) (wrks s) i _ Hk)
    as (rest & Hr & Hr'). specialize (Hr' (after q, w)). cbn in Hr, Hr'.
  rewrite queue_of_after in Hr'.
  eapply (settle_simulates target data s s1 _
    (bag (source_copies (TargetConnectors (cm s))) (srcs s) ++ q ++ rest
     ++ bag (fun x => queue x.1.1) (tgts s))); try done; cbn.
  - rewrite Hr. solve_Permutation.
  - intros f tgt wt st wt' Hkt Htt Hq. rewrite Hs, Hw, Htt, Hr'.
    destruct (bag_replace (fun x : status * Target * world => queue x.1.1) (tgts s) target _ Hkt)
      as (restt & -> & Hrt). rewrite Hrt. cbn. rewrite Hq. solve_Permutation.
  - by rewrite Hs.
Qed.

Lemma fall_back_simulates name s s' :
  inv 0 s -> exec (FallBack name) s = Some (Ret s') ->
  spec_run (TargetConnectors (cm s)) (view (TargetConnectors (cm s)) s)
    (observe (FallBack name) s) (view (TargetConnectors (cm s)) s').
Proof.
  intros Hi He. cbn [exec observe] in *. unfold fall_back in He.
  destruct (tgts s !! name) as [[[[| | [| [target data] q] |] tg] w] |] eqn:Hk; try done.
  pose proof (target_holds _ _ _ _ _ Hi Hk) as Hin. cbn [queue_tokens] in Hin.
  rewrite len_cons in Hin. pose proof (len_nonneg q).
  assert (0 < InFlightWaitGroup (cm s)) as Hpos by lia.
  destruct (target_turn target (Inbound data) s) as [[s1 |] |] eqn:Ht; try done.
  injection He as <-.
  destruct (target_turn_effect _ _ _ _ Hi (or_intror Hpos) Ht) as [Hs Hw _ _ _ Hm _].
  set (f1 := fun x : status * Target * world => queue x.1.1).
  destruct (bag_replace f1 (tgts s) name _ Hk) as (rest & Hr & _).
  change (f1 (Sending ((target, data) :: q), tg, w)) with ((target, data) :: q) in Hr.
  eapply (settle_simulates target data s s1 _
    (bag (source_copies (TargetConnectors (cm s))) (srcs s)
     ++ bag (fun x => queue x.1) (wrks s) ++ q ++ rest)); try done; cbn; fold f1.
  - rewrite Hr. solve_Permutation.
  - intros f tgt wt st wt' Hkt Htt Hq. rewrite Hs, Hw, Htt.
    assert (name <> target) by (intros ->; congruence).
    destruct (bag_replace f1 (tgts s) target _ Hkt) as (restt & Hrt & Hrt').
    specialize (Hrt' (st, tgt, wt')).
    change (f1 (st, tgt, wt')) with (queue st) in Hrt'. rewrite Hq in Hrt'.
    change (f1 (Idle, tgt, wt)) with (@nil copy) in Hrt.
    destruct (bag_replace f1 (<[target := (st, tgt, wt')]> (tgts s)) name
      (Sending ((target, data) :: q), tg, w)) as (rest2 & Hr2 & Hr2');
      [by rewrite lookup_insert_ne |].
    change (f1 (Sending ((target, data) :: q), tg, w)) with ((target, data) :: q) in *.
    rewrite Hr2'. change (f1 (after q, tg, w)) with (queue (after q)).
    rewrite queue_of_after.
    assert (rest2 ≡ₚ resends f ++ rest) as ->; [| solve_Permutation].
    apply (Permutation_app_inv_l ((target, data) :: q)).
    rewrite <- Hr2, Hrt'. cbn in Hrt. rewrite <- Hrt, Hr. solve_Permutation.
  - by rewrite Hs.
Qed.

(** A worker that takes a message from a source holds what the source held. *)
Lemma handover_simulates name i s s' :
  inv 0 s -> exec (Handover name i) s = Some (Ret s') ->
  spec_run (TargetConnectors (cm s)) (view (TargetConnectors (cm s)) s) []
    (view (TargetConnectors (cm s)) s').
Proof.
  intros Hi He. cbn [exec] in He. unfold handover in He.
  destruct (srcs s !! name) as [[[st src] w] |] eqn:Hk; [| done].
  destruct st as [| | [| [x data] q] |]; try done.
  destruct (inv_carries _ _ Hi _ _ Hk) as (data' & l & Hq & Hl & Hts).
  injection Hq as -> -> ->.
  destruct (worker_turn i (Receive data') s) as [[s1 |] |] eqn:Ht; try done.
  injection He as <-. cbn [after].
  destruct (worker_receive_effect _ _ _ _ _ Hl Ht) as [Hs Htg Hc Hu Hf Hm Hturn].
  destruct Hturn as (ww & st & ww' & Hkw & Hw & Hq). rewrite Hts in *.
  set (known := TargetConnectors (cm s)) in *.
  destruct (bag_replace (source_copies known) (srcs s) name _ Hk) as (rest & Hr & Hr').
  destruct (bag_replace (fun x : status * Worker => queue x.1) (wrks s) i _ Hkw)
    as (restw & Hrw & Hrw').
  specialize (Hr' (Idle, src, w)). specialize (Hrw' (st, ww')).
  pose proof (map_sum_replace (source_missing known) (srcs s) name _ (Idle, src, w) Hk) as Hsum.
  apply silent; cbn; rewrite ?Hs, ?Hw, ?Htg, ?Hf, ?Hu; [| | done].
  - rewrite Hr', Hrw', Hr, Hrw. unfold source_copies. cbn. rewrite app_nil_r, Hq.
    solve_Permutation.
  - rewrite Hsum, (source_missing_0 known Idle src w eq_refl). unfold source_missing.
    cbn [fst snd queue]. change (len [("", data')]) with 1. lia.
Qed.

Lemma source_start_simulates name dial s s' :
  source_start name dial s = Some (Ret s') ->
  spec_run (TargetConnectors (cm s)) (view (TargetConnectors (cm s)) s) []
    (view (TargetConnectors (cm s)) s').
Proof.
  unfold source_start. destruct (srcs s !! name) as [[[[] src] w] |] eqn:Hk; try done.
  destruct (source_handle _ _ _ _ _) as [[[] w'] |]; [| done]. intros [= <-].
  set (st := match dial with Some _ => Exited | None => _ end).
  assert (queue st = []) as Hq by (subst st; destruct dial; [done |]; by destruct (_.1)).
  set (known := TargetConnectors (cm s)).
  assert (source_copies known (st, src, w') = source_copies known (NotStarted, src, w)) as Hc
    by (unfold source_copies; cbn; by rewrite Hq).
  pose proof (map_sum_replace (source_missing known) (srcs s) name _ (st, src, w') Hk) as Hsum.
  rewrite !source_missing_0 in Hsum by done.
  apply silent; cbn; [by rewrite (bag_same _ _ _ _ _ Hk Hc) | lia | done].
Qed.

Lemma target_start_simulates name dial s s' :
  target_start name dial s = Some (Ret s') ->
  spec_run (TargetConnectors (cm s)) (view (TargetConnectors (cm s)) s) []
    (view (TargetConnectors (cm s)) s').
Proof.
  unfold target_start. destruct (tgts s !! name) as [[[[] tgt] w] |] eqn:Hk; try done.
  destruct (target_handle _ _ _ _ _) as [[[] w'] |]; [| done]. intros [= <-].
  apply silent; cbn; [| done..].
  rewrite (bag_same _ _ _ _ (match dial with Some _ => Exited | None => Idle end, tgt, w') Hk);
    [done | by destruct dial].
Qed.

Lemma worker_start_simulates i s s' :
  worker_start i s = Some (Ret s') ->
  spec_run (TargetConnectors (cm s)) (view (TargetConnectors (cm s)) s) []
    (view (TargetConnectors (cm s)) s').
Proof.
  unfold worker_start. destruct (wrks s !! i) as [[[] w] |] eqn:Hk; try done. intros [= <-].
  apply silent; cbn; [| done..]. by rewrite (bag_same _ _ _ _ (Idle, w) Hk).
Qed.

Lemma worker_stop_simulates i s s' :
  worker_turn i StopWorker s = Some (Ret s') ->
  spec_run (TargetConnectors (cm s)) (view (TargetConnectors (cm s)) s) []
    (view (TargetConnectors (cm s)) s').
Proof.
  intros He. apply worker_stop_effect in He as [Hs Ht Hc Hu Hf Hm Hturn].
  destruct Hturn as (w & st & w' & Hk & Hw & Hq).
  apply silent; cbn; rewrite ?Hs, ?Ht, ?Hu, ?Hf, ?Z.add_0_r; try done.
  rewrite Hw. by rewrite (bag_same _ _ _ _ (st, w') Hk).
Qed.

(** When nothing is in flight, nothing waits and nothing is missing. *)
Lemma misaddressed_le known ts : 0 <= misaddressed known ts <= len ts.
Proof.
  unfold misaddressed, len. split; [lia |]. apply inj_le, length_filter.
Qed.

Lemma drained known s :
  inv 0 s -> InFlightWaitGroup (cm s) = 0 ->
  pending (view known s) = [] /\ missing (view known s) = 0.
Proof.
  intros Hi Hzero. pose proof (queued_parts s) as (P1 & P2 & P3 & P4).
  pose proof (inv_unknown _ _ Hi). pose proof (inv_in _ _ Hi) as Hin. unfold queued in Hin.
  assert (forall k x, srcs s !! k = Some x -> source_copies known x = [] /\
    source_missing known x = 0) as Hsrc.
  { intros k [[st src] w] Hk.
    assert (source_tokens (st, src, w) = 0) as E
      by (apply (map_sum_zero source_tokens (srcs s) k);
          [apply source_tokens_nonneg | lia | exact Hk]).
    pose proof (inv_carries _ _ Hi _ _ Hk) as Hc. cbn in Hc.
    destruct st as [| | q |]; try done. destruct Hc as (data & l & -> & _ & _).
    change (1 * len (Source_Targets_ src) = 0) in E.
    assert (Source_Targets_ src = []) as Hnil.
    { unfold len in E. apply nil_length_inv. lia. }
    unfold source_copies, source_missing. cbn. by rewrite Hnil. }
  assert (forall st, queue_tokens st = 0 -> queue st = []) as Hq.
  { intros st. rewrite queue_len. unfold len. intros E. apply nil_length_inv. lia. }
  cbn. rewrite !bag_nil, map_sum_all0.
  - split; [done | lia].
  - intros k x Hk. by apply (Hsrc k).
  - intros k x Hk. apply Hq. apply (map_sum_zero target_tokens (tgts s) k x);
      [intros; apply queue_tokens_nonneg | lia | done].
  - intros k x Hk. apply Hq. apply (map_sum_zero worker_tokens (wrks s) k x);
      [intros; apply queue_tokens_nonneg | lia | done].
  - intros k x Hk. by apply (Hsrc k).
Qed.

Lemma broker_start_simulates s s' :
  inv 0 s -> broker_start s = Some (Ret s') ->
  spec_run (TargetConnectors (cm s)) (view (TargetConnectors (cm s)) s)
    (observe BrokerStart s) (view (TargetConnectors (cm s)) s').
Proof.
  intros Hi He. cbn [observe]. apply one_step.
  assert (main s <> Done /\ (main s = WaitInFlight -> InFlightWaitGroup (cm s) = 0) /\
    exists m w, s' = set_main m w (next (main s)) s) as (Hd & Hz & m & w & ->).
  { unfold broker_start in He. destruct (main s) eqn:Hm; [| | | | done];
      (split_and!; [done | |]); intros; try done; repeat case_match; simplify_eq;
      try (by eexists _, _). by apply Z.eqb_eq. }
  apply (spec_advance _ (view (TargetConnectors (cm s)) s)); [done | | done].
  intros Hs. apply drained; [done | by apply Hz].
Qed.

(** The targets that exist never change. *)
Lemma exec_known a s s' :
  inv 0 s -> exec a s = Some (Ret s') -> TargetConnectors (cm s') = TargetConnectors (cm s).
Proof.
  intros Hi He. pose proof (inv_counted _ _ Hi) as Hc. destruct a; cbn [exec] in He.
  - unfold source_start in He.
    destruct (srcs s !! name) as [[[[] src] w] |] eqn:Hk; try done.
    pose proof (live_source _ _ _ _ _ Hi Hk eq_refl) as Hw.
    destruct (source_handle_spec name src dial (enter (cm s) w) Hc Hw) as (w' & E & Hm).
    rewrite E in He. injection He as <-. apply (mv_targets _ _ _ _ _ Hm).
  - unfold target_start in He.
    destruct (tgts s !! name) as [[[[] tgt] w] |] eqn:Hk; try done.
    pose proof (live_target _ _ _ _ _ Hi Hk eq_refl) as Hw.
    pose proof (target_handle_spec name tgt dial (enter (cm s) w) Hc Hw) as Hm.
    destruct (target_handle _ _ _ _ _) as [[[] w'] |]; [| done]. injection He as <-.
    apply (mv_targets _ _ _ _ _ Hm).
  - unfold worker_start in He. by repeat case_match; simplify_eq.
  - assert (source_turn name event s = Some (Ret s')) as Ht by by destruct event.
    apply (source_turn_effect _ _ _ _ Ht).
  - by apply (target_turn_effect _ _ _ _ Hi (or_introl (eq_refl : arrives (Ticker i curTime
      ttlTime now order) = 0)) He).
  - case_match; [| done]. by apply (source_turn_effect _ _ _ _ He).
  - case_match; [| done].
    by apply (target_turn_effect _ _ _ _ Hi (or_introl (eq_refl : arrives StopTarget = 0)) He).
  - case_match; [| done]. apply worker_stop_effect in He. by rewrite (we_cm _ _ _ _ _ He).
  - unfold handover in He.
    destruct (srcs s !! name) as [[[st src] w] |] eqn:Hk; [| done].
    destruct st as [| | [| [x data] q] |]; try done.
    destruct (inv_carries _ _ Hi _ _ Hk) as (data' & l & Hq & Hl & _). injection Hq as -> -> ->.
    destruct (worker_turn i (Receive data') s) as [[s1 |] |] eqn:Ht; try done.
    injection He as <-. apply worker_receive_effect with (l := l) in Ht; [| done].
    cbn. by rewrite (we_cm _ _ _ _ _ Ht).
  - unfold dispatch in He.
    destruct (wrks s !! i) as [[[| | [| [target data] q] |] w] |] eqn:Hk; try done.
    pose proof (worker_holds _ _ _ _ Hi Hk) as Hin. cbn [queue_tokens] in Hin.
    rewrite len_cons in Hin. pose proof (len_nonneg q).
    destruct (target_turn target (Inbound data) s) as [[s1 |] |] eqn:Ht; try done.
    injection He as <-. cbn.
    apply (target_turn_effect target (Inbound data) s s1 Hi); [right; lia | done].
  - unfold fall_back in He.
    destruct (tgts s !! name) as [[[[| | [| [target data] q] |] tg] w] |] eqn:Hk; try done.
    pose proof (target_holds _ _ _ _ _ Hi Hk) as Hin. cbn [queue_tokens] in Hin.
    rewrite len_cons in Hin. pose proof (len_nonneg q).
    destruct (target_turn target (Inbound data) s) as [[s1 |] |] eqn:Ht; try done.
    injection He as <-. cbn.
    apply (target_turn_effect target (Inbound data) s s1 Hi); [right; lia | done].
  - unfold broker_start, StopTargets in He. by repeat case_match; simplify_eq.
  - unfold broker_stop, StopSources in He. by repeat case_match; simplify_eq.
Qed.

(** Every step of the goroutines is a step of the abstract shipper, or one that
    changes nothing it can see. *)
Lemma exec_simulates known a s s' :
  inv 0 s -> TargetConnectors (cm s) = known -> admissible a s ->
  exec a s = Some (Ret s') ->
  spec_run known (view known s) (observe a s) (view known s').
Proof.
  intros Hi <- Ha He. destruct a; cbn [exec] in He.
  - by apply (source_start_simulates name dial).
  - by apply (target_start_simulates name dial).
  - by apply (worker_start_simulates i).
  - assert (source_turn name event s = Some (Ret s')) as Ht by by destruct event.
    by apply source_turn_simulates.
  - by apply (idle_turn_simulates name (Ticker i curTime ttlTime now order)).
  - case_match; [| done].
    pose proof (source_turn_simulates name StopSource s s' Hi (fun _ _ _ _ => I) He) as Hs.
    cbn [observe accepted_item] in *. by repeat case_match.
  - case_match; [| done]. by apply (idle_turn_simulates name StopTarget).
  - case_match; [| done]. by apply (worker_stop_simulates i).
  - by apply (handover_simulates name i).
  - by apply dispatch_simulates.
  - by apply fall_back_simulates.
  - by apply broker_start_simulates.
  - unfold broker_stop, StopSources in He. repeat case_match; simplify_eq. by apply spec_nil.
Qed.

Lemma spec_run_app known a tr1 b tr2 c :
  spec_run known a tr1 b -> spec_run known b tr2 c -> spec_run known a (tr1 ++ tr2) c.
Proof.
  induction 1 as [a b Hab | a x b tr b' Hx _ IH]; cbn; intros H2; [| by econstructor; eauto].
  destruct H2 as [b c Hbc | b x d tr c Hx Hd]; [apply spec_nil; by etrans |].
  apply spec_cons with d; [by rewrite Hab | done].
Qed.

Lemma traced_simulates known s tr s' :
  inv 0 s -> TargetConnectors (cm s) = known -> traced s tr s' ->
  spec_run known (view known s) tr (view known s') /\ inv 0 s' /\
  TargetConnectors (cm s') = known.
Proof.
  intros Hi Hk Ht. revert Hi Hk. induction Ht as [s | a s s1 tr s2 Ha He _ IH]; intros Hi Hk.
  { split_and!; [by apply spec_nil | done | done]. }
  pose proof (exec_inv a s Hi Ha) as Hi1. rewrite He in Hi1.
  destruct IH as (Hr & Hi2 & Hk2); [done | by rewrite (exec_known a s s1 Hi He) |].
  split_and!; [| done | done]. eapply spec_run_app; [| exact Hr].
  by apply exec_simulates.
Qed.

(** The shipper before it starts. *)
Definition delivery_init : delivery :=
  {| pending := []; missing := 0; stage := WaitSources |}.

Lemma view_start peers base b :
  Broker_ConnectorManager b = NewConnectorManager (Broker_Monitor b) ->
  Broker_WorkerManager b = NewWorkerManager (Broker_Monitor b) ->
  let s := Start peers base b in
  TargetConnectors (cm s) = dom (Targets b) /\ view (dom (Targets b)) s ≡ delivery_init.
Proof.
  intros Hc Hw s. pose proof (start_inv peers base b Hc Hw) as Hi. fold s in Hi.
  destruct (start_groups (Sources b) (Targets b) (NewConnectorManager (Broker_Monitor b)))
    as (_ & _ & Hin & _ & _ & _ & _ & Ht). rewrite <- Hc in Hin, Ht.
  assert (cm s = ConnectorManager_Start (Sources b) (Targets b) (Broker_ConnectorManager b)
    /\ main s = WaitSources) as [Hcm Hm].
  { subst s. unfold Start. by destruct (WorkerManager_Start _ _ _). }
  rewrite <- Hcm in Hin, Ht. rewrite Hc in Hin, Ht. cbn in Hin, Ht.
  split; [rewrite Ht; set_solver |].
  destruct (drained (dom (Targets b)) s Hi Hin) as [Hp Hmi]. split_and!; [by rewrite Hp | done..].
Qed.

(** C5. The broker refines the abstract shipper: whatever the goroutines do, from
    the start of the broker on, what they let an observer see is a run of the
    specification.  Items are accepted before the shutdown only, a copy is
    settled once, at the target it waits for and by a legal fate, and the
    targets are stopped only when no copy waits and none is missing. *)
Theorem broker_refines_delivery peers base b tr s :
  Broker_ConnectorManager b = NewConnectorManager (Broker_Monitor b) ->
  Broker_WorkerManager b = NewWorkerManager (Broker_Monitor b) ->
  traced (Start peers base b) tr s ->
  spec_run (dom (Targets b)) delivery_init tr (view (dom (Targets b)) s).
Proof.
  intros Hc Hw Ht. destruct (view_start peers base b Hc Hw) as [Hk Hv].
  destruct (traced_simulates _ _ _ _ (start_inv peers base b Hc Hw) Hk Ht) as [Hr _].
  exact (spec_run_app _ _ [] _ _ _ (spec_nil _ _ _ (symmetry Hv)) Hr).
Qed.
End Refinement.

(** ** What the specification gives *)

#[export] Instance byte_eq_dec : EqDecision Byte.byte := Byte.byte_eq_dec.
#[export] Instance Attributes_eq_dec : EqDecision Attributes.
Proof. solve_decision. Defined.
#[export] Instance SourceMessage_eq_dec : EqDecision SourceMessage.
Proof. solve_decision. Defined.

Lemma zsum_cons {A} (f : A -> Z) a l : zsum f (a :: l) = f a + zsum f l.
Proof. done. Qed.

#[export] Instance zsum_perm {A} (f : A -> Z) : Proper ((≡ₚ) ==> (=)) (zsum f).
Proof. induction 1; rewrite ?zsum_cons; lia. Qed.

Section Conservation.
Context `{MapOrder}.
Variable known : gset string.

(** The content of a message: the source's name and its item. *)
Notation content := (string * option SourceMessage)%type.

Definition content_of (data : list byte) : content :=
  let l := (ProtobufToBroker data).1 in (Broker_Source l, Broker_SourceMessage l).

(** How many copies of a content a label adds, how many it settles for good,
    and how many of the copies that wait have it. *)
Definition accepts (k : content) (x : label) : Z :=
  match x with
  | Accept source targets item =>
      if decide ((source, Some item) = k) then len targets - misaddressed known targets else 0
  | _ => 0
  end.

Definition ends (k : content) (x : label) : Z :=
  match x with
  | Settle _ data f => if decide (content_of data = k) then 1 - len (resends f) else 0
  | _ => 0
  end.

Definition holds (k : content) (c : copy) : Z :=
  if decide (content_of c.2 = k) then 1 else 0.

(** A resent message has less than 2^64 bytes. *)
Definition short (x : label) : Prop :=
  match x with Settle _ _ (Resent _ d) => len d < pow64 | _ => True end.

(** The copy comes from an item that was accepted. *)
Definition originates (tr : list label) (data : list byte) : Prop :=
  exists source targets item l, Accept source targets item ∈ tr /\
    ProtobufToBroker data = (l, None) /\ wf l /\
    Broker_Source l = source /\ Broker_SourceMessage l = Some item.

(** What was delivered was accepted. *)
Definition genuine (tr : list label) (x : label) : Prop :=
  match x with
  | Settle target _ (Delivered raw) =>
      exists source targets item, Accept source targets item ∈ tr /\
        ToProtobuf (BrokerToTarget target (SourceToBroker source targets item)) = (raw, None)
  | _ => True
  end.

Record sound (tr : list label) (d : delivery) : Prop := {
  sound_pending : forall c, c ∈ pending d -> originates tr c.2;
  sound_count : forall k,
    zsum (accepts k) tr = zsum (ends k) tr + zsum (holds k) (pending d);
  sound_delivered : forall x, x ∈ tr -> genuine tr x;
}.

#[export] Instance sound_proper tr : Proper ((≡) ==> impl) (sound tr).
Proof.
  intros a b (Hp & _ & _) [H1 H2 H3]. split; [| | done].
  - intros c Hc. apply H1. by rewrite Hp.
  - intros k. by rewrite <- Hp.
Qed.

Lemma originates_more tr x data : originates tr data -> originates (tr ++ [x]) data.
Proof.
  intros (source & targets & item & l & Hin & Hrest). exists source, targets, item, l.
  split; [set_solver | done].
Qed.

Lemma genuine_more tr x y : genuine tr x -> genuine (tr ++ [y]) x.
Proof.
  destruct x as [| target data f |]; try done. destruct f; try done.
  intros (source & targets & item & Hin & Ht). exists source, targets, item.
  split; [set_solver | done].
Qed.

Lemma sound_trace tr x :
  (forall y, y ∈ tr -> genuine tr y) -> genuine (tr ++ [x]) x ->
  forall y, y ∈ tr ++ [x] -> genuine (tr ++ [x]) y.
Proof.
  intros Hall Hx y [Hy | ->%list_elem_of_singleton]%elem_of_app; [| done].
  by apply genuine_more, Hall.
Qed.

(** The bytes that a source sends have its content. *)
Lemma accepted_decodes source targets item data :
  wf item -> ToProtobuf (SourceToBroker source targets item) = (data, None) ->
  len data < pow64 ->
  ProtobufToBroker data = (SourceToBroker source targets item, None) /\
  wf (SourceToBroker source targets item).
Proof.
  intros Hwf He Hl. assert (wf (SourceToBroker source targets item)) as Hw by by split.
  split; [by apply Unmarshal_Marshal | done].
Qed.

Lemma holds_copies k data targets :
  zsum (holds k) (copies known data targets)
  = if decide (content_of data = k) then len targets - misaddressed known targets else 0.
Proof.
  unfold copies, misaddressed. induction targets as [| t ts IH].
  { by destruct (decide _). }
  rewrite !filter_cons, len_cons. destruct (decide (t ∈ known)) as [Hin | Hout].
  - rewrite (decide_False (P := t ∉ known)) by tauto. rewrite fmap_cons, zsum_cons, IH.
    unfold holds. cbn [snd].
    destruct (decide (content_of data = k)); lia.
  - rewrite (decide_True (P := t ∉ known)) by done. rewrite len_cons, IH.
    destruct (decide (content_of data = k)); lia.
Qed.

Lemma zsum_snoc {A} (f : A -> Z) l a : zsum f (l ++ [a]) = zsum f l + f a.
Proof. rewrite zsum_app. unfold zsum at 2. cbn. lia. Qed.

(** A copy keeps its content when it is sent on. *)
Lemma resent_content tr data target f :
  originates tr data -> legal known target data f -> (forall x d, f = Resent x d -> len d < pow64) ->
  forall c, c ∈ resends f -> originates tr c.2 /\ content_of c.2 = content_of data.
Proof.
  intros (source & targets & item & l & Hin & Hl & Hwf & Hs & Hi) Hf Hshort c Hc.
  destruct f as [| | x d | | | |]; try by apply not_elem_of_nil in Hc.
  apply list_elem_of_singleton in Hc as ->. cbn.
  destruct Hf as (_ & l' & Hl' & He). rewrite Hl in Hl'. injection Hl' as <-.
  assert (wf (set_targets [x] l)) as Hwf' by exact Hwf.
  assert (ProtobufToBroker d = (set_targets [x] l, None)) as Hd
    by (apply Unmarshal_Marshal; [exact Hwf' | exact He | by eapply Hshort]).
  split.
  - exists source, targets, item, (set_targets [x] l). done.
  - unfold content_of. by rewrite Hd, Hl.
Qed.

Lemma delivered_genuine tr target data raw :
  originates tr data -> legal known target data (Delivered raw) ->
  genuine tr (Settle target data (Delivered raw)).
Proof.
  intros (source & targets & item & l & Hin & Hl & _ & Hs & Hi) (l' & Hl' & He).
  rewrite Hl in Hl'. injection Hl' as <-. exists source, targets, item. split; [done |].
  rewrite <- He. unfold BrokerToTarget. cbn. by rewrite Hs, Hi.
Qed.

Lemma holds_resends k data f :
  (forall c, c ∈ resends f -> content_of c.2 = content_of data) ->
  zsum (holds k) (resends f) = (if decide (content_of data = k) then len (resends f) else 0).
Proof.
  intros Hc. destruct f as [| | x d | | | |]; try by destruct (decide _).
  cbn [resends] in *. rewrite zsum_cons. unfold holds.
  rewrite (Hc (x, d)) by by left. by destruct (decide _).
Qed.

Lemma sound_step tr x a b :
  sound tr a -> spec_step known x a b -> short x -> sound (tr ++ [x]) b.
Proof.
  intros [Hp Hc Hg] Hst Hshort. destruct Hst as
    [source targets item data a b _ Hwf He Hl E | target data f rest a b Hr Hf E | a b Hd _ E];
    rewrite E; clear E b.
  - destruct (accepted_decodes source targets item data Hwf He Hl) as [Hdec Hwf'].
    split; cbn [pending].
    + intros c [Hin | Hin]%elem_of_app; [| by apply originates_more, Hp].
      unfold copies in Hin. apply list_elem_of_fmap in Hin as (t & -> & _).
      exists source, targets, item, (SourceToBroker source targets item).
      split_and!; [set_solver | done..].
    + intros k. rewrite !zsum_snoc, zsum_app, (Hc k), holds_copies. cbn [ends accepts].
      unfold content_of. rewrite Hdec. cbn. destruct (decide _); lia.
    + by apply sound_trace.
  - assert (originates tr data) as Ho by (apply (Hp (target, data)); rewrite Hr; by left).
    pose proof (resent_content tr data target f Ho Hf) as Hre.
    assert (forall x d, f = Resent x d -> len d < pow64) as Hsh by (intros ? ? ->; done).
    specialize (Hre Hsh). split; cbn [pending].
    + intros c [Hin | Hin]%elem_of_app.
      * by apply originates_more, Hre.
      * apply originates_more, Hp. rewrite Hr. by right.
    + intros k. rewrite !zsum_snoc, zsum_app, (Hc k), Hr, zsum_cons.
      rewrite (holds_resends k data f) by (intros c Hcin; by apply Hre).
      unfold holds. cbn [snd ends accepts]. destruct (decide _); lia.
    + apply sound_trace; [done |]. destruct f as [raw | | | | | |]; try done.
      apply delivered_genuine; [by apply originates_more | done].
  - split; cbn [pending].
    + intros c Hin. by apply originates_more, Hp.
    + intros k. rewrite !zsum_snoc, (Hc k). cbn. lia.
    + by apply sound_trace.
Qed.

Lemma sound_run h a tr b :
  sound h a -> spec_run known a tr b -> Forall short tr -> sound (h ++ tr) b.
Proof.
  intros Hs Hr. revert h Hs. induction Hr as [a b Hab | a x b tr c Hx _ IH]; intros h Hs Hf.
  { rewrite app_nil_r. by rewrite <- Hab. }
  apply list.Forall_cons in Hf as [Hx' Hf]. change (x :: tr) with ([x] ++ tr).
  rewrite (assoc_L (++) h [x] tr).
  apply IH; [by eapply sound_step | done].
Qed.

Lemma sound_init : sound [] delivery_init.
Proof.
  split; cbn; [intros c Hc | done | intros x Hx];
    [by apply not_elem_of_nil in Hc | by apply not_elem_of_nil in Hx].
Qed.
End Conservation.

(** ** End to end *)
Section EndToEnd.
Context `{MapOrder}.

(** How many copies of a content wait in the channels of the broker. *)
Definition waiting (k : string * option SourceMessage) (known : gset string) (s : sys) : Z :=
  zsum (holds k) (pending (view known s)).

Lemma run_sound peers base b tr s :
  Broker_ConnectorManager b = NewConnectorManager (Broker_Monitor b) ->
  Broker_WorkerManager b = NewWorkerManager (Broker_Monitor b) ->
  traced (Start peers base b) tr s -> Forall short tr ->
  sound (dom (Targets b)) tr (view (dom (Targets b)) s) /\ inv 0 s.
Proof.
  intros Hc Hw Ht Hs. destruct (view_start peers base b Hc Hw) as [Hk Hv].
  destruct (traced_simulates _ _ _ _ (start_inv peers base b Hc Hw) Hk Ht) as (Hr & Hi & _).
  pose proof (spec_run_app _ _ [] _ _ _ (spec_nil _ _ _ (symmetry Hv)) Hr) as Hrun.
  split; [| done].
  exact (sound_run (dom (Targets b)) [] _ _ _ (sound_init (dom (Targets b))) Hrun Hs).
Qed.

(** C6. End to end: in every run of the broker in which no resent message has
    2^64 bytes, the bytes written to a target's server are the target message
    of an item that one of the sources sent, and of every item, under its
    source's name, as many copies were made, for targets that exist, as were
    settled for good and as still wait: none is lost in between, none is
    settled twice. *)
Theorem end_to_end peers base b tr s :
  Broker_ConnectorManager b = NewConnectorManager (Broker_Monitor b) ->
  Broker_WorkerManager b = NewWorkerManager (Broker_Monitor b) ->
  traced (Start peers base b) tr s -> Forall short tr ->
  (forall target data raw, Settle target data (Delivered raw) ∈ tr ->
   exists source targets item, Accept source targets item ∈ tr /\
     ToProtobuf (BrokerToTarget target (SourceToBroker source targets item)) = (raw, None)) /\
  (forall source item, let k := (source, Some item) in
   zsum (accepts (dom (Targets b)) k) tr
   = zsum (ends k) tr + waiting k (dom (Targets b)) s) /\
  (main s = WaitTargets \/ main s = Done ->
   forall source item, let k := (source, Some item) in
   zsum (accepts (dom (Targets b)) k) tr = zsum (ends k) tr).
Proof.
  intros Hc Hw Ht Hs.
  destruct (run_sound peers base b tr s Hc Hw Ht Hs) as [[_ Hcount Hdel] Hi]. cbn in Hcount, Hdel.
  split_and!; [| by intros; apply Hcount |].
  - intros target data raw Hin. exact (Hdel _ Hin).
  - intros Hm source item k. rewrite (Hcount k).
    assert (InFlightWaitGroup (cm s) = 0) as Hz.
    { pose proof (inv_phase _ _ Hi) as Hp. unfold phase_ok in Hp.
      destruct Hm as [Hm | Hm]; rewrite Hm in Hp; tauto. }
    destruct (drained (dom (Targets b)) s Hi Hz) as [Hp _]. cbn in Hp. rewrite Hp.
    unfold zsum at 2. cbn. lia.
Qed.
End EndToEnd.

(** ** Concrete runs *)
Section Traces.
Context `{MapOrder}.

Fixpoint trace_of (actions : list action) (s : sys) : list label :=
  match actions with
  | [] => []
  | a :: actions =>
      match exec a s with
      | Some (Ret s') => observe a s ++ trace_of actions s'
      | _ => []
      end
  end.

Lemma run_traced actions s s' : run actions s = Some s' -> traced s (trace_of actions s) s'.
Proof.
  revert s. induction actions as [| a actions IH]; intros s; cbn [run trace_of].
  { intros [= <-]. constructor. }
  destruct (admissible_b a s) eqn:Ha; [| done].
  destruct (exec a s) as [[s1 |] |] eqn:He; [| done..]. intros Hr.
  apply traced_cons with s1; [by apply admissible_b_sound | done | by apply IH].
Qed.
End Traces.

#[local] Existing Instance default_order.

(** A message over the limit of [a] is sent on to [b], and the broker stops. *)
Definition demo_two : Broker :=
  AddTarget "b" {| Target_ConnectionDetails := demo_details;
    Target_Config_ := {| Target_Provider := "stdout"; Target_Endpoint := "";
      AlertChannels := None; RateLimit_ := []; Target_Config := ∅ |};
    RateLimitRules := [] |}
  (demo_broker ["a"; "x"] [demo_rule 10 "fallback" "b"]).

Definition demo_two_actions : list action :=
  TargetStart "b" None :: demo_send ++ [Dispatch 0; FallBack "a"].

Definition demo_two_start : sys := Start demo_peers 10 demo_two.
Definition demo_two_trace : list label := trace_of demo_two_actions demo_two_start.
Definition demo_two_end : sys := ran (run demo_two_actions demo_two_start) demo_two_start.

(** The shape of a trace. *)
Definition seen (x : label) : string :=
  match x with
  | Accept source _ _ => "accept " +:+ source
  | Settle target _ (Delivered _) => "deliver " +:+ target
  | Settle target _ (Resent t _) => "resend " +:+ target +:+ " " +:+ t
  | Settle target _ _ => "settle " +:+ target
  | Advance _ => "advance"
  end.

Lemma demo_two_run : traced demo_two_start demo_two_trace demo_two_end.
Proof.
  unfold demo_two_end, demo_two_trace, ran.
  assert (is_Some (run demo_two_actions demo_two_start)) as [s Hs]
    by (eexists; vm_compute; reflexivity).
  rewrite Hs. change (default demo_two_start (Some s)) with s. by apply run_traced.
Qed.

Lemma broker_refines_delivery_witness :
  seen <$> demo_two_trace = ["accept src"; "resend a b"; "deliver b"] /\
  spec_run {["a"; "b"]} delivery_init demo_two_trace (view {["a"; "b"]} demo_two_end) /\
  missing (view {["a"; "b"]} demo_two_end) = 1.
Proof.
  split; [vm_compute; reflexivity |]. split; [| vm_compute; reflexivity].
  exact (broker_refines_delivery demo_peers 10 demo_two demo_two_trace demo_two_end
    eq_refl eq_refl demo_two_run).
Defined.

Definition short_b (x : label) : bool :=
  match x with Settle _ _ (Resent _ d) => len d <? pow64 | _ => true end.

Lemma short_check tr : forallb short_b tr = true -> Forall short tr.
Proof.
  induction tr as [| x tr IH]; cbn; [done |]. intros [Hx Htr]%andb_prop.
  apply list.Forall_cons. split; [| by apply IH].
  destruct x as [| ? ? f |]; try done. destruct f; try done. by apply Z.ltb_lt.
Qed.

Lemma end_to_end_witness :
  zsum (accepts {["a"; "b"]} ("src", Some demo_message)) demo_two_trace = 1 /\
  zsum (ends ("src", Some demo_message)) demo_two_trace = 1 /\
  waiting ("src", Some demo_message) {["a"; "b"]} demo_two_end = 0.
Proof.
  assert (Forall short demo_two_trace) as Hs by (apply short_check; vm_compute; reflexivity).
  destruct (end_to_end demo_peers 10 demo_two demo_two_trace demo_two_end eq_refl eq_refl
    demo_two_run Hs) as (_ & Hc & _). specialize (Hc "src" demo_message).
  assert (zsum (accepts {["a"; "b"]} ("src", Some demo_message)) demo_two_trace = 1) as E
    by (vm_compute; reflexivity).
  assert (waiting ("src", Some demo_message) {["a"; "b"]} demo_two_end = 0) as W
    by (vm_compute; reflexivity).
  split; [exact E |]. split; [| exact W].
  assert (dom (Targets demo_two) = {["a"; "b"]}) as D by (vm_compute; reflexivity).
  cbv zeta in Hc. rewrite D, E, W in Hc. lia.
Defined.
