(* ===== verification/Liveness.v ===== *)
(** * The broker comes to its end

    After [Broker.Stop], when no message waits in a channel and no token was
    lost, the stop signals and the steps of [Broker.Start] itself lead to the
    end of [Start] in whatever order they are taken, and in a bounded number. *)
From S2P Require Import Prelude Wire Message Bufio Protocol Limiter Monitoring Config.
From S2P Require Import Connector Worker Broker Shutdown.

#[local] Arguments ProtobufToBroker : simpl never.
#[local] Arguments ToProtobuf : simpl never.
#[local] Arguments zsum : simpl never.

Section Liveness.
Context `{MapOrder}.

#[export] Instance phase_eq_dec : EqDecision phase.
Proof. solve_decision. Defined.

(** A goroutine that neither has to be started nor is blocked in a send. *)
Definition calm (st : status) : Prop := st = Idle \/ st = Exited.

Record quiet (s : sys) : Prop := {
  quiet_srcs : map_Forall (fun _ x => calm x.1.1) (srcs s);
  quiet_tgts : map_Forall (fun _ x => calm x.1.1) (tgts s);
  quiet_wrks : map_Forall (fun _ x => calm x.1) (wrks s);
}.

(** The steps of the shutdown. *)
Definition closing (a : action) : bool :=
  match a with
  | StopSignalSource _ | StopSignalTarget _ | StopSignalWorker _ | BrokerStart => true
  | _ => false
  end.

Definition close_step (s s' : sys) : Prop :=
  exists a, closing a = true /\ exec a s = Some (Ret s').

(** What is left to do: the goroutines that have not returned, and the waits of
    [Broker.Start]. *)
Definition rank (p : phase) : Z :=
  match p with
  | WaitSources => 4 | WaitWorkers => 3 | WaitInFlight => 2 | WaitTargets => 1 | Done => 0
  end.

Definition left_to_do (s : sys) : Z :=
  map_sum source_live (srcs s) + map_sum target_live (tgts s) + map_sum worker_live (wrks s)
  + rank (main s).

Record settled (s : sys) : Prop := {
  settled_inv : inv 0 s;
  settled_stop : SourceStop (cm s) = true;
  settled_quiet : quiet s;
  settled_unknown : unknown s = 0;
  settled_lost : zsum lost (fates s) = 0;
}.

(** ** The three stop signals *)
Lemma source_stop_turn s name src w :
  srcs s !! name = Some (Idle, src, w) -> 0 < SourceWaitGroup (cm s) ->
  exists w', source_turn name StopSource s
    = Some (Ret (ghost 0 0 []
        (set_srcs (set_groups (TargetWaitGroup (cm s)) (SourceWaitGroup (cm s) - 1) (cm s))
           (<[name := (Exited, src, w')]> (srcs s)) s))).
Proof.
  intros Hk Hw. unfold source_turn. rewrite Hk.
  unfold source_iteration, source_select, set_state, mbind_, mmodify, mreturn.
  destruct (source_exit (set_mon (SetState "finished")
    (set_out (conn_close (out (set_mon (SetState "waiting") (enter (cm s) w))))
      (set_mon (SetState "waiting") (enter (cm s) w)))) Hw) as (w' & E & Hm & _).
  unfold mbind_, mmodify in E. cbn in E, Hm |- *. rewrite E. exists w'.
  rewrite Hm. cbn. by rewrite Z.sub_diag.
Qed.

Lemma target_stop_turn s name tgt w :
  tgts s !! name = Some (Idle, tgt, w) -> 0 < TargetWaitGroup (cm s) ->
  exists w', target_turn name StopTarget s
    = Some (Ret (ghost 0 0 []
        (set_tgts (set_groups (TargetWaitGroup (cm s) - 1) (SourceWaitGroup (cm s)) (cm s))
           (<[name := (Exited, tgt, w')]> (tgts s)) s))).
Proof.
  intros Hk Hw. unfold target_turn. rewrite Hk.
  unfold target_iteration, target_select, target_stop, set_state, mbind_, mmodify, mreturn.
  destruct (target_exit (set_mon (SetState "finished")
    (set_out (conn_close (SendBye (out (set_mon (SetState "waiting") (enter (cm s) w)))))
      (set_mon (SetState "waiting") (enter (cm s) w)))) Hw) as (w' & E & Hm & _).
  unfold mbind_, mmodify in E. cbn in E, Hm |- *. rewrite E. exists w'. by rewrite Hm.
Qed.

Lemma worker_stop_turn s i w :
  wrks s !! i = Some (Idle, w) -> 0 < Worker_WaitGroup (wm s) ->
  exists w', worker_turn i StopWorker s
    = Some (Ret (ghost 0 0 [] (set_wrks (Manager w') (<[i := (Exited, w')]> (wrks s)) s))) /\
    Worker_StopChan (Manager w') = Worker_StopChan (wm s).
Proof.
  intros Hk Hw. unfold worker_turn. rewrite Hk.
  destruct (worker_iteration_spec StopWorker (enter_worker (cm s) (wm s) w) Hw)
    as (w' & -> & _ & Hst & _). by exists w'.
Qed.

(** ** One step of the shutdown *)

(** The facts a step has to keep besides the invariant. *)
Lemma settled_step a s s' :
  settled s -> admissible a s -> exec a s = Some (Ret s') ->
  SourceStop (cm s') = true -> quiet s' -> unknown s' = unknown s ->
  zsum lost (fates s') = zsum lost (fates s) -> settled s'.
Proof.
  intros [Hi Hs Hq Hu Hl] Ha He Hs' Hq' Hu' Hl'.
  pose proof (exec_inv a s Hi Ha) as Hi'. rewrite He in Hi'. split; try done; congruence.
Qed.

Lemma map_Forall_calm {K A} `{Countable K} (f : A -> status) (m : gmap K A) k x :
  map_Forall (fun _ y => calm (f y)) m -> f x = Exited ->
  map_Forall (fun _ y => calm (f y)) (<[k := x]> m).
Proof. intros Hm Hx. apply map_Forall_insert_2; [by right | done]. Qed.

Lemma closing_source s name s' :
  settled s -> exec (StopSignalSource name) s = Some (Ret s') ->
  settled s' /\ left_to_do s' = left_to_do s - 1.
Proof.
  intros Hset He. pose proof Hset as [Hi Hs Hq Hu Hl]. pose proof He as He'.
  cbn [exec] in He. rewrite Hs in He. unfold source_turn in He.
  destruct (srcs s !! name) as [[[st src] w] |] eqn:Hk; [| done]. destruct st; try done. clear He.
  pose proof (live_source _ _ _ _ _ Hi Hk eq_refl) as Hsw.
  destruct (source_stop_turn s name src w Hk Hsw) as (w' & Ht).
  cbn [exec] in He'. rewrite Hs, Ht in He'. injection He' as <-.
  destruct (source_sums (srcs s) name Idle src w Exited w' Hk) as [_ Hlive]. split.
  - eapply (settled_step (StopSignalSource name) s); [done | done | | done | | | ].
    + cbn [exec]. by rewrite Hs, Ht.
    + destruct Hq. split; cbn; [| done..].
      by apply (map_Forall_calm (fun x : status * Source * world => x.1.1)).
    + cbn. lia.
    + cbn. by rewrite app_nil_r.
  - unfold left_to_do. cbn in *. lia.
Qed.

Lemma closing_target s name s' :
  settled s -> exec (StopSignalTarget name) s = Some (Ret s') ->
  settled s' /\ left_to_do s' = left_to_do s - 1.
Proof.
  intros Hset He. pose proof Hset as [Hi Hs Hq Hu Hl]. pose proof He as He'.
  cbn [exec] in He, He'. destruct (TargetStop (cm s)) eqn:Hstop; [| done].
  unfold target_turn in He.
  destruct (tgts s !! name) as [[[st tgt] w] |] eqn:Hk; [| done]. destruct st; try done. clear He.
  pose proof (live_target _ _ _ _ _ Hi Hk eq_refl) as Htw.
  destruct (target_stop_turn s name tgt w Hk Htw) as (w' & Ht).
  rewrite Ht in He'. injection He' as <-.
  destruct (target_sums (tgts s) name Idle tgt w Exited w' Hk) as [_ Hlive]. split.
  - eapply (settled_step (StopSignalTarget name) s); [done | done | | done | | | ].
    + cbn [exec]. by rewrite Hstop, Ht.
    + destruct Hq. split; cbn; [done | | done].
      by apply (map_Forall_calm (fun x : status * Target * world => x.1.1)).
    + cbn. lia.
    + cbn. by rewrite app_nil_r.
  - unfold left_to_do. cbn in *. lia.
Qed.

Lemma closing_worker s i s' :
  settled s -> exec (StopSignalWorker i) s = Some (Ret s') ->
  settled s' /\ left_to_do s' = left_to_do s - 1.
Proof.
  intros Hset He. pose proof Hset as [Hi Hs Hq Hu Hl]. pose proof He as He'.
  cbn [exec] in He, He'. destruct (Worker_StopChan (wm s)) eqn:Hstop; [| done].
  unfold worker_turn in He.
  destruct (wrks s !! i) as [[st w] |] eqn:Hk; [| done]. destruct st; try done. clear He.
  pose proof (live_worker _ _ _ _ Hi Hk eq_refl) as Hww.
  destruct (worker_stop_turn s i w Hk Hww) as (w' & Ht & _).
  rewrite Ht in He'. injection He' as <-.
  destruct (worker_sums (wrks s) i Idle w Exited w' Hk) as [_ Hlive]. split.
  - eapply (settled_step (StopSignalWorker i) s); [done | done | | done | | | ].
    + cbn [exec]. by rewrite Hstop, Ht.
    + destruct Hq. split; cbn; [done | done |].
      by apply (map_Forall_calm (fun x : status * Worker => x.1)).
    + cbn. lia.
    + cbn. by rewrite app_nil_r.
  - unfold left_to_do. cbn in *. lia.
Qed.

Lemma closing_main s s' :
  settled s -> exec BrokerStart s = Some (Ret s') ->
  settled s' /\ left_to_do s' = left_to_do s - 1.
Proof.
  intros Hset He. pose proof Hset as [Hi Hs [Q1 Q2 Q3] Hu Hl]. pose proof He as Hb.
  assert (exists m w p, s' = set_main m w p s /\ SourceStop m = true /\ rank p = rank (main s) - 1)
    as (m & w & p & -> & Hm & Hp).
  { cbn [exec] in Hb. unfold broker_start, WorkerManager_Stop, StopTargets, close_channel in Hb.
    destruct (main s) eqn:Hmain; repeat case_match; simplify_eq; by eexists _, _, _. }
  split; [| unfold left_to_do; cbn; lia].
  eapply (settled_step BrokerStart s); by eauto.
Qed.

Lemma closing_settled s s' :
  settled s -> close_step s s' -> settled s' /\ left_to_do s' = left_to_do s - 1.
Proof.
  intros Hset (a & Ha & He). destruct a; try done.
  - by eapply closing_source.
  - by eapply closing_target.
  - by eapply closing_worker.
  - by apply closing_main.
Qed.

Lemma left_nonneg s : 0 <= left_to_do s.
Proof.
  unfold left_to_do.
  pose proof (map_sum_nonneg source_live (srcs s) (fun x => live_nonneg x.1.1)).
  pose proof (map_sum_nonneg target_live (tgts s) (fun x => live_nonneg x.1.1)).
  pose proof (map_sum_nonneg worker_live (wrks s) (fun x => live_nonneg x.1)).
  destruct (main s); cbn; lia.
Qed.

(** ** There is always a step to take *)
Lemma live_exists {K A} `{Countable K} (f : A -> status) (m : gmap K A) :
  map_sum (fun x => live (f x)) m <> 0 -> map_Forall (fun _ x => calm (f x)) m ->
  exists k x, m !! k = Some x /\ f x = Idle.
Proof.
  intros Hsum Hcalm.
  destruct (decide (map_Forall (fun _ x => live (f x) = 0) m)) as [Hall | Hsome].
  { destruct Hsum. by apply map_sum_all0. }
  apply map_not_Forall in Hsome as (k & x & Hk & Hx); [| intros; apply _].
  exists k, x. split; [done |]. destruct (Hcalm k x Hk) as [E | E]; [done |].
  by rewrite E in Hx.
Qed.

(** Nothing is queued in a quiet state. *)
Lemma quiet_queued s : quiet s -> queued s = 0.
Proof.
  intros [Q1 Q2 Q3]. unfold queued.
  assert (forall st, calm st -> queue_tokens st = 0) as Hc by (by intros st [-> | ->]).
  rewrite !map_sum_all0; [done | ..].
  - intros k x Hk. apply Hc, (Q3 k x Hk).
  - intros k x Hk. apply Hc, (Q2 k x Hk).
  - intros k x Hk. unfold source_tokens. by rewrite (Hc _ (Q1 k x Hk)).
Qed.

Lemma closing_progress s : settled s -> main s <> Done -> exists s', close_step s s'.
Proof.
  intros [Hi Hs Hq Hu Hl] Hd. pose proof Hi as [Hin _ _ Hsw Htw Hww _ _ Hph].
  pose proof (quiet_queued s Hq) as Hqu. destruct Hq as [Q1 Q2 Q3]. unfold phase_ok in Hph.
  destruct (main s) eqn:Hmain; [| | | | done].
  - destruct (decide (SourceWaitGroup (cm s) = 0)) as [E | E].
    + destruct Hph as [Hstop _]. eexists. exists BrokerStart. split; [done |]. cbn.
      unfold broker_start, WorkerManager_Stop, close_channel. by rewrite Hmain, E, Hstop.
    + rewrite Hsw in E.
      destruct (live_exists (fun x : status * Source * world => x.1.1) (srcs s) E Q1)
        as (name & [[st src] w] & Hk & Hst). cbn in Hst. subst st.
      destruct (source_stop_turn s name src w Hk) as (w' & Ht); [by eapply live_source |].
      eexists. exists (StopSignalSource name). split; [done |]. cbn. by rewrite Hs.
  - destruct (decide (Worker_WaitGroup (wm s) = 0)) as [E | E].
    + eexists. exists BrokerStart. split; [done |]. cbn.
      unfold broker_start, Wait_returns. by rewrite Hmain, E.
    + destruct Hph as (_ & _ & Hstop). rewrite Hww in E.
      destruct (live_exists (fun x : status * Worker => x.1) (wrks s) E Q3)
        as (i & [st w] & Hk & Hst). cbn in Hst. subst st.
      destruct (worker_stop_turn s i w Hk) as (w' & Ht & _); [by eapply live_worker |].
      eexists. exists (StopSignalWorker i). split; [done |]. cbn. by rewrite Hstop.
  - destruct Hph as (_ & _ & Hstop & _). eexists. exists BrokerStart. split; [done |]. cbn.
    unfold broker_start, StopTargets, close_channel.
    assert (InFlightWaitGroup (cm s) = 0) as -> by lia. by rewrite Hmain, Hstop.
  - destruct (decide (TargetWaitGroup (cm s) = 0)) as [E | E].
    + eexists. exists BrokerStart. split; [done |]. cbn. unfold broker_start. by rewrite Hmain, E.
    + destruct Hph as (_ & _ & _ & Hstop). rewrite Htw in E.
      destruct (live_exists (fun x : status * Target * world => x.1.1) (tgts s) E Q2)
        as (name & [[st tgt] w] & Hk & Hst). cbn in Hst. subst st.
      destruct (target_stop_turn s name tgt w Hk) as (w' & Ht); [by eapply live_target |].
      eexists. exists (StopSignalTarget name). split; [done |]. cbn. by rewrite Hstop.
Qed.

(** ** The end *)
Lemma closing_bounded n s s' :
  settled s -> nsteps close_step n s s' ->
  settled s' /\ left_to_do s' = left_to_do s - Z.of_nat n.
Proof.
  intros Hs Hn. revert Hs. induction Hn as [s | n s1 s2 s3 H12 _ IH]; intros Hs.
  { split; [done | lia]. }
  destruct (closing_settled _ _ Hs H12) as [Hs2 E]. destruct (IH Hs2) as [Hs3 E3].
  split; [done | lia].
Qed.

(** Every goroutine has returned. *)
Definition all_exited (s : sys) : Prop :=
  map_Forall (fun _ x => x.1.1 = Exited) (srcs s) /\
  map_Forall (fun _ x => x.1.1 = Exited) (tgts s) /\
  map_Forall (fun _ x => x.1 = Exited) (wrks s).

Lemma done_exited s : inv 0 s -> main s = Done -> all_exited s.
Proof.
  intros [_ _ _ Hsw Htw Hww _ _ Hph] Hd. unfold phase_ok in Hph. rewrite Hd in Hph.
  destruct Hph as (E1 & E2 & _ & E3).
  assert (forall st, live st = 0 -> st = Exited) as Hl by (by intros []).
  split_and!; intros k x Hk; apply Hl.
  - apply (map_sum_zero source_live (srcs s) k x (fun x => live_nonneg x.1.1)); [lia | done].
  - apply (map_sum_zero target_live (tgts s) k x (fun x => live_nonneg x.1.1)); [lia | done].
  - apply (map_sum_zero worker_live (wrks s) k x (fun x => live_nonneg x.1)); [lia | done].
Qed.

Lemma done_zero s : inv 0 s -> main s = Done -> left_to_do s = 0.
Proof.
  intros Hi Hd. destruct (done_exited s Hi Hd) as (E1 & E2 & E3).
  unfold left_to_do. rewrite Hd, !map_sum_all0; [done | ..].
  - intros k x Hk. unfold worker_live. by rewrite (E3 k x Hk).
  - intros k x Hk. unfold target_live. by rewrite (E2 k x Hk).
  - intros k x Hk. unfold source_live. by rewrite (E1 k x Hk).
Qed.

Lemma zero_done s : settled s -> left_to_do s = 0 -> main s = Done.
Proof.
  intros Hs E. destruct (decide (main s = Done)) as [| Hd]; [done |].
  destruct (closing_progress s Hs Hd) as (s' & Hstep).
  destruct (closing_settled _ _ Hs Hstep) as [_ E']. pose proof (left_nonneg s'). lia.
Qed.

(** A state of the shutdown is stuck exactly when nothing is left to do. *)
Lemma stuck_zero s : settled s -> (forall s', ~ close_step s s') <-> left_to_do s = 0.
Proof.
  intros Hs. split.
  - intros Hstuck. apply done_zero; [apply Hs |].
    destruct (decide (main s = Done)) as [| Hd]; [done |].
    destruct (closing_progress s Hs Hd) as (s' & Hstep). by destruct (Hstuck s').
  - intros E s' Hstep. destruct (closing_settled _ _ Hs Hstep) as [_ E'].
    pose proof (left_nonneg s'). lia.
Qed.

Lemma closing_run n s :
  settled s -> left_to_do s = Z.of_nat n -> exists s', nsteps close_step n s s'.
Proof.
  revert s. induction n as [| n IH]; intros s Hs Hn; [exists s; constructor |].
  destruct (closing_progress s Hs) as (s1 & H1).
  { intros Hd. pose proof (done_zero s (settled_inv _ Hs) Hd). lia. }
  destruct (closing_settled _ _ Hs H1) as [Hs1 E]. destruct (IH s1 Hs1) as (s2 & H2); [lia |].
  exists s2. by econstructor.
Qed.

(** The shutdown comes to its end: after [Broker.Stop], from a reachable
    state in which no goroutine is blocked in a send or not yet started and no
    token was lost, the stop signals and the steps of [Broker.Start] can be
    taken in any order; there are exactly as many as goroutines that run and
    waits of [Start] that are left, no order gets stuck before the end, and at
    the end [Start] has returned and so has every goroutine. *)
Theorem shutdown_completes s :
  reachable s -> SourceStop (cm s) = true -> quiet s ->
  unknown s = 0 -> zsum lost (fates s) = 0 ->
  (exists s', nsteps close_step (Z.to_nat (left_to_do s)) s s') /\
  forall n s', nsteps close_step n s s' ->
    Z.of_nat n <= left_to_do s /\
    ((forall s'', ~ close_step s' s'') <-> Z.of_nat n = left_to_do s) /\
    (Z.of_nat n = left_to_do s -> main s' = Done /\ all_exited s').
Proof.
  intros Hr Hstop Hq Hu Hl.
  assert (settled s) as Hs by (split; try done; by apply reachable_inv).
  pose proof (left_nonneg s). split; [apply closing_run; [done | lia] |].
  intros n s' Hn. destruct (closing_bounded n s s' Hs Hn) as [Hs' E].
  pose proof (left_nonneg s'). split; [lia |]. split.
  - rewrite (stuck_zero s' Hs'). lia.
  - intros En. assert (main s' = Done) as Hd by (apply zero_done; [done | lia]).
    split; [done | by apply done_exited; [apply Hs' |]].
Qed.
End Liveness.

(** ** A concrete run *)

#[local] Existing Instance default_order.

(** A message was delivered and [Stop] called: seven steps are left. *)
Definition demo_quiet : sys := demo_run ["a"] [] (demo_send ++ [Dispatch 0; BrokerStop]).

Definition calm_b (st : status) : bool :=
  match st with Idle | Exited => true | _ => false end.

Lemma calm_check {K A} `{Countable K} (f : A -> status) (m : gmap K A) :
  bool_decide (map_Forall (fun _ x => calm_b (f x) = true) m) = true ->
  map_Forall (fun _ x => calm (f x)) m.
Proof.
  intros Hb%bool_decide_eq_true_1 k x Hk. specialize (Hb k x Hk). cbn in Hb.
  unfold calm. destruct (f x); by auto.
Qed.

Lemma shutdown_completes_witness :
  left_to_do demo_quiet = 7 /\
  exists s', nsteps close_step 7 demo_quiet s' /\ main s' = Done /\ all_exited s'.
Proof.
  assert (left_to_do demo_quiet = 7) as E by (vm_compute; reflexivity).
  assert (quiet demo_quiet) as Hq.
  { split; apply calm_check; vm_compute; reflexivity. }
  destruct (shutdown_completes demo_quiet (demo_reachable _ _ _)) as [[s' Hs'] Hall];
    [vm_compute; reflexivity | exact Hq | vm_compute; reflexivity | vm_compute; reflexivity |].
  rewrite E in Hs'. split; [exact E |]. exists s'. split; [exact Hs' |].
  apply (proj2 (proj2 (Hall 7%nat s' Hs'))). rewrite E. reflexivity.
Defined.
