(* ===== verification/Drain.v ===== *)
(** * The broker empties itself

    After [Broker.Stop], when the sources send nothing more, whatever waits in
    a channel finds its way: the steps that are left are bounded by a measure,
    and as long as the broker has not come to its end one of them can be taken,
    unless a token was lost, a target died with messages waiting for it or the
    program is about to panic. *)
From S2P Require Import Prelude Wire Message Bufio Protocol Limiter Monitoring Config.
From S2P Require Import Connector Worker Broker Shutdown Delivery Liveness.

#[local] Arguments ProtobufToBroker : simpl never.
#[local] Arguments ProtobufToSource : simpl never.
#[local] Arguments ToProtobuf : simpl never.
#[local] Arguments zsum : simpl never.

(** ** The rules of a target do not change but for their limiters *)

Definition breaches (w : world) : list Config.BreachBehaviour := rule_breach <$> rules w.

Section Breaches.
Context `{MapOrder}.
Variable bs : list Config.BreachBehaviour.

#[local] Notation stable := (preserves (fun w => breaches w = bs)).

Lemma stable_same (f : world -> world) :
  (forall w, rules (f w) = rules w) -> stable (mmodify f).
Proof. intros Hf. apply preserves_modify. intros w <-. unfold breaches. by rewrite Hf. Qed.

Lemma stable_set_state s : stable (set_state s).
Proof. by apply stable_same. Qed.

Lemma stable_stat o : stable (stat o).
Proof. by apply stable_same. Qed.

Lemma stable_log_guarded level msg : stable (log_guarded level msg).
Proof. apply stable_same. intros w. by destruct (Monitor_ (mgr w)). Qed.

Lemma stable_on_mgr f : stable (on_mgr f).
Proof. intros w Hw. unfold on_mgr. by destruct (f (mgr w)). Qed.

Lemma stable_SendToTarget target msg : stable (SendToTarget (St := world) target msg).
Proof. unfold SendToTarget. preserve. by intros w Hw. Qed.

Lemma stable_write command data : stable (write_new_message command data).
Proof. intros w Hw. unfold write_new_message. by destruct (WriteNewMessage _ _ _) as [[]]. Qed.

Lemma stable_wait_for_ok : stable wait_for_ok.
Proof. intros w Hw. unfold wait_for_ok. by destruct (WaitForOk _). Qed.

#[local] Hint Resolve stable_set_state stable_stat stable_log_guarded stable_on_mgr
  stable_SendToTarget stable_write stable_wait_for_ok : preserves.

Lemma breach_on_limiter f (rs : list RateLimitRule) :
  rule_breach <$> (on_limiter f <$> rs) = rule_breach <$> rs.
Proof. rewrite <- list_fmap_compose. by apply list_fmap_ext. Qed.

Lemma breach_alter f i (rs : list RateLimitRule) :
  rule_breach <$> alter (on_limiter f) i rs = rule_breach <$> rs.
Proof.
  apply list_eq. intros j. rewrite !list_lookup_fmap, list_lookup_alter.
  destruct (decide (i = j)) as [-> |]; [by destruct (rs !! j) | done].
Qed.

Lemma stable_rate_limit_loop rs m : stable (rate_limit_loop rs m).
Proof.
  revert m. induction rs as [| rule rs IH]; intros m; cbn [rate_limit_loop]; cbv zeta; preserve.
Qed.

Lemma stable_target_iteration name event : stable (target_iteration name event).
Proof.
  pose proof stable_rate_limit_loop.
  unfold target_iteration, target_select, target_receive, handleRateLimiting, target_stop,
    deferred. preserve; try by apply stable_same.
  - apply preserves_modify. intros w <-. apply breach_on_limiter.
  - apply preserves_modify. intros w <-. apply breach_alter.
Qed.
End Breaches.

Lemma breaches_start `{MapOrder} name target dial w w' :
  target_handle name target dial [] w = Ret (tt, w') ->
  breaches w' = rule_breach <$> RateLimitRules target.
Proof.
  intros E. set (bs := rule_breach <$> RateLimitRules target).
  unfold target_handle in E. cbn [target_loop] in E. unfold mbind_ at 1, mmodify at 1 in E.
  match type of E with ?c ?w1 = _ =>
    assert (preserves (fun w => breaches w = bs) c) as Hc; [| specialize (Hc w1 eq_refl)] end.
  { unfold register, log_unguarded. preserve; try by apply stable_same.
    all: try apply stable_set_state; try apply stable_log_guarded; try apply stable_on_mgr.
    intros w1 Hw. by destruct (SendHello (out w1)). }
  by rewrite E in Hc.
Qed.

(** ** Where a message may go

    Every target has a height, and a rule falls back to a lower one. *)
Section Drain.
Context `{MapOrder}.
Variable height : string -> nat.

Definition ranked (name : string) (bs : list Config.BreachBehaviour) : Prop :=
  Forall (fun b => Action b = "fallback" -> (height (Breach_Target b) < height name)%nat) bs.

(** What a goroutine has before it, its messages apart. *)
Definition age (st : status) : Z :=
  match st with NotStarted => 2 | Exited => 0 | _ => 1 end.

(** A goroutine that is blocked in a send has something to send. *)
Definition proper (st : status) : Prop := st <> Sending [].

Definition lower (s : sys) (name : string) (e : copy) : Prop :=
  e.1 ∈ TargetConnectors (cm s) /\ (height e.1 < height name)%nat.

Record routed (s : sys) : Prop := {
  rt_dom : dom (tgts s) = TargetConnectors (cm s);
  rt_wrks : map_Forall (fun _ x => proper x.1 /\
    Forall (fun e => e.1 ∈ TargetConnectors (cm s)) (queue x.1)) (wrks s);
  rt_tgts : map_Forall (fun name x =>
    proper x.1.1 /\ Forall (lower s name) (queue x.1.1) /\
    ranked name (rule_breach <$> RateLimitRules x.1.2) /\ ranked name (breaches x.2)) (tgts s);
  rt_live : Worker_StopChan (wm s) = false -> map_Forall (fun _ x => x.1 <> Exited) (wrks s);
  rt_some : wrks s <> ∅;
}.

Lemma resent_lower name data w target d :
  ranked name (breaches w) -> target_fate name data w = Resent target d ->
  target ∈ TargetConnectors (mgr w) /\ (height target < height name)%nat.
Proof.
  intros Hr. unfold target_fate. destruct (ProtobufToBroker data) as [l [e |]]; [done |].
  destruct (ToProtobuf (BrokerToTarget name l)) as [raw [e |]]; [done |].
  destruct (List.find decides (rules w)) as [rule |] eqn:Hf.
  - apply find_some in Hf as [Hin Hd]. unfold breach_fate, decides in *.
    destruct (String.eqb _ "discard"); [done |]. apply andb_prop in Hd as [_ Hd].
    cbn in Hd. apply String.eqb_eq in Hd.
    destruct (ToProtobuf (set_targets _ l)) as [d' [e |]]; [done |].
    destruct (bool_decide _) eqn:Hb; [| done]. intros [= <- _].
    split; [by apply bool_decide_eq_true in Hb |].
    unfold ranked, breaches in Hr. rewrite list.Forall_forall in Hr. apply Hr; [| done].
    apply list_elem_of_fmap. exists rule. split; [done |]. by apply list_elem_of_In.
  - by destruct (_.1.2); [| destruct (_.1)].
Qed.

Lemma after_proper q : proper (after q).
Proof. by destruct q. Qed.

(** A turn of a target leaves its queue lower than itself and its rules alone. *)
Record turned (name : string) (s s' : sys) : Prop := {
  tu_srcs : srcs s' = srcs s;
  tu_wrks : wrks s' = wrks s;
  tu_wm : wm s' = wm s;
  tu_main : main s' = main s;
  tu_known : TargetConnectors (cm s') = TargetConnectors (cm s);
  tu_stop : SourceStop (cm s') = SourceStop (cm s);
  tu_turn : exists tgt w st w', tgts s !! name = Some (Idle, tgt, w) /\
    tgts s' = <[name := (st, tgt, w')]> (tgts s) /\ breaches w' = breaches w /\ proper st /\
    (length (queue st) <= 1)%nat /\ age st <= 1 /\
    (ranked name (breaches w) -> Forall (lower s name) (queue st));
}.

Lemma target_turned name event s s' :
  inv 0 s -> (arrives event = 0 \/ 0 < InFlightWaitGroup (cm s)) ->
  target_turn name event s = Some (Ret s') -> turned name s s'.
Proof.
  intros Hi Hin He. pose proof (target_turn_effect _ _ _ _ Hi Hin He) as [Hs Hw Hk Hstop _ Hm Hturn].
  destruct Hturn as (tgt & w & st & w' & Hn & Ht & _ & Hq).
  pose proof He as He'. unfold target_turn in He'. rewrite Hn in He'.
  destruct (target_iteration name event (enter (cm s) w)) as [[continue w2] |] eqn:E; [| done].
  pose proof (stable_target_iteration (breaches w) name event (enter (cm s) w) eq_refl) as Hb.
  rewrite E in Hb. injection He' as <-. cbn in Ht.
  assert (w' = w2 /\ st = if continue then after (sends w2) else Exited) as [-> Hst].
  { pose proof (f_equal (fun m : gmap string _ => m !! name) Ht) as Hl. cbn in Hl.
    rewrite !lookup_insert_eq in Hl. split; congruence. }
  split; try done. exists tgt, w, st, w2. rewrite Hq. split_and!; try done.
  - rewrite Hst. destruct continue; [| done]. apply after_proper.
  - destruct event as [data | |]; cbn; [| lia..]. destruct (target_fate _ _ _); cbn; lia.
  - rewrite Hst. destruct continue; [| done]. by destruct (sends w2).
  - intros Hr. destruct event as [data | |]; [| constructor..]. cbn.
    destruct (target_fate name data (enter (cm s) w)) as [| | x d | | | |] eqn:Hf;
      try constructor; [| constructor].
    by apply (resent_lower name data (enter (cm s) w) x d).
Qed.

(** ** [routed] is kept *)

Lemma routed_target s s' name st tgt w w' :
  routed s -> tgts s !! name = Some (st, tgt, w) ->
  TargetConnectors (cm s') = TargetConnectors (cm s) -> wrks s' = wrks s ->
  Worker_StopChan (wm s') = Worker_StopChan (wm s) ->
  forall st', tgts s' = <[name := (st', tgt, w')]> (tgts s) ->
  (proper st' /\ Forall (lower s name) (queue st') /\ ranked name (breaches w')) -> routed s'.
Proof.
  intros [Hd Hw Ht Hl Hn] Hk Hkn Hws Hwm st' Hts (Hp & Hq & Hb). split; rewrite ?Hkn, ?Hws, ?Hwm; try done.
  - rewrite Hts, dom_insert_L. apply elem_of_dom_2 in Hk. set_solver.
  - rewrite Hts. unfold lower in *. rewrite Hkn. apply map_Forall_insert_2; [| exact Ht].
    split_and!; [exact Hp | exact Hq | apply (Ht _ _ Hk) | exact Hb].
Qed.

Lemma turned_routed name s s' : routed s -> turned name s s' -> routed s'.
Proof.
  intros Hr [Hs Hw Hwm Hm Hk _ (tgt & w & st & w' & Hn & Ht & Hb & Hp & _ & _ & Hq)].
  destruct (rt_tgts _ Hr _ _ Hn) as (_ & _ & _ & Hrb). cbn in Hrb.
  eapply routed_target; [exact Hr | exact Hn | done | done | by rewrite Hwm | exact Ht |].
  split_and!; [done | by apply Hq | by rewrite Hb].
Qed.

Lemma routed_sources s s' :
  routed s -> tgts s' = tgts s -> wrks s' = wrks s -> wm s' = wm s ->
  TargetConnectors (cm s') = TargetConnectors (cm s) -> routed s'.
Proof.
  intros [Hd Hw Ht Hl Hn] E1 E2 E3 E4. unfold lower in *.
  split; unfold lower; rewrite ?E1, ?E2, ?E3, ?E4; done.
Qed.

(** A worker takes a new status. *)
Lemma routed_worker s s' i st w st' w' :
  routed s -> wrks s !! i = Some (st, w) -> tgts s' = tgts s ->
  TargetConnectors (cm s') = TargetConnectors (cm s) ->
  Worker_StopChan (wm s') = Worker_StopChan (wm s) ->
  wrks s' = <[i := (st', w')]> (wrks s) ->
  proper st' -> Forall (fun e => e.1 ∈ TargetConnectors (cm s)) (queue st') ->
  (Worker_StopChan (wm s) = false -> st' <> Exited) -> routed s'.
Proof.
  intros [Hd Hw Ht Hl Hn] Hk E1 E2 E3 E4 Hp Hq He. unfold lower in *.
  split; unfold lower; rewrite ?E1, ?E2, ?E3, ?E4; try done.
  - by apply map_Forall_insert_2.
  - intros Hs. apply map_Forall_insert_2; [by apply He | by apply Hl].
  - apply insert_non_empty.
Qed.

(** A worker that receives a message holds its copies. *)
Lemma worker_received i data l s s1 :
  ProtobufToBroker data = (l, None) -> worker_turn i (Receive data) s = Some (Ret s1) ->
  wm s1 = wm s /\ exists w w', wrks s !! i = Some (Idle, w) /\
    wrks s1 = <[i := (after (copies (TargetConnectors (cm s)) data (Broker_Targets l)), w')]>
                (wrks s).
Proof.
  intros Hl. unfold worker_turn. destruct (wrks s !! i) as [[[] w] |] eqn:Hk; try done.
  unfold worker_iteration, worker_receive. rewrite Hl.
  unfold proc_state, proc_stat, mbind_, mmodify.
  match goal with |- context [send_to_targets ?ts data ?w1] =>
    destruct (send_to_targets_spec ts data w1) as (w' & -> & Hs & _ & _ & Hm & _) end.
  unfold mreturn. intros [= <-]. cbn in Hs, Hm. split; [exact Hm |].
  eexists w, _. split; [done |]. cbn. by rewrite Hs.
Qed.

Lemma copies_known known data ts : Forall (fun e : copy => e.1 ∈ known) (copies known data ts).
Proof.
  unfold copies. apply list.Forall_forall. intros e He.
  apply list_elem_of_fmap in He as (t & -> & Hin). by apply list_elem_of_filter in Hin as [].
Qed.

(** A sender holds a token. *)
Lemma sender_holds_worker s i e q w :
  inv 0 s -> wrks s !! i = Some (Sending (e :: q), w) -> 0 < InFlightWaitGroup (cm s).
Proof.
  intros Hi Hk. pose proof (worker_holds _ _ _ _ Hi Hk) as Hin. cbn [queue_tokens] in Hin.
  rewrite len_cons in Hin. pose proof (len_nonneg q). lia.
Qed.

Lemma sender_holds_target s name e q tgt w :
  inv 0 s -> tgts s !! name = Some (Sending (e :: q), tgt, w) -> 0 < InFlightWaitGroup (cm s).
Proof.
  intros Hi Hk. pose proof (target_holds _ _ _ _ _ Hi Hk) as Hin. cbn [queue_tokens] in Hin.
  rewrite len_cons in Hin. pose proof (len_nonneg q). lia.
Qed.

(** A route is kept by each kind of step. *)
Lemma routed_source_turn name event s s' :
  routed s -> TargetConnectors (cm s') = TargetConnectors (cm s) ->
  source_turn name event s = Some (Ret s') -> routed s'.
Proof.
  intros Hr Hkn Ht. pose proof Ht as Ht'. apply source_turn_effect in Ht' as [E1 E2 _ _ _ _ _].
  apply (routed_sources s); try done. clear -Ht. revert Ht. unfold source_turn.
  destruct (srcs s !! name) as [[[[] ?] ?] |]; try done.
  destruct (source_iteration _ _ _ _) as [[] |]; [| done]. by intros [= <-].
Qed.

Lemma routed_handover name i s s' :
  inv 0 s -> routed s -> TargetConnectors (cm s') = TargetConnectors (cm s) ->
  handover name i s = Some (Ret s') -> routed s'.
Proof.
  intros Hi Hr Hkn He. unfold handover in He. destruct (srcs s !! name) as [[[st src] w] |] eqn:Hk; [| done].
  destruct st as [| | [| [x data] q] |]; try done.
  destruct (inv_carries _ _ Hi _ _ Hk) as (data' & l & Hq & Hl & _). injection Hq as -> -> ->.
  destruct (worker_turn i (Receive data') s) as [[s1 |] |] eqn:Ht; try done.
  injection He as <-.
  pose proof (worker_receive_effect _ _ _ _ _ Hl Ht) as [_ E2 E3 _ _ _ _].
  destruct (worker_received _ _ _ _ _ Hl Ht) as (Hwm & ww & ww' & Hkw & Hw).
  eapply (routed_worker s _ i Idle ww _ ww'); try done; [cbn; by rewrite Hwm | apply after_proper | |].
  - rewrite queue_of_after. apply copies_known.
  - intros _. by destruct (copies _ _ _).
Qed.

Lemma routed_dispatch i s s' :
  inv 0 s -> routed s -> TargetConnectors (cm s') = TargetConnectors (cm s) ->
  dispatch i s = Some (Ret s') -> routed s'.
Proof.
  intros Hi Hr Hkn He. unfold dispatch in He.
  destruct (wrks s !! i) as [[[| | [| [target data] q] |] w] |] eqn:Hk; try done.
  destruct (target_turn target (Inbound data) s) as [[s1 |] |] eqn:Ht; try done.
  injection He as <-.
  apply (target_turned target (Inbound data)) in Ht;
    [| done | right; apply (sender_holds_worker _ _ _ _ _ Hi Hk)].
  pose proof (turned_routed _ _ _ Hr Ht) as Hr1. destruct Ht as [_ Ew Ewm _ Ek _ _].
  rewrite <- Ew in Hk. pose proof (rt_wrks _ Hr1 _ _ Hk) as Hq.
  destruct Hq as [_ Hq].
  apply list.Forall_cons in Hq as [_ Hq].
  apply (routed_worker s1 _ i (Sending ((target, data) :: q)) w (after q) w); try done;
    [apply after_proper | by rewrite queue_of_after |].
  intros _. by destruct q.
Qed.

Lemma routed_fall_back name s s' :
  inv 0 s -> routed s -> TargetConnectors (cm s') = TargetConnectors (cm s) ->
  fall_back name s = Some (Ret s') -> routed s'.
Proof.
  intros Hi Hr Hkn He. unfold fall_back in He.
  destruct (tgts s !! name) as [[[[| | [| [target data] q] |] tg] w] |] eqn:Hk; try done.
  destruct (target_turn target (Inbound data) s) as [[s1 |] |] eqn:Ht; try done.
  injection He as <-.
  apply (target_turned target (Inbound data)) in Ht;
    [| done | right; apply (sender_holds_target _ _ _ _ _ _ Hi Hk)].
  pose proof (turned_routed _ _ _ Hr Ht) as Hr1.
  destruct Ht as [_ Ew Ewm _ Ek _ (tgt & wt & st & wt' & Hn & Hts & _)].
  assert (tgts s1 !! name = Some (Sending ((target, data) :: q), tg, w)) as Hk1
    by (rewrite Hts, lookup_insert_ne; [done | intros ->; congruence]).
  destruct (rt_tgts _ Hr1 _ _ Hk1) as (_ & Hq & _ & Hb). apply list.Forall_cons in Hq as [_ Hq].
  eapply (routed_target s1); [exact Hr1 | exact Hk1 | done | done | done | done |].
  split_and!; [apply after_proper | by rewrite queue_of_after | exact Hb].
Qed.

Lemma routed_broker_start s s' :
  routed s -> TargetConnectors (cm s') = TargetConnectors (cm s) ->
  broker_start s = Some (Ret s') -> routed s'.
Proof.
  intros Hr Hkn He. assert (tgts s' = tgts s /\ wrks s' = wrks s /\
    (Worker_StopChan (wm s') = Worker_StopChan (wm s) \/ Worker_StopChan (wm s') = true))
    as (E1 & E2 & E3).
  { unfold broker_start, WorkerManager_Stop, StopTargets, close_channel in He.
    repeat case_match; simplify_eq; cbn; auto. }
  destruct Hr as [Hd Hw Ht Hl Hn]. unfold lower in *.
  split; unfold lower; rewrite ?E1, ?E2, ?Hkn; try done.
  intros Hf. apply Hl. destruct E3; congruence.
Qed.

Lemma exec_routed a s s' : inv 0 s -> routed s -> exec a s = Some (Ret s') -> routed s'.
Proof.
  intros Hi Hr He. pose proof (exec_known a s s' Hi He) as Hkn.
  destruct a; cbn [exec] in He.
  - revert He. unfold source_start. destruct (srcs s !! name) as [[[[] src] w] |]; try done.
    destruct (source_handle _ _ _ _ _) as [[[] w'] |]; [| done]. intros [= <-].
    by apply (routed_sources s).
  - revert He. unfold target_start.
    destruct (tgts s !! name) as [[[[] tgt] w] |] eqn:Hk; try done.
    destruct (target_handle name tgt dial [] (enter (cm s) w)) as [[[] w'] |] eqn:E; [| done].
    intros [= <-]. eapply routed_target; [exact Hr | exact Hk | exact Hkn | done | done | done |].
    split_and!; [by destruct dial | by destruct dial |]. rewrite (breaches_start _ _ _ _ _ E).
    apply (rt_tgts _ Hr _ _ Hk).
  - revert He. unfold worker_start. destruct (wrks s !! i) as [[[] w] |] eqn:Hk; try done.
    intros [= <-]. by apply (routed_worker s _ i NotStarted w Idle w).
  - apply (routed_source_turn name event s); [done | done | by destruct event].
  - apply (turned_routed name s); [done |].
    by apply (target_turned name (Ticker i curTime ttlTime now order)); [| left |].
  - case_match; [| done]. by eapply routed_source_turn.
  - case_match; [| done]. apply (turned_routed name s); [done |].
    by apply (target_turned name StopTarget); [| left |].
  - destruct (Worker_StopChan (wm s)) eqn:Hst; [| done].
    pose proof He as He'. unfold worker_turn in He'.
    destruct (wrks s !! i) as [[[] w] |] eqn:Hk; try done. clear He'.
    destruct (worker_stop_turn s i w Hk) as (w' & Ht & Hs); [by eapply live_worker |].
    rewrite Ht in He. injection He as <-.
    apply (routed_worker s _ i Idle w Exited w'); try done. congruence.
  - by eapply routed_handover.
  - by eapply routed_dispatch.
  - by eapply routed_fall_back.
  - by eapply routed_broker_start.
  - unfold broker_stop, StopSources in He. repeat case_match; simplify_eq.
    by apply (routed_sources s).
Qed.

(** ** The work that is left *)

(** The steps that need nothing from outside. *)
Definition internal (a : action) : bool :=
  match a with
  | SourceStart _ _ | TargetStart _ _ | WorkerStart _
  | Handover _ _ | Dispatch _ | FallBack _ => true
  | _ => closing a
  end.

Definition internal_step (s s' : sys) : Prop :=
  exists a, internal a = true /\ exec a s = Some (Ret s').

(** A copy can be sent on as often as its target is high. *)
Definition trip (t : string) : Z := Z.of_nat (height t) + 1.
Definition carry (e : copy) : Z := trip e.1.

Definition source_work (x : status * Connector.Source * world) : Z :=
  age x.1.1 + len (queue x.1.1) * (1 + zsum trip (Source_Targets_ x.1.2)).
Definition target_work (x : status * Connector.Target * world) : Z :=
  age x.1.1 + zsum carry (queue x.1.1).
Definition worker_work (x : status * Worker) : Z := age x.1 + zsum carry (queue x.1).

Definition work (s : sys) : Z :=
  map_sum source_work (srcs s) + map_sum target_work (tgts s) + map_sum worker_work (wrks s)
  + rank (main s).

Lemma carry_pos e : 1 <= carry e.
Proof. unfold carry, trip. lia. Qed.

Lemma age_after q : age (after q) = 1.
Proof. by destruct q. Qed.

Lemma work_nonneg s : 0 <= work s.
Proof.
  assert (forall st, 0 <= age st) as Ha by by intros [].
  assert (forall q, 0 <= zsum carry q) as Hz
    by (intros q; apply zsum_nonneg; intros e; pose proof (carry_pos e); lia).
  assert (0 <= map_sum source_work (srcs s)).
  { apply map_sum_nonneg. intros [[st src] w]. unfold source_work. cbn.
    assert (0 <= zsum trip (Source_Targets_ src))
      by (apply zsum_nonneg; intros t; unfold trip; lia).
    pose proof (Ha st). pose proof (len_nonneg (queue st)). nia. }
  assert (0 <= map_sum target_work (tgts s)).
  { apply map_sum_nonneg. intros x. unfold target_work.
    pose proof (Ha x.1.1). pose proof (Hz (queue x.1.1)). lia. }
  assert (0 <= map_sum worker_work (wrks s)).
  { apply map_sum_nonneg. intros x. unfold worker_work.
    pose proof (Ha x.1). pose proof (Hz (queue x.1)). lia. }
  unfold work. destruct (main s); cbn; lia.
Qed.

Lemma lower_carry s name q :
  (length q <= 1)%nat -> Forall (lower s name) q -> zsum carry q <= Z.of_nat (height name).
Proof.
  destruct q as [| e [| e' q]]; cbn [length]; intros Hl Hq; [unfold zsum; cbn; lia | | lia].
  apply list.Forall_cons in Hq as [[_ He] _]. unfold zsum, carry, trip. cbn. lia.
Qed.

Lemma copies_carry known data ts : zsum carry (copies known data ts) <= zsum trip ts.
Proof.
  unfold copies. induction ts as [| t ts IH]; [done |].
  rewrite filter_cons, zsum_cons. destruct (decide (t ∈ known)).
  - rewrite fmap_cons, zsum_cons. unfold carry at 1. cbn [fst]. lia.
  - unfold trip at 1. lia.
Qed.

(** A turn of a target adds less than the copy it took was worth. *)
Lemma turned_work name s s' :
  routed s -> turned name s s' ->
  map_sum target_work (tgts s') <= map_sum target_work (tgts s) + Z.of_nat (height name) /\
  srcs s' = srcs s /\ wrks s' = wrks s /\ main s' = main s.
Proof.
  intros Hr [Hs Hw _ Hm _ _ (tgt & w & st & w' & Hn & Ht & _ & _ & Hl & Ha & Hq)].
  split; [| done]. rewrite Ht, (map_sum_replace _ _ _ _ _ Hn).
  destruct (rt_tgts _ Hr _ _ Hn) as (_ & _ & _ & Hb).
  pose proof (lower_carry s name (queue st) Hl (Hq Hb)).
  change (target_work (st, tgt, w')) with (age st + zsum carry (queue st)).
  change (target_work (Idle, tgt, w)) with 1. lia.
Qed.

Lemma handover_work name i s s' :
  inv 0 s -> exec (Handover name i) s = Some (Ret s') -> work s' < work s.
Proof.
  intros Hi He. cbn [exec] in He. unfold handover in He.
  destruct (srcs s !! name) as [[[st src] w] |] eqn:Hk; [| done].
  destruct st as [| | [| [x data] q] |]; try done.
  destruct (inv_carries _ _ Hi _ _ Hk) as (data' & l & Hq & Hl & Hts). injection Hq as -> -> ->.
  destruct (worker_turn i (Receive data') s) as [[s1 |] |] eqn:Ht; try done.
  injection He as <-. pose proof (worker_receive_effect _ _ _ _ _ Hl Ht) as [E1 E2 _ _ _ Em _].
  destruct (worker_received _ _ _ _ _ Hl Ht) as (_ & ww & ww' & Hkw & Hw).
  unfold work. cbn [srcs tgts wrks main set_srcs after]. rewrite E1, E2, Em, Hw.
  rewrite (map_sum_replace _ _ _ _ _ Hk), (map_sum_replace _ _ _ _ _ Hkw).
  set (c := copies _ _ _).
  change (worker_work (after c, ww')) with (age (after c) + zsum carry (queue (after c))).
  rewrite queue_of_after, age_after. change (worker_work (Idle, ww)) with 1.
  change (source_work (Idle, src, w)) with 1.
  change (source_work (Sending [("", data')], src, w))
    with (1 + 1 * (1 + zsum trip (Source_Targets_ src))).
  pose proof (copies_carry (TargetConnectors (cm s)) data' (Broker_Targets l)) as Hc.
  fold c in Hc. rewrite Hts in Hc. lia.
Qed.

Lemma dispatch_work i s s' :
  inv 0 s -> routed s -> exec (Dispatch i) s = Some (Ret s') -> work s' < work s.
Proof.
  intros Hi Hr He. cbn [exec] in He. unfold dispatch in He.
  destruct (wrks s !! i) as [[[| | [| [target data] q] |] w] |] eqn:Hk; try done.
  destruct (target_turn target (Inbound data) s) as [[s1 |] |] eqn:Ht; try done.
  injection He as <-.
  apply (target_turned target (Inbound data)) in Ht;
    [| done | right; apply (sender_holds_worker _ _ _ _ _ Hi Hk)].
  destruct (turned_work _ _ _ Hr Ht) as (Hle & E1 & E2 & Em).
  unfold work. cbn [srcs tgts wrks main set_wrks]. rewrite E1, E2, Em.
  rewrite (map_sum_replace _ _ _ _ _ Hk).
  change (worker_work (after q, w)) with (age (after q) + zsum carry (queue (after q))).
  rewrite queue_of_after, age_after.
  change (worker_work (Sending ((target, data) :: q), w)) with (1 + (trip target + zsum carry q)).
  unfold trip. lia.
Qed.

Lemma fall_back_work name s s' :
  inv 0 s -> routed s -> exec (FallBack name) s = Some (Ret s') -> work s' < work s.
Proof.
  intros Hi Hr He. cbn [exec] in He. unfold fall_back in He.
  destruct (tgts s !! name) as [[[[| | [| [target data] q] |] tg] w] |] eqn:Hk; try done.
  destruct (target_turn target (Inbound data) s) as [[s1 |] |] eqn:Ht; try done.
  injection He as <-.
  apply (target_turned target (Inbound data)) in Ht;
    [| done | right; apply (sender_holds_target _ _ _ _ _ _ Hi Hk)].
  destruct (turned_work _ _ _ Hr Ht) as (Hle & E1 & E2 & Em).
  destruct Ht as [_ _ _ _ _ _ (tgt & wt & st & wt' & Hn & Hts & _)].
  assert (tgts s1 !! name = Some (Sending ((target, data) :: q), tg, w)) as Hk1
    by (rewrite Hts, lookup_insert_ne; [done | intros ->; congruence]).
  unfold work. cbn [srcs tgts wrks main set_tgts]. rewrite E1, E2, Em.
  rewrite (map_sum_replace _ _ _ _ _ Hk1).
  change (target_work (after q, tg, w)) with (age (after q) + zsum carry (queue (after q))).
  rewrite queue_of_after, age_after.
  change (target_work (Sending ((target, data) :: q), tg, w))
    with (1 + (trip target + zsum carry q)).
  unfold trip. lia.
Qed.

Lemma start_work a s s' :
  match a with SourceStart _ _ | TargetStart _ _ | WorkerStart _ => True | _ => False end ->
  exec a s = Some (Ret s') -> work s' < work s.
Proof.
  destruct a; try done; intros _; cbn [exec].
  - unfold source_start. destruct (srcs s !! name) as [[[[] src] w] |] eqn:Hk; try done.
    destruct (source_handle _ _ _ _ _) as [[[] w'] |]; [| done]. intros [= <-].
    unfold work. cbn [srcs tgts wrks main set_srcs]. rewrite (map_sum_replace _ _ _ _ _ Hk).
    change (source_work (NotStarted, src, w)) with 2.
    set (st := match dial with Some _ => Exited | None => _ end).
    assert (st = Idle \/ st = Exited) as Hst
      by (subst st; destruct dial; [by right |]; destruct (_.1); auto).
    assert (source_work (st, src, w') <= 1)
      by (destruct Hst as [-> | ->]; [change (1 <= 1) | change (0 <= 1)]; lia).
    lia.
  - unfold target_start. destruct (tgts s !! name) as [[[[] tgt] w] |] eqn:Hk; try done.
    destruct (target_handle _ _ _ _ _) as [[[] w'] |]; [| done]. intros [= <-].
    unfold work. cbn [srcs tgts wrks main set_tgts]. rewrite (map_sum_replace _ _ _ _ _ Hk).
    change (target_work (NotStarted, tgt, w)) with 2.
    assert (target_work (match dial with Some _ => Exited | None => Idle end, tgt, w') <= 1)
      by (destruct dial; [change (0 <= 1) | change (1 <= 1)]; lia).
    lia.
  - unfold worker_start. destruct (wrks s !! i) as [[[] w] |] eqn:Hk; try done. intros [= <-].
    unfold work. cbn [srcs tgts wrks main set_wrks]. rewrite (map_sum_replace _ _ _ _ _ Hk).
    change (worker_work (NotStarted, w)) with 2. change (worker_work (Idle, w)) with 1. lia.
Qed.

Lemma closing_work a s s' :
  inv 0 s -> closing a = true -> exec a s = Some (Ret s') -> work s' < work s.
Proof.
  intros Hi. destruct a; try done; intros _; cbn [exec].
  - destruct (SourceStop (cm s)); [| done]. intros He. pose proof He as He'.
    unfold source_turn in He. destruct (srcs s !! name) as [[[[] src] w] |] eqn:Hk; try done.
    clear He. destruct (source_stop_turn s name src w Hk) as (w' & Ht);
      [by eapply live_source |]. rewrite Ht in He'. injection He' as <-.
    unfold work. cbn. rewrite (map_sum_replace _ _ _ _ _ Hk).
    change (source_work (Idle, src, w)) with 1. change (source_work (Exited, src, w')) with 0. lia.
  - destruct (TargetStop (cm s)); [| done]. intros He. pose proof He as He'.
    unfold target_turn in He. destruct (tgts s !! name) as [[[[] tgt] w] |] eqn:Hk; try done.
    clear He. destruct (target_stop_turn s name tgt w Hk) as (w' & Ht);
      [by eapply live_target |]. rewrite Ht in He'. injection He' as <-.
    unfold work. cbn. rewrite (map_sum_replace _ _ _ _ _ Hk).
    change (target_work (Idle, tgt, w)) with 1. change (target_work (Exited, tgt, w')) with 0. lia.
  - destruct (Worker_StopChan (wm s)); [| done]. intros He. pose proof He as He'.
    unfold worker_turn in He. destruct (wrks s !! i) as [[[] w] |] eqn:Hk; try done.
    clear He. destruct (worker_stop_turn s i w Hk) as (w' & Ht & _);
      [by eapply live_worker |]. rewrite Ht in He'. injection He' as <-.
    unfold work. cbn. rewrite (map_sum_replace _ _ _ _ _ Hk).
    change (worker_work (Idle, w)) with 1. change (worker_work (Exited, w')) with 0. lia.
  - intros He. assert (exists m w p, s' = set_main m w p s /\ rank p < rank (main s))
      as (m & w & p & -> & Hp); [| unfold work; cbn; lia].
    unfold broker_start, WorkerManager_Stop, StopTargets, close_channel in He.
    destruct (main s) eqn:Hmain; repeat case_match; simplify_eq; by eexists _, _, _.
Qed.

Lemma internal_work a s s' :
  inv 0 s -> routed s -> internal a = true -> exec a s = Some (Ret s') -> work s' < work s.
Proof.
  intros Hi Hr Ha He. destruct a as [name d | name d | i | | | | | | name i | i | name | |]; try done.
  - by apply (start_work (SourceStart name d)).
  - by apply (start_work (TargetStart name d)).
  - by apply (start_work (WorkerStart i)).
  - by eapply closing_work; [| | exact He].
  - by eapply closing_work; [| | exact He].
  - by eapply closing_work; [| | exact He].
  - by eapply handover_work.
  - by eapply dispatch_work.
  - by eapply fall_back_work.
  - by eapply closing_work; [| | exact He].
Qed.

(** What every step from outside or inside keeps. *)
Record draining (s : sys) : Prop := {
  dr_inv : inv 0 s;
  dr_routed : routed s;
  dr_stop : SourceStop (cm s) = true;
}.

(** The steps from inside leave the sources stopped. *)
Lemma internal_stop a s s' :
  inv 0 s -> internal a = true -> exec a s = Some (Ret s') ->
  SourceStop (cm s') = SourceStop (cm s).
Proof.
  intros Hi Ha. pose proof (inv_counted _ _ Hi) as Hc.
  destruct a as [name d | name d | i | | | name | name | i | name i | i | name | |]; try done;
    clear Ha; cbn [exec].
  - unfold source_start. destruct (srcs s !! name) as [[[[] src] w] |] eqn:Hk; try done.
    pose proof (live_source _ _ _ _ _ Hi Hk eq_refl) as Hw.
    destruct (source_handle_spec name src d (enter (cm s) w) Hc Hw) as (w' & -> & Hm).
    intros [= <-]. apply (mv_sstop _ _ _ _ _ Hm).
  - unfold target_start. destruct (tgts s !! name) as [[[[] tgt] w] |] eqn:Hk; try done.
    pose proof (live_target _ _ _ _ _ Hi Hk eq_refl) as Hw.
    pose proof (target_handle_spec name tgt d (enter (cm s) w) Hc Hw) as Hm.
    destruct (target_handle _ _ _ _ _) as [[[] w'] |]; [| done]. intros [= <-].
    apply (mv_sstop _ _ _ _ _ Hm).
  - unfold worker_start. destruct (wrks s !! i) as [[[] w] |]; try done. by intros [= <-].
  - destruct (SourceStop (cm s)) eqn:Hs; [| done]. intros He. pose proof He as He'.
    unfold source_turn in He'. destruct (srcs s !! name) as [[[[] src] w] |] eqn:Hk; try done.
    destruct (source_stop_turn s name src w Hk) as (w' & Ht); [by eapply live_source |].
    rewrite Ht in He. by injection He as <-.
  - destruct (TargetStop (cm s)); [| done]. intros He.
    by apply (target_turn_effect name StopTarget s s' Hi (or_introl eq_refl)) in He as [].
  - destruct (Worker_StopChan (wm s)); [| done]. intros He.
    apply worker_stop_effect in He. by rewrite (we_cm _ _ _ _ _ He).
  - unfold handover. destruct (srcs s !! name) as [[[st src] w] |] eqn:Hk; [| done].
    destruct st as [| | [| [x data] q] |]; try done.
    destruct (inv_carries _ _ Hi _ _ Hk) as (data' & l & Hq & Hl & _). injection Hq as -> -> ->.
    destruct (worker_turn i (Receive data') s) as [[s1 |] |] eqn:Ht; try done. intros [= <-].
    apply (worker_receive_effect _ _ _ _ _ Hl) in Ht. cbn. by rewrite (we_cm _ _ _ _ _ Ht).
  - unfold dispatch.
    destruct (wrks s !! i) as [[[| | [| [target data] q] |] w] |] eqn:Hk; try done.
    destruct (target_turn target (Inbound data) s) as [[s1 |] |] eqn:Ht; try done. intros [= <-].
    pose proof (sender_holds_worker _ _ _ _ _ Hi Hk) as Hpos.
    by destruct (target_turned target (Inbound data) s s1 Hi (or_intror Hpos) Ht).
  - unfold fall_back.
    destruct (tgts s !! name) as [[[[| | [| [target data] q] |] tg] w] |] eqn:Hk; try done.
    destruct (target_turn target (Inbound data) s) as [[s1 |] |] eqn:Ht; try done. intros [= <-].
    pose proof (sender_holds_target _ _ _ _ _ _ Hi Hk) as Hpos.
    by destruct (target_turned target (Inbound data) s s1 Hi (or_intror Hpos) Ht).
  - unfold broker_start, StopTargets. by repeat case_match; intros; simplify_eq.
Qed.

Lemma internal_draining s s' : draining s -> internal_step s s' -> draining s' /\ work s' < work s.
Proof.
  intros [Hi Hr Hs] (a & Ha & He). assert (admissible a s) as Had by by destruct a.
  pose proof (exec_inv a s Hi Had) as Hi'. rewrite He in Hi'. split; [split |].
  - exact Hi'.
  - by apply (exec_routed a s).
  - by rewrite (internal_stop a s s' Hi Ha He).
  - by apply (internal_work a).
Qed.

(** ** There is a step to take, or a reason why not *)

(** Somebody is blocked in a send to the target [t]. *)
Inductive waits (s : sys) (t : string) : Prop :=
  | waits_worker i d q w : wrks s !! i = Some (Sending ((t, d) :: q), w) -> waits s t
  | waits_target name d q tg w :
      tgts s !! name = Some (Sending ((t, d) :: q), tg, w) -> waits s t.

(** What keeps a broker from its end: a token that nobody gives back, a target
    that died while messages wait for it, the panic of a refused delivery. *)
Inductive fault (s : sys) : Prop :=
  | fault_lost : 0 < unknown s + zsum lost (fates s) -> fault s
  | fault_dead t tg w : tgts s !! t = Some (Exited, tg, w) -> waits s t -> fault s
  | fault_panic a why : internal a = true -> exec a s = Some (Panic why) -> fault s.

Notation goes s := (fault s \/ exists s', internal_step s s').

(** An action that can be taken goes on or panics. *)
Lemma goes_on a s o : internal a = true -> exec a s = Some o -> goes s.
Proof.
  intros Ha He. destruct o as [s' | why]; [right; exists s', a; done |].
  left. by eapply fault_panic.
Qed.

Lemma goes_source s name src w st :
  inv 0 s -> SourceStop (cm s) = true ->
  srcs s !! name = Some (st, src, w) -> st = NotStarted \/ st = Idle -> goes s.
Proof.
  intros Hi Hs Hk [-> | ->].
  - eapply (goes_on (SourceStart name None)); [done |]. cbn. unfold source_start. by rewrite Hk.
  - eapply (goes_on (StopSignalSource name)); [done |]. cbn. rewrite Hs.
    unfold source_turn. by rewrite Hk.
Qed.

Lemma target_start_goes s name tgt w : tgts s !! name = Some (NotStarted, tgt, w) -> goes s.
Proof.
  intros Hk. eapply (goes_on (TargetStart name None)); [done |].
  cbn. unfold target_start. by rewrite Hk.
Qed.

Lemma worker_start_goes s i w : wrks s !! i = Some (NotStarted, w) -> goes s.
Proof.
  intros Hk. eapply (goes_on (WorkerStart i)); [done |]. cbn. unfold worker_start. by rewrite Hk.
Qed.

(** A rendezvous with a target that is at its [select] takes place. *)
Lemma waits_goes s t tgt w : waits s t -> tgts s !! t = Some (Idle, tgt, w) -> goes s.
Proof.
  intros Hwait Hk.
  assert (forall d, exists o, target_turn t (Inbound d) s = Some o) as Hturn.
  { intros d. unfold target_turn. rewrite Hk. by eexists. }
  destruct Hwait as [i d q w' Hw | name d q tg w' Hw]; destruct (Hturn d) as [[s1 | why] Ho].
  - eapply (goes_on (Dispatch i)); [done |]. cbn. unfold dispatch. by rewrite Hw, Ho.
  - eapply (goes_on (Dispatch i)); [done |]. cbn. unfold dispatch. by rewrite Hw, Ho.
  - eapply (goes_on (FallBack name)); [done |]. cbn. unfold fall_back. by rewrite Hw, Ho.
  - eapply (goes_on (FallBack name)); [done |]. cbn. unfold fall_back. by rewrite Hw, Ho.
Qed.

(** Whoever waits for a target: the chain of targets that wait for a lower one
    ends. *)
Lemma chain_goes s t : routed s -> t ∈ TargetConnectors (cm s) -> waits s t -> goes s.
Proof.
  intros Hr. remember (height t) as h eqn:Hh. revert t Hh.
  induction (lt_wf h) as [h _ IH]. intros t -> Hin Hwait.
  rewrite <- (rt_dom _ Hr) in Hin. apply elem_of_dom in Hin as [[[st tgt] w] Hk].
  destruct (rt_tgts _ Hr _ _ Hk) as (Hp & Hq & _). cbn in Hp, Hq.
  destruct st as [| | [| [t' d] q] |].
  - by eapply target_start_goes.
  - by eapply waits_goes.
  - by destruct Hp.
  - apply list.Forall_cons in Hq as [[Hin' Hlt] _]. cbn in Hin', Hlt.
    apply (IH (height t')) with t'; [done | done | done | by eapply waits_target].
  - left. by eapply fault_dead.
Qed.

Lemma worker_goes s i w q :
  routed s -> wrks s !! i = Some (Sending q, w) -> goes s.
Proof.
  intros Hr Hk. destruct (rt_wrks _ Hr _ _ Hk) as [Hp Hq]. cbn in Hp, Hq.
  destruct q as [| [t d] q]; [by destruct Hp |]. apply list.Forall_cons in Hq as [Hin _].
  apply (chain_goes s t); [done | done | by eapply waits_worker].
Qed.

Lemma target_goes s name tgt w q :
  routed s -> tgts s !! name = Some (Sending q, tgt, w) -> goes s.
Proof.
  intros Hr Hk. destruct (rt_tgts _ Hr _ _ Hk) as (Hp & Hq & _). cbn in Hp, Hq.
  destruct q as [| [t d] q]; [by destruct Hp |]. apply list.Forall_cons in Hq as [[Hin _] _].
  apply (chain_goes s t); [done | done | by eapply waits_target].
Qed.

(** A source that is blocked in a send finds a worker that will take the
    message, for the workers outlive the sources. *)
Lemma sending_source_goes s name src w q :
  inv 0 s -> routed s -> srcs s !! name = Some (Sending q, src, w) -> goes s.
Proof.
  intros Hi Hr Hk. pose proof (live_source _ _ _ _ _ Hi Hk eq_refl) as Hlive.
  assert (Worker_StopChan (wm s) = false) as Hstop.
  { pose proof (inv_phase _ _ Hi) as Hp. unfold phase_ok in Hp.
    destruct (main s); lia || tauto. }
  destruct (map_choose _ (rt_some _ Hr)) as (i & [st ww] & Hi').
  pose proof (rt_live _ Hr Hstop _ _ Hi') as Hex. cbn in Hex.
  destruct (inv_carries _ _ Hi _ _ Hk) as (data & l & -> & Hl & _).
  destruct st as [| | q |]; [by eapply worker_start_goes | | by eapply worker_goes | done].
  pose proof (worker_turn_receive_inv i data l s Hi Hl) as Ht.
  destruct (worker_turn i (Receive data) s) as [[s1 | why] |] eqn:E; [| done |].
  - eapply (goes_on (Handover name i)); [done |]. cbn. unfold handover. by rewrite Hk, E.
  - unfold worker_turn in E. by rewrite Hi' in E.
Qed.

Lemma not_all_exited {K A} `{Countable K} (f : A -> status) (m : gmap K A) :
  {map_Forall (fun _ x => f x = Exited) m} + {exists k x, m !! k = Some x /\ f x <> Exited}.
Proof.
  assert (forall x, Decision (f x = Exited)) as Hdec
    by (intros x; destruct (f x); (by left) || (by right)).
  destruct (decide (map_Forall (fun _ x => f x = Exited) m)) as [Hall | Hsome]; [by left |].
  right. apply map_not_Forall in Hsome as (k & x & Hk & Hx); [by exists k, x | intros; apply _].
Qed.

Lemma all_exited_sum {K A} `{Countable K} (f : A -> status) (g : status -> Z) (m : gmap K A) :
  g Exited = 0 -> map_Forall (fun _ x => f x = Exited) m -> map_sum (fun x => g (f x)) m = 0.
Proof. intros Hg Hall. apply map_sum_all0. intros k x Hk. by rewrite (Hall k x Hk). Qed.

(** Phase by phase, once the sources have returned. *)
Lemma workers_go s : inv 0 s -> routed s -> main s = WaitWorkers -> goes s.
Proof.
  intros Hi Hr Hm. pose proof (inv_phase _ _ Hi) as Hp. unfold phase_ok in Hp. rewrite Hm in Hp.
  destruct Hp as (_ & _ & Hstop).
  destruct (not_all_exited (fun x : status * Worker => x.1) (wrks s)) as [Hall | Hsome].
  - apply (all_exited_sum (fun x : status * Worker => x.1) live) in Hall; [| done].
    eapply (goes_on BrokerStart); [done |]. cbn. unfold broker_start, Wait_returns.
    rewrite Hm, (inv_ww _ _ Hi). unfold worker_live. by rewrite Hall.
  - destruct Hsome as (i & [st w] & Hk & Hst). cbn in Hst.
    destruct st as [| | q |]; [by eapply worker_start_goes | | by eapply worker_goes | done].
    eapply (goes_on (StopSignalWorker i)); [done |]. cbn. rewrite Hstop.
    unfold worker_turn. by rewrite Hk.
Qed.

Lemma inflight_goes s :
  inv 0 s -> routed s -> map_Forall (fun _ x => x.1.1 = Exited) (srcs s) ->
  main s = WaitInFlight -> goes s.
Proof.
  intros Hi Hr Hsrc Hm. pose proof (inv_phase _ _ Hi) as Hp. unfold phase_ok in Hp.
  rewrite Hm in Hp. destruct Hp as (_ & Hww & Hts & _).
  destruct (decide (InFlightWaitGroup (cm s) = 0)) as [E | E].
  { eapply (goes_on BrokerStart); [done |]. cbn. unfold broker_start, StopTargets, close_channel.
    by rewrite Hm, E, Hts. }
  pose proof (queued_parts s) as (_ & P2 & _ & P4). pose proof (inv_unknown _ _ Hi) as Hu.
  destruct (decide (0 < unknown s + zsum lost (fates s))) as [| Hnl].
  { left. by apply fault_lost. }
  pose proof (inv_in _ _ Hi) as Hin. unfold queued in Hin.
  assert (map_sum source_tokens (srcs s) = 0) as Hq1.
  { apply map_sum_all0. intros k x Hk. unfold source_tokens. by rewrite (Hsrc k x Hk). }
  assert (map_sum worker_tokens (wrks s) = 0) as Hq2.
  { apply map_sum_all0. intros k [st w] Hk. rewrite (inv_ww _ _ Hi) in Hww.
    pose proof (map_sum_zero worker_live (wrks s) k _ (fun x => live_nonneg x.1) Hww Hk) as Hl.
    by destruct st. }
  destruct (decide (map_Forall (fun _ x => target_tokens x = 0) (tgts s))) as [Hall | Hsome].
  { assert (map_sum target_tokens (tgts s) = 0) by (by apply map_sum_all0). lia. }
  apply map_not_Forall in Hsome as (name & [[st tgt] w] & Hk & Hx); [| intros; apply _].
  destruct st as [| | q |]; [by destruct Hx | by destruct Hx | | by destruct Hx].
  by eapply target_goes.
Qed.

Lemma targets_go s : inv 0 s -> routed s -> main s = WaitTargets -> goes s.
Proof.
  intros Hi Hr Hm. pose proof (inv_phase _ _ Hi) as Hp. unfold phase_ok in Hp. rewrite Hm in Hp.
  destruct Hp as (_ & _ & Hin & Hstop).
  destruct (not_all_exited (fun x : status * Connector.Target * world => x.1.1) (tgts s))
    as [Hall | Hsome].
  - apply (all_exited_sum (fun x : status * Connector.Target * world => x.1.1) live) in Hall;
      [| done]. eapply (goes_on BrokerStart); [done |]. cbn. unfold broker_start.
    rewrite Hm, (inv_tw _ _ Hi). unfold target_live. by rewrite Hall.
  - destruct Hsome as (name & [[st tgt] w] & Hk & Hst). cbn in Hst.
    destruct st as [| | q |]; [by eapply target_start_goes | | by eapply target_goes | done].
    eapply (goes_on (StopSignalTarget name)); [done |]. cbn. rewrite Hstop.
    unfold target_turn. by rewrite Hk.
Qed.

Lemma progress s : draining s -> main s <> Done -> goes s.
Proof.
  intros [Hi Hr Hs] Hd.
  destruct (not_all_exited (fun x : status * Connector.Source * world => x.1.1) (srcs s))
    as [Hall | (name & [[st src] w] & Hk & Hst)].
  - destruct (main s) eqn:Hm; [| by apply workers_go | by apply inflight_goes
                                 | by apply targets_go | done].
    apply (all_exited_sum (fun x : status * Connector.Source * world => x.1.1) live) in Hall;
      [| done]. pose proof (inv_phase _ _ Hi) as Hp. unfold phase_ok in Hp. rewrite Hm in Hp.
    eapply (goes_on BrokerStart); [done |].
    cbn. unfold broker_start, WorkerManager_Stop, close_channel.
    rewrite Hm, (inv_sw _ _ Hi), (proj1 Hp). unfold source_live. by rewrite Hall.
  - cbn in Hst. destruct st as [| | q |]; [| | by eapply sending_source_goes | done];
      eapply goes_source; [done | done | exact Hk | auto | done | done | exact Hk | auto].
Qed.

(** ** From the start of the broker *)
Lemma map_seq_ne {A} (l : list A) : l <> [] -> (map_seq 0 l : gmap nat A) <> ∅.
Proof.
  destruct l as [| a l]; [done |]. intros _ E.
  assert ((map_seq 0 (a :: l) : gmap nat A) !! 0%nat = Some a) as Hl
    by (rewrite lookup_map_seq_0; done).
  by rewrite E in Hl.
Qed.

Lemma start_routed peers base b :
  Broker_ConnectorManager b = NewConnectorManager (Broker_Monitor b) -> 0 < NumWorkers b ->
  map_Forall (fun name t => ranked name (rule_breach <$> RateLimitRules t)) (Targets b) ->
  routed (Start peers base b).
Proof.
  intros Hc Hn Ht. unfold Start, WorkerManager_Start.
  destruct (start_groups (Sources b) (Targets b) (Broker_ConnectorManager b))
    as (_ & _ & _ & _ & _ & _ & _ & Hk). rewrite Hc in Hk at 2. cbn in Hk.
  set (m := ConnectorManager_Start _ _ _) in *.
  destruct (start_workers _ _ _ _) as [w ps] eqn:Hw. apply start_workers_spec in Hw as (Hl & _).
  split; cbn [cm wm srcs tgts wrks].
  - rewrite Hk, (right_id_L ∅ (∪)). apply (dom_imap_L (D := gset string)). intros i.
    rewrite elem_of_dom. split; [intros [x Hx]; by exists x | intros (x & Hx & _); by exists x].
  - intros k x Hx. apply lookup_map_seq_Some in Hx as [_ Hx]. rewrite list_lookup_fmap in Hx.
    destruct (ps !! (k - 0)%nat); [| done]. injection Hx as <-. split; [done | constructor].
  - intros k x. rewrite map_lookup_imap. destruct (Targets b !! k) as [t |] eqn:Hkt; [| done].
    cbn. intros [= <-]. split_and!; [done | constructor | apply (Ht _ _ Hkt) | constructor].
  - intros _ k x Hx. apply lookup_map_seq_Some in Hx as [_ Hx]. rewrite list_lookup_fmap in Hx.
    destruct (ps !! (k - 0)%nat); [| done]. by injection Hx as <-.
  - apply map_seq_ne. destruct ps; [cbn in Hl; lia | done].
Qed.

Lemma steps_routed s s' : inv 0 s -> routed s -> rtc step s s' -> inv 0 s' /\ routed s'.
Proof.
  intros Hi Hr Hsteps. induction Hsteps as [s | s1 s2 s3 (a & Ha & He) _ IH]; [done |].
  pose proof (exec_inv a s1 Hi Ha) as Hi2. rewrite He in Hi2.
  apply IH; [done |]. by apply (exec_routed a s1).
Qed.

Lemma internal_bounded n s s' :
  draining s -> nsteps internal_step n s s' -> draining s' /\ work s' + Z.of_nat n <= work s.
Proof.
  intros Hs Hn. revert Hs. induction Hn as [s | n s1 s2 s3 H12 _ IH]; intros Hs.
  { split; [done | lia]. }
  destruct (internal_draining _ _ Hs H12) as [Hs2 Hlt]. destruct (IH Hs2). split; [done | lia].
Qed.

(** C8. After [Broker.Stop] the broker empties itself: with at least one worker
    and rules that fall back along a ranking of the targets, the steps that
    need nothing from outside are at most [work] in number, in whatever order
    they are taken; and whenever no further one can be taken, [Broker.Start]
    and every goroutine have returned, or a token was lost, or a target died
    while a goroutine waits for it, or a refused delivery panics.  Messages
    that wait for a worker or a target never block one another. *)
Theorem broker_drains peers base b s :
  Broker_ConnectorManager b = NewConnectorManager (Broker_Monitor b) ->
  Broker_WorkerManager b = NewWorkerManager (Broker_Monitor b) ->
  0 < NumWorkers b ->
  map_Forall (fun name t => ranked name (rule_breach <$> RateLimitRules t)) (Targets b) ->
  rtc step (Start peers base b) s -> SourceStop (cm s) = true ->
  (forall n s', nsteps internal_step n s s' -> Z.of_nat n <= work s) /\
  (forall s', rtc internal_step s s' ->
   (main s' = Done /\ all_exited s') \/ fault s' \/ exists s'', internal_step s' s'').
Proof.
  intros Hc Hw Hn Ht Hsteps Hstop.
  destruct (steps_routed _ _ (start_inv peers base b Hc Hw)
    (start_routed peers base b Hc Hn Ht) Hsteps) as [Hi Hr].
  assert (draining s) as Hs by by split. split.
  - intros n s' Hns. destruct (internal_bounded n s s' Hs Hns) as [_ Hle].
    pose proof (work_nonneg s'). lia.
  - intros s' Hrtc. apply rtc_nsteps in Hrtc as [n Hns].
    destruct (internal_bounded n s s' Hs Hns) as [Hs' _].
    destruct (decide (main s' = Done)) as [Hd | Hd].
    + left. split; [done | by apply done_exited; [apply Hs' |]].
    + right. by apply progress.
Qed.
End Drain.

(** ** A concrete run *)
#[local] Existing Instance default_order.

(** A message for [a], whose rule falls back to [b], waits when the broker is
    told to stop. *)
Definition demo_chain : Broker :=
  AddTarget "b" {| Target_ConnectionDetails := demo_details;
    Target_Config_ := {| Target_Provider := "stdout"; Target_Endpoint := "";
      AlertChannels := None; RateLimit_ := []; Target_Config := ∅ |};
    RateLimitRules := [] |}
  (demo_broker ["a"] [demo_rule 10 "fallback" "b"]).

Definition demo_height (t : string) : nat := if String.eqb t "a" then 1 else 0.

Definition demo_chain_start : sys := Start demo_peers 10 demo_chain.
Definition demo_waiting : sys := ran (run (demo_send ++ [BrokerStop]) demo_chain_start) demo_chain_start.
Definition demo_emptying : list action :=
  [TargetStart "b" None; StopSignalSource "src"; Dispatch 0; BrokerStart; FallBack "a";
   StopSignalWorker 0; BrokerStart; BrokerStart; StopSignalTarget "b"; StopSignalTarget "a";
   BrokerStart].
Definition demo_empty : sys := ran (run demo_emptying demo_waiting) demo_waiting.

Lemma run_internal `{MapOrder} actions s s' :
  forallb internal actions = true -> run actions s = Some s' -> rtc internal_step s s'.
Proof.
  revert s. induction actions as [| a actions IH]; intros s; cbn [run forallb].
  { intros _ [= <-]. done. }
  intros [Ha Hall]%andb_prop. destruct (admissible_b a s); [| done].
  destruct (exec a s) as [[s1 |] |] eqn:He; [| done..]. intros Hr.
  apply rtc_l with s1; [by exists a | by apply IH].
Qed.

Lemma ran_steps actions s : rtc step s (ran (run actions s) s).
Proof. unfold ran. destruct (run actions s) eqn:E; [by eapply run_steps | done]. Qed.

Lemma ran_internal actions s :
  forallb internal actions = true -> rtc internal_step s (ran (run actions s) s).
Proof.
  intros Ha. unfold ran. destruct (run actions s) eqn:E; [by eapply run_internal | done].
Qed.

Lemma broker_drains_witness :
  work demo_height demo_waiting = 11 /\
  (forall n s', nsteps internal_step n demo_waiting s' -> Z.of_nat n <= 11) /\
  rtc internal_step demo_waiting demo_empty /\ main demo_empty = Done.
Proof.
  assert (work demo_height demo_waiting = 11) as E by (vm_compute; reflexivity).
  destruct (broker_drains demo_height demo_peers 10 demo_chain demo_waiting) as [Hb _].
  - reflexivity.
  - reflexivity.
  - reflexivity.
  - apply map_Forall_insert_2; [apply list.Forall_nil; exact I |].
    apply map_Forall_insert_2; [| apply map_Forall_empty].
    apply list.Forall_cons. split; [intros _; vm_compute; lia | apply list.Forall_nil; exact I].
  - apply ran_steps.
  - vm_compute; reflexivity.
  - rewrite E in Hb. split; [exact E |]. split; [exact Hb |]. split; [| vm_compute; reflexivity].
    apply (ran_internal demo_emptying demo_waiting). reflexivity.
Defined.
