(* ===== verification/NomadConfig.v ===== *)
(** * The configuration of an allocation: [src/source/nomad/config.go]

    What the meta entries of a Nomad job say about shipping its logs. *)
From Stdlib Require Import Ascii.
From S2P Require Import Prelude.

(** ** Requests *)

(** What happens to a request to Consul: it is answered, it does not get through,
    or it is done and the answer does not come back.  The last two are errors to
    the program. *)
Inductive request := Answered | Lost | Unheard.

(** ** Data: the fields of the Nomad API structs that the program reads *)
Record Task := { Task_Name : string; Task_Meta : gmap string string }.

Record TaskGroup := {
  TaskGroup_Name : option string;
  Tasks : list Task;
  TaskGroup_Meta : gmap string string;
}.

Record Job := {
  Job_ID : option string;
  Job_Name : option string;
  TaskGroups : list TaskGroup;
  Job_Meta : gmap string string;
}.

Record TaskEvent := {
  Event_Type : string;
  Event_Time : Z;
  DriverMessage : string;
  DriverError : string;
}.

(** [Allocation]; a nil job is [None]. *)
Record Allocation := {
  Alloc_ID : string;
  Alloc_Job : option Job;
  Alloc_TaskGroup : string;
  TaskStates : gmap string (list TaskEvent);
}.

(** ** Data: the configuration *)
Record SourceConfig := { SourceConfig_Type : string; LogDelimiter : string }.

Record JobConfig := { JobConfig_ID : string; JobConfig_Enabled : bool }.

(** [Files] and [Outputs] are [None] while the map is nil. *)
Record GroupConfig := {
  GroupConfig_ID : string;
  GroupConfig_Enabled : bool;
  Files : option (gmap string SourceConfig);
}.

Record TaskConfig := {
  TaskConfig_ID : string;
  TaskConfig_Enabled : bool;
  Outputs : option (gmap string SourceConfig);
  WatchNomadEvents : bool;
}.

Record AllocationConfig := {
  JobConfig_ : JobConfig;
  GroupConfigs : gmap string GroupConfig;
  TaskConfigs : gmap string TaskConfig;
  Alloc : Allocation;
}.

(** ** [strings.Split] for a separator of one character *)
Fixpoint Split (s : string) (sep : Ascii.ascii) : list string :=
  match s with
  | EmptyString => [""]
  | String c s =>
      if Ascii.eqb c sep then "" :: Split s sep
      else match Split s sep with
           | [] => [String c ""]
           | part :: parts => String c part :: parts
           end
  end.

Definition comma : Ascii.ascii := ","%char.
Definition colon : Ascii.ascii := ":"%char.
Definition newline : string := String (Ascii.ascii_of_nat 10) "".

(** ** Operations *)

(** The body of the loops over the files and the outputs. *)
Definition add_source (configs : gmap string SourceConfig) (s : string)
    : gmap string SourceConfig :=
  let parts := Split s colon in
  if Z.of_nat (length parts) <? 0 then configs
  else
    let config := {| LogDelimiter := newline; SourceConfig_Type := "allocation-log-file" |} in
    let config := match parts with
                  | _ :: type :: _ =>
                      {| LogDelimiter := LogDelimiter config; SourceConfig_Type := type |}
                  | _ => config
                  end in
    let config := match parts with
                  | _ :: _ :: delimiter :: _ =>
                      {| LogDelimiter := delimiter;
                         SourceConfig_Type := SourceConfig_Type config |}
                  | _ => config
                  end in
    match parts with
    | part :: _ => <[part := config]> configs
    | [] => configs
    end.

Definition source_configs (s : string) : gmap string SourceConfig :=
  foldl add_source ∅ (Split s comma).

(** [x, ok := meta[key]; ok && x == value]. *)
Definition meta_is (meta : gmap string string) (key value : string) : bool :=
  match meta !! key with Some x => String.eqb x value | None => false end.

Definition metaToGroupConfig (meta : gmap string string) : GroupConfig :=
  let enabled := true in
  let id := default "" (meta !! "log_shipper_id") in
  let enabled := if meta_is meta "log_shipper_enabled" "false" then false else enabled in
  let enabled := if meta_is meta "log_shipper_enabled" "true" then true else enabled in
  {| GroupConfig_ID := id; GroupConfig_Enabled := enabled;
     Files := source_configs <$> meta !! "log_shipper_files" |}.

Definition metaToTaskConfig (meta : gmap string string) : TaskConfig :=
  let enabled := true in
  let watch := true in
  let id := default "" (meta !! "log_shipper_id") in
  let enabled := if meta_is meta "log_shipper_enabled" "false" then false else enabled in
  let enabled := if meta_is meta "log_shipper_enabled" "true" then true else enabled in
  let watch := if meta_is meta "log_shipper_watch_events" "true" then true else watch in
  let watch := if meta_is meta "log_shipper_watch_events" "false" then false else watch in
  {| TaskConfig_ID := id; TaskConfig_Enabled := enabled;
     Outputs := source_configs <$> meta !! "log_shipper_outputs";
     WatchNomadEvents := watch |}.

Definition metaToJobConfig (meta : gmap string string) : JobConfig :=
  let enabled := true in
  let id := default "" (meta !! "log_shipper_id") in
  let enabled := if meta_is meta "log_shipper_enabled" "false" then false else enabled in
  let enabled := if meta_is meta "log_shipper_enabled" "true" then true else enabled in
  {| JobConfig_ID := id; JobConfig_Enabled := enabled |}.

Definition group_key (job group : string) : string := job +:+ "/" +:+ group.
Definition task_key (job group task : string) : string :=
  job +:+ "/" +:+ group +:+ "/" +:+ task.

(** The inner loop of [NewFromAllocation]; the names it dereferences are those
    of the job and the group. *)
Definition add_tasks (job group : string) (tasks : list Task)
    (configs : gmap string TaskConfig) : gmap string TaskConfig :=
  foldl (fun configs task =>
    <[task_key job group (Task_Name task) := metaToTaskConfig (Task_Meta task)]> configs)
    configs tasks.

Fixpoint add_groups (job : option string) (groups : list TaskGroup)
    (gs : gmap string GroupConfig) (ts : gmap string TaskConfig)
    : outcome (gmap string GroupConfig * gmap string TaskConfig) :=
  match groups with
  | [] => Ret (gs, ts)
  | group :: groups =>
      match job, TaskGroup_Name group with
      | Some j, Some g =>
          add_groups job groups
            (<[group_key j g := metaToGroupConfig (TaskGroup_Meta group)]> gs)
            (add_tasks j g (Tasks group) ts)
      | _, _ => Panic nil_deref
      end
  end.

Definition NewFromAllocation (alloc : Allocation) : outcome AllocationConfig :=
  match Alloc_Job alloc with
  | None => Panic nil_deref
  | Some job =>
      match add_groups (Job_Name job) (TaskGroups job) ∅ ∅ with
      | Panic why => Panic why
      | Ret (groupConfigs, taskConfigs) =>
          Ret {| JobConfig_ := metaToJobConfig (Job_Meta job);
                 GroupConfigs := groupConfigs; TaskConfigs := taskConfigs;
                 Alloc := alloc |}
      end
  end.

(** ** [Split] *)
Fixpoint lacks (sep : ascii) (s : string) : bool :=
  match s with
  | EmptyString => true
  | String c s => negb (Ascii.eqb c sep) && lacks sep s
  end.

Lemma Split_nonempty s sep : Split s sep <> [].
Proof.
  destruct s as [| c s]; [done |]. cbn. destruct (Ascii.eqb c sep); [done |].
  by destruct (Split s sep).
Qed.

Lemma Split_lacks s sep : lacks sep s = true -> Split s sep = [s].
Proof.
  induction s as [| c s IH]; [done |]. cbn. intros [Hc Hs]%andb_prop.
  apply negb_true_iff in Hc. by rewrite Hc, IH.
Qed.

Lemma Split_app s t sep :
  lacks sep s = true -> Split (s +:+ String sep t) sep = s :: Split t sep.
Proof.
  induction s as [| c s IH].
  - intros _. change ("" +:+ String sep t) with (String sep t). cbn [Split].
    by rewrite (proj2 (Ascii.eqb_eq sep sep) eq_refl).
  - cbn [lacks]. intros [Hc Hs]%andb_prop. apply negb_true_iff in Hc.
    change (String c s +:+ String sep t) with (String c (s +:+ String sep t)). cbn [Split].
    by rewrite Hc, IH.
Qed.

Lemma lacks_app sep s t : lacks sep (s +:+ t) = lacks sep s && lacks sep t.
Proof.
  induction s as [| c s IH]; [done |].
  change (String c s +:+ t) with (String c (s +:+ t)). cbn [lacks].
  by rewrite IH, andb_assoc.
Qed.

(** Splitting what was joined, for parts without the separator. *)
Lemma Split_concat sep parts :
  parts <> [] -> Forall (fun p => lacks sep p = true) parts ->
  Split (String.concat (String sep "") parts) sep = parts.
Proof.
  induction parts as [| p parts IH]; [done |]. intros _ [Hp Hps]%list.Forall_cons.
  destruct parts as [| p2 parts]; [by apply Split_lacks |].
  change (String.concat (String sep "") (p :: p2 :: parts))
    with (p +:+ String sep (String.concat (String sep "") (p2 :: parts))).
  by rewrite Split_app, IH.
Qed.

(** ** What the meta entries mean *)

(** One output as it is written in the meta entry: [name:type:delimiter]. *)
Definition print_source (x : string * SourceConfig) : string :=
  String.concat (String colon "") [x.1; SourceConfig_Type x.2; LogDelimiter x.2].

Definition printable (x : string * SourceConfig) : Prop :=
  Forall (fun p => lacks comma p = true /\ lacks colon p = true)
    [x.1; SourceConfig_Type x.2; LogDelimiter x.2].

Lemma add_printed configs x :
  printable x -> add_source configs (print_source x) = <[x.1 := x.2]> configs.
Proof.
  intros Hx. unfold add_source, print_source. rewrite Split_concat; [| done |].
  - cbn. by destruct x as [name [type delimiter]].
  - by eapply list.Forall_impl; [exact Hx | intros ? []].
Qed.

Lemma print_lacks_comma x : printable x -> lacks comma (print_source x) = true.
Proof.
  unfold printable, print_source. rewrite !list.Forall_cons.
  intros ((H1 & _) & (H2 & _) & (H3 & _) & _). cbn [String.concat].
  by rewrite !lacks_app, H1, H2, H3.
Qed.

Lemma foldl_add_printed l m :
  Forall printable l ->
  foldl add_source m (print_source <$> l) = foldl (fun m kv => <[kv.1 := kv.2]> m) m l.
Proof.
  intros Hl. revert m. induction Hl as [| x l Hx _ IH]; intros m; [done |].
  rewrite fmap_cons. cbn [foldl]. by rewrite add_printed, IH.
Qed.

Lemma source_configs_printed l :
  l <> [] -> NoDup l.*1 -> Forall printable l ->
  source_configs (String.concat (String comma "") (print_source <$> l)) = list_to_map l.
Proof.
  intros Hne Hnd Hl. unfold source_configs. rewrite Split_concat.
  - rewrite foldl_add_printed, foldl_insert by done. by rewrite (right_id_L ∅ (∪)).
  - by destruct l.
  - apply Forall_fmap. eapply list.Forall_impl; [exact Hl | apply print_lacks_comma].
Qed.

(** C38. What a job's author writes is what the shipper reads: outputs written
    as [name:type:delimiter], separated by commas, with distinct names and no
    comma or colon inside a part, are read back as exactly that map, by the
    task and by the group configuration. *)
Theorem outputs_roundtrip l meta :
  l <> [] -> NoDup l.*1 -> Forall printable l ->
  let text := String.concat (String comma "") (print_source <$> l) in
  Outputs (metaToTaskConfig (<["log_shipper_outputs" := text]> meta))
  = Some (list_to_map l) /\
  Files (metaToGroupConfig (<["log_shipper_files" := text]> meta)) = Some (list_to_map l).
Proof.
  intros Hne Hnd Hl text. unfold metaToTaskConfig, metaToGroupConfig.
  cbn [Outputs Files]. rewrite !lookup_insert_eq.
  pose proof (source_configs_printed l Hne Hnd Hl) as E.
  exact (conj (f_equal Some E) (f_equal Some E)).
Qed.

(** The guard [len(parts) < 0] of both loops is never taken: even the empty
    entry defines a source, with an empty name. *)
Lemma add_source_defines configs s :
  exists name config, add_source configs s = <[name := config]> configs.
Proof.
  unfold add_source. rewrite (proj2 (Z.ltb_ge _ 0)) by lia.
  destruct (Split s colon) as [| p [| t [| d ps]]] eqn:E; [| by eexists _, _..].
  by destruct (Split_nonempty s colon).
Qed.

Example empty_outputs :
  source_configs ""
  = {["" := {| LogDelimiter := newline; SourceConfig_Type := "allocation-log-file" |}]}.
Proof. done. Qed.

(** The three configurations read [log_shipper_enabled] alike: everything but
    the text [false] means enabled. *)
Lemma enabled_agree meta :
  GroupConfig_Enabled (metaToGroupConfig meta)
  = negb (meta_is meta "log_shipper_enabled" "false") /\
  TaskConfig_Enabled (metaToTaskConfig meta)
  = negb (meta_is meta "log_shipper_enabled" "false") /\
  JobConfig_Enabled (metaToJobConfig meta)
  = negb (meta_is meta "log_shipper_enabled" "false").
Proof.
  cbn. unfold meta_is. destruct (meta !! _) as [x |]; [| done].
  destruct (String.eqb_spec x "false") as [-> | _]; [done |].
  by destruct (String.eqb x "true").
Qed.

Lemma watch_spec meta :
  WatchNomadEvents (metaToTaskConfig meta)
  = negb (meta_is meta "log_shipper_watch_events" "false").
Proof.
  cbn. by destruct (meta_is meta "log_shipper_watch_events" "true"),
    (meta_is meta "log_shipper_watch_events" "false").
Qed.

(** ** Every task of the job has a configuration *)
Lemma add_tasks_mono job group tasks configs k :
  is_Some (configs !! k) -> is_Some (add_tasks job group tasks configs !! k).
Proof.
  unfold add_tasks. revert configs. induction tasks as [| t tasks IH]; intros configs Hk; [done |].
  cbn. apply IH. destruct (decide (k = task_key job group (Task_Name t))) as [-> |].
  - by rewrite lookup_insert_eq.
  - by rewrite lookup_insert_ne.
Qed.

Lemma add_tasks_has job group tasks configs t :
  In t tasks -> is_Some (add_tasks job group tasks configs !! task_key job group (Task_Name t)).
Proof.
  revert configs. induction tasks as [| t' tasks IH]; intros configs; [done |].
  intros [-> | Hin]; cbn [add_tasks foldl].
  - apply (add_tasks_mono job group tasks). by rewrite lookup_insert_eq.
  - by apply (IH (<[task_key job group (Task_Name t') := _]> configs)).
Qed.

Lemma add_groups_mono job groups gs ts gs' ts' k :
  add_groups job groups gs ts = Ret (gs', ts') -> is_Some (ts !! k) -> is_Some (ts' !! k).
Proof.
  revert gs ts. induction groups as [| g groups IH]; intros gs ts; cbn.
  { by intros [= <- <-]. }
  destruct job as [j |], (TaskGroup_Name g) as [gn |]; try done. intros Ha Hk.
  apply (IH _ _ Ha). by apply add_tasks_mono.
Qed.

Lemma add_groups_has j groups gs ts gs' ts' g gn t :
  add_groups (Some j) groups gs ts = Ret (gs', ts') ->
  In g groups -> TaskGroup_Name g = Some gn -> In t (Tasks g) ->
  is_Some (ts' !! task_key j gn (Task_Name t)).
Proof.
  revert gs ts. induction groups as [| g' groups IH]; intros gs ts; cbn [add_groups]; [done |].
  destruct (TaskGroup_Name g') as [gn' |] eqn:Hn; [| done]. intros Ha [-> | Hin] Hg Ht.
  - rewrite Hn in Hg. injection Hg as ->. eapply add_groups_mono; [exact Ha |].
    by apply add_tasks_has.
  - by eapply IH.
Qed.

Lemma config_of_task alloc job config j g gn t :
  NewFromAllocation alloc = Ret config ->
  Alloc_Job alloc = Some job -> Job_Name job = Some j ->
  In g (TaskGroups job) -> TaskGroup_Name g = Some gn -> In t (Tasks g) ->
  is_Some (TaskConfigs config !! task_key j gn (Task_Name t)).
Proof.
  unfold NewFromAllocation. intros Hc Hjob Hj Hg Hn Ht. rewrite Hjob, Hj in Hc.
  destruct (add_groups _ _ _ _) as [[gs ts] |] eqn:E; [| done]. injection Hc as <-.
  by eapply add_groups_has.
Qed.

(** ** Concrete runs *)
Lemma outputs_roundtrip_witness :
  Outputs (metaToTaskConfig {["log_shipper_outputs" := "stdout:file:;,stderr:x:|"]})
  = Some {["stdout" := {| SourceConfig_Type := "file"; LogDelimiter := ";" |};
           "stderr" := {| SourceConfig_Type := "x"; LogDelimiter := "|" |}]}.
Proof.
  destruct (outputs_roundtrip
    [("stdout", {| SourceConfig_Type := "file"; LogDelimiter := ";" |});
     ("stderr", {| SourceConfig_Type := "x"; LogDelimiter := "|" |})] ∅) as [Ho _].
  - done.
  - apply (bool_decide_unpack _). by vm_compute.
  - repeat constructor.
  - exact Ho.
Defined.
