(* ===== verification/Pool.v ===== *)
(** * The allocation pool and its workers

    [src/source/nomad/pool.go], and of [client.go] the [AllocationWorkers] map
    and the loop of [ReceiveLogs] that keeps it in step with the pool. *)
From S2P Require Import Prelude NomadConfig.

(** ** The pool *)
Record AllocationPool := { Allocations : list Allocation }.

Definition NewAllocationPool : AllocationPool := {| Allocations := [] |}.

(** What is sent on [AllocationAdded] and [AllocationRemoved]. *)
Inductive pool_event := AllocationAdded (a : Allocation) | AllocationRemoved (a : Allocation).

Fixpoint sliceContainsAllocation (allocation : Allocation) (allocations : list Allocation)
    : bool :=
  match allocations with
  | [] => false
  | i :: allocations =>
      if String.eqb (Alloc_ID i) (Alloc_ID allocation) then true
      else sliceContainsAllocation allocation allocations
  end.

Definition Has (allocation : Allocation) (p : AllocationPool) : bool :=
  sliceContainsAllocation allocation (Allocations p).

Definition Set_ (allocations : list Allocation) (p : AllocationPool) : AllocationPool :=
  {| Allocations := allocations |}.

(** The two loops of [Sync]: what they send, in order. *)
Fixpoint send_added (p : AllocationPool) (allocations : list Allocation) : list pool_event :=
  match allocations with
  | [] => []
  | alloc :: allocations =>
      (if negb (Has alloc p) then [AllocationAdded alloc] else [])
      ++ send_added p allocations
  end.

Fixpoint send_removed (allocations old : list Allocation) : list pool_event :=
  match old with
  | [] => []
  | alloc :: old =>
      (if negb (sliceContainsAllocation alloc allocations) then [AllocationRemoved alloc]
       else []) ++ send_removed allocations old
  end.

Definition Sync (allocations : list Allocation) (p : AllocationPool)
    : list pool_event * AllocationPool :=
  (send_added p allocations ++ send_removed allocations (Allocations p),
   Set_ allocations p).

(** ** The workers *)

(** [AllocationWorker], as far as the map needs it: its allocation and the
    address of its stop channel. *)
Record AllocationWorker := { Stop : nat; worker_allocation : Allocation }.

(** The map of workers, and the stop channels that were made: closed or not. *)
Record AllocationWorkers := {
  workers : gmap string AllocationWorker;
  channels : list bool;
}.

Definition NewAllocationWorkers : AllocationWorkers := {| workers := ∅; channels := [] |}.

Definition Add (alloc : Allocation) (worker : AllocationWorker) (a : AllocationWorkers)
    : AllocationWorkers :=
  {| workers := <[Alloc_ID alloc := worker]> (workers a); channels := channels a |}.

Definition Remove (alloc : Allocation) (a : AllocationWorkers) : AllocationWorkers :=
  match workers a !! Alloc_ID alloc with
  | Some _ => {| workers := delete (Alloc_ID alloc) (workers a); channels := channels a |}
  | None => a
  end.

Definition Close (alloc : Allocation) (a : AllocationWorkers) : outcome AllocationWorkers :=
  match workers a !! Alloc_ID alloc with
  | Some worker =>
      match channels a !! Stop worker with
      | Some true => Panic "close of closed channel"
      | _ => Ret {| workers := workers a; channels := <[Stop worker := true]> (channels a) |}
      end
  | None => Ret a
  end.

(** [make(chan struct{})] and [NewAllocationWorker]. *)
Definition make_worker (alloc : Allocation) (a : AllocationWorkers)
    : AllocationWorker * AllocationWorkers :=
  ({| Stop := length (channels a); worker_allocation := alloc |},
   {| workers := workers a; channels := channels a ++ [false] |}).

(** The [select] of [ReceiveLogs].  [Wait] blocks until the worker's goroutine
    has returned and changes nothing here; [NomadFleet] has it as a step of its own. *)
Definition receive_event (e : pool_event) (a : AllocationWorkers)
    : outcome AllocationWorkers :=
  match e with
  | AllocationAdded alloc =>
      let '(worker, a) := make_worker alloc a in Ret (Add alloc worker a)
  | AllocationRemoved alloc =>
      match Close alloc a with
      | Ret a => Ret (Remove alloc a)
      | Panic why => Panic why
      end
  end.

Fixpoint receive_events (es : list pool_event) (a : AllocationWorkers)
    : outcome AllocationWorkers :=
  match es with
  | [] => Ret a
  | e :: es =>
      match receive_event e a with
      | Ret a => receive_events es a
      | Panic why => Panic why
      end
  end.

(** [syncAllocations] and [ReceiveLogs] together: a sequence of syncs, each
    with what [getAllocations] returned. *)
Fixpoint sync_all (lists : list (list Allocation)) (p : AllocationPool)
    (a : AllocationWorkers) : outcome (AllocationPool * AllocationWorkers) :=
  match lists with
  | [] => Ret (p, a)
  | allocations :: lists =>
      let '(es, p) := Sync allocations p in
      match receive_events es a with
      | Ret a => sync_all lists p a
      | Panic why => Panic why
      end
  end.

(** ** [Sync] computes the two differences *)
Definition ids (l : list Allocation) : list string := Alloc_ID <$> l.

Lemma contains_spec a l : sliceContainsAllocation a l = bool_decide (Alloc_ID a ∈ ids l).
Proof.
  induction l as [| x l IH]; [done |]. cbn [sliceContainsAllocation ids fmap list_fmap].
  destruct (String.eqb_spec (Alloc_ID x) (Alloc_ID a)) as [E | E].
  - rewrite bool_decide_eq_true_2; [done |]. rewrite E. apply list_elem_of_here.
  - rewrite IH. apply bool_decide_ext. rewrite elem_of_cons. naive_solver.
Qed.

Definition added_ids (es : list pool_event) : list string :=
  es ≫= fun e => match e with AllocationAdded a => [Alloc_ID a] | _ => [] end.
Definition removed_ids (es : list pool_event) : list string :=
  es ≫= fun e => match e with AllocationRemoved a => [Alloc_ID a] | _ => [] end.

(** ** The workers follow the pool *)

(** A channel is open exactly when it is the stop channel of one worker in the
    map, and each worker is stored under the ID of its allocation. *)
Record tracked (a : AllocationWorkers) : Prop := {
  tr_open : forall id w, workers a !! id = Some w ->
    channels a !! Stop w = Some false /\ Alloc_ID (worker_allocation w) = id;
  tr_used : forall i, channels a !! i = Some false ->
    exists id w, workers a !! id = Some w /\ Stop w = i;
  tr_inj : forall id1 id2 w1 w2, workers a !! id1 = Some w1 -> workers a !! id2 = Some w2 ->
    Stop w1 = Stop w2 -> id1 = id2;
}.

Lemma tracked_new : tracked NewAllocationWorkers.
Proof. by split; intros *; cbn; rewrite ?lookup_empty, ?lookup_nil. Qed.

Lemma lookup_fresh (l : list bool) i b : l !! i = Some b -> i <> length l.
Proof. intros Hl ->. by rewrite lookup_ge_None_2 in Hl by lia. Qed.

Lemma tracked_added alloc a :
  tracked a -> Alloc_ID alloc ∉ dom (workers a) ->
  exists a', receive_event (AllocationAdded alloc) a = Ret a' /\ tracked a' /\
    dom (workers a') = {[Alloc_ID alloc]} ∪ dom (workers a).
Proof.
  intros [Ho Hu Hi] Hd. eexists. split; [done |]. cbn.
  split; [| by rewrite dom_insert_L]. split; cbn.
  - intros id w [[<- <-] | [_ Hw]]%lookup_insert_Some; cbn.
    + split; [| done]. by rewrite lookup_app_r, Nat.sub_diag by lia.
    + destruct (Ho id w Hw) as [Hc Hid]. split; [| done].
      rewrite lookup_app_l; [done |]. by eapply lookup_lt_Some.
  - intros i [Hc | [Hle Hc]]%lookup_app_Some.
    + destruct (Hu i Hc) as (id & w & Hw & <-). exists id, w. split; [| done].
      rewrite lookup_insert_ne; [done |]. intros <-. apply Hd. by apply elem_of_dom_2 in Hw.
    + apply list_lookup_singleton_Some in Hc as [Hi0 _].
      eexists _, _. split; [apply lookup_insert_eq | cbn; lia].
  - intros id1 id2 w1 w2.
    intros [[<- <-] | [Hn1 Hw1]]%lookup_insert_Some [[<- <-] | [Hn2 Hw2]]%lookup_insert_Some
      Hs; cbn in Hs.
    + done.
    + destruct (Ho _ _ Hw2) as [Hc _]. rewrite <- Hs in Hc. by apply lookup_fresh in Hc.
    + destruct (Ho _ _ Hw1) as [Hc _]. rewrite Hs in Hc. by apply lookup_fresh in Hc.
    + by eapply Hi.
Qed.

Lemma tracked_removed alloc a :
  tracked a ->
  exists a', receive_event (AllocationRemoved alloc) a = Ret a' /\ tracked a' /\
    dom (workers a') = dom (workers a) ∖ {[Alloc_ID alloc]}.
Proof.
  intros Ht. cbn [receive_event]. unfold Close.
  destruct (workers a !! Alloc_ID alloc) as [w |] eqn:Hw.
  - destruct Ht as [Ho Hu Hi]. destruct (Ho _ _ Hw) as [Hc _]. rewrite Hc.
    eexists. split; [done |]. unfold Remove. cbn [workers channels]. rewrite Hw. cbn.
    split; [| by rewrite dom_delete_L]. split; cbn.
    + intros id v [Hne Hv]%lookup_delete_Some. destruct (Ho _ _ Hv) as [Hcv Hid].
      split; [| done]. rewrite list_lookup_insert_ne; [done |].
      intros E. apply Hne. by apply (Hi _ _ w v).
    + intros i [[<- [? _]] | [Hne Hci]]%list_lookup_insert_Some; [done |].
      destruct (Hu i Hci) as (id & v & Hv & <-). exists id, v. split; [| done].
      apply lookup_delete_Some. split; [| done]. intros <-. congruence.
    + intros id1 id2 w1 w2 [_ H1]%lookup_delete_Some [_ H2]%lookup_delete_Some. by apply Hi.
  - eexists. split; [done |]. unfold Remove. rewrite Hw. split; [done |].
    apply not_elem_of_dom in Hw. set_solver.
Qed.

Lemma receive_app es1 es2 a a' :
  receive_events es1 a = Ret a' ->
  receive_events (es1 ++ es2) a = receive_events es2 a'.
Proof.
  revert a. induction es1 as [| e es1 IH]; intros a; cbn; [by intros [= ->] |].
  destruct (receive_event e a); [apply IH | done].
Qed.

Lemma run_added p l a :
  tracked a -> NoDup (ids l) ->
  (forall id, id ∈ ids l -> id ∉ ids (Allocations p) -> id ∉ dom (workers a)) ->
  exists a', receive_events (send_added p l) a = Ret a' /\ tracked a' /\
    dom (workers a')
    = dom (workers a) ∪ (list_to_set (ids l) ∖ list_to_set (ids (Allocations p))).
Proof.
  revert a. induction l as [| x l IH]; intros a Ht Hnd Hd.
  { exists a. cbn. split_and!; [done.. | set_solver]. }
  cbn [ids fmap list_fmap] in Hnd. apply list.NoDup_cons in Hnd as [Hx Hnd].
  cbn [send_added ids fmap list_fmap list_to_set]. unfold Has. rewrite contains_spec.
  destruct (decide (Alloc_ID x ∈ ids (Allocations p))) as [Hin | Hout].
  - rewrite bool_decide_eq_true_2 by done. cbn [negb app].
    destruct (IH a Ht Hnd) as (a' & Hr & Ht' & Hdom); [set_solver |].
    exists a'. split_and!; [done.. |]. rewrite Hdom. set_solver.
  - rewrite bool_decide_eq_false_2 by done. cbn [negb].
    destruct (tracked_added x a Ht) as (a1 & Hr1 & Ht1 & Hd1); [apply Hd; set_solver |].
    destruct (IH a1 Ht1 Hnd) as (a' & Hr & Ht' & Hdom).
    { intros id Hid Hn. rewrite Hd1. apply not_elem_of_union. split; [| set_solver].
      apply not_elem_of_singleton. intros ->. done. }
    exists a'. cbn [app receive_events]. rewrite Hr1. split_and!; [done.. |].
    rewrite Hdom, Hd1. set_solver.
Qed.

Lemma run_removed new old a :
  tracked a ->
  exists a', receive_events (send_removed new old) a = Ret a' /\ tracked a' /\
    dom (workers a') = dom (workers a) ∖ (list_to_set (ids old) ∖ list_to_set (ids new)).
Proof.
  revert a. induction old as [| x old IH]; intros a Ht.
  { exists a. cbn. split_and!; [done.. | set_solver]. }
  cbn [send_removed ids fmap list_fmap list_to_set]. rewrite contains_spec.
  destruct (decide (Alloc_ID x ∈ ids new)) as [Hin | Hout].
  - rewrite bool_decide_eq_true_2 by done. cbn [negb app].
    destruct (IH a Ht) as (a' & Hr & Ht' & Hdom).
    exists a'. split_and!; [done.. |]. rewrite Hdom. set_solver.
  - rewrite bool_decide_eq_false_2 by done. cbn [negb].
    destruct (tracked_removed x a Ht) as (a1 & Hr1 & Ht1 & Hd1).
    destruct (IH a1 Ht1) as (a' & Hr & Ht' & Hdom).
    exists a'. cbn [app receive_events]. rewrite Hr1. split_and!; [done.. |].
    rewrite Hdom, Hd1. set_solver.
Qed.

(** The invariant of the two loops. *)
Definition in_step (p : AllocationPool) (a : AllocationWorkers) : Prop :=
  tracked a /\ dom (workers a) = list_to_set (ids (Allocations p)).

Lemma sync_in_step l p a :
  in_step p a -> NoDup (ids l) ->
  exists a', receive_events (Sync l p).1 a = Ret a' /\ in_step (Sync l p).2 a'.
Proof.
  intros [Ht Hd] Hnd. destruct (run_added p l a Ht Hnd) as (a1 & Hr1 & Ht1 & Hd1).
  { intros id _ Hn. rewrite Hd. by rewrite elem_of_list_to_set. }
  destruct (run_removed l (Allocations p) a1 Ht1) as (a2 & Hr2 & Ht2 & Hd2).
  exists a2. unfold Sync. cbn [fst snd]. rewrite (receive_app _ _ _ _ Hr1). split; [done |].
  split; [done |]. cbn [Set_ Allocations]. rewrite Hd2, Hd1, Hd.
  apply set_eq. intros id. rewrite !elem_of_difference, elem_of_union, !elem_of_difference.
  destruct (decide (id ∈ (list_to_set (ids l) : gset string)));
  destruct (decide (id ∈ (list_to_set (ids (Allocations p)) : gset string))); tauto.
Qed.

Lemma last_default {A} (l : list A) x d : List.last l x = List.last (x :: l) d.
Proof. revert x. induction l as [| y l IH]; intros x; [done |]. cbn in *. by destruct l. Qed.

(** C23. After any number of syncs, whose lists name no allocation twice, there
    is exactly one worker for each allocation of the last list, stored under
    its ID, its stop channel is open, and every other stop channel ever made
    was closed, exactly once. *)
Theorem workers_follow_pool lists :
  Forall (fun l => NoDup (ids l)) lists ->
  exists p a, sync_all lists NewAllocationPool NewAllocationWorkers = Ret (p, a) /\
    Allocations p = List.last lists [] /\
    dom (workers a) = list_to_set (ids (Allocations p)) /\ tracked a.
Proof.
  assert (forall ls p a, in_step p a -> Forall (fun l => NoDup (ids l)) ls ->
    exists p' a', sync_all ls p a = Ret (p', a') /\
      Allocations p' = List.last ls (Allocations p) /\ in_step p' a') as Hgen.
  { induction ls as [| l ls IH]; intros p a Hs Hl; [by exists p, a |].
    apply list.Forall_cons in Hl as [Hl Hls].
    destruct (sync_in_step l p a Hs Hl) as (a1 & Hr & Hs1).
    destruct (IH _ _ Hs1 Hls) as (p' & a' & He & Hla & Hs').
    exists p', a'. cbn [sync_all]. unfold Sync in *. cbn [fst] in Hr. rewrite Hr.
    split_and!; [done | | done]. rewrite Hla. by apply last_default. }
  intros Hl. destruct (Hgen lists NewAllocationPool NewAllocationWorkers) as
    (p & a & He & Hla & Ht & Hd); [split; [apply tracked_new | done] | done |].
  by exists p, a.
Qed.

(** What one [Sync] announces. *)
Lemma sync_announces l p a :
  (AllocationAdded a ∈ (Sync l p).1 <-> a ∈ l /\ Alloc_ID a ∉ ids (Allocations p)) /\
  (AllocationRemoved a ∈ (Sync l p).1 <-> a ∈ Allocations p /\ Alloc_ID a ∉ ids l).
Proof.
  unfold Sync. cbn [fst]. rewrite !elem_of_app.
  assert (forall e old, e ∈ send_removed l old <->
    exists x, e = AllocationRemoved x /\ x ∈ old /\ Alloc_ID x ∉ ids l) as Hrem.
  { intros e old. induction old as [| x old IH]; cbn [send_removed].
    - split; [by intros ?%elem_of_nil | intros (y & _ & Hy & _); by apply elem_of_nil in Hy].
    - rewrite elem_of_app, IH, contains_spec. case_bool_decide; cbn [negb];
        set_solver. }
  assert (forall e new, e ∈ send_added p new <->
    exists x, e = AllocationAdded x /\ x ∈ new /\ Alloc_ID x ∉ ids (Allocations p)) as Hadd.
  { intros e new. induction new as [| x new IH]; cbn [send_added].
    - split; [by intros ?%elem_of_nil | intros (y & _ & Hy & _); by apply elem_of_nil in Hy].
    - unfold Has. rewrite elem_of_app, IH, contains_spec. case_bool_decide; cbn [negb];
        set_solver. }
  rewrite !Hrem, !Hadd. naive_solver.
Qed.

(** ** Concrete runs *)
Definition demo_alloc (id : string) : Allocation :=
  {| Alloc_ID := id; Alloc_Job := None; Alloc_TaskGroup := "g"; TaskStates := ∅ |}.

Lemma workers_follow_pool_witness :
  exists p a, sync_all [[demo_alloc "a"; demo_alloc "b"]; [demo_alloc "b"; demo_alloc "c"]]
    NewAllocationPool NewAllocationWorkers = Ret (p, a) /\
    dom (workers a) = {["b"; "c"]} /\ channels a = [true; false; false].
Proof.
  destruct (workers_follow_pool
    [[demo_alloc "a"; demo_alloc "b"]; [demo_alloc "b"; demo_alloc "c"]])
    as (p & a & He & Hp & Hd & _).
  - repeat constructor; apply (bool_decide_unpack _); by vm_compute.
  - exists p, a. split; [exact He |]. injection He as <- <-. by vm_compute.
Defined.

(** A list that names an allocation twice starts two workers, one of which
    nothing can stop. *)
Example duplicate_leaks :
  match sync_all [[demo_alloc "a"; demo_alloc "a"]; []]
    NewAllocationPool NewAllocationWorkers with
  | Ret (_, a) => channels a = [false; true] /\ size (workers a) = 0%nat
  | Panic _ => False
  end.
Proof. by vm_compute. Qed.
