(* ===== verification/NomadClient.v ===== *)
(** * The Nomad client: [src/source/nomad/client.go]

    The configuration of a client and the locks by which the log shippers of a
    cluster share the nodes.  Consul and Nomad are services: the key-value
    store is an interface with the documented behaviour of its locks, the lists
    of nodes and allocations are parameters. *)
From Stdlib Require Import Ascii String.
From S2P Require Import Prelude Duration NomadConfig Pool.

(** ** Consul's key-value store *)
Record KVPair := { Key : string; Value_ : string; Session : string }.

(** [Get] gives the session of the key, the empty text when nobody holds it,
    and nothing when the key does not exist.  An operation can fail. *)
Class Consul (St : Type) := {
  Acquire : KVPair -> St -> (string + bool) * St;
  Get : string -> St -> option string;
  Delete : string -> St -> St;
  Release : KVPair -> St -> St;
  acquire_held p st st' :
    Acquire p st = (inr true, st') -> Get (Key p) st' = Some (Session p);
  acquire_free p st st' :
    Acquire p st = (inr true, st') ->
    Get (Key p) st = None \/ Get (Key p) st = Some "" \/ Get (Key p) st = Some (Session p);
  acquire_frame p st k : k <> Key p -> Get k (Acquire p st).2 = Get k st;
  delete_frame k st k' : k' <> k -> Get k' (Delete k st) = Get k' st;
  release_frame p st k : k <> Key p -> Get k (Release p st) = Get k st;
  acquire_kept p st s :
    Get (Key p) st = Some s -> s <> "" -> Get (Key p) (Acquire p st).2 = Some s;
}.

(** ** The client *)
Record Client := {
  Client_Config : gmap string string;
  NomadAddress : option string;
  ConsulAddress : option string;
  id : string;
  clusterName : string;
  sessionID : string;
  sessionTTL : string;
  allocationWorkers : AllocationWorkers;
}.

(** [len] of a string. *)
Definition strlen (s : string) : Z := Z.of_nat (String.length s).

(** The address that [NewConsulClient] and [NewNomadClient] set; [None] leaves
    the default of the library. *)
Definition address (addr : string) : option string :=
  if strlen addr =? 0 then None else Some addr.

(** [NewClient]; [consul_new] and [nomad_new] are the errors of the library's
    constructors. *)
Definition NewClient (consul_new nomad_new : option string -> option string)
    (config : gmap string string) (consulAddr : string) : string + Client :=
  let consulAddress :=
    match config !! "consulAddr" with
    | Some configConsul => if 0 <? strlen configConsul then configConsul else consulAddr
    | None => consulAddr
    end in
  match consul_new (address consulAddress) with
  | Some err => inl err
  | None =>
      let nomadAddr := default "" (config !! "nomadAddr") in
      match nomad_new (address nomadAddr) with
      | Some err => inl err
      | None =>
          inr {| id := default "unknown" (config !! "id");
                 clusterName := default "unknown" (config !! "name");
                 Client_Config := config;
                 NomadAddress := address nomadAddr;
                 ConsulAddress := address consulAddress;
                 sessionID := "";
                 sessionTTL := default "10s" (config !! "ttl");
                 allocationWorkers := NewAllocationWorkers |}
      end
  end.

(** [createSession]; [Create] is Consul's answer. *)
Definition createSession (Create : string -> string -> string + string) (c : Client)
    : option string * Client :=
  match Create (id c) (sessionTTL c) with
  | inl err => (Some err, c)
  | inr session =>
      (None, {| Client_Config := Client_Config c; NomadAddress := NomadAddress c;
                ConsulAddress := ConsulAddress c; id := id c; clusterName := clusterName c;
                sessionID := session; sessionTTL := sessionTTL c;
                allocationWorkers := allocationWorkers c |})
  end.

(** ** The locks *)
Definition leader_key (cluster node : string) : string :=
  "log-shipper/nomad/locks/" +:+ cluster +:+ "/nodes/" +:+ node +:+ "/leader".
Definition failover_key (cluster node : string) : string :=
  "log-shipper/nomad/locks/" +:+ cluster +:+ "/nodes/" +:+ node +:+ "/failover".

Definition own_node (c : Client) : string := default "" (Client_Config c !! "node").
Definition lock_value (c : Client) : string := "primary node: " +:+ own_node c.

(** *** The keys are distinct *)
Lemma list_of_append s t :
  list_ascii_of_string (s +:+ t) = list_ascii_of_string s ++ list_ascii_of_string t.
Proof.
  induction s as [| c s IH]; [done |].
  change (String c s +:+ t) with (String c (s +:+ t)). cbn. by rewrite IH.
Qed.

Lemma append_cancel_r s1 s2 t : s1 +:+ t = s2 +:+ t -> s1 = s2.
Proof.
  intros E. apply (f_equal list_ascii_of_string) in E. rewrite !list_of_append in E.
  apply app_inv_tail in E.
  by rewrite <- (string_of_list_ascii_of_string s1), E, string_of_list_ascii_of_string.
Qed.

Lemma failover_key_inj cluster n m : failover_key cluster n = failover_key cluster m -> n = m.
Proof.
  unfold failover_key. intros E. repeat apply (inj (String.append _)) in E.
  by apply append_cancel_r in E.
Qed.

Lemma leader_key_inj cluster n m : leader_key cluster n = leader_key cluster m -> n = m.
Proof.
  unfold leader_key. intros E. repeat apply (inj (String.append _)) in E.
  by apply append_cancel_r in E.
Qed.

Lemma leader_not_failover cluster n m : leader_key cluster n <> failover_key cluster m.
Proof.
  unfold leader_key, failover_key. intros E. repeat apply (inj (String.append _)) in E.
  apply (f_equal (fun s => rev (list_ascii_of_string s))) in E.
  rewrite !list_of_append, !rev_app_distr in E. cbn in E. congruence.
Qed.

(** Two keys of the two families, or of different nodes, differ. *)
Ltac key_ne :=
  let E := fresh "E" in
  intros E;
  first
    [ by apply leader_not_failover in E
    | symmetry in E; by apply leader_not_failover in E
    | by apply failover_key_inj in E
    | by apply leader_key_inj in E ].

Section Locks.
Context {St : Type} `{Consul St}.

(** [Get], [Delete], [Release] and the [Acquire] of a failover lock have their
    errors ignored: a [Get] that fails looks like a key that does not exist. *)
Definition ask_get (f : request) (k : string) (st : St) : option string :=
  match f with Answered => Get k st | _ => None end.
Definition ask (f : request) (op : St -> St) (st : St) : St :=
  match f with Lost => st | _ => op st end.
Definition ask_acquire (f : request) (p : KVPair) (st : St) : (string + bool) * St :=
  match f with
  | Answered => Acquire p st
  | Lost => (inl "request", st)
  | Unheard => (inl "request", (Acquire p st).2)
  end.

(** What happens to the requests for one of the other nodes, and to those of a
    whole synchronisation: the tries for the own lock, the [Delete] of the own
    failover key, and those for the nodes in the order of the list. *)
Record node_requests := {
  on_leader : request;
  on_failover : request;
  on_release : request;
  on_delete : request;
  on_take : request;
}.
Record sync_requests := {
  on_lock : nat -> request;
  on_recovery : request;
  on_node : nat -> node_requests;
}.

Definition later {A} (f : nat -> A) : nat -> A := fun i => f (S i).

(** [existing != nil && existing.Session != c.sessionID], and the test for a
    lock of our own. *)
Definition taken (existing : option string) (c : Client) : bool :=
  match existing with Some s => negb (String.eqb s (sessionID c)) | None => false end.
Definition ours (existing : option string) (c : Client) : bool :=
  match existing with Some s => String.eqb s (sessionID c) | None => false end.

Definition leader_lock (c : Client) : KVPair :=
  {| Key := leader_key (clusterName c) (own_node c); Value_ := lock_value c;
     Session := sessionID c |}.
Definition failover_lock (c : Client) (node : string) : KVPair :=
  {| Key := failover_key (clusterName c) node; Value_ := lock_value c;
     Session := sessionID c |}.

(** [for !acquired]: try again until the lock is acquired; an error panics. *)
Fixpoint acquire_loop (fuel : nat) (net : nat -> request) (p : KVPair) (st : St)
    : option (outcome St) :=
  match fuel with
  | O => None
  | S fuel =>
      match ask_acquire (net 0%nat) p st with
      | (inl err, _) => Some (Panic err)
      | (inr true, st) => Some (Ret st)
      | (inr false, st) => acquire_loop fuel (later net) p st
      end
  end.

(** The loop over the other nodes: the nodes it adds, in order. *)
Fixpoint failover_loop (net : nat -> node_requests) (c : Client) (nodes : list string) (st : St)
    : list string * St :=
  match nodes with
  | [] => ([], st)
  | node :: nodes =>
      let f := net 0%nat in
      if String.eqb node (own_node c) then failover_loop (later net) c nodes st
      else
        let failoverLock := failover_lock c node in
        let existingLock := ask_get (on_leader f) (leader_key (clusterName c) node) st in
        let existingFailoverLock := ask_get (on_failover f) (failover_key (clusterName c) node) st in
        if taken existingLock c then
          if ours existingFailoverLock c then
            failover_loop (later net) c nodes
              (ask (on_delete f) (Delete (failover_key (clusterName c) node))
                 (ask (on_release f) (Release failoverLock) st))
          else failover_loop (later net) c nodes st
        else if taken existingFailoverLock c then failover_loop (later net) c nodes st
        else
          let '(acquired, st) := ask_acquire (on_take f) failoverLock st in
          let acquiredFailover := match acquired with inr b => b | inl _ => false end in
          let '(ns, st) := failover_loop (later net) c nodes st in
          (if acquiredFailover then node :: ns else ns, st)
  end.

(** [getAllocations]: the nodes, their allocations and the store afterwards.
    [list_nodes] and [node_allocs] are Nomad's answers, [None] an error; [net] is
    what happens to the requests to Consul. *)
Definition sync_nodes (fuel : nat) (net : sync_requests) (list_nodes : option (list string))
    (c : Client) (st : St) : option (outcome (list string * St)) :=
  if strlen (own_node c) =? 0 then
    Some match list_nodes with
         | Some nodes => Ret (nodes, st)
         | None => Panic "nodes"
         end
  else
    let failover := match Client_Config c !! "failover" with
                    | Some x => String.eqb x "yes"
                    | None => false
                    end in
    match acquire_loop fuel (on_lock net) (leader_lock c) st with
    | None => None
    | Some (Panic err) => Some (Panic err)
    | Some (Ret st) =>
        let st := ask (on_recovery net) (Delete (failover_key (clusterName c) (own_node c))) st in
        if failover then
          match list_nodes with
          | None => Some (Panic "nodes")
          | Some otherNodes =>
              let '(ns, st) := failover_loop (on_node net) c otherNodes st in
              Some (Ret (own_node c :: ns, st))
          end
        else Some (Ret ([own_node c], st))
    end.

Fixpoint node_allocations (node_allocs : string -> option (list Allocation))
    (nodes : list string) : outcome (list Allocation) :=
  match nodes with
  | [] => Ret []
  | node :: nodes =>
      match node_allocs node with
      | None => Panic "allocations"
      | Some l =>
          match node_allocations node_allocs nodes with
          | Ret ls => Ret (l ++ ls)
          | Panic err => Panic err
          end
      end
  end.

Definition getAllocations (fuel : nat) (net : sync_requests) (list_nodes : option (list string))
    (node_allocs : string -> option (list Allocation)) (c : Client) (st : St)
    : option (outcome (list Allocation * St)) :=
  match sync_nodes fuel net list_nodes c st with
  | None => None
  | Some (Panic err) => Some (Panic err)
  | Some (Ret (nodes, st)) =>
      Some match node_allocations node_allocs nodes with
           | Ret l => Ret (l, st)
           | Panic err => Panic err
           end
  end.

(** ** [ReceiveLogs] *)
Definition set_workers (a : AllocationWorkers) (c : Client) : Client :=
  {| Client_Config := Client_Config c; NomadAddress := NomadAddress c;
     ConsulAddress := ConsulAddress c; id := id c; clusterName := clusterName c;
     sessionID := sessionID c; sessionTTL := sessionTTL c; allocationWorkers := a |}.

(** The period of the ticker of [syncAllocations]: half the time to live of the
    session.  [time.NewTicker] panics on a period that is not positive. *)
Definition sync_period (c : Client) : outcome Z :=
  match ParseDuration (sessionTTL c) with
  | None => Panic "time: invalid duration"
  | Some duration =>
      let tickerDuration := Z.quot duration 2 in
      if tickerDuration <=? 0 then Panic "non-positive interval for NewTicker"
      else Ret tickerDuration
  end.

(** What Nomad answers at one tick, what happens to the requests to Consul, and
    how often the lock is tried. *)
Record answers := {
  tries : nat;
  requests : sync_requests;
  nodes_list : option (list string);
  allocations_of : string -> option (list Allocation);
}.

(** A number of ticks of [syncAllocations], with the loop of [ReceiveLogs] that
    receives what the pool announces. *)
Fixpoint syncAllocations (ticks : list answers) (c : Client) (pool : AllocationPool) (st : St)
    : option (outcome (AllocationPool * Client * St)) :=
  match ticks with
  | [] => Some (Ret (pool, c, st))
  | t :: ticks =>
      match getAllocations (tries t) (requests t) (nodes_list t) (allocations_of t) c st with
      | None => None
      | Some (Panic err) => Some (Panic err)
      | Some (Ret (allocations, st)) =>
          let '(es, pool) := Sync allocations pool in
          match receive_events es (allocationWorkers c) with
          | Panic err => Some (Panic err)
          | Ret a => syncAllocations ticks (set_workers a c) pool st
          end
      end
  end.

(** [ReceiveLogs] up to a number of ticks.  The session is renewed in the
    background, which is Consul's business. *)
Definition ReceiveLogs (Create : string -> string -> string + string) (ticks : list answers)
    (c : Client) (st : St) : option (outcome (AllocationPool * Client * St)) :=
  match createSession Create c with
  | (Some err, _) => Some (Panic err)
  | (None, c) =>
      match sync_period c with
      | Panic err => Some (Panic err)
      | Ret _ => syncAllocations ticks c NewAllocationPool st
      end
  end.

(** ** What a synchronisation holds *)

(** Nobody else holds the key: it does not exist, or it is ours. *)
Definition not_others (c : Client) (k : string) (st : St) : Prop :=
  Get k st = None \/ Get k st = Some (sessionID c).

(** A request that may get lost changes no more than one that does not. *)
Lemma ask_get_none f k st : Get k st = None -> ask_get f k st = None.
Proof. by destruct f. Qed.

Lemma ask_frame f op st k : Get k (op st) = Get k st -> Get k (ask f op st) = Get k st.
Proof. by destruct f. Qed.

Lemma ask_acquire_frame f p st k : k <> Key p -> Get k (ask_acquire f p st).2 = Get k st.
Proof. destruct f; [apply acquire_frame | done | apply acquire_frame]. Qed.

Lemma ask_acquire_kept f p st s :
  Get (Key p) st = Some s -> s <> "" -> Get (Key p) (ask_acquire f p st).2 = Some s.
Proof. destruct f; [apply acquire_kept | done | apply acquire_kept]. Qed.

Lemma ask_acquire_held f p st st' :
  ask_acquire f p st = (inr true, st') -> Get (Key p) st' = Some (Session p).
Proof. destruct f; [apply acquire_held | done..]. Qed.

Lemma acquire_loop_spec fuel net p st st' :
  acquire_loop fuel net p st = Some (Ret st') ->
  Get (Key p) st' = Some (Session p) /\
  forall k, k <> Key p -> Get k st' = Get k st.
Proof.
  revert net st. induction fuel as [| fuel IH]; intros net st; [done |]. cbn.
  pose proof (ask_acquire_frame (net 0%nat) p st) as Hf.
  destruct (ask_acquire _ p st) as [[err | []] st1] eqn:E; [done | |].
  - intros [= <-]. split; [by eapply ask_acquire_held |]. intros k Hk. by rewrite <- Hf.
  - intros Hr. destruct (IH _ st1 Hr) as [Hk Hfr]. split; [done |].
    intros k Hne. rewrite Hfr, <- Hf by done. done.
Qed.

Lemma failover_loop_frame net c nodes st ns st' k :
  failover_loop net c nodes st = (ns, st') ->
  (forall n, n ∈ nodes -> n <> own_node c -> k <> failover_key (clusterName c) n) ->
  Get k st' = Get k st.
Proof.
  revert net st ns. induction nodes as [| n nodes IH]; intros net st ns; cbn.
  { by intros [= <- <-]. }
  intros Hr Hk. destruct (String.eqb_spec n (own_node c)) as [_ | Hn].
  { eapply IH; [exact Hr |]. intros; apply Hk; set_solver. }
  assert (k <> failover_key (clusterName c) n) as Hkn by (apply Hk; set_solver).
  assert (forall m, m ∈ nodes -> m <> own_node c -> k <> failover_key (clusterName c) m)
    as Hk' by (intros; apply Hk; set_solver).
  destruct (taken _ c).
  - destruct (ours _ c); [| by eapply IH].
    rewrite (IH _ _ _ Hr Hk'), !ask_frame; [done | by apply release_frame | by apply delete_frame].
  - destruct (taken _ c); [by eapply IH |].
    pose proof (ask_acquire_frame (on_take (net 0%nat)) (failover_lock c n) st k Hkn) as Hf.
    destruct (ask_acquire _ _ st) as [r st1]. cbn in Hf.
    destruct (failover_loop _ c nodes st1) as [ns1 st2] eqn:E. injection Hr as _ <-.
    by rewrite (IH _ _ _ E Hk').
Qed.

(** The reads of the locks of the other nodes are answered. *)
Definition reads_answered (net : nat -> node_requests) : Prop :=
  forall i, on_leader (net i) = Answered /\ on_failover (net i) = Answered.

(** A node that the loop adds: its failover lock is held afterwards, and, if the
    reads were answered, nobody else held one of its locks before. *)
Record taken_over (heard : Prop) (c : Client) (st st' : St) (n : string) : Prop := {
  over_other : n <> own_node c;
  over_held : Get (failover_key (clusterName c) n) st' = Some (sessionID c);
  over_failover : heard -> not_others c (failover_key (clusterName c) n) st;
  over_leader : heard -> not_others c (leader_key (clusterName c) n) st;
}.

(** Only the failover key of another node has changed since. *)
Lemma taken_over_before heard c st st1 st' m n :
  (forall k, k <> failover_key (clusterName c) m -> Get k st1 = Get k st) -> n <> m ->
  taken_over heard c st1 st' n -> taken_over heard c st st' n.
Proof.
  intros Hf Hn [H1 H2 H3 H4]. unfold not_others in *. rewrite Hf in H3, H4.
  - by split.
  - apply leader_not_failover.
  - intros E. by apply failover_key_inj in E.
Qed.

(** The checks of the loop. *)
Lemma not_taken f c k st :
  f = Answered -> taken (ask_get f k st) c = false -> not_others c k st.
Proof.
  intros ->. unfold not_others, taken, ask_get. destruct (Get k st) as [s |]; [| by left].
  intros ->%negb_false_iff%String.eqb_eq. by right.
Qed.

Lemma failover_loop_held net c nodes st ns st' n :
  failover_loop net c nodes st = (ns, st') -> NoDup nodes -> n ∈ ns ->
  n ∈ nodes /\ taken_over (reads_answered net) c st st' n.
Proof.
  revert net st ns. induction nodes as [| m nodes IH]; intros net st ns Hr Hnd Hin.
  { injection Hr as <- _. by apply not_elem_of_nil in Hin. }
  apply list.NoDup_cons in Hnd as [Hm Hnd]. cbn in Hr.
  assert (forall st1 ns1, n ∈ ns1 ->
    (forall k, k <> failover_key (clusterName c) m -> Get k st1 = Get k st) ->
    failover_loop (later net) c nodes st1 = (ns1, st') ->
    n ∈ m :: nodes /\ taken_over (reads_answered net) c st st' n) as Hskip.
  { intros st1 ns1 Hin1 Hf Hr1. destruct (IH _ _ _ Hr1 Hnd Hin1) as (Hn & [T1 T2 T3 T4]).
    split; [by apply list_elem_of_further |].
    apply (taken_over_before _ _ _ st1 _ m _ Hf); [by intros -> |].
    split; [done | done | |]; intros Hh; [apply T3 | apply T4]; intros i; apply Hh. }
  destruct (String.eqb_spec m (own_node c)) as [_ | Hmo]; [by apply (Hskip st ns) |].
  destruct (taken _ c) eqn:Hl.
  { destruct (ours _ c); [| by apply (Hskip st ns)].
    eapply Hskip; [done | | exact Hr]. intros k Hk.
    by rewrite !ask_frame by (by apply release_frame || by apply delete_frame). }
  destruct (taken (ask_get (on_failover _) _ _) c) eqn:Hfo; [by apply (Hskip st ns) |].
  set (lock := failover_lock c m) in Hr.
  pose proof (ask_acquire_frame (on_take (net 0%nat)) lock st) as Hf.
  pose proof (ask_acquire_held (on_take (net 0%nat)) lock st) as Hh.
  destruct (ask_acquire _ lock st) as [r st1]. cbn [snd] in Hf.
  destruct (failover_loop _ c nodes st1) as [ns1 st2] eqn:E. injection Hr as <- <-.
  destruct (decide (n ∈ ns1)) as [Hin1 | Hnin]; [by apply (Hskip st1 ns1) |].
  destruct r as [err | []]; [done | | done].
  apply elem_of_cons in Hin as [-> | Hin]; [| done].
  split; [apply list_elem_of_here |].
  split; [done | | intros Ha; exact (not_taken _ _ _ _ (proj2 (Ha 0%nat)) Hfo)
    | intros Ha; exact (not_taken _ _ _ _ (proj1 (Ha 0%nat)) Hl)].
  rewrite (failover_loop_frame _ _ _ _ _ _ _ E); [by apply Hh |].
  intros x Hx _ Hk. apply failover_key_inj in Hk as <-. by destruct Hm.
Qed.

Lemma sync_nodes_spec fuel net l c st ns st' :
  strlen (own_node c) <> 0 -> NoDup (default [] l) ->
  sync_nodes fuel net l c st = Some (Ret (ns, st')) ->
  Get (leader_key (clusterName c) (own_node c)) st' = Some (sessionID c) /\
  (forall k, k <> leader_key (clusterName c) (own_node c) ->
    (forall n, k <> failover_key (clusterName c) n) -> Get k st' = Get k st) /\
  forall n, n ∈ ns -> n = own_node c \/
    taken_over (reads_answered (on_node net)) c st st' n.
Proof.
  intros Hown Hnd. unfold sync_nodes. rewrite (proj2 (Z.eqb_neq _ _) Hown).
  destruct (acquire_loop _ _ _ _) as [[st1 |] |] eqn:Ha; [| done..].
  destruct (acquire_loop_spec _ _ _ _ _ Ha) as [Hlead Hframe]. cbn [Key Session leader_lock] in *.
  set (st2 := ask _ _ st1). pose proof (leader_not_failover (clusterName c)) as Hlf.
  assert (forall k, k <> failover_key (clusterName c) (own_node c) -> Get k st2 = Get k st1)
    as Hdel by (intros; by apply ask_frame, delete_frame).
  destruct (match Client_Config c !! "failover" with
            | Some x => String.eqb x "yes" | None => false end).
  - destruct l as [nodes |]; [| done]. cbn in Hnd.
    destruct (failover_loop _ c nodes st2) as [ns1 st3] eqn:Hl. intros [= <- <-].
    assert (forall k, (forall n, k <> failover_key (clusterName c) n) -> Get k st3 = Get k st2)
      as Hloop by (intros; eapply failover_loop_frame; eauto).
    split_and!.
    + rewrite Hloop, Hdel by auto. done.
    + intros k Hk Hn. rewrite Hloop, Hdel, Hframe by auto. done.
    + intros n [-> | Hin]%elem_of_cons; [by left |]. right.
      destruct (failover_loop_held _ _ _ _ _ _ n Hl Hnd Hin) as (_ & [Hn Hh H1 H2]).
      unfold not_others in *. rewrite Hdel, Hframe in H1, H2 by key_ne. by split.
  - intros [= <- <-]. split_and!.
    + rewrite Hdel by auto. done.
    + intros k Hk Hn. rewrite Hdel, Hframe by auto. done.
    + intros n Hin%list_elem_of_singleton. by left.
Qed.

(** As long as Nomad names no allocation twice, the workers of the client are
    those of the allocations of the pool, and nothing panics on the way but for
    Consul and Nomad. *)
Lemma syncAllocations_in_step ticks c pool st pool' c' st' :
  (forall t l s s', t ∈ ticks -> forall w,
     getAllocations (tries t) (requests t) (nodes_list t) (allocations_of t) (set_workers w c) s
       = Some (Ret (l, s')) -> NoDup (ids l)) ->
  in_step pool (allocationWorkers c) ->
  syncAllocations ticks c pool st = Some (Ret (pool', c', st')) ->
  in_step pool' (allocationWorkers c').
Proof.
  revert c pool st. induction ticks as [| t ticks IH]; intros c pool st Hnd Hin; cbn [syncAllocations].
  { by intros [= <- <- <-]. }
  destruct (getAllocations _ _ _ _ c st) as [[[l st1] |] |] eqn:Hg; [| done | done].
  destruct (sync_in_step l pool (allocationWorkers c) Hin) as (a & Hr & Hin').
  { apply (Hnd t l st st1 (list_elem_of_here _ _) (allocationWorkers c)). by destruct c. }
  destruct (Sync l pool) as [es pool1]. cbn [fst snd] in *. rewrite Hr.
  apply IH; [| done]. intros t' l' s s' Ht w.
  apply (Hnd t' l' s s'). by apply list_elem_of_further.
Qed.

(** C22. Sharing the nodes: when one log shipper has chosen its nodes and another
    one of the same cluster, whose reads of the locks are all answered, chooses
    right after it, the only node that both ship is the second one's own node,
    which the first had taken over before.  Each of the two holds the leader lock
    of its own node when it returns.  Whatever else fails, or loses its answer,
    makes no difference; a lost read does ([lost_read_takes_over]). *)
Theorem failover_exclusive fuel1 fuel2 net1 net2 l1 l2 c1 c2 st ns1 st1 ns2 st2 :
  clusterName c1 = clusterName c2 -> sessionID c1 <> sessionID c2 ->
  strlen (own_node c1) <> 0 -> strlen (own_node c2) <> 0 ->
  NoDup (default [] l1) -> NoDup (default [] l2) -> reads_answered (on_node net2) ->
  sync_nodes fuel1 net1 l1 c1 st = Some (Ret (ns1, st1)) ->
  sync_nodes fuel2 net2 l2 c2 st1 = Some (Ret (ns2, st2)) ->
  Get (leader_key (clusterName c1) (own_node c1)) st1 = Some (sessionID c1) /\
  Get (leader_key (clusterName c2) (own_node c2)) st2 = Some (sessionID c2) /\
  forall n, n ∈ ns1 -> n ∈ ns2 -> n = own_node c2.
Proof.
  intros Hcl Hs Ho1 Ho2 Hd1 Hd2 Hreads Hr1 Hr2.
  destruct (sync_nodes_spec _ _ _ _ _ _ _ Ho1 Hd1 Hr1) as (Hl1 & _ & Hn1).
  destruct (sync_nodes_spec _ _ _ _ _ _ _ Ho2 Hd2 Hr2) as (Hl2 & _ & Hn2).
  split_and!; [done.. |]. intros n Hin1 Hin2.
  destruct (Hn2 n Hin2) as [-> | [_ _ Hf Hl]]; [done |]. exfalso.
  specialize (Hf Hreads). specialize (Hl Hreads).
  rewrite <- Hcl in Hf, Hl. unfold not_others in Hf, Hl.
  destruct (Hn1 n Hin1) as [-> | [_ Hh _ _]].
  - rewrite Hl1 in Hl. destruct Hl as [Hl | Hl]; congruence.
  - rewrite Hh in Hf. destruct Hf as [Hf | Hf]; congruence.
Qed.
End Locks.

(** ** A store that satisfies the interface, and a concrete run *)
Definition kv_acquire (p : KVPair) (st : gmap string string)
    : (string + bool) * gmap string string :=
  match st !! Key p with
  | None => (inr true, <[Key p := Session p]> st)
  | Some s =>
      if String.eqb s "" then (inr true, <[Key p := Session p]> st)
      else (inr (String.eqb s (Session p)), st)
  end.

Definition kv_release (p : KVPair) (st : gmap string string) : gmap string string :=
  match st !! Key p with
  | Some s => if String.eqb s (Session p) then <[Key p := ""]> st else st
  | None => st
  end.

Program Definition demo_consul : Consul (gmap string string) := {|
  Acquire := kv_acquire;
  Get k st := st !! k;
  Delete k st := delete k st;
  Release := kv_release;
|}.
Next Obligation.
  intros p st st'. unfold kv_acquire. destruct (st !! Key p) as [s |] eqn:Hk.
  - destruct (String.eqb s ""); [intros [= <-]; apply lookup_insert_eq |].
    destruct (String.eqb_spec s (Session p)) as [-> |]; [by intros [= <-] | done].
  - intros [= <-]. apply lookup_insert_eq.
Qed.
Next Obligation.
  intros p st st'. unfold kv_acquire. destruct (st !! Key p) as [s |] eqn:Hk; [| by left].
  destruct (String.eqb_spec s "") as [-> |]; [by right; left |].
  destruct (String.eqb_spec s (Session p)) as [-> |]; [by right; right | done].
Qed.
Next Obligation.
  intros p st k Hk. unfold kv_acquire. destruct (st !! Key p) as [s |].
  - destruct (String.eqb s ""); [| done]. cbn. by rewrite lookup_insert_ne.
  - cbn. by rewrite lookup_insert_ne.
Qed.
Next Obligation. intros. by rewrite lookup_delete_ne. Qed.
Next Obligation.
  intros p st k Hk. unfold kv_release. destruct (st !! Key p) as [s |]; [| done].
  destruct (String.eqb s (Session p)); [| done]. by rewrite lookup_insert_ne.
Qed.
Next Obligation.
  intros p st s Hk Hs. unfold kv_acquire. rewrite Hk.
  by rewrite (proj2 (String.eqb_neq s "") Hs).
Qed.

Definition demo_client (node session : string) : Client :=
  {| Client_Config := {["node" := node; "failover" := "yes"]}; NomadAddress := None;
     ConsulAddress := None; id := node; clusterName := "c"; sessionID := session;
     sessionTTL := "10s"; allocationWorkers := NewAllocationWorkers |}.

#[local] Existing Instance demo_consul.

(** Every request is answered. *)
Definition all_answered : sync_requests :=
  {| on_lock _ := Answered; on_recovery := Answered;
     on_node _ := {| on_leader := Answered; on_failover := Answered; on_release := Answered;
                     on_delete := Answered; on_take := Answered |} |}.

(** The [Delete]s and [Release]s do not get through. *)
Definition careless : sync_requests :=
  {| on_lock _ := Answered; on_recovery := Lost;
     on_node _ := {| on_leader := Answered; on_failover := Answered; on_release := Lost;
                     on_delete := Lost; on_take := Answered |} |}.

Definition demo_sync (net : sync_requests) (c : Client) (st : gmap string string)
    : list string * gmap string string :=
  match sync_nodes 1 net (Some ["n1"; "n2"]) c st with
  | Some (Ret r) => r
  | _ => ([], st)
  end.

Definition demo_store : gmap string string := ∅.

Definition demo_first : list string * gmap string string :=
  demo_sync all_answered (demo_client "n1" "s1") demo_store.
Definition demo_second : list string * gmap string string :=
  demo_sync careless (demo_client "n2" "s2") demo_first.2.

Lemma demo_sync_runs net c st :
  match sync_nodes 1 net (Some ["n1"; "n2"]) c st with Some (Ret _) => true | _ => false end
  = true ->
  sync_nodes 1 net (Some ["n1"; "n2"]) c st
  = Some (Ret ((demo_sync net c st).1, (demo_sync net c st).2)).
Proof.
  unfold demo_sync. destruct (sync_nodes _ _ _ c st) as [[[ns st'] |] |]; by intros [=].
Qed.

(** The first shipper takes over the second node; the second one recovers it,
    although the requests by which it clears locks are lost. *)
Lemma failover_exclusive_witness :
  demo_first.1 = ["n1"; "n2"] /\ demo_second.1 = ["n2"] /\
  forall n, n ∈ demo_first.1 -> n ∈ demo_second.1 -> n = own_node (demo_client "n2" "s2").
Proof.
  pose proof (demo_sync_runs all_answered (demo_client "n1" "s1") demo_store ltac:(vm_compute; reflexivity)) as H1.
  pose proof (demo_sync_runs careless (demo_client "n2" "s2") demo_first.2 ltac:(vm_compute; reflexivity)) as H2.
  assert (Hd : NoDup (default [] (Some ["n1"; "n2"])))
    by (apply (bool_decide_unpack _); vm_compute; exact I).
  assert (Hs : sessionID (demo_client "n1" "s1") <> sessionID (demo_client "n2" "s2"))
    by (vm_compute; discriminate).
  assert (Ho1 : strlen (own_node (demo_client "n1" "s1")) <> 0) by (vm_compute; discriminate).
  assert (Ho2 : strlen (own_node (demo_client "n2" "s2")) <> 0) by (vm_compute; discriminate).
  split; [vm_compute; reflexivity |]. split; [vm_compute; reflexivity |].
  assert (Hre : reads_answered (on_node careless)) by (intros i; split; reflexivity).
  exact (proj2 (proj2 (failover_exclusive 1 1 all_answered careless (Some ["n1"; "n2"]) (Some ["n1"; "n2"])
    (demo_client "n1" "s1") (demo_client "n2" "s2") demo_store demo_first.1 demo_first.2
    demo_second.1 demo_second.2 eq_refl Hs Ho1 Ho2 Hd Hd Hre H1 H2))).
Defined.
