(* ===== verification/NomadShare.v ===== *)
(** * Log shippers that share a cluster

    [getAllocations] of [src/source/nomad/client.go], one request to Consul at
    a time: several log shippers run it at once and their requests interleave.
    The file [NomadClient] has the same function in one piece; a shipper that
    is left alone computes that. *)
From S2P Require Import Prelude NomadConfig Pool NomadClient.

(** ** A log shipper, request by request *)

(** Where a shipper is in [getAllocations].  [Reading] has the session of the
    leader lock of [node], if there is one; [acc] of the shipper is the
    variable [nodesToSync]. *)
Inductive pc :=
  | Resting
  | Acquiring
  | Recovering
  | Listing
  | Scanning (nodes : list string)
  | Reading (node : string) (leader : option string) (nodes : list string)
  | Releasing (node : string) (nodes : list string)
  | Deleting (node : string) (nodes : list string)
  | Taking (node : string) (nodes : list string)
  | Crashed.

Record shipper := {
  client : Client;
  at_ : pc;
  acc : list string;
  shipping : list string;
}.

Definition goto (p : pc) (h : shipper) : shipper :=
  {| client := client h; at_ := p; acc := acc h; shipping := shipping h |}.

(** A panic ends the program, and with it all it ships. *)
Definition crash (h : shipper) : shipper :=
  {| client := client h; at_ := Crashed; acc := []; shipping := [] |}.

Section Sharing.
Context {St : Type} `{Consul St}.

(** The next request of a shipper; [answer] is the list of nodes that Nomad
    gives, [None] an error. *)
Definition advance (f : request) (answer : option (list string)) (h : shipper) (st : St)
    : shipper * St :=
  let c := client h in
  match at_ h with
  | Resting =>
      if strlen (own_node c) =? 0 then
        match answer with
        | Some nodes => ({| client := c; at_ := Resting; acc := []; shipping := nodes |}, st)
        | None => (crash h, st)
        end
      else ({| client := c; at_ := Acquiring; acc := [own_node c]; shipping := shipping h |}, st)
  | Acquiring =>
      match ask_acquire f (leader_lock c) st with
      | (inl _, st) => (crash h, st)
      | (inr true, st) => (goto Recovering h, st)
      | (inr false, st) => (h, st)
      end
  | Recovering =>
      let st := ask f (Delete (failover_key (clusterName c) (own_node c))) st in
      if match Client_Config c !! "failover" with
         | Some x => String.eqb x "yes"
         | None => false
         end
      then (goto Listing h, st) else (goto (Scanning []) h, st)
  | Listing =>
      match answer with
      | Some nodes => (goto (Scanning nodes) h, st)
      | None => (crash h, st)
      end
  | Scanning [] => ({| client := c; at_ := Resting; acc := []; shipping := acc h |}, st)
  | Scanning (node :: nodes) =>
      if String.eqb node (own_node c) then (goto (Scanning nodes) h, st)
      else (goto (Reading node (ask_get f (leader_key (clusterName c) node) st) nodes) h, st)
  | Reading node leader nodes =>
      let failover := ask_get f (failover_key (clusterName c) node) st in
      if taken leader c then
        (goto (if ours failover c then Releasing node nodes else Scanning nodes) h, st)
      else (goto (if taken failover c then Scanning nodes else Taking node nodes) h, st)
  | Releasing node nodes =>
      (goto (Deleting node nodes) h, ask f (Release (failover_lock c node)) st)
  | Deleting node nodes =>
      (goto (Scanning nodes) h, ask f (Delete (failover_key (clusterName c) node)) st)
  | Taking node nodes =>
      match ask_acquire f (failover_lock c node) st with
      | (inr true, st) =>
          ({| client := c; at_ := Scanning nodes; acc := acc h ++ [node];
              shipping := shipping h |}, st)
      | (_, st) => (goto (Scanning nodes) h, st)
      end
  | Crashed => (h, st)
  end.

(** ** A shipper that is left alone *)
Inductive solo : shipper * St -> shipper * St -> Prop :=
  | solo_step f answer h st : solo (h, st) (advance f answer h st).

Lemma solo_eq f answer h st y : advance f answer h st = y -> solo (h, st) y.
Proof. intros <-. apply solo_step. Qed.

(** The loop over the other nodes. *)
Lemma solo_scan net c ship nodes st a ns st' :
  failover_loop net c nodes st = (ns, st') ->
  rtc solo ({| client := c; at_ := Scanning nodes; acc := a; shipping := ship |}, st)
    ({| client := c; at_ := Scanning []; acc := a ++ ns; shipping := ship |}, st').
Proof.
  revert net st a ns. induction nodes as [| n nodes IH]; intros net st a ns; cbn.
  { intros [= <- <-]. by rewrite app_nil_r. }
  intros Hr. destruct (String.eqb n (own_node c)) eqn:Hn.
  { eapply rtc_l; [apply (solo_eq Answered None); cbn; by rewrite Hn |]. by eapply IH. }
  eapply rtc_l; [apply (solo_eq (on_leader (net 0%nat)) None); cbn; by rewrite Hn |].
  eapply rtc_l; [by apply (solo_eq (on_failover (net 0%nat)) None) |]. cbn.
  destruct (taken (ask_get _ (leader_key _ n) st) c).
  - destruct (ours _ c); [| by eapply IH].
    eapply rtc_l; [by apply (solo_eq (on_release (net 0%nat)) None) |].
    eapply rtc_l; [by apply (solo_eq (on_delete (net 0%nat)) None) |]. by eapply IH.
  - destruct (taken (ask_get _ (failover_key _ n) st) c); [by eapply IH |].
    destruct (ask_acquire _ _ st) as [r st1] eqn:Ha.
    destruct (failover_loop _ c nodes st1) as [ns1 st2] eqn:E.
    eapply rtc_l; [by apply (solo_eq (on_take (net 0%nat)) None) |]. cbn. rewrite Ha.
    destruct r as [err | []]; injection Hr as <- <-; [by eapply IH | | by eapply IH].
    replace (a ++ n :: ns1) with ((a ++ [n]) ++ ns1) by (by rewrite <- app_assoc).
    by eapply IH.
Qed.

Lemma solo_acquire c ship fuel net st a st' :
  acquire_loop fuel net (leader_lock c) st = Some (Ret st') ->
  rtc solo ({| client := c; at_ := Acquiring; acc := a; shipping := ship |}, st)
    ({| client := c; at_ := Recovering; acc := a; shipping := ship |}, st').
Proof.
  revert net st. induction fuel as [| fuel IH]; intros net st; cbn; [done |].
  destruct (ask_acquire (net 0%nat) (leader_lock c) st) as [[err | []] st1] eqn:E; [done | |].
  - intros [= <-]. apply rtc_once. apply (solo_eq (net 0%nat) None). cbn. by rewrite E.
  - intros Hr. eapply rtc_l; [apply (solo_step (net 0%nat) None) |]. cbn. rewrite E. by eapply IH.
Qed.

(** A log shipper that is left alone does, request by request, what [sync_nodes]
    does in one piece, whatever happens to its requests: when that returns, the
    requests lead from one rest to the next, with its nodes and its store. *)
Theorem solo_computes_sync fuel net answer c a ship st ns st' :
  sync_nodes fuel net answer c st = Some (Ret (ns, st')) ->
  rtc solo ({| client := c; at_ := Resting; acc := a; shipping := ship |}, st)
    ({| client := c; at_ := Resting; acc := []; shipping := ns |}, st').
Proof.
  unfold sync_nodes. destruct (strlen (own_node c) =? 0) eqn:Ho.
  { destruct answer as [nodes |]; [| done]. intros [= <- <-]. apply rtc_once.
    apply (solo_eq Answered (Some nodes)). cbn. by rewrite Ho. }
  destruct (acquire_loop _ _ _ st) as [[st1 |] |] eqn:Ha; [| done..]. intros Hr.
  eapply rtc_l; [apply (solo_step Answered None) |]. cbn. rewrite Ho.
  etrans; [by eapply solo_acquire |].
  eapply rtc_l; [apply (solo_step (on_recovery net) None) |]. cbn.
  destruct (match _ with Some x => _ | None => _ end).
  - destruct answer as [nodes |]; [| done].
    destruct (failover_loop _ c nodes _) as [ns1 st2] eqn:E. injection Hr as <- <-.
    eapply rtc_l; [apply (solo_step Answered (Some nodes)) |]. cbn.
    eapply rtc_r; [exact (solo_scan _ c ship nodes _ [own_node c] ns1 st2 E) |].
    apply (solo_step Answered None {| client := c; at_ := Scanning []; acc := [own_node c] ++ ns1;
      shipping := ship |}).
  - injection Hr as <- <-. apply rtc_once.
    apply (solo_step Answered None {| client := c; at_ := Scanning []; acc := [own_node c];
      shipping := ship |}).
Qed.

(** ** A cluster *)

(** The shippers and the store; one of them makes its next request. *)
Inductive cluster_step : list shipper * St -> list shipper * St -> Prop :=
  | cluster_move f answer i h hs st :
      hs !! i = Some h ->
      cluster_step (hs, st) (<[i := (advance f answer h st).1]> hs, (advance f answer h st).2).

Definition claims (n : string) (h : shipper) : Prop := n ∈ acc h \/ n ∈ shipping h.

(** A shipper of the cluster [cl] on a node of its own that is not [n]. *)
Record member (cl n : string) (h : shipper) : Prop := {
  mem_cluster : clusterName (client h) = cl;
  mem_own : strlen (own_node (client h)) <> 0;
  mem_other : own_node (client h) <> n;
  mem_session : sessionID (client h) <> "";
}.

(** It is not about to give the node back, and has not seen a leader of it. *)
Definition pc_free (n : string) (p : pc) : Prop :=
  match p with
  | Reading node leader _ => node = n -> leader = None
  | Releasing node _ | Deleting node _ => node <> n
  | _ => True
  end.

Lemma leader_ne cl n c : clusterName c = cl -> own_node c <> n ->
  leader_key cl n <> leader_key (clusterName c) (own_node c).
Proof. intros <- Hn E. by apply leader_key_inj in E. Qed.

(** One request of a shipper, seen from the node [n]: its leader lock stays
    away, its failover lock stays with its holder, and a new claim holds it. *)
Lemma advance_node cl n f answer h st h' st' :
  member cl n h -> pc_free n (at_ h) -> Get (leader_key cl n) st = None ->
  advance f answer h st = (h', st') ->
  client h' = client h /\ pc_free n (at_ h') /\ Get (leader_key cl n) st' = None /\
  (forall s, s <> "" -> Get (failover_key cl n) st = Some s ->
   Get (failover_key cl n) st' = Some s) /\
  (claims n h' -> claims n h \/ Get (failover_key cl n) st' = Some (sessionID (client h))).
Proof.
  intros [<- Ho Hn Hs] Hp Hl. pose proof (leader_ne _ n (client h) eq_refl Hn) as Hll.
  unfold advance. set (c := client h) in *.
  assert (forall m, m <> n -> failover_key (clusterName c) n <> failover_key (clusterName c) m)
    as Hff by (intros m Hm E; by apply failover_key_inj in E).
  destruct (at_ h) as [| | | | [| m nodes] | m leader nodes | m nodes | m nodes | m nodes |] eqn:Hat;
    cbn [pc_free] in Hp.
  - rewrite (proj2 (Z.eqb_neq _ _) Ho). intros [= <- <-]. split_and!; try done.
    intros [Hin | Hin]; cbn in Hin; [| by left; right].
    by apply list_elem_of_singleton in Hin.
  - pose proof (ask_acquire_frame f (leader_lock c) st) as Hf.
    destruct (ask_acquire _ _ st) as [[err | []] st1]; cbn in Hf; intros [= <- <-];
      (split_and!; cbn; [done | by rewrite ?Hat | by rewrite Hf | | ]);
      try (intros s _; rewrite Hf by (intros E; symmetry in E; by apply leader_not_failover in E); done);
      (by left) || (intros [Hin | Hin]; by apply not_elem_of_nil in Hin).
  - case_match; intros [= <- <-]; (split_and!; cbn;
      [done | done | by rewrite ask_frame by (apply delete_frame; key_ne) | | by left]);
      intros s _; rewrite ask_frame by (by apply delete_frame, Hff); done.
  - destruct answer; intros [= <- <-]; split_and!; cbn; try done; [by left |].
    intros [Hin | Hin]; by apply not_elem_of_nil in Hin.
  - intros [= <- <-]. split_and!; cbn; try done. intros [Hin | Hin]; cbn in Hin.
    + by apply not_elem_of_nil in Hin.
    + by left; left.
  - case_match; intros [= <- <-]; split_and!; cbn; try done; try (by left).
    intros ->. by apply ask_get_none.
  - destruct (taken leader c) eqn:Ht.
    + intros [= <- <-]. split_and!; cbn; try done; [| by left]. case_match; [| done]. cbn.
      intros ->. rewrite (Hp eq_refl) in Ht. done.
    + intros [= <- <-]. split_and!; cbn; try done; [by case_match | by left].
  - intros [= <- <-]. split_and!; cbn; [done | done | by rewrite ask_frame by (apply release_frame; key_ne) | |
      by left]. intros s _. rewrite ask_frame by (by apply release_frame, Hff). done.
  - intros [= <- <-]. split_and!; cbn; [done | done | by rewrite ask_frame by (apply delete_frame; key_ne) | |
      by left]. intros s _. rewrite ask_frame by (by apply delete_frame, Hff). done.
  - pose proof (ask_acquire_frame f (failover_lock c m) st (leader_key (clusterName c) n)
      (leader_not_failover _ _ _)) as Hf.
    pose proof (ask_acquire_frame f (failover_lock c m) st (failover_key (clusterName c) n)) as Hf2.
    pose proof (ask_acquire_kept f (failover_lock c m) st) as Hk.
    pose proof (ask_acquire_held f (failover_lock c m) st) as Hh.
    assert (forall s, s <> "" -> Get (failover_key (clusterName c) n) st = Some s ->
      Get (failover_key (clusterName c) n) (ask_acquire f (failover_lock c m) st).2 = Some s) as Hkeep.
    { intros s Hse Hg. destruct (decide (m = n)) as [-> | Hm]; [by apply Hk |].
      rewrite Hf2; [done | by apply Hff]. }
    destruct (ask_acquire _ _ st) as [[err | []] st1]; intros [= <- <-]; cbn in Hf, Hkeep;
      (split_and!; cbn; [done | done | by rewrite Hf | done |]); try (by left).
    intros [Hin | Hin]; cbn in Hin; [| by left; right].
    apply elem_of_app in Hin as [Hin | Hin%list_elem_of_singleton]; [by left; left |].
    subst m. right. by apply Hh.
  - intros [= <- <-]. split_and!; try done; [by rewrite Hat | by left].
Qed.

(** The sessions that count; a request does not bring one back. *)
Section Orphans.
Context (alive : string -> St -> Prop).
Context (alive_before : forall f answer h st s, alive s (advance f answer h st).2 -> alive s st).

(** The shippers of the cluster [cl], none of them on the node [n], with
    sessions of their own; nobody leads [n], and a claim on it by a shipper whose
    session counts holds its lock. *)
Record orphan (cl n : string) (x : list shipper * St) : Prop := {
  or_members : forall i h, x.1 !! i = Some h -> member cl n h;
  or_sessions : forall i j hi hj, x.1 !! i = Some hi -> x.1 !! j = Some hj ->
    sessionID (client hi) = sessionID (client hj) -> i = j;
  or_leader : Get (leader_key cl n) x.2 = None;
  or_free : forall i h, x.1 !! i = Some h -> pc_free n (at_ h);
  or_crashed : forall i h, x.1 !! i = Some h -> at_ h = Crashed -> acc h = [] /\ shipping h = [];
  or_held : forall i h, x.1 !! i = Some h -> claims n h -> alive (sessionID (client h)) x.2 ->
    Get (failover_key cl n) x.2 = Some (sessionID (client h));
}.

Lemma advance_crashed f answer h st :
  (at_ h = Crashed -> acc h = [] /\ shipping h = []) ->
  at_ (advance f answer h st).1 = Crashed ->
  acc (advance f answer h st).1 = [] /\ shipping (advance f answer h st).1 = [].
Proof.
  intros Hc. unfold advance. repeat case_match; cbn; try done; try congruence; intros; by apply Hc.
Qed.

Lemma orphan_step cl n x y : cluster_step x y -> orphan cl n x -> orphan cl n y.
Proof.
  intros [f answer i h hs st Hi] [Hm Hs Hl Hf Hcr Hc]. cbn in *.
  pose proof (alive_before f answer h st) as Hback.
  pose proof (advance_crashed f answer h st (Hcr _ _ Hi)) as Hcr'.
  destruct (advance f answer h st) as [h' st'] eqn:E. cbn in *.
  destruct (advance_node cl n f answer h st h' st' (Hm _ _ Hi) (Hf _ _ Hi) Hl E)
    as (Hcl & Hp & Hl' & Hkeep & Hclaim).
  assert (forall j hj, <[i := h']> hs !! j = Some hj ->
    (j = i /\ hj = h') \/ (j <> i /\ hs !! j = Some hj)) as Hlook.
  { intros j hj Hj. apply list_lookup_insert_Some in Hj as [(-> & -> & _) | [Hne Hj]];
      [by left | right; auto]. }
  split; cbn.
  - intros j hj Hj. destruct (Hlook j hj Hj) as [[-> ->] | [_ Hj']]; [| by eapply Hm].
    destruct (Hm _ _ Hi). by split; rewrite Hcl.
  - assert (forall j hj, <[i := h']> hs !! j = Some hj -> exists h0, hs !! j = Some h0 /\
      sessionID (client h0) = sessionID (client hj)) as Hold.
    { intros j hj Hj. destruct (Hlook j hj Hj) as [[-> ->] | [_ Hj']]; [| by exists hj].
      exists h. by rewrite Hcl. }
    intros j k hj hk Hj Hk E'. destruct (Hold _ _ Hj) as (h1 & H1 & E1).
    destruct (Hold _ _ Hk) as (h2 & H2 & E2). apply (Hs j k h1 h2 H1 H2). congruence.
  - done.
  - intros j hj Hj. destruct (Hlook j hj Hj) as [[-> ->] | [_ Hj']]; [done | by eapply Hf].
  - intros j hj Hj. destruct (Hlook j hj Hj) as [[-> ->] | [_ Hj']]; [done | by eapply Hcr].
  - intros j hj Hj Hcj Ha. destruct (Hlook j hj Hj) as [[-> ->] | [_ Hj']].
    + rewrite Hcl in *. destruct (Hclaim Hcj) as [Hold | Hnew]; [| done].
      apply Hkeep; [apply (mem_session _ _ _ (Hm _ _ Hi)) | eapply Hc; eauto].
    + apply Hkeep; [apply (mem_session _ _ _ (Hm _ _ Hj')) | eapply Hc; eauto].
Qed.

(** The cluster when it starts. *)
Lemma orphan_start cl n hs st :
  (forall i h, hs !! i = Some h ->
   member cl n h /\ at_ h = Resting /\ acc h = [] /\ shipping h = []) ->
  (forall i j hi hj, hs !! i = Some hi -> hs !! j = Some hj ->
   sessionID (client hi) = sessionID (client hj) -> i = j) ->
  Get (leader_key cl n) st = None ->
  orphan cl n (hs, st).
Proof.
  intros H0 Hs Hl. split; cbn; [intros i h Hi; by apply (H0 i h Hi) | done | done | | |].
  - intros i h Hi. destruct (H0 i h Hi) as (_ & -> & _). done.
  - intros i h Hi. destruct (H0 i h Hi) as (_ & -> & _). done.
  - intros i h Hi. destruct (H0 i h Hi) as (_ & _ & E1 & E2). unfold claims. rewrite E1, E2.
    intros [Hin | Hin]; by apply not_elem_of_nil in Hin.
Qed.
End Orphans.

(** C14. A node whose own log shipper is not running is shipped by at most one of
    the others, however their requests to Consul interleave and whichever of them
    fail or lose their answers: whoever ships the node, or is about to, holds its
    failover lock. *)
Theorem orphan_shipped_once cl n hs0 st0 hs st :
  (forall i h, hs0 !! i = Some h ->
   member cl n h /\ at_ h = Resting /\ acc h = [] /\ shipping h = []) ->
  (forall i j hi hj, hs0 !! i = Some hi -> hs0 !! j = Some hj ->
   sessionID (client hi) = sessionID (client hj) -> i = j) ->
  Get (leader_key cl n) st0 = None ->
  rtc cluster_step (hs0, st0) (hs, st) ->
  (forall i h, hs !! i = Some h -> claims n h ->
   Get (failover_key cl n) st = Some (sessionID (client h))) /\
  (forall i j hi hj, hs !! i = Some hi -> hs !! j = Some hj ->
   n ∈ shipping hi -> n ∈ shipping hj -> i = j).
Proof.
  intros H0 Hs Hl Hsteps. set (any := fun (_ : string) (_ : St) => True).
  assert (orphan any cl n (hs, st)) as [_ Hss _ _ _ Hc].
  { pose proof (orphan_start any cl n hs0 st0 H0 Hs Hl) as Hx. revert Hx.
    generalize (hs0, st0), (hs, st), Hsteps.
    induction 1 as [x | x y z Hxy _ IH]; intros Hx; [done |]. by eapply IH, orphan_step. }
  cbn in *. split; [intros; by eapply Hc |]. intros i j hi hj Hi Hj Hni Hnj.
  apply (Hss i j hi hj Hi Hj). pose proof (Hc i hi Hi (or_intror Hni) I) as E1.
  pose proof (Hc j hj Hj (or_intror Hnj) I) as E2. congruence.
Qed.
End Sharing.

(** ** Concrete runs *)
#[local] Existing Instance demo_consul.

Definition demo_shipper (node session : string) : shipper :=
  {| client := demo_client node session; at_ := Resting; acc := []; shipping := [] |}.

Definition demo_nodes : option (list string) := Some ["n1"; "n2"; "n3"].

(** The shippers make their requests in the given order. *)
Fixpoint schedule {St} `{Consul St} (order : list (nat * request)) (x : list shipper * St)
    : list shipper * St :=
  match order with
  | [] => x
  | (i, f) :: order =>
      match x.1 !! i with
      | Some h => let '(h, st) := advance f demo_nodes h x.2 in
                  schedule order (<[i := h]> x.1, st)
      | None => x
      end
  end.

Lemma schedule_steps {St} `{Consul St} order (x : list shipper * St) : rtc cluster_step x (schedule order x).
Proof.
  revert x. induction order as [| [i f] order IH]; intros [hs st]; cbn [schedule fst snd]; [done |].
  destruct (hs !! i) as [h |] eqn:Hi; [| done].
  destruct (advance f demo_nodes h st) as [h' st'] eqn:E.
  apply rtc_l with (<[i := h']> hs, st'); [| apply IH].
  pose proof (cluster_move f demo_nodes i h hs st Hi) as Hm. by rewrite E in Hm.
Qed.

Lemma schedule_runs {St} `{Consul St} order (x : list shipper * St) :
  rtc cluster_step x ((schedule order x).1, (schedule order x).2).
Proof. pose proof (schedule_steps order x) as Hs. by destruct (schedule order x). Qed.

(** [n] requests of a shipper, all of them answered. *)
Definition turns (n : nat) (i : nat) : list (nat * request) := replicate n (i, Answered).

(** The shippers of [n1] and [n2] take turns; [n3] has none. *)
Definition demo_turns : list (nat * request) :=
  concat (replicate 15 [(0%nat, Answered); (1%nat, Answered)]).
Definition demo_pair : list shipper := [demo_shipper "n1" "s1"; demo_shipper "n2" "s2"].
Definition demo_shared : list shipper * gmap string string :=
  schedule demo_turns (demo_pair, ∅).

Lemma demo_pair_members i h :
  demo_pair !! i = Some h ->
  member "c" "n3" h /\ at_ h = Resting /\ acc h = [] /\ shipping h = [].
Proof.
  destruct i as [| [| i]]; cbn; [intros [= <-].. | done];
    (split; [| done]); split; vm_compute; congruence.
Qed.

Lemma demo_pair_sessions i j hi hj :
  demo_pair !! i = Some hi -> demo_pair !! j = Some hj ->
  sessionID (client hi) = sessionID (client hj) -> i = j.
Proof.
  destruct i as [| [| i]], j as [| [| j]]; cbn; try done; intros [= <-] [= <-]; vm_compute; done.
Qed.

(** [n1] got the orphan [n3]; nobody else has it. *)
Lemma orphan_shipped_once_witness :
  shipping <$> demo_shared.1 = [["n1"; "n3"]; ["n2"]] /\
  forall j h, demo_shared.1 !! j = Some h -> "n3" ∈ shipping h -> j = 0%nat.
Proof.
  assert (shipping <$> demo_shared.1 = [["n1"; "n3"]; ["n2"]]) as E by (vm_compute; reflexivity).
  split; [exact E |]. intros j h Hj Hin.
  destruct (orphan_shipped_once "c" "n3" demo_pair (∅ : gmap string string)
    demo_shared.1 demo_shared.2 demo_pair_members demo_pair_sessions) as [_ Honce].
  - vm_compute; reflexivity.
  - apply schedule_runs.
  - assert (shipping <$> demo_shared.1 !! 0%nat = Some ["n1"; "n3"]) as E0
      by (vm_compute; reflexivity).
    destruct (demo_shared.1 !! 0%nat) as [h0 |] eqn:H0; [| discriminate E0].
    injection E0 as E0. apply (Honce j 0%nat h h0 Hj H0 Hin). rewrite E0.
    exact (list_elem_of_further _ _ _ (list_elem_of_here _ _)).
Defined.

(** A shipper alone takes over a node. *)
Lemma solo_computes_sync_witness :
  rtc solo (demo_shipper "n1" "s1", demo_store)
    ({| client := demo_client "n1" "s1"; at_ := Resting; acc := []; shipping := ["n1"; "n2"] |},
     demo_first.2).
Proof.
  pose proof (demo_sync_runs all_answered (demo_client "n1" "s1") demo_store ltac:(vm_compute; reflexivity))
    as Hr.
  exact (solo_computes_sync 1 all_answered (Some ["n1"; "n2"]) (demo_client "n1" "s1") [] [] demo_store
    ["n1"; "n2"] demo_first.2 Hr).
Defined.

(** A node that comes back while another shipper is between its two looks at the
    locks of that node is shipped twice, until the other shipper looks again:
    the shipper of [n1] has read that [n2] has no leader, the shipper of [n2]
    starts, clears the failover lock and ships, and then the first one finds no
    failover lock and takes [n2] over. *)
Definition demo_race : list shipper * gmap string string :=
  schedule (turns 6 0 ++ turns 11 1 ++ turns 5 0) (demo_pair, ∅).

Lemma recovery_race :
  rtc cluster_step (demo_pair, ∅) demo_race /\
  at_ <$> demo_race.1 = [Resting; Resting] /\
  shipping <$> demo_race.1 = [["n1"; "n2"]; ["n2"; "n3"]] /\
  Get (leader_key "c" "n2") demo_race.2 = Some "s2".
Proof.
  split; [apply schedule_steps |].
  split; [vm_compute; reflexivity |]. split; vm_compute; reflexivity.
Qed.

(** At its next tick the first shipper lets go of the node. *)
Lemma recovery_race_ends :
  shipping <$> (schedule (turns 15 0) demo_race).1 = [["n1"]; ["n2"; "n3"]].
Proof. vm_compute. reflexivity. Qed.

(** A read of a leader lock that fails looks like a node without a leader: with
    [n2] alive and holding its lock, one lost [Get] is enough for the shipper of
    [n1] to ship [n2] as well. *)
Definition demo_lost : list shipper * gmap string string :=
  schedule (turns 3 0 ++ turns 11 1 ++ turns 2 0 ++ [(0%nat, Lost)] ++ turns 5 0) (demo_pair, ∅).

Lemma lost_read_takes_over :
  rtc cluster_step (demo_pair, ∅) demo_lost /\
  at_ <$> demo_lost.1 = [Resting; Resting] /\
  shipping <$> demo_lost.1 = [["n1"; "n2"]; ["n2"; "n3"]] /\
  Get (leader_key "c" "n2") demo_lost.2 = Some "s2".
Proof.
  split; [apply schedule_steps |].
  split; [vm_compute; reflexivity |]. split; vm_compute; reflexivity.
Qed.
