(* ===== verification/NomadExpiry.v ===== *)
(** * Sessions that expire

    [createSession] of [src/source/nomad/client.go] asks Consul for a session
    with a time to live and the behaviour [delete]; the error of
    [RenewPeriodic] is not looked at, so a log shipper learns that its session
    is gone from its next request for its own lock.  What that means for the
    nodes that it ships. *)
From S2P Require Import Prelude NomadConfig Pool NomadClient NomadShare.

(** What Consul documents of sessions: an expired session stays expired, its
    keys are deleted, and a request for a lock with it is an error. *)
Class Sessions (St : Type) `{Consul St} := {
  live : string -> St -> bool;
  Expire : string -> St -> St;
  expire_dead s st : live s (Expire s st) = false;
  expire_others s st s' : s' <> s -> live s' (Expire s st) = live s' st;
  expire_deletes s st k :
    s <> "" -> Get k (Expire s st) = if decide (Get k st = Some s) then None else Get k st;
  acquire_dead p st : live (Session p) st = false -> exists err, Acquire p st = (inl err, st);
  live_acquire s p st : live s (Acquire p st).2 = live s st;
  live_delete s k st : live s (Delete k st) = live s st;
  live_release s p st : live s (Release p st) = live s st;
}.

Section Expiry.
Context {St : Type} `{Sessions St}.

(** A request of a shipper, or the end of a session. *)
Inductive expiring : list shipper * St -> list shipper * St -> Prop :=
  | shipper_moves x y : cluster_step x y -> expiring x y
  | session_expires s hs st : s <> "" -> expiring (hs, st) (hs, Expire s st).

Definition alive (s : string) (st : St) : Prop := live s st = true.

Lemma advance_live f answer h st s : live s (advance f answer h st).2 = live s st.
Proof.
  assert (forall p r st', ask_acquire f p st = (r, st') -> live s st' = live s st) as Ha.
  { intros p r st' E. transitivity (live s (ask_acquire f p st).2); [by rewrite E |].
    destruct f; [apply live_acquire | done | apply live_acquire]. }
  unfold advance. destruct (at_ h); cbn; repeat case_match; subst; cbn; try done;
    try (by eapply Ha); destruct f; cbn; by rewrite ?live_delete, ?live_release.
Qed.

Lemma alive_before f answer h st s : alive s (advance f answer h st).2 -> alive s st.
Proof. unfold alive. by rewrite advance_live. Qed.

Lemma orphan_expires cl n s hs st :
  s <> "" -> orphan alive cl n (hs, st) -> orphan alive cl n (hs, Expire s st).
Proof.
  intros Hne0 [Hm Hs Hl Hf Hcr Hc]. cbn in *. split; cbn; try done.
  - rewrite expire_deletes, Hl by done. by destruct (decide _).
  - intros i h Hi Hcl Ha. unfold alive in Ha.
    destruct (decide (sessionID (client h) = s)) as [<- | Hne]; [by rewrite expire_dead in Ha |].
    rewrite expire_others in Ha by done. rewrite expire_deletes, (Hc i h Hi Hcl Ha) by done.
    destruct (decide _) as [E |]; [| done]. congruence.
Qed.

Lemma orphan_expiring cl n x y :
  rtc expiring x y -> orphan alive cl n x -> orphan alive cl n y.
Proof.
  induction 1 as [x | x y z Hxy _ IH]; intros Hx; [done |]. apply IH. destruct Hxy as [x y Hxy | s hs st Hse].
  - eapply orphan_step; [exact alive_before | exact Hxy | exact Hx].
  - by apply orphan_expires.
Qed.

(** ** A shipper whose session is gone *)

(** The requests that such a shipper still makes before it asks for its own lock
    again, when Nomad never lists more than [N] nodes. *)
Definition to_crash (N : nat) (p : pc) : nat :=
  match p with
  | Crashed => 0
  | Acquiring => 1
  | Resting => 2
  | Scanning nodes => 3 + 4 * length nodes
  | Taking _ nodes | Deleting _ nodes => 4 + 4 * length nodes
  | Releasing _ nodes => 5 + 4 * length nodes
  | Reading _ _ nodes => 6 + 4 * length nodes
  | Listing => 4 + 4 * N
  | Recovering => 5 + 4 * N
  end.

(** A run in which the shipper [i] makes [k] requests. *)
Inductive own_run (N i : nat) : nat -> list shipper * St -> list shipper * St -> Prop :=
  | own_done x : own_run N i 0 x x
  | own_step f answer h k hs st y :
      hs !! i = Some h -> (length (default [] answer) <= N)%nat ->
      own_run N i k (<[i := (advance f answer h st).1]> hs, (advance f answer h st).2) y ->
      own_run N i (S k) (hs, st) y
  | other_step f answer h j k hs st y :
      j <> i -> hs !! j = Some h ->
      own_run N i k (<[j := (advance f answer h st).1]> hs, (advance f answer h st).2) y ->
      own_run N i k (hs, st) y
  | other_expires s k hs st y : s <> "" -> own_run N i k (hs, Expire s st) y -> own_run N i k (hs, st) y.

Lemma own_run_expiring N i k x y : own_run N i k x y -> rtc expiring x y.
Proof.
  induction 1 as [x | f answer h k hs st y Hi _ _ IH | f answer h j k hs st y _ Hj _ IH
                 | s k hs st y Hse _ IH].
  - apply rtc_refl.
  - eapply rtc_l; [apply shipper_moves, cluster_move, Hi | exact IH].
  - eapply rtc_l; [apply shipper_moves, cluster_move, Hj | exact IH].
  - eapply rtc_l; [by apply session_expires | exact IH].
Qed.

Lemma ask_acquire_dead f p st :
  live (Session p) st = false -> exists err, ask_acquire f p st = (inl err, st).
Proof.
  intros Hd. destruct (acquire_dead p st Hd) as [err E].
  destruct f; cbn; rewrite ?E; by eexists.
Qed.

(** One of its requests: it comes nearer to its end, and ships no more nodes of
    others. *)
Lemma dead_request N f answer h st n :
  live (sessionID (client h)) st = false -> strlen (own_node (client h)) <> 0 ->
  own_node (client h) <> n -> (length (default [] answer) <= N)%nat ->
  let h' := (advance f answer h st).1 in
  client h' = client h /\ (to_crash N (at_ h') <= to_crash N (at_ h) - 1)%nat /\
  (claims n h' -> claims n h).
Proof.
  intros Hd Ho Hn HN. unfold advance. set (c := client h) in *.
  destruct (ask_acquire_dead f (leader_lock c) st Hd) as [e1 E1].
  destruct (at_ h) as [| | | | [| m nodes] | m leader nodes | m nodes | m nodes | m nodes |] eqn:Hat;
    cbn -[Nat.mul].
  - rewrite (proj2 (Z.eqb_neq _ _) Ho). cbn. split_and!; [done | lia |].
    intros [Hin | Hin]; cbn in Hin; [| by right]. by apply list_elem_of_singleton in Hin.
  - rewrite E1. cbn. split_and!; [done | lia |]. intros [Hin | Hin]; by apply not_elem_of_nil in Hin.
  - case_match; cbn -[Nat.mul]; split_and!; (done || lia).
  - destruct answer as [l |]; cbn -[Nat.mul] in *; (split_and!; [done | lia |]); [done |].
    intros [Hin | Hin]; by apply not_elem_of_nil in Hin.
  - split_and!; [done | lia |]. intros [Hin | Hin]; cbn in Hin; [by apply not_elem_of_nil in Hin |].
    by left.
  - case_match; cbn -[Nat.mul]; split_and!; (done || lia).
  - repeat case_match; cbn -[Nat.mul]; split_and!; (done || lia).
  - split_and!; (done || lia).
  - split_and!; (done || lia).
  - destruct (ask_acquire_dead f (failover_lock c m) st Hd) as [e2 ->]. cbn -[Nat.mul].
    split_and!; (done || lia).
  - rewrite Hat. cbn. split_and!; (done || lia).
Qed.

Lemma dead_run N n i k x y :
  own_run N i k x y -> forall h, x.1 !! i = Some h ->
  live (sessionID (client h)) x.2 = false -> strlen (own_node (client h)) <> 0 ->
  own_node (client h) <> n ->
  exists h', y.1 !! i = Some h' /\ (claims n h' -> claims n h) /\
    ((to_crash N (at_ h) <= k)%nat -> at_ h' = Crashed).
Proof.
  induction 1 as [x | f answer h0 k hs st y Hi HN _ IH | f answer h0 j k hs st y Hj Hl _ IH
                 | s k hs st y Hse _ IH]; intros h Hh Hd Ho Hn; cbn [fst snd] in *.
  - exists h. split_and!; [done.. |]. destruct (at_ h); cbn -[Nat.mul]; (done || lia).
  - assert (h0 = h) as -> by congruence. destruct (dead_request N f answer h st n Hd Ho Hn HN) as (Hc & Ht & Hcl).
    destruct (IH (advance f answer h st).1) as (h' & Hy & Hcl' & Hcr).
    + apply list_lookup_insert_eq. by eapply lookup_lt_Some.
    + by rewrite Hc, advance_live.
    + by rewrite Hc.
    + by rewrite Hc.
    + exists h'. split_and!; [done | by intros; apply Hcl, Hcl' |]. intros. apply Hcr. lia.
  - apply IH; [by rewrite list_lookup_insert_ne | by rewrite advance_live | done..].
  - apply IH; [done | | done..].
    destruct (decide (sessionID (client h) = s)) as [<- |]; [apply expire_dead |].
    by rewrite expire_others.
Qed.

(** C15. Sessions that expire at any moment: of the shippers whose sessions are
    live, at most one ships a node whose own shipper is not running; and a shipper whose
    session has expired takes over no more nodes and panics, at the latest
    after the rest of its pass over the nodes and the first request of the next
    one, whatever the others do meanwhile.  Until then it ships on. *)
Theorem expiry_safe cl n N hs0 st0 hs st :
  (forall i h, hs0 !! i = Some h ->
   member cl n h /\ at_ h = Resting /\ acc h = [] /\ shipping h = []) ->
  (forall i j hi hj, hs0 !! i = Some hi -> hs0 !! j = Some hj ->
   sessionID (client hi) = sessionID (client hj) -> i = j) ->
  Get (leader_key cl n) st0 = None ->
  rtc expiring (hs0, st0) (hs, st) ->
  (forall i j hi hj, hs !! i = Some hi -> hs !! j = Some hj ->
   live (sessionID (client hi)) st = true -> live (sessionID (client hj)) st = true ->
   n ∈ shipping hi -> n ∈ shipping hj -> i = j) /\
  (forall i h k y h', hs !! i = Some h -> live (sessionID (client h)) st = false ->
   own_run N i k (hs, st) y -> y.1 !! i = Some h' ->
   (claims n h' -> claims n h) /\
   ((to_crash N (at_ h) <= k)%nat -> at_ h' = Crashed /\ shipping h' = [])).
Proof.
  intros Hst Hs Hl Hsteps.
  pose proof (orphan_expiring cl n _ _ Hsteps (orphan_start alive cl n hs0 st0 Hst Hs Hl)) as Ho.
  pose proof Ho as [Hm Hss _ _ _ Hc]. cbn in *. split.
  - intros i j hi hj Hi Hj Hli Hlj Hni Hnj. apply (Hss i j hi hj Hi Hj).
    pose proof (Hc i hi Hi (or_intror Hni) Hli) as E1.
    pose proof (Hc j hj Hj (or_intror Hnj) Hlj) as E2. congruence.
  - intros i h k y h' Hi Hd Hrun Hy. destruct (Hm i h Hi).
    destruct (dead_run N n i k _ _ Hrun h Hi Hd) as (h1 & Hy1 & Hcl & Hcr); [done..|].
    assert (h1 = h') as -> by congruence. split; [done |]. intros Hk. specialize (Hcr Hk).
    split; [done |]. pose proof (own_run_expiring _ _ _ _ _ Hrun) as Hsteps'.
    destruct (orphan_expiring cl n _ _ Hsteps' Ho) as [_ _ _ _ Hend _]. by eapply Hend.
Qed.
End Expiry.

(** ** A concrete run *)

(** The store with the sessions that have expired. *)
Definition kv_sessions : Type := gmap string string * gset string.

Definition kv_session_acquire (p : KVPair) (st : kv_sessions) : (string + bool) * kv_sessions :=
  if decide (Session p ∈ st.2) then (inl "invalid session", st)
  else ((kv_acquire p st.1).1, ((kv_acquire p st.1).2, st.2)).

#[local] Existing Instance demo_consul.

#[local] Program Instance session_consul : Consul kv_sessions := {|
  Acquire := kv_session_acquire;
  Get k st := st.1 !! k;
  Delete k st := (delete k st.1, st.2);
  Release p st := (kv_release p st.1, st.2);
|}.
Next Obligation.
  intros p [m d] st'. unfold kv_session_acquire. destruct (decide _); [done |]. cbn.
  pose proof (@acquire_held _ demo_consul p m) as Hh. cbn in Hh.
  destruct (kv_acquire p m) as [r m']. intros [= -> <-]. by apply Hh.
Qed.
Next Obligation.
  intros p [m d] st'. unfold kv_session_acquire. destruct (decide _); [done |]. cbn.
  pose proof (@acquire_free _ demo_consul p m) as Hh. cbn in Hh.
  destruct (kv_acquire p m) as [r m']. intros [= -> _]. by eapply Hh.
Qed.
Next Obligation.
  intros p [m d] k Hk. unfold kv_session_acquire. destruct (decide _); [done |].
  exact (@acquire_frame _ demo_consul p m k Hk).
Qed.
Next Obligation. intros. cbn. by rewrite lookup_delete_ne. Qed.
Next Obligation. intros p [m d] k Hk. exact (@release_frame _ demo_consul p m k Hk). Qed.
Next Obligation.
  intros p [m d] s Hk Hs. unfold kv_session_acquire. destruct (decide _); [done |].
  exact (@acquire_kept _ demo_consul p m s Hk Hs).
Qed.

#[local] Program Instance demo_sessions : Sessions kv_sessions := {|
  live s st := bool_decide (s ∉ st.2);
  Expire s st := (filter (fun kv => kv.2 <> s) st.1, {[s]} ∪ st.2);
|}.
Next Obligation. intros s [m d]. cbn. apply bool_decide_eq_false. set_solver. Qed.
Next Obligation. intros s [m d] s' Hs. cbn. apply bool_decide_ext. set_solver. Qed.
Next Obligation.
  intros s [m d] k _. cbn. rewrite map_lookup_filter. destruct (m !! k) as [s' |]; cbn; [| by case_decide].
  destruct (decide (s' = s)) as [-> | Hne]; repeat case_guard; repeat case_decide; cbn; congruence.
Qed.
Next Obligation.
  intros p [m d] Hd. apply bool_decide_eq_false, dec_stable in Hd. cbn in *.
  unfold kv_session_acquire. rewrite decide_True by done. by eexists.
Qed.
Next Obligation. intros s p [m d]. cbn. unfold kv_session_acquire. by destruct (decide _). Qed.
Next Obligation. done. Qed.
Next Obligation. done. Qed.

(** The session of the shipper of [n1] expires while it ships the orphan [n3]:
    the shipper of [n2] takes over [n3], and [n1] as well; the first one ships on,
    and panics at its next pass. *)
Definition demo_empty : kv_sessions := (∅, ∅).
Definition demo_before : list shipper * kv_sessions := schedule demo_turns (demo_pair, demo_empty).
Definition demo_expired : kv_sessions := Expire "s1" demo_before.2.
Definition demo_overlap : list shipper * kv_sessions :=
  schedule (turns 11 1) (demo_before.1, demo_expired).

Lemma demo_overlap_reached : rtc expiring (demo_pair, demo_empty) (demo_overlap.1, demo_overlap.2).
Proof.
  assert (forall x y : list shipper * kv_sessions, rtc cluster_step x y -> rtc expiring x y) as Hsub.
  { intros x y. induction 1 as [| x y z Hxy _ IH]; [apply rtc_refl |].
    eapply rtc_l; [apply shipper_moves, Hxy | exact IH]. }
  etrans; [apply Hsub, (schedule_runs demo_turns) |].
  eapply rtc_l; [by apply (session_expires "s1") |]. apply Hsub, schedule_runs.
Qed.

Lemma expired_ships_on :
  rtc expiring (demo_pair, demo_empty) (demo_overlap.1, demo_overlap.2) /\
  shipping <$> demo_overlap.1 = [["n1"; "n3"]; ["n2"; "n1"; "n3"]] /\
  live "s1" demo_overlap.2 = false.
Proof.
  split; [exact demo_overlap_reached |]. split; vm_compute; reflexivity.
Qed.

Lemma own_turns N i k (x : list shipper * kv_sessions) :
  (3 <= N)%nat -> is_Some (x.1 !! i) -> own_run N i k x (schedule (turns k i) x).
Proof.
  intros HN. revert x. induction k as [| k IH]; intros [hs st] [h Hh]; cbn in Hh; [apply own_done |].
  cbn [turns replicate schedule fst snd]. rewrite Hh.
  destruct (advance Answered demo_nodes h st) as [h' st'] eqn:E.
  eapply (own_step N i Answered demo_nodes h); [exact Hh | exact HN |]. rewrite E. apply IH.
  exists h'. apply list_lookup_insert_eq. by eapply lookup_lt_Some.
Qed.

Definition demo_crash : list shipper * kv_sessions := schedule (turns 15 0) demo_overlap.

Lemma expiry_safe_witness :
  exists h, demo_crash.1 !! 0%nat = Some h /\ at_ h = Crashed /\ shipping h = [].
Proof.
  destruct (expiry_safe "c" "n3" 3 demo_pair demo_empty demo_overlap.1 demo_overlap.2
    demo_pair_members demo_pair_sessions) as [_ Hdead].
  { vm_compute. reflexivity. }
  { exact demo_overlap_reached. }
  assert (exists h, demo_overlap.1 !! 0%nat = Some h /\ at_ h = Scanning ["n1"; "n2"; "n3"] /\
      sessionID (client h) = "s1")
    as (h & Hh & Hat & Hs) by (eexists; split; [vm_compute; reflexivity | split; reflexivity]).
  assert (exists h', demo_crash.1 !! 0%nat = Some h') as (h' & Hh')
    by (eexists; vm_compute; reflexivity).
  exists h'. split; [exact Hh' |].
  refine (proj2 (Hdead 0%nat h 15%nat demo_crash h' Hh _ _ Hh') _).
  - rewrite Hs. vm_compute. reflexivity.
  - rewrite <- (surjective_pairing demo_overlap). apply own_turns; [repeat constructor | by eexists].
  - rewrite Hat. cbn. lia.
Defined.
