(* ===== verification/NomadWorker.v ===== *)
(** * Watching one allocation: [src/source/nomad/worker.go]

    A worker reads the configuration of its allocation again and again and
    turns the events of its tasks into log messages: the hash of an event that
    was sent is kept as a key in Consul, so that it is not sent again.  Here are
    its data, its start and the messages; the file [NomadWatch] has the steps of
    its goroutines. *)
From Stdlib Require Import Ascii String.
From S2P Require Import Prelude Wire Text Message NomadConfig.

(** ** Data *)

(** [AllocationWorker]; its configuration is nil until the first update. *)
Record AllocationWorker := {
  Stop : bool;
  allocation : Allocation;
  waitGroup : Z;
  allocationConfig : option AllocationConfig;
  clusterName : string;
}.

Definition NewAllocationWorker (clusterName : string) (alloc : Allocation)
    : AllocationWorker :=
  {| Stop := false; allocation := alloc; waitGroup := 0; allocationConfig := None;
     clusterName := clusterName |}.

Definition set_config (c : AllocationConfig) (w : AllocationWorker) : AllocationWorker :=
  {| Stop := Stop w; allocation := allocation w; waitGroup := waitGroup w;
     allocationConfig := Some c; clusterName := clusterName w |}.

Definition set_group (n : Z) (w : AllocationWorker) : AllocationWorker :=
  {| Stop := Stop w; allocation := allocation w; waitGroup := n;
     allocationConfig := allocationConfig w; clusterName := clusterName w |}.

(** The keys of the events that were sent: a [Put] that is done stores its key,
    and no other. *)
Class EventKeys (St : Type) := {
  Known : string -> St -> bool;
  Put : string -> St -> St;
  put_known k st : Known k (Put k st) = true;
  put_frame k st k' : k' <> k -> Known k' (Put k st) = Known k' st;
}.

(** ** Configuration *)
Section Worker.
Context (Info : string -> option Allocation).

(** [updateAllocationConfig]: [Info] is Nomad's answer. *)
Definition updateAllocationConfig (w : AllocationWorker) : outcome (bool * AllocationWorker) :=
  match Info (Alloc_ID (allocation w)) with
  | None => Ret (false, w)
  | Some alloc =>
      match NewFromAllocation alloc with
      | Ret config => Ret (true, set_config config w)
      | Panic why => Panic why
      end
  end.

(** [Start]: whether the goroutines of the worker are started. *)
Definition Start (w : AllocationWorker) : outcome (bool * AllocationWorker) :=
  match updateAllocationConfig w with
  | Panic why => Panic why
  | Ret (gotConfig, w) =>
      match allocationConfig w with
      | None => Panic nil_deref
      | Some c =>
          if negb (JobConfig_Enabled (JobConfig_ c)) || negb gotConfig then Ret (false, w)
          else Ret (true, w)
      end
  end.

(** [Wait] returns when the goroutine of the events is done. *)
Definition Wait_returns (w : AllocationWorker) : bool := waitGroup w =? 0.

(** ** Events *)
Definition event_key (cluster alloc : string) (hash : Z) : string :=
  "log-shipper/nomad/synced-events/" +:+ cluster +:+ "/allocs/" +:+ alloc +:+ "/"
    +:+ pretty hash.

Definition event_text (e : TaskEvent) : string :=
  "[" +:+ Event_Type e +:+ "] " +:+ DriverMessage e +:+ " " +:+ DriverError e.

(** The message of an event; [job] is the ID of the job. *)
Definition event_message (alloc : Allocation) (job task : string) (e : TaskEvent)
    : SourceMessage :=
  {| Id := job;
     Message_ := TrimSpace (bytes_of (event_text e));
     Meta := <["task" := task]> (<["alloc" := Alloc_ID alloc]> (<["job" := job]>
             (<["group" := Alloc_TaskGroup alloc]> (<["event_type" := Event_Type e]>
             (<["driver_message" := DriverMessage e]> {["driver_error" := DriverError e]})))));
     Attributes_ := Some {| Type_ := "nomad_task_events"; Timestamp := Event_Time e / 1000000000;
                            Attributes_unrecognized := [] |};
     SourceMessage_unrecognized := [] |}.

(** What the loops do to the outside, in order: the server receives a message,
    which is that of the event with the key [k]; the key is put, or the [Put]
    does not get through; a [Get] of the key is not answered.  The last two are
    errors that the program ignores. *)
Inductive effect :=
  | SendLog (k : string) (m : SourceMessage)
  | PutKey (k : string)
  | LostKey (k : string)
  | Unread (k : string).

(** A worker that cannot read its configuration the first time panics. *)
Lemma start_without_config cluster alloc :
  Info (Alloc_ID alloc) = None ->
  Start (NewAllocationWorker cluster alloc) = Panic nil_deref.
Proof. unfold Start, updateAllocationConfig. cbn. by intros ->. Qed.
End Worker.

Lemma put_keeps_known {St} `{EventKeys St} k k' (st : St) :
  Known k' st = true -> Known k' (Put k st) = true.
Proof. intros Hk. destruct (decide (k' = k)) as [-> |]; [apply put_known | by rewrite put_frame]. Qed.

(** ** Concrete data *)
Program Definition demo_keys : EventKeys (gset string) := {|
  Known k (st : gset string) := bool_decide (k ∈ st);
  Put k (st : gset string) := {[k]} ∪ st;
|}.
Next Obligation. intros k st. apply bool_decide_eq_true_2. set_solver. Qed.
Next Obligation. intros k st k' Hk. apply bool_decide_ext. set_solver. Qed.

Definition demo_event (text : string) (time : Z) : TaskEvent :=
  {| Event_Type := "Started"; Event_Time := time; DriverMessage := text; DriverError := " " |}.

Definition demo_allocation : Allocation :=
  {| Alloc_ID := "a1";
     Alloc_Job := Some {| Job_ID := Some "j"; Job_Name := Some "j"; Job_Meta := ∅;
       TaskGroups := [{| TaskGroup_Name := Some "g"; TaskGroup_Meta := ∅;
         Tasks := [{| Task_Name := "t"; Task_Meta := ∅ |}] |}] |};
     Alloc_TaskGroup := "g";
     TaskStates := {["t" := [demo_event "up" 1500000000; demo_event "down" (-1)]]} |}.

Definition demo_hash (e : TaskEvent) : option Z := Some (Event_Time e).

Example demo_text :
  string_of (Message_ (event_message demo_allocation "j" "t" (demo_event "up" 1)))
  = "[Started] up".
Proof. by vm_compute. Qed.
