(* ===== verification/NomadWatch.v ===== *)
(** * The goroutines of one allocation: [src/source/nomad/worker.go]

    [Start] leaves two goroutines running, which share the pointer to the
    configuration: [syncAllocationConfig] replaces it, [watchAllocationEvents]
    reads it again for every task.  Here each goes its own way, a read, a request
    to Consul or a channel operation at a time: a [Get] or a [Put] may fail, and
    the send of a message waits for the server that receives it. *)
From Stdlib Require Import Ascii String.
From S2P Require Import Prelude Wire Text Message NomadConfig NomadWorker.

(** ** The state *)

(** Where [watchAllocationEvents] is: not yet run, at its [select], before it
    reads the allocation, in the loop over the tasks, between the two tests of
    a task, in the loop over the events (before the [Get] of the next one), at
    the send, before the [Put], or returned.  The local variables [key] and [log]
    are those of the code. *)
Inductive watch_pc :=
  | Unstarted
  | Selecting
  | Reading
  | States (alloc : Allocation) (states : list (string * list TaskEvent))
  | Checked (alloc : Allocation) (task : string) (events : list TaskEvent)
      (states : list (string * list TaskEvent))
  | Events (alloc : Allocation) (task : string) (events : list TaskEvent)
      (states : list (string * list TaskEvent))
  | Posting (alloc : Allocation) (task key : string) (log : SourceMessage)
      (events : list TaskEvent) (states : list (string * list TaskEvent))
  | Keeping (alloc : Allocation) (task key : string)
      (events : list TaskEvent) (states : list (string * list TaskEvent))
  | Returned.

(** The worker that both share, whether [syncAllocationConfig] runs, the keys in
    Consul, and what was done to the outside. *)
Record watching {St : Type} := {
  worker : AllocationWorker;
  at_ : watch_pc;
  syncing : bool;
  keys : St;
  log : list effect;
}.
Arguments watching St : clear implicits.

(** What happens next: a goroutine runs for the first time, a ticker fires with
    Nomad's answer, the stop channel is seen, or the goroutine goes on by itself,
    with a [Get] or a [Put] that fares in one of three ways, or because the server
    receives its message; [CloseStop] is [AllocationWorkers.Close]. *)
Inductive watch_action :=
  | WatchBegin
  | WatchTick (answer : option Allocation)
  | WatchStop
  | WatchMove (order : gmap string (list TaskEvent) -> list (string * list TaskEvent))
  | WatchGet (f : request)
  | WatchSend
  | WatchPut (f : request)
  | SyncTick (answer : option Allocation)
  | SyncStop
  | CloseStop.

Definition set_stop (w : AllocationWorker) : AllocationWorker :=
  {| Stop := true; allocation := allocation w; waitGroup := waitGroup w;
     allocationConfig := allocationConfig w; clusterName := clusterName w |}.

Lemma config_alloc alloc c : NewFromAllocation alloc = Ret c -> Alloc c = alloc.
Proof.
  unfold NewFromAllocation. destruct (Alloc_Job alloc); [| done].
  destruct (add_groups _ _ _ _) as [[gs ts] |]; [| done]. by intros [= <-].
Qed.

Section Watch.
Context {St : Type} `{EventKeys St}.
(** The hash of an event, [None] an error of the library. *)
Context (Hash : TaskEvent -> option Z).

Definition set_at (p : watch_pc) (s : watching St) : watching St :=
  {| worker := worker s; at_ := p; syncing := syncing s; keys := keys s; log := log s |}.
Definition set_worker (w : AllocationWorker) (s : watching St) : watching St :=
  {| worker := w; at_ := at_ s; syncing := syncing s; keys := keys s; log := log s |}.

(** The goroutine has done something, and goes on at [p] with the keys [st]. *)
Definition after (e : effect) (p : watch_pc) (st : St) (s : watching St) : watching St :=
  {| worker := worker s; at_ := p; syncing := syncing s; keys := st; log := log s ++ [e] |}.

(** The deferred [Done]. *)
Definition leave (s : watching St) : watching St :=
  set_at Returned (set_worker (set_group (waitGroup (worker s) - 1) (worker s)) s).

(** [w.allocationConfig.TaskConfigs[taskKey]], read now. *)
Definition task_config (s : watching St) (alloc : Allocation) (task : string)
    : outcome TaskConfig :=
  match Alloc_Job alloc with
  | None => Panic nil_deref
  | Some job =>
      match Job_Name job with
      | None => Panic nil_deref
      | Some name =>
          match allocationConfig (worker s) with
          | None => Panic nil_deref
          | Some c =>
              match TaskConfigs c !! task_key name (Alloc_TaskGroup alloc) task with
              | None => Panic nil_deref
              | Some config => Ret config
              end
          end
      end
  end.

(** The next step of [watchAllocationEvents] that neither leaves the process nor
    waits for another goroutine. *)
Definition move (order : gmap string (list TaskEvent) -> list (string * list TaskEvent))
    (s : watching St) : option (outcome (watching St)) :=
  match at_ s with
  | Reading =>
      Some match allocationConfig (worker s) with
           | None => Panic nil_deref
           | Some c => Ret (set_at (States (Alloc c) (order (TaskStates (Alloc c)))) s)
           end
  | States alloc [] => Some (Ret (set_at Selecting s))
  | States alloc ((task, events) :: states) =>
      Some match task_config s alloc task with
           | Panic why => Panic why
           | Ret config =>
               Ret (set_at (if TaskConfig_Enabled config then Checked alloc task events states
                            else States alloc states) s)
           end
  | Checked alloc task events states =>
      Some match task_config s alloc task with
           | Panic why => Panic why
           | Ret config =>
               Ret (set_at (if WatchNomadEvents config then Events alloc task events states
                            else States alloc states) s)
           end
  | Events alloc task [] states => Some (Ret (set_at (States alloc states) s))
  | _ => None
  end.

(** The event is new, or seems to be: its message is made. *)
Definition prepare (alloc : Allocation) (task key : string) (event : TaskEvent)
    (events : list TaskEvent) (states : list (string * list TaskEvent)) : outcome watch_pc :=
  match Alloc_Job alloc with
  | None => Panic nil_deref
  | Some job =>
      match Job_ID job with
      | None => Panic nil_deref
      | Some id => Ret (Posting alloc task key (event_message alloc id task event) events states)
      end
  end.

(** [existing, _, _ := w.consulClient.KV().Get(key, nil)] and what is done with
    it: the error is dropped, so that a [Get] that fails finds nothing. *)
Definition get (f : request) (s : watching St) : option (outcome (watching St)) :=
  match at_ s with
  | Events alloc task (event :: events) states =>
      Some match Hash event with
           | None => Panic "hash"
           | Some hash =>
               let key := event_key (clusterName (worker s)) (Alloc_ID alloc) hash in
               match f with
               | Answered =>
                   if Known key (keys s) then Ret (set_at (Events alloc task events states) s)
                   else match prepare alloc task key event events states with
                        | Panic why => Panic why
                        | Ret p => Ret (set_at p s)
                        end
               | Lost | Unheard =>
                   match prepare alloc task key event events states with
                   | Panic why => Panic why
                   | Ret p => Ret (after (Unread key) p (keys s) s)
                   end
               end
           end
  | _ => None
  end.

(** [receiver <- log], when the server receives it. *)
Definition send (s : watching St) : option (outcome (watching St)) :=
  match at_ s with
  | Posting alloc task key log events states =>
      Some (Ret (after (SendLog key log) (Keeping alloc task key events states) (keys s) s))
  | _ => None
  end.

(** [_, _ = w.consulClient.KV().Put(...)]. *)
Definition put (f : request) (s : watching St) : option (outcome (watching St)) :=
  match at_ s with
  | Keeping alloc task key events states =>
      Some (Ret match f with
                | Lost => after (LostKey key) (Events alloc task events states) (keys s) s
                | Answered | Unheard =>
                    after (PutKey key) (Events alloc task events states) (Put key (keys s)) s
                end)
  | _ => None
  end.

(** A call of [updateAllocationConfig], for either goroutine. *)
Definition refresh (answer : option Allocation) (s : watching St)
    : outcome (bool * watching St) :=
  match updateAllocationConfig (fun _ => answer) (worker s) with
  | Panic why => Panic why
  | Ret (got, w) => Ret (got, set_worker w s)
  end.

Definition watch_exec (a : watch_action) (s : watching St) : option (outcome (watching St)) :=
  match a with
  | WatchBegin =>
      match at_ s with
      | Unstarted =>
          Some (Ret (set_at Selecting (set_worker (set_group (waitGroup (worker s) + 1)
            (worker s)) s)))
      | _ => None
      end
  | WatchTick answer =>
      match at_ s with
      | Selecting =>
          Some match refresh answer s with
               | Panic why => Panic why
               | Ret (got, s) => Ret (if (got : bool) then set_at Reading s else leave s)
               end
      | _ => None
      end
  | WatchStop =>
      match at_ s with
      | Selecting => if Stop (worker s) then Some (Ret (leave s)) else None
      | _ => None
      end
  | WatchMove order => move order s
  | WatchGet f => get f s
  | WatchSend => send s
  | WatchPut f => put f s
  | SyncTick answer =>
      if syncing s then
        Some match refresh answer s with
             | Panic why => Panic why
             | Ret (_, s) => Ret s
             end
      else None
  | SyncStop =>
      if syncing s && Stop (worker s) then
        Some (Ret {| worker := worker s; at_ := at_ s; syncing := false; keys := keys s;
                     log := log s |})
      else None
  | CloseStop =>
      Some (if Stop (worker s) then Panic "close of closed channel"
            else Ret (set_worker (set_stop (worker s)) s))
  end.

(** After [Start] returned with the goroutines on their way. *)
Definition watch_start (w : AllocationWorker) (st : St) : watching St :=
  {| worker := w; at_ := Unstarted; syncing := true; keys := st; log := [] |}.

Definition watch_step (s s' : watching St) : Prop :=
  exists a, watch_exec a s = Some (Ret s').

(** ** What a run leaves behind *)

(** The message of an event, under its key. *)
Definition genuine (cluster k : string) (m : SourceMessage) : Prop :=
  exists alloc job task e h, Hash e = Some h /\ k = event_key cluster (Alloc_ID alloc) h /\
    m = event_message alloc job task e.

(** Every message is genuine, and right after it its key is put, with or without
    success. *)
Inductive kept (cluster : string) : list effect -> Prop :=
  | kept_nil : kept cluster []
  | kept_unread es k : kept cluster es -> kept cluster (es ++ [Unread k])
  | kept_sent es k m e :
      kept cluster es -> genuine cluster k m -> e = PutKey k \/ e = LostKey k ->
      kept cluster (es ++ [SendLog k m; e]).

(** What the goroutine has sent and not yet noted. *)
Definition log_ok (s : watching St) : Prop :=
  let cluster := clusterName (worker s) in
  match at_ s with
  | Posting _ _ k m _ _ => kept cluster (log s) /\ genuine cluster k m
  | Keeping _ _ k _ _ =>
      exists es m, kept cluster es /\ genuine cluster k m /\ log s = es ++ [SendLog k m]
  | _ => kept cluster (log s)
  end.

(** The wait group is held while the goroutine runs. *)
Definition held (p : watch_pc) : Z :=
  match p with Unstarted | Returned => 0 | _ => 1 end.

Record watch_inv (s : watching St) : Prop := {
  wi_log : log_ok s;
  wi_group : waitGroup (worker s) = held (at_ s);
}.

Lemma refresh_spec answer s :
  match refresh answer s with
  | Ret (got, s') =>
      at_ s' = at_ s /\ syncing s' = syncing s /\ keys s' = keys s /\ log s' = log s /\
      clusterName (worker s') = clusterName (worker s) /\
      waitGroup (worker s') = waitGroup (worker s) /\ Stop (worker s') = Stop (worker s)
  | Panic _ => True
  end.
Proof.
  unfold refresh, updateAllocationConfig. destruct answer as [alloc |]; [| done].
  by destruct (NewFromAllocation alloc).
Qed.

(** Steps within the process: nothing is done to the outside. *)
Definition inward (a : watch_action) : bool :=
  match a with WatchGet _ | WatchSend | WatchPut _ => false | _ => true end.

(** The windows in which an event is about to be sent or noted. *)
Definition between (p : watch_pc) : option string :=
  match p with Posting _ _ k _ _ _ | Keeping _ _ k _ _ => Some k | _ => None end.

Lemma inward_step a s s' :
  inward a = true -> watch_exec a s = Some (Ret s') ->
  keys s' = keys s /\ log s' = log s /\ between (at_ s') = between (at_ s) /\
  (between (at_ s) <> None -> at_ s' = at_ s) /\
  clusterName (worker s') = clusterName (worker s) /\
  (waitGroup (worker s) = held (at_ s) -> waitGroup (worker s') = held (at_ s')).
Proof.
  destruct a as [| answer | | order | | | | answer | |]; cbn [inward watch_exec]; intros Ha; try done; clear Ha.
  - destruct (at_ s) eqn:E; try done. intros [= <-]. split_and!; try done. cbn. lia.
  - destruct (at_ s) eqn:E; try done. pose proof (refresh_spec answer s) as Hr.
    destruct (refresh answer s) as [[got s1] |]; [| done]. intros [= <-].
    destruct Hr as (Ea & _ & Ek & El & Ec & Eg & _). destruct got; split_and!; try done; cbn; lia.
  - destruct (at_ s) eqn:E; try done. destruct (Stop _); [| done]. intros [= <-].
    split_and!; try done. cbn. lia.
  - unfold move. destruct (at_ s) as [| | | alloc [| [task events] states] | alloc task events states
      | alloc task [| e events] states | | |] eqn:E; try done; intros Hm; repeat case_match; simplify_eq;
      by split_and!.
  - destruct (syncing s); [| done]. pose proof (refresh_spec answer s) as Hr.
    destruct (refresh answer s) as [[got s1] |]; [| done]. intros [= <-].
    destruct Hr as (Ea & _ & Ek & El & Ec & Eg & _). by rewrite Ea, Ek, El, Ec, Eg.
  - destruct (_ && _); [| done]. intros [= <-]. done.
  - destruct (Stop (worker s)); [done |]. intros [= <-]. done.
Qed.

Lemma log_ok_idle s :
  between (at_ s) = None -> log_ok s <-> kept (clusterName (worker s)) (log s).
Proof. unfold log_ok. by destruct (at_ s). Qed.

Lemma inward_log_ok a s s' :
  inward a = true -> watch_exec a s = Some (Ret s') -> log_ok s -> log_ok s'.
Proof.
  intros Ha He. destruct (inward_step a s s' Ha He) as (_ & El & Eb & Ea & Ec & _).
  destruct (between (at_ s)) as [k |] eqn:Hb.
  - rewrite <- Hb in Ea. specialize (Ea ltac:(by rewrite Hb)).
    unfold log_ok. by rewrite Ea, El, Ec.
  - rewrite (log_ok_idle s), (log_ok_idle s'), El, Ec by done. done.
Qed.

(** What [Get] decides: the event is skipped, or its message is made. *)
Lemma get_cases f s s' :
  get f s = Some (Ret s') ->
  exists alloc task e events states h, at_ s = Events alloc task (e :: events) states /\
    Hash e = Some h /\
    let k := event_key (clusterName (worker s)) (Alloc_ID alloc) h in
    worker s' = worker s /\ keys s' = keys s /\
    (f = Answered /\ Known k (keys s) = true /\ at_ s' = Events alloc task events states /\
       log s' = log s \/
     exists job, at_ s' = Posting alloc task k (event_message alloc job task e) events states /\
       (f = Answered /\ Known k (keys s) = false /\ log s' = log s \/
        log s' = log s ++ [Unread k])).
Proof.
  unfold get. destruct (at_ s) as [| | | | | alloc task [| e events] states | | |] eqn:Hat; try done.
  destruct (Hash e) as [h |] eqn:Hh; [| done]. cbv zeta. intros E.
  exists alloc, task, e, events, states, h. do 2 (split; [done |]).
  unfold prepare in E. destruct f; [destruct (Known _ _) eqn:Hk |..].
  1: { injection E as <-. cbn. do 2 (split; [done |]). by left. }
  all: destruct (Alloc_Job alloc) as [j |]; [| done]; destruct (Job_ID j) as [id |]; [| done];
    injection E as <-; cbn; do 2 (split; [done |]); right; exists id; (split; [done |]); by auto.
Qed.

Lemma send_cases s s' :
  send s = Some (Ret s') ->
  exists alloc task k m events states, at_ s = Posting alloc task k m events states /\
    s' = after (SendLog k m) (Keeping alloc task k events states) (keys s) s.
Proof. unfold send. destruct (at_ s); try done. intros [= <-]. by do 6 eexists. Qed.

Lemma put_cases f s s' :
  put f s = Some (Ret s') ->
  exists alloc task k events states, at_ s = Keeping alloc task k events states /\
    (s' = after (PutKey k) (Events alloc task events states) (Put k (keys s)) s \/
     s' = after (LostKey k) (Events alloc task events states) (keys s) s).
Proof.
  unfold put. destruct (at_ s); try done. intros E. do 5 eexists. split; [done |].
  destruct f; injection E as <-; by auto.
Qed.

Lemma watch_exec_inv a s s' : watch_inv s -> watch_exec a s = Some (Ret s') -> watch_inv s'.
Proof.
  intros [Hl Hg] E. destruct (inward a) eqn:Ha.
  { split; [by eapply inward_log_ok |]. by apply (inward_step a s s' Ha E). }
  destruct a; try done; cbn [watch_exec] in E; clear Ha.
  - destruct (get_cases _ _ _ E) as (alloc & task & e & es & sts & h & Hat & Hh & Ew & _ & Hc).
    unfold log_ok in Hl. rewrite Hat in Hl, Hg.
    destruct Hc as [(_ & _ & Ea & El) | (job & Ea & Hc)]; split; rewrite ?Ew, ?Ea; try done;
      unfold log_ok; rewrite Ew, Ea.
    + by rewrite El.
    + split; [| by exists alloc, job, task, e, h].
      destruct Hc as [(_ & _ & ->) | ->]; [done | by constructor].
  - destruct (send_cases _ _ E) as (alloc & task & k & m & es & sts & Hat & ->).
    unfold log_ok in Hl. rewrite Hat in Hl, Hg. destruct Hl as [Hl Hm].
    split; cbn; [| done]. by exists (log s), m.
  - destruct (put_cases _ _ _ E) as (alloc & task & k & es & sts & Hat & Hs).
    unfold log_ok in Hl. rewrite Hat in Hl, Hg. destruct Hl as (es0 & m & Hes & Hm & El).
    destruct Hs as [-> | ->]; split; cbn; try done; unfold log_ok; cbn; rewrite El, <- app_assoc;
      constructor; auto.
Qed.

Lemma watch_start_inv w st : waitGroup w = 0 -> watch_inv (watch_start w st).
Proof. intros Hw. split; [constructor | done]. Qed.

(** ** Counting *)

Definition is_key (k k' : string) : nat := if String.eqb k k' then 1 else 0.

Definition sends (k : string) : list effect -> nat :=
  sum_list_with (fun e => match e with SendLog k' _ => is_key k k' | _ => O end).
Definition puts (k : string) : list effect -> nat :=
  sum_list_with (fun e => match e with PutKey k' => is_key k k' | _ => O end).
Definition losses (k : string) : list effect -> nat :=
  sum_list_with (fun e => match e with LostKey k' => is_key k k' | _ => O end).
Definition unreads (k : string) : list effect -> nat :=
  sum_list_with (fun e => match e with Unread k' => is_key k k' | _ => O end).

(** Whether the goroutine is about to send or to note the event, or to note it. *)
Definition window (k : string) (p : watch_pc) : nat :=
  match between p with Some k' => is_key k k' | None => O end.
Definition unnoted (k : string) (p : watch_pc) : nat :=
  match p with Keeping _ _ k' _ _ => is_key k k' | _ => O end.

(** An event that has no key is sent once. *)
Definition unkept (k : string) (st : St) : nat := if Known k st then O else 1%nat.

Lemma is_key_refl k : is_key k k = 1%nat.
Proof. unfold is_key. by rewrite String.eqb_refl. Qed.

Lemma is_key_le k k' : (is_key k k' <= 1)%nat.
Proof. unfold is_key. destruct (String.eqb k k'); lia. Qed.

Lemma unnoted_window k p : (unnoted k p <= window k p)%nat.
Proof. unfold unnoted, window. destruct p; cbn; lia. Qed.

Ltac counts := unfold sends, puts, losses, unreads in *; rewrite ?sum_list_with_app in *; cbn in *.

Lemma kept_counts cluster es k :
  kept cluster es -> sends k es = (puts k es + losses k es)%nat.
Proof.
  induction 1 as [| es k' _ IH | es k' m e _ IH _ [-> | ->]]; counts; [done | lia | lia | lia].
Qed.

(** Every message is noted, with or without success, but for the last. *)
Lemma log_counts s k :
  log_ok s -> sends k (log s) = (puts k (log s) + losses k (log s) + unnoted k (at_ s))%nat.
Proof.
  unfold log_ok. destruct (at_ s); cbn [unnoted];
    try (intros Hl; rewrite (kept_counts _ _ _ Hl); lia).
  - intros [Hl _]. rewrite (kept_counts _ _ _ Hl). lia.
  - intros (es & m & Hes & _ & ->). pose proof (kept_counts _ _ k Hes). counts. lia.
Qed.

(** A step makes no event due to be sent, but for a [Get] that fails. *)
Definition steady (k : string) (s s' : watching St) : Prop :=
  (puts k (log s') + window k (at_ s') + unreads k (log s)
   <= puts k (log s) + window k (at_ s) + unreads k (log s'))%nat.

(** Or it finds that the event has no key. *)
Record opens (k : string) (s s' : watching St) : Prop := {
  op_new : Known k (keys s) = false;
  op_before : exists alloc task e events states h,
    at_ s = Events alloc task (e :: events) states /\ Hash e = Some h /\
    k = event_key (clusterName (worker s)) (Alloc_ID alloc) h;
  op_puts : puts k (log s') = puts k (log s);
  op_unreads : unreads k (log s') = unreads k (log s);
  op_window : window k (at_ s') = 1%nat;
  op_keys : keys s' = keys s;
}.

Lemma exec_balance a s s' k :
  watch_exec a s = Some (Ret s') -> steady k s s' \/ opens k s s'.
Proof.
  intros E. destruct (inward a) eqn:Ha.
  { left. destruct (inward_step a s s' Ha E) as (_ & El & Eb & _).
    unfold steady, window. rewrite El, Eb. lia. }
  destruct a; try done; cbn [watch_exec] in E; clear Ha; unfold steady, window.
  - destruct (get_cases _ _ _ E) as (alloc & task & e & es & sts & h & Hat & Hh & Ew & Ek & Hc).
    destruct Hc as [(_ & _ & Ea & El) | (job & Ea & Hc)]; rewrite Hat, Ea; cbn [between].
    { left. rewrite El. lia. }
    set (k0 := event_key (clusterName (worker s)) (Alloc_ID alloc) h) in *.
    destruct Hc as [(_ & Hn & El) | El]; rewrite El.
    + destruct (String.eqb_spec k k0) as [-> | Hne].
      * right. split; rewrite ?El; try done; [by do 6 eexists |].
        unfold window. rewrite Ea. apply is_key_refl.
      * left. unfold is_key. rewrite (proj2 (String.eqb_neq k k0) Hne). lia.
    + left. counts. lia.
  - destruct (send_cases _ _ E) as (alloc & task & k' & m & es & sts & Hat & ->).
    left. rewrite Hat. cbn [after log at_ between]. counts. lia.
  - destruct (put_cases _ _ _ E) as (alloc & task & k' & es & sts & Hat & [-> | ->]);
      left; rewrite Hat; cbn [after log at_ between]; counts; lia.
Qed.

(** A key that is not known has not been put, and was not known before. *)
Lemma exec_unknown a s s' k :
  watch_exec a s = Some (Ret s') -> Known k (keys s') = false ->
  Known k (keys s) = false /\ puts k (log s') = puts k (log s).
Proof.
  intros E. destruct (inward a) eqn:Ha.
  { destruct (inward_step a s s' Ha E) as (Ek & El & _). by rewrite Ek, El. }
  destruct a; try done; cbn [watch_exec] in E; clear Ha.
  - destruct (get_cases _ _ _ E) as (? & ? & ? & ? & ? & ? & _ & _ & _ & Ek & Hc). rewrite Ek.
    intros Hk. split; [done |].
    destruct Hc as [(_ & _ & _ & ->) | (? & _ & [(_ & _ & ->) | ->])]; [done.. |]. counts. lia.
  - destruct (send_cases _ _ E) as (? & ? & ? & ? & ? & ? & _ & ->). cbn. intros Hk. counts. split; [done | lia].
  - destruct (put_cases _ _ _ E) as (? & ? & k' & ? & ? & _ & [-> | ->]); cbn; intros Hk; counts.
    + destruct (String.eqb_spec k k') as [-> | Hne]; [by rewrite put_known in Hk |].
      rewrite put_frame in Hk by done. unfold is_key. rewrite (proj2 (String.eqb_neq k k') Hne).
      split; [done | lia].
    + split; [done | lia].
Qed.

(** One worker by itself, which has found the keys [st0]. *)
Record counted (st0 : St) (s : watching St) : Prop := {
  co_unknown : forall k, Known k (keys s) = false -> puts k (log s) = O /\ Known k st0 = false;
  co_balance : forall k,
    (puts k (log s) + window k (at_ s) <= unkept k st0 + unreads k (log s))%nat;
}.

Lemma counted_step st0 a s s' :
  counted st0 s -> watch_exec a s = Some (Ret s') -> counted st0 s'.
Proof.
  intros [Hu Hb] E. split; intros k.
  - intros Hk. destruct (exec_unknown a s s' k E Hk) as [Hk0 Hp]. rewrite Hp. by apply Hu.
  - specialize (Hb k). destruct (exec_balance a s s' k E) as [Hs | [Hn _ Hp Hr Hw _]].
    + unfold steady in Hs. lia.
    + destruct (Hu k Hn) as [H0 Hst]. unfold unkept. rewrite Hst, Hp, Hr, Hw, H0. lia.
Qed.

Lemma watch_steps_inv st0 s s' :
  watch_inv s -> counted st0 s -> rtc watch_step s s' -> watch_inv s' /\ counted st0 s'.
Proof.
  intros Hi Hc Hs. induction Hs as [s | s1 s2 s3 (a & He) _ IH]; [done |].
  apply IH; [by eapply watch_exec_inv | by eapply counted_step].
Qed.

(** C19. However the two goroutines of an allocation interleave, whatever Nomad
    answers, whichever of the requests to Consul fail, and whenever the worker is
    stopped: what was sent are the messages of events, each followed by the [Put]
    of its key, whether that succeeds or not, so that only the last one can be
    without; an event is sent at most once if its key was unknown and not at all
    if it was known, and once more for every [Get] and every [Put] of its key
    that failed, whose errors the program ignores; a key that was put is known;
    and [Wait] returns exactly when the goroutine of the events has returned, or
    has not yet run at all. *)
Theorem watch_interleaved w st s :
  waitGroup w = 0 -> rtc watch_step (watch_start w st) s ->
  (exists es, kept (clusterName (worker s)) es /\
    (log s = es \/ exists k m, genuine (clusterName (worker s)) k m /\ log s = es ++ [SendLog k m])) /\
  (forall k, (sends k (log s) <= unkept k st + unreads k (log s) + losses k (log s))%nat) /\
  (forall k, (0 < puts k (log s))%nat -> Known k (keys s) = true) /\
  (Wait_returns (worker s) = true <-> at_ s = Returned \/ at_ s = Unstarted).
Proof.
  intros Hw Hs.
  destruct (watch_steps_inv st _ _ (watch_start_inv w st Hw)
    ltac:(split; intros k; [done | unfold unkept; cbn; lia]) Hs) as [[Hl Hg] [Hu Hb]].
  split_and!.
  - unfold log_ok in Hl. destruct (at_ s); eauto.
    + destruct Hl as [Hl _]. eauto.
    + destruct Hl as (es & m & Hes & Hm & El). exists es. split; [done | right; by do 2 eexists].
  - intros k. specialize (Hb k). rewrite (log_counts s k Hl).
    pose proof (unnoted_window k (at_ s)). lia.
  - intros k Hp. destruct (Known k (keys s)) eqn:Hk; [done |]. destruct (Hu k Hk). lia.
  - unfold Wait_returns. rewrite Hg, Z.eqb_eq. destruct (at_ s); cbn; split; try done;
      try (by intros [? | ?]); by auto.
Qed.
(** ** An undisturbed tick *)

(** The steps of a tick when Consul answers and the server receives, and the other
    goroutine does nothing. *)
Inductive quiet (order : gmap string (list TaskEvent) -> list (string * list TaskEvent))
    : watching St -> watching St -> Prop :=
  | quiet_step a s s' :
      a = WatchMove order \/ a = WatchGet Answered \/ a = WatchSend \/ a = WatchPut Answered ->
      watch_exec a s = Some (Ret s') -> quiet order s s'.

Implicit Types (order : gmap string (list TaskEvent) -> list (string * list TaskEvent)).

(** Of a stretch of the run: what was known still is, and every event that has
    become known was sent once. *)
Definition ships (st : St) (es : list effect) (st' : St) : Prop :=
  forall k, (unkept k st' <= unkept k st)%nat /\ (sends k es + unkept k st')%nat = unkept k st.

Lemma ships_nil st : ships st [] st.
Proof. intros k. counts. lia. Qed.

Lemma ships_app st es1 st1 es2 st2 :
  ships st es1 st1 -> ships st1 es2 st2 -> ships st (es1 ++ es2) st2.
Proof. intros H1 H2 k. destruct (H1 k), (H2 k). counts. lia. Qed.

Lemma ships_known st es st' k : ships st es st' -> Known k st = true -> Known k st' = true.
Proof.
  intros Hs Hk. destruct (Hs k) as [Hle _]. unfold unkept in Hle. rewrite Hk in Hle.
  destruct (Known k st'); [done | lia].
Qed.

Lemma ships_event st k m :
  Known k st = false -> ships st [SendLog k m; PutKey k] (Put k st).
Proof.
  intros Hk k'. unfold unkept. counts. destruct (String.eqb_spec k' k) as [-> | Hne].
  - rewrite Hk, put_known, is_key_refl. lia.
  - rewrite put_frame by done. unfold is_key. rewrite (proj2 (String.eqb_neq k' k) Hne).
    destruct (Known k' st); lia.
Qed.

(** The state [s], further on. *)
Definition further (s : watching St) (p : watch_pc) (st : St) (es : list effect) : watching St :=
  {| worker := worker s; at_ := p; syncing := syncing s; keys := st; log := log s ++ es |}.

Section Tick.
Context (order : gmap string (list TaskEvent) -> list (string * list TaskEvent)).
Context (s : watching St) (alloc : Allocation) (c : AllocationConfig).
Context (job : Job) (name id : string).
Hypothesis config : allocationConfig (worker s) = Some c.
Hypothesis named : Alloc_Job alloc = Some job /\ Job_Name job = Some name /\ Job_ID job = Some id.

Definition key_at (h : Z) : string := event_key (clusterName (worker s)) (Alloc_ID alloc) h.

Lemma tick_events task events states st es0 :
  Forall (fun e => is_Some (Hash e)) events ->
  exists st' es, rtc (quiet order) (further s (Events alloc task events states) st es0)
      (further s (States alloc states) st' (es0 ++ es)) /\
    ships st es st' /\
    forall e h, e ∈ events -> Hash e = Some h -> Known (key_at h) st' = true.
Proof.
  intros Hh. revert st es0. induction Hh as [| e events [h He] _ IH]; intros st es0.
  { exists st, []. rewrite app_nil_r. split_and!; [| apply ships_nil | by intros e h ?%not_elem_of_nil].
    apply rtc_once. by apply (quiet_step order (WatchMove order)); [left |]. }
  destruct named as (Hj & _ & Hid). destruct (Known (key_at h) st) eqn:Hk.
  - destruct (IH st es0) as (st' & es & Hr & Hs & Hall). exists st', es. split_and!; [| done |].
    + eapply rtc_l; [| exact Hr]. apply (quiet_step order (WatchGet Answered)); [auto |].
      cbn. rewrite He. unfold key_at in Hk. by rewrite Hk.
    + intros e' h' [-> | Hin]%elem_of_cons He'; [| by eapply Hall].
      rewrite He in He'. injection He' as <-. by apply (ships_known st es).
  - set (m := event_message alloc id task e).
    destruct (IH (Put (key_at h) st) (es0 ++ [SendLog (key_at h) m; PutKey (key_at h)]))
      as (st' & es & Hr & Hs & Hall).
    exists st', ([SendLog (key_at h) m; PutKey (key_at h)] ++ es). split_and!.
    + eapply rtc_l; [apply (quiet_step order (WatchGet Answered)); [auto |]; cbn;
        rewrite He; unfold key_at in Hk; rewrite Hk; unfold prepare; rewrite Hj, Hid; reflexivity |].
      eapply rtc_l; [by apply (quiet_step order WatchSend); [auto |] |].
      eapply rtc_l; [by apply (quiet_step order (WatchPut Answered)); [auto |] |].
      unfold further, after in *. cbn in *. rewrite <- !app_assoc in *. exact Hr.
    + eapply ships_app; [by apply ships_event | done].
    + intros e' h' [-> | Hin]%elem_of_cons He'; [| by eapply Hall].
      rewrite He in He'. injection He' as <-. apply (ships_known _ _ _ _ Hs). apply put_known.
Qed.

(** A task whose events are shipped. *)
Definition watched (task : string) : Prop :=
  exists t, TaskConfigs c !! task_key name (Alloc_TaskGroup alloc) task = Some t /\
    TaskConfig_Enabled t = true /\ WatchNomadEvents t = true.

Definition configured (x : string * list TaskEvent) : Prop :=
  is_Some (TaskConfigs c !! task_key name (Alloc_TaskGroup alloc) x.1) /\
  Forall (fun e => is_Some (Hash e)) x.2.

Lemma tick_states states st es0 :
  Forall configured states ->
  exists st' es, rtc (quiet order) (further s (States alloc states) st es0)
      (further s Selecting st' (es0 ++ es)) /\
    ships st es st' /\
    forall task events e h, (task, events) ∈ states -> watched task -> e ∈ events ->
      Hash e = Some h -> Known (key_at h) st' = true.
Proof.
  intros Hc. revert st es0.
  induction Hc as [| [task events] states [[t Ht] Hh] _ IH]; intros st es0; cbn [fst snd] in *.
  { exists st, []. rewrite app_nil_r. split_and!; [| apply ships_nil | by intros ???? ?%not_elem_of_nil].
    apply rtc_once. by apply (quiet_step order (WatchMove order)); [left |]. }
  assert (forall s1, worker s1 = worker s -> task_config s1 alloc task = Ret t) as Htc.
  { intros s1 Hs1. unfold task_config. destruct named as (-> & -> & _). by rewrite Hs1, config, Ht. }
  destruct (TaskConfig_Enabled t && WatchNomadEvents t) eqn:Hon.
  - apply andb_prop in Hon as [Hen Hwa].
    destruct (tick_events task events states st es0 Hh) as (st1 & es1 & R1 & S1 & A1).
    destruct (IH st1 (es0 ++ es1)) as (st2 & es2 & R2 & S2 & A2).
    exists st2, (es1 ++ es2). split_and!; [| by eapply ships_app |].
    + eapply rtc_l; [apply (quiet_step order (WatchMove order)); [auto |]; cbn - [task_config];
        rewrite Htc, Hen by done; reflexivity |].
      eapply rtc_l; [apply (quiet_step order (WatchMove order)); [auto |]; cbn - [task_config];
        rewrite Htc, Hwa by done; reflexivity |].
      etrans; [exact R1 |]. by rewrite app_assoc.
    + intros task' events' e h [E | Hin]%elem_of_cons Hw He Hhe; [| by eapply A2].
      injection E as -> ->. apply (ships_known _ _ _ _ S2). by eapply A1.
  - destruct (IH st es0) as (st2 & es2 & R2 & S2 & A2). exists st2, es2. split_and!; [| done |].
    + destruct (TaskConfig_Enabled t) eqn:Hen; cbn [andb] in Hon.
      * eapply rtc_l; [apply (quiet_step order (WatchMove order)); [auto |]; cbn - [task_config];
          rewrite Htc, Hen by done; reflexivity |].
        eapply rtc_l; [apply (quiet_step order (WatchMove order)); [auto |]; cbn - [task_config];
          rewrite Htc, Hon by done; reflexivity |]. exact R2.
      * eapply rtc_l; [apply (quiet_step order (WatchMove order)); [auto |]; cbn - [task_config];
          rewrite Htc, Hen by done; reflexivity |]. exact R2.
    + intros task' events' e h [E | Hin]%elem_of_cons Hw He Hhe; [| by eapply A2].
      injection E as -> ->. destruct Hw as (t' & Ht' & H1 & H2). rewrite Ht in Ht'.
      injection Ht' as <-. by rewrite H1, H2 in Hon.
Qed.
End Tick.

(** C20. No event is missed: when the ticker fires, Nomad answers with a job that
    has its name and its ID, and a configuration for every task that has a state,
    the requests to Consul are answered, the server receives and the other
    goroutine keeps still, the goroutine comes back to its [select]; then every
    event of a task that is to be watched is known, whatever the order in which
    the tasks are visited, and of the events that were unknown each one that has
    become known was sent exactly once, the others not at all. *)
Theorem tick_ships order s alloc c job name id :
  at_ s = Selecting -> NewFromAllocation alloc = Ret c ->
  Alloc_Job alloc = Some job /\ Job_Name job = Some name /\ Job_ID job = Some id ->
  (forall m, order m ≡ₚ map_to_list m) ->
  map_Forall (fun task events => configured alloc c name (task, events)) (TaskStates alloc) ->
  exists s1 s' es, watch_exec (WatchTick (Some alloc)) s = Some (Ret s1) /\
    rtc (quiet order) s1 s' /\ at_ s' = Selecting /\ log s' = log s ++ es /\
    (forall task events e h, TaskStates alloc !! task = Some events -> watched alloc c name task ->
       e ∈ events -> Hash e = Some h ->
       Known (event_key (clusterName (worker s)) (Alloc_ID alloc) h) (keys s') = true) /\
    forall k, (sends k es + unkept k (keys s'))%nat = unkept k (keys s).
Proof.
  intros Hat Hc Hnamed Ho Hall. pose proof (config_alloc _ _ Hc) as Ec.
  set (s1 := set_at Reading (set_worker (set_config c (worker s)) s)).
  assert (Forall (configured alloc c name) (order (TaskStates alloc))) as Hf.
  { rewrite Ho. apply list.Forall_forall. intros [t es] Hin%elem_of_map_to_list. exact (Hall t es Hin). }
  destruct (tick_states order s1 alloc c job name id eq_refl Hnamed (order (TaskStates alloc))
    (keys s) [] Hf) as (st' & es & Hr & Hs & Hk).
  exists s1. eexists _, es. split_and!.
  - cbn [watch_exec]. rewrite Hat. unfold refresh, updateAllocationConfig. by rewrite Hc.
  - eapply rtc_l; [| exact Hr]. apply (quiet_step order (WatchMove order)); [auto |].
    cbn. rewrite Ec. unfold further. cbn. by rewrite app_nil_r.
  - done.
  - done.
  - intros task events e h Ht Hw He Hh. eapply (Hk task events); [| done..].
    rewrite Ho. by apply elem_of_map_to_list.
  - apply Hs.
Qed.
End Watch.

(** ** Concrete runs *)
#[local] Existing Instance demo_keys.

(** The actions, in order; those that cannot be taken are left out, a panic stops
    them. *)
Fixpoint watch_run (l : list watch_action) (s : watching (gset string))
    : outcome (watching (gset string)) :=
  match l with
  | [] => Ret s
  | a :: l =>
      match watch_exec demo_hash a s with
      | Some (Ret s') => watch_run l s'
      | Some (Panic why) => Panic why
      | None => watch_run l s
      end
  end.

Definition ended (o : outcome (watching (gset string))) (s : watching (gset string))
    : watching (gset string) :=
  match o with Ret s' => s' | Panic _ => s end.

Lemma watch_run_steps l s :
  rtc (watch_step demo_hash) s (ended (watch_run l s) s).
Proof.
  cut (forall s', watch_run l s = Ret s' -> rtc (watch_step demo_hash) s s').
  { intros Hall. unfold ended. destruct (watch_run l s) eqn:E; [by apply Hall | done]. }
  revert s. induction l as [| a l IH]; intros s s'; cbn; [by intros [= <-] |].
  destruct (watch_exec demo_hash a s) as [[s1 |] |] eqn:E; [| done | by apply IH].
  intros Hr. apply rtc_l with s1; [by exists a | by apply IH].
Qed.

Definition demo_worker : AllocationWorker := NewAllocationWorker "c" demo_allocation.
Definition demo_watching : watching (gset string) := watch_start demo_worker ∅.

(** Whatever the goroutine does next; the requests fare as [g] and [p] say. *)
Definition onwards (g p : request) : list watch_action :=
  [WatchMove map_to_list; WatchGet g; WatchSend; WatchPut p].

(** The ticker of the other goroutine fires in between. *)
Definition demo_moves (n : nat) : list watch_action :=
  concat (replicate n (onwards Answered Answered ++ [SyncTick (Some demo_allocation)])).

Definition demo_interleaved : watching (gset string) :=
  ended (watch_run (WatchBegin :: WatchTick (Some demo_allocation) :: demo_moves 10
    ++ [CloseStop; SyncStop; WatchStop]) demo_watching) demo_watching.

Definition demo_key (time : Z) : string := event_key "c" "a1" time.

Lemma watch_interleaved_witness :
  length (log demo_interleaved) = 4%nat /\
  (sends (demo_key (-1)) (log demo_interleaved) <= 1)%nat /\
  Wait_returns (worker demo_interleaved) = true.
Proof.
  destruct (watch_interleaved demo_hash demo_worker (∅ : gset string) demo_interleaved
    eq_refl (watch_run_steps _ _)) as (_ & Hn & _ & Hw).
  split; [vm_compute; reflexivity |]. split.
  - specialize (Hn (demo_key (-1))).
    assert (unreads (demo_key (-1)) (log demo_interleaved) = 0%nat) as E1 by (vm_compute; reflexivity).
    assert (losses (demo_key (-1)) (log demo_interleaved) = 0%nat) as E2 by (vm_compute; reflexivity).
    rewrite E1, E2 in Hn. exact Hn.
  - apply (proj2 Hw). left. vm_compute. reflexivity.
Defined.

(** Consul fails and the program does not notice: the [Put] of a key that does not
    get through and a [Get] that is not answered each have the same event sent
    again at the next tick. *)
Definition demo_ticks (ticks : list (request * request)) : watching (gset string) :=
  ended (watch_run (WatchBegin :: concat ((fun gp : request * request =>
    WatchTick (Some demo_allocation) :: concat (replicate 10 (onwards gp.1 gp.2))) <$> ticks))
    demo_watching) demo_watching.

Lemma ignored_errors_repeat :
  (fun ticks => sends (demo_key (-1)) (log (demo_ticks ticks))) <$>
    [[(Answered, Answered); (Answered, Answered)];
     [(Answered, Lost); (Answered, Answered)];
     [(Answered, Answered); (Unheard, Answered)]]
  = [1%nat; 2%nat; 2%nat].
Proof. vm_compute. reflexivity. Qed.

Definition demo_selecting : watching (gset string) :=
  ended (watch_run [WatchBegin] demo_watching) demo_watching.

Definition demo_config : AllocationConfig :=
  match NewFromAllocation demo_allocation with
  | Ret c => c
  | Panic _ => {| Alloc := demo_allocation; JobConfig_ := metaToJobConfig ∅;
                  GroupConfigs := ∅; TaskConfigs := ∅ |}
  end.

Lemma tick_ships_witness :
  exists s', at_ s' = Selecting /\ Known (demo_key (-1)) (keys s') = true /\
    sends (demo_key (-1)) (log s') = 1%nat.
Proof.
  destruct (tick_ships demo_hash map_to_list demo_selecting demo_allocation demo_config
    {| Job_ID := Some "j"; Job_Name := Some "j"; Job_Meta := ∅;
       TaskGroups := [{| TaskGroup_Name := Some "g"; TaskGroup_Meta := ∅;
         Tasks := [{| Task_Name := "t"; Task_Meta := ∅ |}] |}] |} "j" "j")
    as (s1 & s' & es & _ & _ & Hat & El & Hk & Hs).
  - vm_compute. reflexivity.
  - vm_compute. reflexivity.
  - split; [| split]; vm_compute; reflexivity.
  - done.
  - apply map_Forall_insert_2; [| apply map_Forall_empty].
    split; [vm_compute; by eexists | repeat constructor; by eexists].
  - assert (Known (demo_key (-1)) (keys s') = true) as Hknown.
    { apply (Hk "t" [demo_event "up" 1500000000; demo_event "down" (-1)] (demo_event "down" (-1)) (-1));
        [vm_compute; reflexivity | vm_compute; by eexists | by right; left | reflexivity]. }
    exists s'. split; [exact Hat |]. split; [exact Hknown |].
    specialize (Hs (demo_key (-1))). unfold unkept in Hs. rewrite Hknown in Hs.
    assert (log demo_selecting = []) as E by (vm_compute; reflexivity). rewrite El, E.
    assert (Known (demo_key (-1)) (keys demo_selecting) = false) as E2 by (vm_compute; reflexivity).
    rewrite E2 in Hs. cbn [app]. lia.
Defined.

(** The configuration can change under the loop over the tasks: both answers of
    Nomad are fine on their own, but the loop takes the tasks from the first
    and looks them up in the second. *)
Definition other_allocation : Allocation :=
  {| Alloc_ID := "a1";
     Alloc_Job := Some {| Job_ID := Some "j"; Job_Name := Some "j"; Job_Meta := ∅;
       TaskGroups := [{| TaskGroup_Name := Some "g"; TaskGroup_Meta := ∅;
         Tasks := [{| Task_Name := "t2"; Task_Meta := ∅ |}] |}] |};
     Alloc_TaskGroup := "g"; TaskStates := {["t2" := []]} |}.

Definition is_fine (o : outcome (watching (gset string))) : bool :=
  match o with Ret _ => true | Panic _ => false end.

Lemma config_race_panics :
  is_fine (watch_run (WatchBegin :: WatchTick (Some demo_allocation)
    :: concat (replicate 10 (onwards Answered Answered))) demo_watching) = true /\
  is_fine (watch_run (WatchBegin :: WatchTick (Some other_allocation)
    :: concat (replicate 10 (onwards Answered Answered))) demo_watching) = true /\
  watch_run [WatchBegin; WatchTick (Some demo_allocation); WatchMove map_to_list;
    SyncTick (Some other_allocation); WatchMove map_to_list] demo_watching = Panic nil_deref.
Proof. split; [| split]; vm_compute; reflexivity. Qed.

(** One answer that fails ends the watching of the allocation for good. *)
Lemma failed_answer_is_final :
  at_ <$> [ended (watch_run [WatchBegin; WatchTick None; WatchTick (Some demo_allocation);
    WatchMove map_to_list] demo_watching) demo_watching] = [Returned].
Proof. vm_compute. reflexivity. Qed.
