(* ===== verification/NomadFleet.v ===== *)
(** * All goroutines of a Nomad client: [src/source/nomad/client.go]

    [ReceiveLogs] takes what [AllocationPool.Sync] sends, starts a worker for an
    allocation that is new, and stops, waits for and forgets the worker of one
    that is gone.  Here the goroutine of [syncAllocations], the loop of
    [ReceiveLogs], and for every worker that was ever made its [Start] and the
    two goroutines of [NomadWatch], go on in any order.  The files [Pool] and
    [NomadWatch] have the parts: what is shown there of each is carried over to
    the whole. *)
From Stdlib Require Import Ascii String.
From S2P Require Import Prelude Wire Text Message NomadConfig Pool NomadWorker NomadWatch.

(** ** The state *)

(** The goroutine [worker.Start]: on its way, returned without having started
    others, or returned with the others on their way. *)
Inductive launch_pc := Launching | Declined | Launched.

Record crewman {St : Type} := { launch : launch_pc; body : watching St }.
Arguments crewman St : clear implicits.

(** The loop of [ReceiveLogs]: at its [select], or in [Wait] for the worker of an
    allocation. *)
Inductive loop_pc := AtSelect | Awaiting (alloc : Allocation).

(** [syncAllocations]: waits for the ticker, or is in [Sync] with what is left to
    be sent. *)
Inductive sync_pc := Ticking | Syncing (events : list pool_event) (allocations : list Allocation).

(** The worker with the stop channel [i] is the [i]-th of [roster]. *)
Record fleet {St : Type} := {
  pool : AllocationPool;
  syncer : sync_pc;
  receive_loop : loop_pc;
  crew : AllocationWorkers;
  roster : list (crewman St);
  synced : St;
}.
Arguments fleet St : clear implicits.

(** What happens next: the ticker of [syncAllocations] fires and [getAllocations]
    has answered; an allocation passes from [Sync] to the loop; [Wait] returns
    and the worker is removed from the map; [Sync] ends; Nomad answers [Start]
    of a worker; a goroutine of a worker does something. *)
Inductive fleet_action :=
  | SyncTicks (allocations : list Allocation)
  | HandOver
  | WaitReturns
  | SyncEnds
  | LaunchWith (i : nat) (answer : option Allocation)
  | WorkerDoes (i : nat) (a : watch_action).

(** ** The keys of different allocations *)

Fixpoint slashless (s : string) : bool :=
  match s with
  | EmptyString => true
  | String c s => negb (Ascii.eqb c "/") && slashless s
  end.

Lemma slashless_last a b p q :
  slashless p = true -> slashless q = true ->
  (a +:+ "/" +:+ p = b +:+ "/" +:+ q)%string -> a = b.
Proof.
  intros Hp Hq. assert (forall c r s, slashless s = true -> s <> (c +:+ "/" +:+ r)%string) as Hno.
  { induction c as [| x c IH]; intros r [| y s] Hs [= E1 E2]; subst.
    - done.
    - cbn in Hs. apply andb_prop in Hs as [_ Hs]. by eapply IH. }
  revert b. induction a as [| x a IH]; intros [| y b] E; [done | | |].
  - injection E as E1 E2. by destruct (Hno b q p Hp).
  - injection E as E1 E2. by destruct (Hno a p q Hq).
  - injection E as -> E2. by rewrite (IH b).
Qed.

Lemma slashless_digits x s : slashless s = true -> slashless (pretty.pretty_N_go x s) = true.
Proof.
  revert s. induction (N.lt_wf_0 x) as [x _ IH]. intros s Hs.
  destruct (decide (0 < x)%N) as [Hx | Hx].
  - rewrite pretty.pretty_N_go_step by done. apply IH; [by apply N.div_lt |].
    cbn. rewrite Hs. unfold pretty.pretty_N_char. by repeat case_match.
  - assert (x = 0%N) as -> by lia. by rewrite pretty.pretty_N_go_0.
Qed.

Lemma slashless_pretty (z : Z) : slashless (pretty z) = true.
Proof.
  assert (forall p, slashless (pretty (N.pos p)) = true) as Hp.
  { intros p. unfold pretty, pretty.pretty_N. case_decide; [done |]. by apply slashless_digits. }
  destruct z as [| p | p]; [done | apply Hp |]. cbn. apply Hp.
Qed.

Lemma event_key_alloc cluster id1 id2 h1 h2 :
  event_key cluster id1 h1 = event_key cluster id2 h2 -> id1 = id2.
Proof.
  unfold event_key. intros E. apply (inj (String.append _)) in E.
  do 2 apply (inj (String.append _)) in E.
  eapply slashless_last; [| | exact E]; apply slashless_pretty.
Qed.

(** ** A worker by itself *)

(** The allocation that the goroutine of the events is busy with. *)
Definition subject (p : watch_pc) : option Allocation :=
  match p with
  | States alloc _ | Checked alloc _ _ _ | Events alloc _ _ _ | Posting alloc _ _ _ _ _
  | Keeping alloc _ _ _ _ => Some alloc
  | Unstarted | Selecting | Reading | Returned => None
  end.

(** Whether it is in the middle of a tick. *)
Definition busy (p : watch_pc) : nat :=
  match p with Unstarted | Selecting | Returned => 0 | _ => 1 end.

Definition resting (p : watch_pc) : Prop := busy p = O.

Definition about (id : string) (answer : option Allocation) : Prop :=
  forall alloc, answer = Some alloc -> Alloc_ID alloc = id.

(** The answers that an action brings are about [id]. *)
Definition answers (id : string) (a : watch_action) : Prop :=
  match a with WatchTick answer | SyncTick answer => about id answer | _ => True end.

(** What the worker knows is about its own allocation. *)
Record informed (w : AllocationWorker) (p : watch_pc) : Prop := {
  in_config : forall c, allocationConfig w = Some c -> Alloc_ID (Alloc c) = Alloc_ID (allocation w);
  in_subject : about (Alloc_ID (allocation w)) (subject p);
  in_between : forall k, between p = Some k ->
    exists h, k = event_key (clusterName w) (Alloc_ID (allocation w)) h;
}.

(** ** Sums over the workers *)
Section Sums.
Context {A : Type}.
Implicit Types (f g : A -> nat) (l : list A).

Lemma sum_insert f l i x y :
  l !! i = Some x -> (sum_list_with f (<[i:=y]> l) + f x)%nat = (sum_list_with f l + f y)%nat.
Proof.
  revert i. induction l as [| z l IH]; intros i E; [done |].
  destruct i as [| i]; simplify_eq/=; [lia |]. specialize (IH i E). lia.
Qed.

Lemma sum_alter f (h : A -> A) l i :
  (forall x, f (h x) = f x) -> sum_list_with f (alter h i l) = sum_list_with f l.
Proof.
  intros Hh. revert i. induction l as [| z l IH]; intros i; [done |].
  destruct i as [| i]; simplify_eq/=; [by rewrite Hh |]. f_equal. apply IH.
Qed.

Lemma sum_zero f l i x : sum_list_with f l = O -> l !! i = Some x -> f x = O.
Proof.
  revert i. induction l as [| z l IH]; intros i Hz E; [done |].
  destruct i as [| i]; simplify_eq/=; [lia |]. eapply IH, E. lia.
Qed.

(** The sum of [f] stays below that of [g] by what they differ in one place. *)
Lemma sum_gap f g l i x :
  (forall j y, l !! j = Some y -> (f y <= g y)%nat) -> l !! i = Some x ->
  (sum_list_with f l + g x <= sum_list_with g l + f x)%nat.
Proof.
  revert i. induction l as [| z l IH]; intros i Hle E; [done |].
  assert (sum_list_with f l <= sum_list_with g l)%nat as Hl.
  { clear IH E. assert (forall j y, l !! j = Some y -> (f y <= g y)%nat) as Ht by (intros j; apply (Hle (S j))).
    clear Hle. induction l as [| y l IH]; cbn; [lia |].
    pose proof (Ht 0%nat y eq_refl). specialize (IH (fun j => Ht (S j))). lia. }
  destruct i as [| i]; simplify_eq/=; [pose proof (Hle 0%nat x eq_refl); lia |].
  specialize (IH i (fun j => Hle (S j)) E). pose proof (Hle 0%nat z eq_refl). lia.
Qed.
End Sums.

(** ** The pool and the loop *)

(** The allocations that have a worker after [e]. *)
Definition after_event (e : pool_event) (D : gset string) : gset string :=
  match e with
  | AllocationAdded alloc => {[Alloc_ID alloc]} ∪ D
  | AllocationRemoved alloc => D ∖ {[Alloc_ID alloc]}
  end.

(** An allocation is announced when it has no worker. *)
Fixpoint timely (es : list pool_event) (D : gset string) : Prop :=
  match es with
  | [] => True
  | e :: es =>
      match e with AllocationAdded alloc => Alloc_ID alloc ∉ D | AllocationRemoved _ => True end /\
      timely es (after_event e D)
  end.

Lemma timely_removed l old D : timely (send_removed l old) D.
Proof.
  revert D. induction old as [| x old IH]; intros D; cbn; [done |].
  destruct (negb _); cbn; [by split | done].
Qed.

Lemma timely_added p l es D :
  NoDup (ids l) -> (forall id, id ∈ ids l -> id ∉ ids (Allocations p) -> id ∉ D) ->
  (forall D, timely es D) -> timely (send_added p l ++ es) D.
Proof.
  intros Hnd Hd Hes. revert D Hd. induction l as [| x l IH]; intros D Hd; cbn; [apply Hes |].
  cbn in Hnd. apply list.NoDup_cons in Hnd as [Hx Hnd]. unfold Has. rewrite contains_spec.
  case_bool_decide as Hin; cbn; [apply IH; set_solver |].
  split; [apply Hd; [left | done] |]. apply IH; [done |]. intros id Hid Hn.
  apply not_elem_of_union. split; [| apply Hd; [by right | done]].
  apply not_elem_of_singleton. by intros ->.
Qed.

Lemma sync_timely l p D :
  NoDup (ids l) -> D = list_to_set (ids (Allocations p)) -> timely (Sync l p).1 D.
Proof.
  intros Hnd ->. apply timely_added; [done | | apply timely_removed].
  intros id _ Hn. by rewrite elem_of_list_to_set.
Qed.

Lemma receive_timely e es a :
  tracked a -> timely (e :: es) (dom (workers a)) ->
  exists a', receive_event e a = Ret a' /\ tracked a' /\ timely es (dom (workers a')).
Proof.
  intros Ht [He Hes]. destruct e as [alloc | alloc].
  - destruct (tracked_added alloc a Ht He) as (a' & Hr & Ht' & Hd). exists a'. by rewrite Hd.
  - destruct (tracked_removed alloc a Ht) as (a' & Hr & Ht' & Hd). exists a'. by rewrite Hd.
Qed.

Lemma sync_all_snoc lists l p a p1 a1 a2 :
  sync_all lists p a = Ret (p1, a1) -> receive_events (Sync l p1).1 a1 = Ret a2 ->
  sync_all (lists ++ [l]) p a = Ret (Set_ l p1, a2).
Proof.
  revert p a. induction lists as [| l1 lists IH]; intros p a; cbn [sync_all app].
  - intros [= -> ->] Hr. unfold Sync in *. cbn [fst] in Hr. by rewrite Hr.
  - destruct (Sync l1 p) as [es p']. destruct (receive_events es a) as [a' |]; [apply IH | done].
Qed.

Section Fleet.
Context {St : Type} `{EventKeys St}.
Context (Hash : TaskEvent -> option Z) (cluster : string).

(** The allocation of a worker. *)
Definition aid (m : crewman St) : string := Alloc_ID (allocation (worker (body m))).

(** The keys in Consul are the same for all. *)
Definition seen (st : St) (b : watching St) : watching St :=
  {| worker := worker b; at_ := at_ b; syncing := syncing b; keys := st; log := log b |}.

Definition set_body (b : watching St) (m : crewman St) : crewman St :=
  {| launch := launch m; body := b |}.

Definition set_roster (i : nat) (m : crewman St) (st : St) (s : fleet St) : fleet St :=
  {| pool := pool s; syncer := syncer s; receive_loop := receive_loop s; crew := crew s;
     roster := <[i := m]> (roster s); synced := st |}.

(** [NewAllocationWorker] and [go worker.Start]: nothing runs yet. *)
Definition recruit (alloc : Allocation) (st : St) : crewman St :=
  {| launch := Launching;
     body := {| worker := NewAllocationWorker cluster alloc; at_ := Unstarted; syncing := false;
                keys := st; log := [] |} |}.

(** Its stop channel is closed. *)
Definition dismiss (m : crewman St) : crewman St :=
  set_body (set_worker (set_stop (worker (body m))) (body m)) m.

(** The loop receives [e] while [events] are left. *)
Definition take_event (e : pool_event) (events : list pool_event) (allocations : list Allocation)
    (s : fleet St) : outcome (fleet St) :=
  match e with
  | AllocationAdded alloc =>
      let '(w, a) := make_worker alloc (crew s) in
      Ret {| pool := pool s; syncer := Syncing events allocations; receive_loop := AtSelect;
             crew := Add alloc w a; roster := roster s ++ [recruit alloc (synced s)];
             synced := synced s |}
  | AllocationRemoved alloc =>
      match Close alloc (crew s) with
      | Panic why => Panic why
      | Ret a =>
          Ret {| pool := pool s; syncer := Syncing events allocations;
                 receive_loop := Awaiting alloc; crew := a;
                 roster := match workers (crew s) !! Alloc_ID alloc with
                           | Some w => alter dismiss (Pool.Stop w) (roster s)
                           | None => roster s
                           end;
                 synced := synced s |}
      end
  end.

(** [AllocationWorkers.Wait] can return. *)
Definition Wait (alloc : Allocation) (s : fleet St) : bool :=
  match workers (crew s) !! Alloc_ID alloc with
  | Some w =>
      match roster s !! Pool.Stop w with
      | Some m => Wait_returns (worker (body m))
      | None => true
      end
  | None => true
  end.

(** [Start] of the worker [m], with Nomad's answer. *)
Definition launch_with (answer : option Allocation) (m : crewman St) : outcome (crewman St) :=
  match NomadWorker.Start (fun _ => answer) (worker (body m)) with
  | Panic why => Panic why
  | Ret (false, w) => Ret {| launch := Declined; body := set_worker w (body m) |}
  | Ret (true, w) =>
      Ret {| launch := Launched;
             body := {| worker := w; at_ := at_ (body m); syncing := true; keys := keys (body m);
                        log := log (body m) |} |}
  end.

Definition fleet_exec (a : fleet_action) (s : fleet St) : option (outcome (fleet St)) :=
  match a with
  | SyncTicks allocations =>
      match syncer s with
      | Ticking =>
          Some (Ret {| pool := pool s; syncer := Syncing (Sync allocations (pool s)).1 allocations;
                       receive_loop := receive_loop s; crew := crew s; roster := roster s;
                       synced := synced s |})
      | Syncing _ _ => None
      end
  | HandOver =>
      match syncer s, receive_loop s with
      | Syncing (e :: events) allocations, AtSelect => Some (take_event e events allocations s)
      | _, _ => None
      end
  | WaitReturns =>
      match receive_loop s with
      | Awaiting alloc =>
          if Wait alloc s then
            Some (Ret {| pool := pool s; syncer := syncer s; receive_loop := AtSelect;
                         crew := Remove alloc (crew s); roster := roster s; synced := synced s |})
          else None
      | AtSelect => None
      end
  | SyncEnds =>
      match syncer s with
      | Syncing [] allocations =>
          Some (Ret {| pool := Set_ allocations (pool s); syncer := Ticking;
                       receive_loop := receive_loop s; crew := crew s; roster := roster s;
                       synced := synced s |})
      | _ => None
      end
  | LaunchWith i answer =>
      match roster s !! i with
      | Some m =>
          match launch m with
          | Launching =>
              Some match launch_with answer m with
                   | Panic why => Panic why
                   | Ret m => Ret (set_roster i m (synced s) s)
                   end
          | _ => None
          end
      | None => None
      end
  | WorkerDoes i a =>
      match roster s !! i with
      | Some m =>
          match launch m, a with
          | Launched, CloseStop => None
          | Launched, _ =>
              match watch_exec Hash a (seen (synced s) (body m)) with
              | Some (Ret b) => Some (Ret (set_roster i (set_body b m) (keys b) s))
              | Some (Panic why) => Some (Panic why)
              | None => None
              end
          | _, _ => None
          end
      | None => None
      end
  end.

Definition fleet_start (st : St) : fleet St :=
  {| pool := NewAllocationPool; syncer := Ticking; receive_loop := AtSelect;
     crew := NewAllocationWorkers; roster := []; synced := st |}.

(** ** Runs *)

(** The [i]-th worker is the one in the map for [id]; for its own allocation. *)
Definition leads (i : nat) (id : string) (s : fleet St) : bool :=
  match workers (crew s) !! id with Some w => Nat.eqb (Pool.Stop w) i | None => false end.

Definition listed (i : nat) (m : crewman St) (s : fleet St) : bool := leads i (aid m) s.

(** The ticker of a worker that is no longer in the map, and did not see its stop
    channel: [Wait] can return before the goroutine has run, and a [select] with
    both channels ready takes either.  The ID of the allocation is noted. *)
Definition late (a : fleet_action) (s : fleet St) : list string :=
  match a with
  | WorkerDoes i (WatchTick _) =>
      match roster s !! i with
      | Some m => if listed i m s then [] else [aid m]
      | None => []
      end
  | _ => []
  end.

(** Nomad lists no allocation twice and answers with the allocation it was asked
    for. *)
Definition faithful (a : fleet_action) (s : fleet St) : Prop :=
  match a with
  | SyncTicks allocations => NoDup (ids allocations)
  | LaunchWith i answer | WorkerDoes i (WatchTick answer) | WorkerDoes i (SyncTick answer) =>
      forall m, roster s !! i = Some m -> about (aid m) answer
  | _ => True
  end.

(** The actions of a run, and the late ticks. *)
Inductive fleet_run (st : St) : list fleet_action -> list string -> fleet St -> Prop :=
  | fleet_none : fleet_run st [] [] (fleet_start st)
  | fleet_step acts lates s a s' :
      fleet_run st acts lates s -> faithful a s -> fleet_exec a s = Some (Ret s') ->
      fleet_run st (acts ++ [a]) (lates ++ late a s) s'.

(** ** One step of a worker *)
Record same_worker (w w' : AllocationWorker) : Prop := {
  sw_allocation : allocation w' = allocation w;
  sw_cluster : clusterName w' = clusterName w;
  sw_stop : NomadWorker.Stop w' = NomadWorker.Stop w;
}.

Lemma same_worker_refl w : same_worker w w.
Proof. done. Qed.
#[local] Hint Resolve same_worker_refl : core.

Lemma update_spec answer w got w' :
  updateAllocationConfig (fun _ => answer) w = Ret (got, w') ->
  same_worker w w' /\ waitGroup w' = waitGroup w /\
  (about (Alloc_ID (allocation w)) answer -> forall c, allocationConfig w' = Some c ->
   Alloc_ID (Alloc c) = Alloc_ID (allocation w') \/ allocationConfig w = Some c).
Proof.
  unfold updateAllocationConfig. destruct answer as [alloc |].
  - destruct (NewFromAllocation alloc) as [c |] eqn:E; [| done]. intros [= <- <-].
    split_and!; [done.. |]. intros Ha c' [= <-]. left. cbn. rewrite (config_alloc _ _ E). by apply Ha.
  - intros [= <- <-]. split_and!; [done.. |]. by right.
Qed.

Lemma refresh_informed answer (b b' : watching St) got :
  refresh answer b = Ret (got, b') -> same_worker (worker b) (worker b') /\ at_ b' = at_ b /\
  (about (Alloc_ID (allocation (worker b))) answer ->
   informed (worker b) (at_ b) -> informed (worker b') (at_ b')).
Proof.
  unfold refresh. destruct (updateAllocationConfig _ _) as [[g w] |] eqn:E; [| done].
  intros [= <- <-]. destruct (update_spec _ _ _ _ E) as (Hs & _ & Hc). split_and!; [done | done |].
  intros Ha [Hi1 Hi2 Hi3]. cbn. pose proof (sw_allocation _ _ Hs) as Eal.
  pose proof (sw_cluster _ _ Hs) as Ecl. split; rewrite ?Eal, ?Ecl; [| done..].
  intros c Hw. destruct (Hc Ha c Hw) as [-> | Hold]; [by rewrite Eal | by apply Hi1].
Qed.

Lemma move_worker order (b b' : watching St) :
  move order b = Some (Ret b') ->
  worker b' = worker b /\ (informed (worker b) (at_ b) -> informed (worker b') (at_ b')).
Proof.
  unfold move. intros E. assert (worker b' = worker b) as Hw by (repeat case_match; by simplify_eq).
  split; [done |]. rewrite Hw. intros [Hc Hs Hb]. clear Hw.
  split; [done | |]; repeat case_match; simplify_eq; try done;
    try (by intros ? [= <-]; apply Hs); intros ? [= <-]; by apply Hc.
Qed.

Lemma informed_idle w p p' n :
  informed w p -> subject p' = None -> informed (set_group n w) p'.
Proof. intros [Hc _ _] Hp. split; [done | by rewrite Hp |]. by destruct p'. Qed.

(** The steps to the outside stay with the allocation. *)
Lemma outward_worker a (b b' : watching St) :
  inward a = false -> watch_exec Hash a b = Some (Ret b') ->
  worker b' = worker b /\ (informed (worker b) (at_ b) -> informed (worker b') (at_ b')) /\
  busy (at_ b) = 1%nat.
Proof.
  intros Ha E. destruct a; try done; cbn [watch_exec] in E; clear Ha.
  - destruct (get_cases _ _ _ _ E) as (alloc & task & e & es & sts & h & Hat & _ & Ew & _ & Hc).
    rewrite Ew, Hat. split_and!; [done | | done]. intros [Hi Hs _].
    specialize (Hs alloc eq_refl).
    destruct Hc as [(_ & _ & Ea & _) | (job & Ea & _)]; rewrite Ea; split; try done;
      try (by intros ? [= <-]). intros k [= <-]. exists h. by rewrite Hs.
  - destruct (send_cases _ _ E) as (alloc & task & k & m & es & sts & Hat & ->). rewrite Hat.
    split_and!; [done | | done]. intros [Hi Hs Hb]. by split.
  - destruct (put_cases _ _ _ E) as (alloc & task & k & es & sts & Hat & Hs). rewrite Hat.
    split_and!; [by destruct Hs as [-> | ->] | | done]. intros [Hi Hsu _].
    destruct Hs as [-> | ->]; by split.
Qed.

Lemma exec_worker a (b b' : watching St) :
  watch_exec Hash a b = Some (Ret b') -> a <> CloseStop ->
  same_worker (worker b) (worker b') /\
  (answers (Alloc_ID (allocation (worker b))) a ->
   informed (worker b) (at_ b) -> informed (worker b') (at_ b')).
Proof.
  intros E Hne. destruct (inward a) eqn:Hin.
  2: { destruct (outward_worker a b b' Hin E) as (-> & Hi & _). by split. }
  destruct a as [| answer | | order | | | | answer | |]; cbn [watch_exec answers] in *; try done; clear Hin.
  - destruct (at_ b) eqn:Hat; try done. injection E as <-. split; [done |].
    intros _ Hi. by eapply informed_idle.
  - destruct (at_ b) eqn:Hat; try done.
    destruct (refresh answer b) as [[got b1] |] eqn:Hr; [| done]. injection E as <-.
    destruct (refresh_informed _ _ _ _ Hr) as (Hs & Ha & Hi). rewrite Ha, Hat in Hi.
    destruct got; cbn.
    + split; [done |]. intros Hab Hin. destruct (Hi Hab Hin) as [H1 _ _]. by split.
    + split; [by destruct Hs |]. intros Hab Hin. eapply informed_idle; [by apply Hi | done].
  - destruct (at_ b) eqn:Hat; try done. destruct (NomadWorker.Stop _); [| done]. injection E as <-.
    split; [done |]. intros _ Hi. by eapply informed_idle.
  - destruct (move_worker _ _ _ E) as [-> Hi]. by split.
  - destruct (syncing b); [| done]. destruct (refresh answer b) as [[got b1] |] eqn:Hr; [| done].
    injection E as <-. destruct (refresh_informed _ _ _ _ Hr) as (Hs & Ha & Hi). by split.
  - destruct (_ && _); [| done]. injection E as <-. done.
Qed.

Lemma exec_rests a (b b' : watching St) :
  watch_exec Hash a b = Some (Ret b') -> (forall answer, a <> WatchTick answer) ->
  (busy (at_ b') <= busy (at_ b))%nat.
Proof.
  intros E Hne. destruct (inward a) eqn:Hin.
  2: { destruct (outward_worker a b b' Hin E) as (_ & _ & ->). by destruct (at_ b'); cbn; lia. }
  destruct a as [| answer | | order | | | | answer | |]; cbn [watch_exec] in E; try done; clear Hin.
  - destruct (at_ b); try done. by injection E as <-.
  - by destruct (Hne answer).
  - destruct (at_ b); try done. destruct (NomadWorker.Stop _); [| done]. by injection E as <-.
  - unfold move in E. destruct (at_ b); repeat case_match; simplify_eq; cbn; lia.
  - destruct (syncing b); [| done]. destruct (refresh answer b) as [[got b1] |] eqn:Hf; [| done].
    injection E as <-. destruct (refresh_informed _ _ _ _ Hf) as (_ & Ha & _). by rewrite Ha.
  - destruct (_ && _); [| done]. by injection E as <-.
  - destruct (NomadWorker.Stop _); [done |]. by injection E as <-.
Qed.

(** ** The invariant *)

(** The map of workers, as it is when the loop is at its [select] again. *)
Definition settled (s : fleet St) : AllocationWorkers :=
  match receive_loop s with AtSelect => crew s | Awaiting alloc => Remove alloc (crew s) end.

Definition syncs (acts : list fleet_action) : list (list Allocation) :=
  acts ≫= fun a => match a with SyncTicks l => [l] | _ => [] end.

Record crewman_inv (lates : list string) (s : fleet St) (i : nat) (m : crewman St) : Prop := {
  ci_watch : watch_inv Hash (body m);
  ci_informed : informed (worker (body m)) (at_ (body m));
  ci_stop : channels (crew s) !! i = Some (NomadWorker.Stop (worker (body m)));
  ci_cluster : clusterName (worker (body m)) = cluster;
  ci_idle : launch m <> Launched -> at_ (body m) = Unstarted;
  ci_listed : resting (at_ (body m)) \/ listed i m s = true \/ aid m ∈ lates;
}.

Record roster_inv (lates : list string) (s : fleet St) : Prop := {
  ri_each : forall i m, roster s !! i = Some m -> crewman_inv lates s i m;
  ri_length : length (roster s) = length (channels (crew s));
}.

(** The map and the pool are those of [sync_all], with a part of the last [Sync]
    to come. *)
Definition pool_inv (lists : list (list Allocation)) (s : fleet St) : Prop :=
  exists done_ a0, sync_all done_ NewAllocationPool NewAllocationWorkers = Ret (pool s, a0) /\
    in_step (pool s) a0 /\
    match syncer s with
    | Ticking => lists = done_ /\ settled s = a0
    | Syncing es l =>
        lists = done_ ++ [l] /\ NoDup (ids l) /\ tracked (settled s) /\
        timely es (dom (workers (settled s))) /\
        receive_events (Sync l (pool s)).1 a0 = receive_events es (settled s)
    end.

Lemma pool_start st : pool_inv [] (fleet_start st).
Proof. exists [], NewAllocationWorkers. split_and!; [done | | done..]. split; [apply tracked_new | done]. Qed.

(** A channel event does what [receive_event] does, the wait left out. *)
Lemma take_event_settles e es l s s' :
  receive_loop s = AtSelect -> take_event e es l s = Ret s' ->
  pool s' = pool s /\ syncer s' = Syncing es l /\ synced s' = synced s /\
  receive_event e (crew s) = Ret (settled s').
Proof.
  intros Hl. unfold take_event, settled. destruct e as [alloc | alloc]; cbn [receive_event].
  - intros [= <-]. done.
  - destruct (Close alloc (crew s)) as [a |]; [| done]. by intros [= <-].
Qed.

Lemma take_event_never_panics e es l s why :
  tracked (crew s) -> take_event e es l s <> Panic why.
Proof.
  intros Ht. destruct e as [alloc | alloc]; [done |]. cbn.
  destruct (tracked_removed alloc (crew s) Ht) as (a' & Hr & _). cbn in Hr.
  by destruct (Close alloc (crew s)).
Qed.

Lemma worker_does i a s s' :
  fleet_exec (WorkerDoes i a) s = Some (Ret s') ->
  exists m b, roster s !! i = Some m /\ launch m = Launched /\ a <> CloseStop /\
    watch_exec Hash a (seen (synced s) (body m)) = Some (Ret b) /\
    s' = set_roster i (set_body b m) (keys b) s.
Proof.
  cbn [fleet_exec]. destruct (roster s !! i) as [m |]; [| done]. destruct (launch m) eqn:Hl; [done.. |].
  intros E. exists m. destruct (watch_exec Hash a _) as [[b |] |]; destruct a; try done;
    injection E as <-; exists b; by split_and!.
Qed.

Lemma pool_step lists a s s' :
  pool_inv lists s -> faithful a s -> fleet_exec a s = Some (Ret s') ->
  pool_inv (lists ++ syncs [a]) s'.
Proof.
  intros (done_ & a0 & Hall & Hin & Hs) Hf. destruct a as [l | | | | i answer | i a].
  1-5: cbn [fleet_exec].
  - destruct (syncer s) eqn:Es; [| done]. intros [= <-]. destruct Hs as [-> Hset].
    exists done_, a0. cbn. unfold settled in *. cbn. rewrite Hset. destruct Hin as [Ht Hd].
    split_and!; try done. by apply (sync_timely l (pool s)).
  - destruct (syncer s) as [| [| e es] l] eqn:Es; try done. destruct (receive_loop s) eqn:El; [| done].
    intros E. injection E as E. destruct Hs as (-> & Hnd & Ht & Htl & Hr).
    destruct (take_event_settles _ _ _ _ _ El E) as (Ep & Esy & _ & He).
    assert (settled s = crew s) as Ec by (unfold settled; by rewrite El). rewrite Ec in *.
    destruct (receive_timely e es (crew s) Ht Htl) as (a1 & He1 & Ht1 & Htl1).
    rewrite He in He1. injection He1 as <-. exists done_, a0. rewrite Ep, Esy.
    cbn [syncs]. rewrite app_nil_r. split_and!; try done. cbn [receive_events] in Hr. by rewrite He in Hr.
  - destruct (receive_loop s) eqn:El; [done |]. destruct (Wait _ _); [| done]. intros [= <-].
    exists done_, a0. cbn. rewrite app_nil_r. unfold settled in *. cbn. by rewrite El in Hs.
  - destruct (syncer s) as [| [| e es] l] eqn:Es; try done. intros [= <-].
    destruct Hs as (-> & Hnd & Ht & _ & Hr). cbn [receive_events] in Hr.
    destruct (sync_in_step l (pool s) a0 Hin Hnd) as (a' & Ha & Hst). rewrite Hr in Ha.
    injection Ha as <-. exists (done_ ++ [l]), (settled s). cbn. rewrite app_nil_r.
    split_and!; [by eapply sync_all_snoc | exact Hst | done..].
  - destruct (roster s !! i) as [m |]; [| done]. destruct (launch m); try done.
    destruct (launch_with answer m); [| done]. intros [= <-].
    exists done_, a0. cbn. by rewrite app_nil_r.
  - intros (m & b & _ & _ & _ & _ & ->)%worker_does. exists done_, a0. cbn. by rewrite app_nil_r.
Qed.

(** The parts of a worker that the invariant of its goroutine does not speak of. *)
Lemma watch_inv_worker (b b' : watching St) :
  watch_inv Hash b -> clusterName (worker b') = clusterName (worker b) ->
  waitGroup (worker b') = waitGroup (worker b) -> at_ b' = at_ b -> log b' = log b ->
  watch_inv Hash b'.
Proof. intros [Hl Hg] Ec Eg Ea El. split; unfold log_ok in *; by rewrite ?Ec, ?Eg, ?Ea, ?El. Qed.

(** A worker that is in the map stays there while the map keeps it. *)
Lemma crewman_moves lates lates' s s' i m :
  crewman_inv lates s i m -> channels (crew s') !! i = channels (crew s) !! i ->
  (listed i m s = true -> resting (at_ (body m)) \/ listed i m s' = true) ->
  lates ⊆ lates' -> crewman_inv lates' s' i m.
Proof.
  intros [? ? Hst ? ? Hli] Ec Hl Hsub. split; try done; [by rewrite Ec |].
  destruct Hli as [| [Hli | Hli]]; [by left | | by right; right; apply Hsub].
  destruct (Hl Hli); by auto.
Qed.

Lemma roster_added lates alloc es l s s' :
  roster_inv lates s -> Alloc_ID alloc ∉ dom (workers (crew s)) ->
  take_event (AllocationAdded alloc) es l s = Ret s' -> roster_inv lates s'.
Proof.
  intros [He Hlen] Hd [= <-]. split; cbn.
  - intros i m [Hm | [Hle Hm]]%lookup_app_Some.
    + apply (crewman_moves lates lates s); [by apply He | | | done].
      * cbn. rewrite lookup_app_l; [done |]. rewrite <- Hlen. by eapply lookup_lt_Some.
      * unfold listed, leads. destruct (workers (crew s) !! aid m) as [w |] eqn:Hw; [| done]. intros Hi. right.
        cbn. rewrite lookup_insert_ne; [by rewrite Hw |]. intros E. apply Hd. rewrite E.
        by apply elem_of_dom_2 in Hw.
    + apply list_lookup_singleton_Some in Hm as [Hi <-].
      split; try done; cbn; [split; [constructor | done] | | by left].
      rewrite lookup_app_r by lia. by replace (i - length (channels (crew s)))%nat with 0%nat by lia.
  - rewrite !length_app. cbn. by rewrite Hlen.
Qed.

Lemma roster_closed lates alloc es l s s' :
  roster_inv lates s -> take_event (AllocationRemoved alloc) es l s = Ret s' -> roster_inv lates s'.
Proof.
  intros [He Hlen]. cbn. unfold Close.
  destruct (workers (crew s) !! Alloc_ID alloc) as [w |] eqn:Hw.
  2: { intros [= <-]. split; cbn; [| done]. intros i m Hm. by destruct (He i m Hm). }
  set (s1 := {| pool := pool s; syncer := Syncing es l; receive_loop := Awaiting alloc;
                crew := {| workers := workers (crew s);
                           channels := <[Pool.Stop w := true]> (channels (crew s)) |};
                roster := alter dismiss (Pool.Stop w) (roster s); synced := synced s |}).
  enough (roster_inv lates s1) as Hgoal
    by (destruct (channels (crew s) !! Pool.Stop w) as [[] |]; [done | |]; by intros [= <-]).
  split; [| cbn; by rewrite length_alter, length_insert].
  intros i m. cbn. destruct (decide (i = Pool.Stop w)) as [-> | Hne].
  - rewrite list_lookup_alter_eq. intros (m0 & Hm & ->)%fmap_Some.
    destruct (He _ _ Hm) as [Hwi [Hc Hs Hb] Hst ? ? Hli]. split; try done; cbn.
    + by eapply watch_inv_worker.
    + rewrite list_lookup_insert_eq; [done |]. by eapply lookup_lt_Some.
  - rewrite list_lookup_alter_ne by done. intros Hm.
    apply (crewman_moves lates lates s); [by apply He | | by right | done].
    cbn. by rewrite list_lookup_insert_ne.
Qed.

(** [Wait] returns when the worker is at rest, or not in the map. *)
Lemma wait_rests lates alloc s w m :
  roster_inv lates s -> Wait alloc s = true -> workers (crew s) !! Alloc_ID alloc = Some w ->
  roster s !! Pool.Stop w = Some m -> resting (at_ (body m)).
Proof.
  intros [He _] Hwait Hw Hm. unfold Wait in Hwait. rewrite Hw, Hm in Hwait.
  apply Z.eqb_eq in Hwait. rewrite (wi_group _ _ (ci_watch _ _ _ _ (He _ _ Hm))) in Hwait.
  by destruct (at_ (body m)).
Qed.

Lemma roster_released lates alloc s :
  roster_inv lates s -> Wait alloc s = true ->
  roster_inv lates {| pool := pool s; syncer := syncer s; receive_loop := AtSelect;
                crew := Remove alloc (crew s); roster := roster s; synced := synced s |}.
Proof.
  intros Hri Hwait. pose proof Hri as [He Hlen].
  assert (channels (Remove alloc (crew s)) = channels (crew s)) as Ec
    by (unfold Remove; by destruct (workers (crew s) !! _)).
  split; cbn; [| by rewrite Ec]. intros i m Hm.
  apply (crewman_moves lates lates s); [by apply He | cbn; by rewrite Ec | | done].
  unfold listed, leads. destruct (workers (crew s) !! aid m) as [w |] eqn:Hw; [| done].
  intros Hi%Nat.eqb_eq. destruct (decide (aid m = Alloc_ID alloc)) as [E | Hne].
  - left. subst i. eapply wait_rests; [done.. | by rewrite <- E | done].
  - right. cbn. unfold Remove. destruct (workers (crew s) !! Alloc_ID alloc);
      [cbn; rewrite lookup_delete_ne by done |]; rewrite Hw; by apply Nat.eqb_eq.
Qed.

Lemma launch_spec answer m m' :
  launch_with answer m = Ret m' ->
  same_worker (worker (body m)) (worker (body m')) /\
  waitGroup (worker (body m')) = waitGroup (worker (body m)) /\
  at_ (body m') = at_ (body m) /\ log (body m') = log (body m) /\
  (about (aid m) answer -> informed (worker (body m)) (at_ (body m)) ->
   informed (worker (body m')) (at_ (body m'))).
Proof.
  unfold launch_with, NomadWorker.Start.
  destruct (updateAllocationConfig _ _) as [[got w] |] eqn:E; [| done].
  destruct (update_spec _ _ _ _ E) as (Hs & Hg & Hc).
  assert (about (aid m) answer -> informed (worker (body m)) (at_ (body m)) ->
    informed w (at_ (body m))) as Hin.
  { intros Hab [H1 H2 H3]. pose proof (sw_allocation _ _ Hs) as Eal.
    pose proof (sw_cluster _ _ Hs) as Ecl. split; rewrite ?Eal, ?Ecl; [| done..].
    intros c Hw. destruct (Hc Hab c Hw) as [-> | Hold]; [by rewrite Eal | by apply H1]. }
  destruct (allocationConfig w) as [c |]; [| done]. destruct (_ || _); intros [= <-]; by split_and!.
Qed.

(** One worker has changed. *)
Lemma roster_changed lates lates' i m m' st s :
  roster_inv lates s -> roster s !! i = Some m -> lates ⊆ lates' ->
  crewman_inv lates' (set_roster i m' st s) i m' -> roster_inv lates' (set_roster i m' st s).
Proof.
  intros [He Hlen] Hi Hsub Hm'. split; [| cbn; by rewrite length_insert].
  intros j mj. cbn. intros [[-> [<- _]] | [Hne Hj]]%list_lookup_insert_Some; [done |].
  apply (crewman_moves lates lates' s); [by apply He | done | by right | done].
Qed.

Lemma listed_same i m m' s s' :
  aid m' = aid m -> crew s' = crew s -> listed i m' s' = listed i m s.
Proof. unfold listed, leads. by intros -> ->. Qed.

Lemma roster_launched lates i m answer m' s :
  roster_inv lates s -> roster s !! i = Some m -> launch m = Launching -> about (aid m) answer ->
  launch_with answer m = Ret m' -> roster_inv lates (set_roster i m' (synced s) s).
Proof.
  intros Hri Hi Hl Hab E. pose proof Hri as [He Hlen].
  destruct (launch_spec _ _ _ E) as ([Eal Ecl Est] & Eg & Ea & El & Hin).
  destruct (He i m Hi) as [Hwi Hinf Hst Hcl Hid _].
  assert (at_ (body m) = Unstarted) as Hun by (apply Hid; by rewrite Hl).
  eapply roster_changed; [done.. |]. split; cbn.
  - by eapply watch_inv_worker.
  - by apply Hin.
  - by rewrite Est.
  - by rewrite Ecl.
  - intros _. by rewrite Ea.
  - left. unfold resting. by rewrite Ea, Hun.
Qed.

(** A tick is by the worker in the map, or late. *)
Lemma late_tick i a m s :
  roster s !! i = Some m -> (exists answer, a = WatchTick answer) ->
  listed i m s = true \/ aid m ∈ late (WorkerDoes i a) s.
Proof.
  intros Hi [answer ->]. cbn [late]. rewrite Hi. destruct (listed i m s); [by left | right; left].
Qed.

Lemma ticks_or_not (a : watch_action) :
  (exists answer, a = WatchTick answer) \/ forall answer, a <> WatchTick answer.
Proof. destruct a; eauto; right; intros ? [=]. Qed.

Lemma roster_worker lates i m a b s :
  roster_inv lates s -> roster s !! i = Some m -> launch m = Launched -> a <> CloseStop ->
  answers (aid m) a -> watch_exec Hash a (seen (synced s) (body m)) = Some (Ret b) ->
  roster_inv (lates ++ late (WorkerDoes i a) s) (set_roster i (set_body b m) (keys b) s).
Proof.
  intros Hri Hi Hl Hne Hab E. pose proof Hri as [He Hlen].
  destruct (He i m Hi) as [Hwi Hinf Hst Hcl Hid Hli].
  destruct (exec_worker _ _ _ E Hne) as ([Eal Ecl Est] & Hin).
  eapply roster_changed; [done.. | apply list_subseteq_app_l; done |]. split; cbn.
  - eapply (watch_exec_inv Hash a); [| exact E]. by eapply watch_inv_worker.
  - by apply Hin.
  - by rewrite Est.
  - by rewrite Ecl.
  - by rewrite Hl.
  - assert (aid (set_body b m) = aid m) as Ea by (unfold aid; cbn; by rewrite Eal).
    rewrite (listed_same i m _ s), Ea by done. rewrite elem_of_app.
    destruct (ticks_or_not a) as [Ht | Hnt].
    + destruct (late_tick i a m s Hi Ht); by auto.
    + destruct Hli as [Hr | [Hli | Hli]]; [left | by auto..].
      pose proof (exec_rests _ _ _ E Hnt) as Hle. unfold resting in *. cbn in Hle. lia.
Qed.

Lemma roster_step lates lists a s s' :
  roster_inv lates s -> pool_inv lists s -> faithful a s -> fleet_exec a s = Some (Ret s') ->
  roster_inv (lates ++ late a s) s'.
Proof.
  intros Hri (done_ & a0 & _ & _ & Hp) Hf. destruct a as [l | | | | i answer | i a].
  1-5: cbn [fleet_exec late]; rewrite app_nil_r.
  - destruct (syncer s); [| done]. intros [= <-]. destruct Hri as [He ?]. split; [| done].
    intros i m Hm. by destruct (He i m Hm).
  - destruct (syncer s) as [| [| e es] l] eqn:Es; try done. destruct (receive_loop s) eqn:El; [| done].
    intros E. injection E as E. destruct Hp as (_ & _ & _ & [Ht _] & _).
    unfold settled in Ht. rewrite El in Ht.
    destruct e; [by eapply roster_added | by eapply roster_closed].
  - destruct (receive_loop s) eqn:El; [done |]. destruct (Wait _ _) eqn:Hw; [| done].
    intros [= <-]. by apply roster_released.
  - destruct (syncer s) as [| [| e es] l]; try done. intros [= <-]. destruct Hri as [He ?].
    split; [| done]. intros i m Hm. by destruct (He i m Hm).
  - destruct (roster s !! i) as [m |] eqn:Hi; [| done]. destruct (launch m) eqn:Hl; try done.
    destruct (launch_with answer m) as [m' |] eqn:E; [| done]. intros [= <-].
    by eapply roster_launched, E; [| | | apply Hf].
  - intros (m & b & Hi & Hl & Hne & E & ->)%worker_does. eapply roster_worker; [done.. | | exact E].
    destruct a; cbn in *; try done; by apply Hf.
Qed.

(** ** Counting over all workers *)

Definition total (f : watching St -> nat) (s : fleet St) : nat :=
  sum_list_with (fun m => f (body m)) (roster s).

(** Busy with the allocation [id]. *)
Definition at_work (id : string) (b : watching St) : nat :=
  if String.eqb (Alloc_ID (allocation (worker b))) id then busy (at_ b) else O.

Definition crowd (id : string) : fleet St -> nat := total (at_work id).

(** The worker in the map. *)
Definition lead (id : string) (s : fleet St) : nat :=
  match workers (crew s) !! id with
  | Some w => match roster s !! Pool.Stop w with Some m => at_work id (body m) | None => O end
  | None => O
  end.

Definition times (id : string) : list string -> nat := sum_list_with (is_key id).

Definition all_sends (k : string) : fleet St -> nat := total (fun b => sends k (log b)).
Definition all_puts (k : string) : fleet St -> nat := total (fun b => puts k (log b)).
Definition all_losses (k : string) : fleet St -> nat := total (fun b => losses k (log b)).
Definition all_unreads (k : string) : fleet St -> nat := total (fun b => unreads k (log b)).
Definition all_windows (k : string) : fleet St -> nat := total (fun b => window k (at_ b)).

(** No key is known by itself; the workers that are busy with one allocation are
    the one in the map and those that were late; and the events sent or due. *)
Record key_inv (st : St) (lates : list string) (s : fleet St) : Prop := {
  ki_unknown : forall k, Known k (synced s) = false -> all_puts k s = O /\ Known k st = false;
  ki_crowd : forall id, (crowd id s <= times id lates + lead id s)%nat;
  ki_balance : forall id h, let k := event_key cluster id h in
    (all_puts k s + all_windows k s <= unkept k st + all_unreads k s + times id lates)%nat;
}.

Lemma busy_le p : (busy p <= 1)%nat.
Proof. destruct p; cbn; lia. Qed.

Lemma at_work_le id b : (at_work id b <= 1)%nat.
Proof. unfold at_work. pose proof (busy_le (at_ b)). destruct (String.eqb _ _); lia. Qed.

Lemma lead_le id s : (lead id s <= 1)%nat.
Proof.
  unfold lead. destruct (workers (crew s) !! id) as [w |]; [| lia].
  destruct (roster s !! _); [apply at_work_le | lia].
Qed.

Lemma times_app id l1 l2 : times id (l1 ++ l2) = (times id l1 + times id l2)%nat.
Proof. apply sum_list_with_app. Qed.

Lemma times_in id l : id ∈ l -> (1 <= times id l)%nat.
Proof.
  induction l as [| x l IH]; [by intros ?%not_elem_of_nil |]. unfold times in *. cbn.
  intros [-> | Hin]%elem_of_cons; [rewrite is_key_refl; lia | specialize (IH Hin); lia].
Qed.

(** The sums see of a worker what it has done and what it is busy with. *)
Lemma key_inv_same st lates s s' :
  key_inv st lates s -> synced s' = synced s ->
  (forall f : watching St -> nat,
     (forall b b', log b' = log b -> at_ b' = at_ b ->
        allocation (worker b') = allocation (worker b) -> f b' = f b) -> total f s' = total f s) ->
  (forall id, (lead id s <= lead id s')%nat \/ crowd id s = O \/ lead id s = O) ->
  key_inv st lates s'.
Proof.
  intros [Hu Hc Hb] Es Ht Hl. split.
  - intros k. unfold all_puts. rewrite Es, Ht by (by intros ?? ->). apply Hu.
  - intros id. specialize (Hc id). unfold crowd in *. rewrite Ht; [destruct (Hl id) as [| []]; lia |].
    unfold at_work. by intros ?? _ -> ->.
  - intros id h k. specialize (Hb id h). fold k in Hb. unfold all_puts, all_windows, all_unreads in *.
    rewrite !Ht; [done |..]; by intros ?? E1 E2 _; rewrite ?E1, ?E2.
Qed.

Lemma keys_added st lates alloc es l s s' :
  key_inv st lates s -> Alloc_ID alloc ∉ dom (workers (crew s)) ->
  take_event (AllocationAdded alloc) es l s = Ret s' -> key_inv st lates s'.
Proof.
  intros [Hu Hc Hb] Hd E.
  assert (forall f, f (body (recruit alloc (synced s))) = O -> total f s' = total f s) as Ht.
  { intros f Hf. injection E as <-. unfold total. cbn. rewrite sum_list_with_app. cbn in *.
    rewrite Hf. lia. }
  assert (synced s' = synced s) as Es by by injection E as <-.
  split.
  - intros k. unfold all_puts. rewrite Ht, Es by done. apply Hu.
  - intros id. unfold crowd. rewrite Ht by (unfold at_work; by case_match).
    etrans; [apply Hc |]. apply Nat.add_le_mono_l. injection E as <-. unfold lead. cbn.
    destruct (workers (crew s) !! id) as [w |] eqn:Hw; [| lia].
    rewrite lookup_insert_ne, Hw by (intros <-; apply Hd; by apply elem_of_dom_2 in Hw).
    destruct (roster s !! Pool.Stop w) as [m |] eqn:Hm; [| lia].
    rewrite lookup_app_l, Hm; [done |]. by eapply lookup_lt_Some.
  - intros id h k. specialize (Hb id h). fold k in Hb. unfold all_puts, all_windows, all_unreads in *.
    by rewrite (Ht (fun b => puts k (log b))), (Ht (fun b => window k (at_ b))),
      (Ht (fun b => unreads k (log b))).
Qed.

Lemma keys_closed st lates alloc es l s s' :
  key_inv st lates s -> take_event (AllocationRemoved alloc) es l s = Ret s' -> key_inv st lates s'.
Proof.
  intros Hk. cbn. unfold Close.
  destruct (workers (crew s) !! Alloc_ID alloc) as [w |] eqn:Hw.
  2: { intros [= <-]. destruct Hk. by split. }
  assert (forall c s', roster s' = alter dismiss (Pool.Stop w) (roster s) -> synced s' = synced s ->
    crew s' = {| workers := workers (crew s); channels := c |} -> key_inv st lates s') as Hgo.
  { intros c s1 Er Es Ec. eapply key_inv_same; [exact Hk | done | |].
    - intros f Hf. unfold total. rewrite Er. apply sum_alter. intros m. by apply Hf.
    - intros id. left. unfold lead. rewrite Er, Ec. cbn.
      destruct (workers (crew s) !! id) as [w' |]; [| lia].
      destruct (decide (Pool.Stop w' = Pool.Stop w)) as [-> |].
      + rewrite list_lookup_alter_eq. destruct (roster s !! Pool.Stop w); cbn; [| lia]. done.
      + rewrite list_lookup_alter_ne by done. lia. }
  destruct (channels (crew s) !! Pool.Stop w) as [[] |]; [done | |]; intros [= <-];
    by eapply Hgo.
Qed.

Lemma keys_released st lates alloc s :
  key_inv st lates s -> roster_inv lates s -> Wait alloc s = true ->
  key_inv st lates {| pool := pool s; syncer := syncer s; receive_loop := AtSelect;
                crew := Remove alloc (crew s); roster := roster s; synced := synced s |}.
Proof.
  intros Hk Hri Hwait. eapply key_inv_same; [exact Hk | done | done |]. intros id.
  destruct (decide (id = Alloc_ID alloc)) as [-> | Hne].
  - right. right. unfold lead. destruct (workers (crew s) !! Alloc_ID alloc) as [w |] eqn:Hw; [| done].
    destruct (roster s !! Pool.Stop w) as [m |] eqn:Hm; [| done].
    pose proof (wait_rests _ _ _ _ _ Hri Hwait Hw Hm) as Hr. unfold at_work. by case_match.
  - left. unfold lead. cbn. replace (workers (Remove alloc (crew s)) !! id) with (workers (crew s) !! id); [done |].
    unfold Remove. destruct (workers (crew s) !! Alloc_ID alloc); [| done].
    cbn. by rewrite lookup_delete_ne by done.
Qed.

Lemma total_set f i m m' st s :
  roster s !! i = Some m ->
  (total f (set_roster i m' st s) + f (body m))%nat = (total f s + f (body m'))%nat.
Proof. intros Hi. unfold total. cbn. by apply (sum_insert (fun m => f (body m))). Qed.

Lemma keys_launched st lates i m answer m' s :
  key_inv st lates s -> roster s !! i = Some m -> launch_with answer m = Ret m' ->
  key_inv st lates (set_roster i m' (synced s) s).
Proof.
  intros Hk Hi E. destruct (launch_spec _ _ _ E) as ([Eal Ecl Est] & Eg & Ea & El & _).
  eapply key_inv_same; [exact Hk | done | |].
  - intros f Hf. pose proof (total_set f i m m' (synced s) s Hi).
    rewrite (Hf (body m) (body m')) in * by done. lia.
  - intros id. left. unfold lead. cbn. destruct (workers (crew s) !! id) as [w |]; [| done].
    destruct (decide (Pool.Stop w = i)) as [-> | Hne]; [| by rewrite list_lookup_insert_ne].
    rewrite list_lookup_insert_eq by (by eapply lookup_lt_Some). rewrite Hi.
    unfold at_work. by rewrite Eal, Ea.
Qed.

(** A worker that is about to send or to note an event is busy with the
    allocation in the key. *)
Lemma window_at_work lates s i m id h :
  roster_inv lates s -> roster s !! i = Some m ->
  (window (event_key cluster id h) (at_ (body m)) <= at_work id (body m))%nat.
Proof.
  intros [He _] Hi. destruct (He i m Hi) as [_ [_ _ Hb] _ Hcl _ _]. unfold window, at_work.
  destruct (between (at_ (body m))) as [k |] eqn:Ek; [| lia].
  assert (busy (at_ (body m)) = 1%nat) as -> by (by destruct (at_ (body m))).
  destruct (Hb k eq_refl) as [h' ->]. destruct (String.eqb_spec (Alloc_ID (allocation (worker (body m)))) id)
    as [_ | Hne]; [apply is_key_le |].
  unfold is_key. destruct (String.eqb_spec (event_key cluster id h)
    (event_key (clusterName (worker (body m))) (Alloc_ID (allocation (worker (body m)))) h')) as [E |]; [| lia].
  rewrite Hcl in E. apply event_key_alloc in E. by destruct Hne.
Qed.

Section Move.
Context (lates : list string) (s : fleet St) (i : nat) (m : crewman St) (a : watch_action)
  (b : watching St) (st : St).
Hypothesis inv : roster_inv lates s.
Hypothesis at_i : roster s !! i = Some m.
Hypothesis open_ : a <> CloseStop.
Hypothesis step : watch_exec Hash a (seen (synced s) (body m)) = Some (Ret b).

Let s' := set_roster i (set_body b m) (keys b) s.
Let lates' := lates ++ late (WorkerDoes i a) s.

Lemma crowd_move :
  (forall id, crowd id s <= times id lates + lead id s)%nat ->
  forall id, (crowd id s' <= times id lates' + lead id s')%nat.
Proof.
  intros Hc id. specialize (Hc id). destruct (exec_worker _ _ _ step open_) as ([Eal _ _] & _).
  pose proof (total_set (at_work id) i m (set_body b m) (keys b) s at_i) as Ht.
  fold s' in Ht. fold (crowd id s') (crowd id s) in Ht. unfold lates'. rewrite times_app.
  cbn [body set_body] in Ht.
  assert (lead id s' = (if leads i id s then at_work id b else lead id s)) as El.
  { unfold lead, leads, s'. cbn. destruct (workers (crew s) !! id) as [w |]; [| done].
    destruct (Nat.eqb_spec (Pool.Stop w) i) as [-> | Hne]; [| by rewrite list_lookup_insert_ne].
    by rewrite list_lookup_insert_eq by (by eapply lookup_lt_Some). }
  assert (leads i id s = true -> lead id s = at_work id (body m)) as El0.
  { unfold lead, leads. destruct (workers (crew s) !! id) as [w |]; [| done]. intros ->%Nat.eqb_eq. by rewrite at_i. }
  pose proof (at_work_le id b) as H1.
  destruct (leads i id s) eqn:Hli.
  { specialize (El0 eq_refl). lia. }
  rewrite El. destruct (decide (aid m = id)) as [Eid | Hne].
  2: { assert (at_work id b = O) as Hb0; [| lia]. unfold at_work. rewrite Eal.
       by destruct (String.eqb_spec (Alloc_ID (allocation (worker (seen (synced s) (body m))))) id). }
  destruct (ticks_or_not a) as [Htk | Hnt].
  - destruct (late_tick i a m s at_i Htk) as [Hl | Hl].
    + unfold listed in Hl. rewrite Eid in Hl. congruence.
    + apply times_in in Hl. rewrite Eid in Hl. lia.
  - assert (at_work id b <= at_work id (body m))%nat; [| lia]. unfold at_work. rewrite Eal.
    cbn [seen worker]. destruct (String.eqb _ _); [| lia]. exact (exec_rests _ _ _ step Hnt).
Qed.

Lemma opens_alone k id h :
  k = event_key cluster id h -> opens Hash k (seen (synced s) (body m)) b ->
  window k (at_ (body m)) = O /\ at_work id (body m) = 1%nat.
Proof.
  intros -> [_ (alloc & task & e & es & sts & h' & Hat & _ & E) _ _ _ _]. cbn in Hat, E.
  destruct inv as [He _]. destruct (He i m at_i) as [_ [_ Hs _] _ Hcl _ _].
  unfold window, at_work. rewrite Hat in *. split; [done |].
  rewrite Hcl in E. apply event_key_alloc in E. rewrite <- (Hs alloc eq_refl), <- E.
  by rewrite String.eqb_refl.
Qed.

Lemma keys_move : key_inv st lates s -> key_inv st lates' s'.
Proof.
  intros [Hu Hc Hb].
  assert (forall k, (all_puts k s' + puts k (log (body m)) = all_puts k s + puts k (log b))%nat /\
    (all_windows k s' + window k (at_ (body m)) = all_windows k s + window k (at_ b))%nat /\
    (all_unreads k s' + unreads k (log (body m)) = all_unreads k s + unreads k (log b))%nat) as Ht.
  { intros k. split_and!; [apply (total_set (fun b => puts k (log b)) i m (set_body b m) (keys b) s at_i)
      | apply (total_set (fun b => window k (at_ b)) i m (set_body b m) (keys b) s at_i)
      | apply (total_set (fun b => unreads k (log b)) i m (set_body b m) (keys b) s at_i)]. }
  split; [| by apply crowd_move |].
  - intros k Hk. destruct (exec_unknown _ _ _ _ _ step Hk) as [Hk0 Hp]. cbn in Hk0, Hp.
    destruct (Hu k Hk0) as [H0 Hst]. destruct (Ht k) as (Hp' & _). split; [lia | done].
  - intros id h k. specialize (Hb id h). cbv zeta in Hb. fold k in Hb. destruct (Ht k) as (Hp & Hw & Hr).
    assert (times id lates <= times id lates')%nat as Hti by (unfold lates'; rewrite times_app; lia).
    destruct (exec_balance _ _ _ _ k step) as [Hs | Ho].
    + unfold steady in Hs. cbn [seen at_ log] in Hs. lia.
    + destruct (opens_alone k id h eq_refl Ho) as [Hw0 Hwk]. destruct Ho as [Hn _ Hp1 Hr1 Hw1 _].
      cbn [seen keys log] in Hn, Hp1, Hr1. destruct (Hu k Hn) as [H0 Hst].
      assert (forall j y, roster s !! j = Some y -> (window k (at_ (body y)) <= at_work id (body y))%nat)
        as Hle by (intros j y Hj; by eapply window_at_work).
      pose proof (sum_gap (fun y => window k (at_ (body y))) (fun y => at_work id (body y))
        (roster s) i m Hle at_i) as Hgap.
      fold (total (at_work id) s) (total (fun b => window k (at_ b)) s) in Hgap.
      fold (crowd id s) (all_windows k s) in Hgap. specialize (Hc id).
      pose proof (lead_le id s). unfold unkept. rewrite Hst. lia.
Qed.
End Move.

Lemma key_step st lates lists a s s' :
  key_inv st lates s -> roster_inv lates s -> pool_inv lists s -> faithful a s ->
  fleet_exec a s = Some (Ret s') -> key_inv st (lates ++ late a s) s'.
Proof.
  intros Hk Hri (done_ & a0 & _ & _ & Hp) Hf. destruct a as [l | | | | i answer | i a].
  1-5: cbn [fleet_exec late]; rewrite app_nil_r.
  - destruct (syncer s); [| done]. intros [= <-]. eapply key_inv_same; [exact Hk | done..| by left].
  - destruct (syncer s) as [| [| e es] l] eqn:Es; try done. destruct (receive_loop s) eqn:El; [| done].
    intros E. injection E as E. destruct Hp as (_ & _ & _ & [Ht _] & _).
    unfold settled in Ht. rewrite El in Ht.
    destruct e; [by eapply keys_added | by eapply keys_closed].
  - destruct (receive_loop s) eqn:El; [done |]. destruct (Wait _ _) eqn:Hw; [| done].
    intros [= <-]. by apply keys_released.
  - destruct (syncer s) as [| [| e es] l]; try done. intros [= <-].
    eapply key_inv_same; [exact Hk | done..| by left].
  - destruct (roster s !! i) as [m |] eqn:Hi; [| done]. destruct (launch m) eqn:Hl; try done.
    destruct (launch_with answer m) as [m' |] eqn:E; [| done]. intros [= <-].
    by eapply keys_launched.
  - intros (m & b & Hi & Hl & Hne & E & ->)%worker_does. by apply keys_move.
Qed.

Lemma fleet_invariant st acts lates s :
  fleet_run st acts lates s ->
  pool_inv (syncs acts) s /\ roster_inv lates s /\ key_inv st lates s.
Proof.
  induction 1 as [| acts lates s a s' _ (Hp & Hr & Hk) Hf He].
  - split_and!; [apply pool_start | by split; [intros i m |] |]. split; [done | cbn; lia |].
    intros id h k. cbn. lia.
  - split_and!; [| by eapply roster_step | by eapply key_step].
    unfold syncs in *. rewrite bind_app. by eapply pool_step.
Qed.

(** What the workers have sent. *)
Lemma all_counts lates s k :
  roster_inv lates s -> (all_sends k s <= all_puts k s + all_losses k s + all_windows k s)%nat.
Proof.
  intros [He _]. assert (forall i m, roster s !! i = Some m -> log_ok Hash (body m)) as Hl
    by (intros i m Hi; apply (wi_log _ _ (ci_watch _ _ _ _ (He i m Hi)))).
  clear He. unfold all_sends, all_puts, all_losses, all_windows, total.
  induction (roster s) as [| m l IH]; cbn; [lia |].
  specialize (IH (fun i => Hl (S i))). rewrite (log_counts _ _ k (Hl 0%nat m eq_refl)).
  pose proof (unnoted_window k (at_ (body m))). lia.
Qed.

(** C13. A Nomad client as a whole: the goroutine that asks for the allocations,
    the loop of [ReceiveLogs] and the goroutines of all workers that were ever
    started, in any interleaving, with any failing request to Consul.  Nomad
    lists no allocation twice and answers with the allocation it is asked for.
    What a worker has sent are messages each followed by the [Put] of its key,
    the last perhaps without.  Over all workers together an event is sent at most
    once, not at all if its key was there before; and once more for each [Get]
    and each [Put] of its key that failed, errors which the program ignores, and
    for each tick of a worker of its allocation that was late: it was removed
    from the map before it first ran, or missed its closed stop channel.  A worker
    that is not in the map is at rest unless it was late so.  The loop never closes
    a channel twice; and between two syncs the pool and the workers are what
    [sync_all] computes in one piece, one worker for each allocation of the last
    list. *)
Theorem fleet_ships_once st acts lates s :
  fleet_run st acts lates s ->
  (forall i m, roster s !! i = Some m ->
     log_ok Hash (body m) /\
     (listed i m s = true \/ resting (at_ (body m)) \/ aid m ∈ lates)) /\
  (forall id h, let k := event_key cluster id h in
     (all_sends k s <= unkept k st + all_unreads k s + all_losses k s + times id lates)%nat) /\
  (forall why, fleet_exec HandOver s <> Some (Panic why)) /\
  (syncer s = Ticking -> receive_loop s = AtSelect ->
     sync_all (syncs acts) NewAllocationPool NewAllocationWorkers = Ret (pool s, crew s) /\
     dom (workers (crew s)) = list_to_set (ids (Allocations (pool s)))).
Proof.
  intros Hrun. destruct (fleet_invariant st acts lates s Hrun) as ((done_ & a0 & Hall & Hin & Hp) & Hri & Hk).
  split_and!.
  - intros i m Hi. destruct (ri_each _ _ Hri i m Hi) as [Hm _ _ _ _ Hli].
    split; [apply (wi_log _ _ Hm) | tauto].
  - intros id h k. pose proof (ki_balance _ _ _ Hk id h) as Hb. cbv zeta in Hb. fold k in Hb.
    pose proof (all_counts lates s k Hri). lia.
  - intros why. cbn [fleet_exec]. destruct (syncer s) as [| [| e es] l]; [done.. |].
    destruct (receive_loop s) eqn:El; [| done]. destruct Hp as (_ & _ & Ht & _).
    unfold settled in Ht. rewrite El in Ht. intros [= E]. by eapply take_event_never_panics.
  - intros Hs Hl. rewrite Hs in Hp. destruct Hp as [-> Hset]. unfold settled in Hset.
    rewrite Hl in Hset. subst a0. split; [done | apply Hin].
Qed.

(** ** The end of a removal *)


















End Fleet.

(** ** Concrete runs *)
#[local] Existing Instance demo_keys.

Definition aboutb (id : string) (answer : option Allocation) : bool :=
  match answer with Some alloc => String.eqb (Alloc_ID alloc) id | None => true end.

Definition faithfulb (a : fleet_action) (s : fleet (gset string)) : bool :=
  match a with
  | SyncTicks allocations => bool_decide (NoDup (ids allocations))
  | LaunchWith i answer | WorkerDoes i (WatchTick answer) | WorkerDoes i (SyncTick answer) =>
      match roster s !! i with Some m => aboutb (aid m) answer | None => true end
  | _ => true
  end.

Lemma aboutb_spec id answer : aboutb id answer = true -> about id answer.
Proof. destruct answer as [alloc |]; [| done]. intros E%String.eqb_eq. by intros ? [= <-]. Qed.

Lemma faithfulb_spec a s : faithfulb a s = true -> faithful a s.
Proof.
  destruct a as [l | | | | i answer | i []]; try done; cbn.
  1: by intros ?%bool_decide_eq_true.
  all: intros E m Hm; rewrite Hm in E; by apply aboutb_spec.
Qed.

(** The actions in order, with those left out that cannot be taken or that are
    not faithful, and the late ticks. *)
Fixpoint fleet_go (acts : list fleet_action) (s : fleet (gset string))
    : list fleet_action * list string * fleet (gset string) :=
  match acts with
  | [] => ([], [], s)
  | a :: acts =>
      match (if faithfulb a s then fleet_exec demo_hash "c" a s else None) with
      | Some (Ret s') =>
          let '(taken, lates, s'') := fleet_go acts s' in (a :: taken, late a s ++ lates, s'')
      | _ => fleet_go acts s
      end
  end.

Lemma fleet_go_run st done_ lates acts s :
  fleet_run demo_hash "c" st done_ lates s ->
  fleet_run demo_hash "c" st (done_ ++ (fleet_go acts s).1.1) (lates ++ (fleet_go acts s).1.2)
    (fleet_go acts s).2.
Proof.
  revert done_ lates s. induction acts as [| a acts IH]; intros done_ lates s Hr; cbn [fleet_go];
    [by rewrite !app_nil_r |].
  destruct (faithfulb a s) eqn:Hf; [| by apply IH].
  destruct (fleet_exec demo_hash "c" a s) as [[s' |] |] eqn:E; [| by apply IH..].
  specialize (IH (done_ ++ [a]) (lates ++ late a s) s').
  destruct (fleet_go acts s') as [[taken lates'] s''].
  cbn [fst snd] in *. rewrite <- !(assoc_L (++)) in IH. apply IH.
  eapply fleet_step; [exact Hr | | exact E]. by apply faithfulb_spec.
Qed.

(** The worker [i] goes on, the requests to Consul are answered. *)
Definition worker_moves (i n : nat) : list fleet_action :=
  WorkerDoes i <$> concat (replicate n (onwards Answered Answered)).

Definition fleet_result (acts : list fleet_action)
    : list fleet_action * list string * fleet (gset string) := fleet_go acts (fleet_start ∅).

Lemma fleet_result_run acts :
  fleet_run demo_hash "c" ∅ (fleet_result acts).1.1 (fleet_result acts).1.2 (fleet_result acts).2.
Proof. apply (fleet_go_run ∅ [] [] acts). constructor. Qed.

(** An allocation is found, watched and gone, and found again: its new worker
    sends nothing a second time. *)
Definition fleet_actions : list fleet_action :=
  [SyncTicks [demo_allocation]; HandOver; SyncEnds; LaunchWith 0 (Some demo_allocation);
   WorkerDoes 0 WatchBegin; WorkerDoes 0 (WatchTick (Some demo_allocation))] ++ worker_moves 0 10 ++
  [SyncTicks []; HandOver].
Definition fleet_again : list fleet_action :=
  [WorkerDoes 0 WatchStop; WaitReturns; SyncEnds; SyncTicks [demo_allocation]; HandOver; SyncEnds;
   LaunchWith 1 (Some demo_allocation); WorkerDoes 1 WatchBegin;
   WorkerDoes 1 (WatchTick (Some demo_allocation))] ++ worker_moves 1 10.

Lemma fleet_ships_once_witness :
  let r := fleet_result (fleet_actions ++ fleet_again) in
  length (roster r.2) = 2%nat /\ (all_sends (demo_key (-1)) r.2 <= 1)%nat /\
  dom (workers (crew r.2)) = {[Alloc_ID demo_allocation]}.
Proof.
  intros r. split; [vm_compute; reflexivity |].
  destruct (fleet_ships_once demo_hash "c" ∅ _ _ r.2 (fleet_result_run _)) as (_ & Hn & _ & Hd).
  split.
  - etransitivity; [exact (Hn "a1" (-1)) |]. vm_compute. reflexivity.
  - destruct Hd as [_ Hd]; [vm_compute; reflexivity.. |]. rewrite Hd. vm_compute. reflexivity.
Defined.



(** [waitGroup.Add] is called by the goroutine that is waited for: [Wait] can
    return before that goroutine has run at all.  If it then misses the stop
    channel at its first [select], because it was held up for the ten seconds of
    its ticker, two workers of one allocation send the same event. *)
Definition late_actions : list fleet_action :=
  [SyncTicks [demo_allocation]; HandOver; SyncEnds; LaunchWith 0 (Some demo_allocation);
   SyncTicks []; HandOver; WaitReturns; SyncEnds;
   SyncTicks [demo_allocation]; HandOver; SyncEnds; LaunchWith 1 (Some demo_allocation);
   WorkerDoes 0 WatchBegin; WorkerDoes 1 WatchBegin;
   WorkerDoes 0 (WatchTick (Some demo_allocation)); WorkerDoes 1 (WatchTick (Some demo_allocation))]
  ++ concat (replicate 20 (mjoin ((fun a => [WorkerDoes 0 a; WorkerDoes 1 a]) <$>
       onwards Answered Answered))).

Lemma late_start_duplicates :
  let r := fleet_result late_actions in
  r.1.2 = ["a1"] /\ all_sends (demo_key (-1)) r.2 = 2%nat.
Proof. split_and!; vm_compute; reflexivity. Qed.
