(* ===== verification/Servers.v ===== *)
(** * Sources and targets: the servers behind a connection

    [src/target/blackhole], [stdout] and [logzio], [src/source/dummy] and the
    server of [src/source/nomad]: what each sends on its connection and does
    with the messages it receives. *)
From Stdlib Require Import Ascii String.
From S2P Require Import Prelude Wire Text Message Bufio Protocol Pipe Monitoring.

#[local] Arguments ToProtobuf : simpl never.
#[local] Arguments ProtobufToTarget : simpl never.

(** ** [Start]: the same in every server *)

(** A free port and a listener on it, or a panic; [port] and [listen] are the
    answers of the operating system. *)
Definition start_server (port : string + Z) (listen : Z -> option string)
    : outcome (string + Details) :=
  match port with
  | inl err => Panic err
  | inr port =>
      match listen port with
      | Some err => Panic err
      | None => Ret (inr {| Host := "127.0.0.1"; Port := port |})
      end
  end.

(** ** Targets *)

(** The goroutine of a target: its side of the connection, and what it did with
    the messages so far. *)
Record server (A : Type) := { out : conn; done_ : list A }.
Arguments out {A} s.
Arguments done_ {A} s.
Arguments Build_server {A} out done_.

Definition send_ok {A} (s : server A) : server A := Build_server (SendOk (out s)) (done_ s).
Definition close_conn {A} (s : server A) : server A :=
  Build_server (conn_close (out s)) (done_ s).

(** The deferred function: BYE and [Close]. *)
Definition deferred {A} (s : server A) : server A :=
  Build_server (conn_close (WriteNewMessage (out s) CommandBye "").2) (done_ s).

(** The [select] loop on what [ReadToChannel] sends; [log] is the case
    [CommandTargetLog].  [true] when the goroutine returns, [false] when it
    waits at the [select] for ever. *)
Fixpoint serve_loop {A} (log : list byte -> server A -> outcome (server A))
    (evs : list (Protocol.Message + read_error)) (s : server A) : outcome (bool * server A) :=
  match evs with
  | [] => Ret (false, s)
  | inl msg :: evs =>
      if String.eqb (Command msg) CommandTargetLog then
        match log (Data msg) s with
        | Ret s => serve_loop log evs s
        | Panic why => Panic why
        end
      else if String.eqb (Command msg) CommandBye then Ret (true, close_conn s)
      else serve_loop log evs s
  | inr err :: _ => Ret (true, close_conn s)
  end.

(** The goroutine from the accepted connection on. *)
Definition serve {A} (log : list byte -> server A -> outcome (server A)) (fuel : nat)
    (r : reader) (s : server A) : option (outcome (bool * server A)) :=
  let '(ready, r) := WaitForHello r in
  if negb ready then Some (Panic "failed to receive HELLO from broker")
  else match ReadToChannel fuel r with
       | None => None
       | Some evs =>
           Some match serve_loop log evs s with
                | Ret (true, s) => Ret (true, deferred s)
                | o => o
                end
       end.

Section Targets.
Context `{MapOrder}.

(** [blackhole]: nothing is done with a message. *)
Definition blackhole_log (data : list byte) (s : server TargetMessage)
    : outcome (server TargetMessage) :=
  match ProtobufToTarget data with
  | (_, Some _) => Ret s
  | (_, None) => Ret (send_ok s)
  end.

(** [stdout]: the message is printed. *)
Definition stdout_log (data : list byte) (s : server TargetMessage)
    : outcome (server TargetMessage) :=
  match ProtobufToTarget data with
  | (_, Some _) => Ret s
  | (msg, None) => Ret (send_ok (Build_server (out s) (done_ s ++ [msg])))
  end.

(** The two goroutines, whole. *)
Definition blackhole_serve : nat -> reader -> server TargetMessage
    -> option (outcome (bool * server TargetMessage)) :=
  serve blackhole_log.
Definition stdout_serve : nat -> reader -> server TargetMessage
    -> option (outcome (bool * server TargetMessage)) :=
  serve stdout_log.
End Targets.

(** ** [logzio] *)

(** Day, month and year of a day counted from 1970-01-01, by which
    [time.Format] writes a time. *)
Definition civil (days : Z) : Z * Z * Z :=
  let z := days + 719468 in
  let era := z / 146097 in
  let doe := z mod 146097 in
  let yoe := (doe - doe / 1460 + doe / 36524 - doe / 146096) / 365 in
  let doy := doe - (365 * yoe + yoe / 4 - yoe / 100) in
  let mp := (5 * doy + 2) / 153 in
  let d := doy - (153 * mp + 2) / 5 + 1 in
  let m := if mp <? 10 then mp + 3 else mp - 9 in
  (yoe + era * 400 + (if m <=? 2 then 1 else 0), m, d).

(** At least [width] digits. *)
Fixpoint zeros (n : nat) : string :=
  match n with O => "" | S n => "0" +:+ zeros n end.
Definition padded (width : nat) (z : Z) : string :=
  let s := pretty (Z.abs z) in
  (if z <? 0 then "-" else "") +:+ zeros (width - String.length s) +:+ s.

(** [time.Unix(t, 0).Format("2006-01-02T15:04:05.999-0700")]: a whole second
    has no fraction.  [zone] is the offset of the local time in seconds. *)
Definition format_time (zone : Z -> Z) (t : Z) : string :=
  let offset := zone t in
  let local := t + offset in
  let '(y, m, d) := civil (local / 86400) in
  let s := local mod 86400 in
  let minutes := Z.quot offset 60 in
  padded 4 y +:+ "-" +:+ padded 2 m +:+ "-" +:+ padded 2 d +:+ "T"
  +:+ padded 2 (s / 3600) +:+ ":" +:+ padded 2 (s / 60 mod 60) +:+ ":" +:+ padded 2 (s mod 60)
  +:+ (if minutes <? 0 then "-" else "+")
  +:+ padded 2 (Z.abs minutes / 60) +:+ padded 2 (Z.abs minutes mod 60).

Section Logzio.
Context `{MapOrder}.
Context (zone : Z -> Z).

(** The map that is shipped: the meta entries are added last and so replace the
    other fields.  A message without an item, or an item without attributes, is
    a nil pointer. *)
Definition logzio_message (msg : TargetMessage) : outcome (gmap string string) :=
  match Target_SourceMessage msg with
  | None => Panic nil_deref
  | Some item =>
      match Attributes_ item with
      | None => Panic nil_deref
      | Some attributes =>
          let fields := {["message" := string_of (Message_ item);
                          "type" := Type_ attributes]} in
          let fields := if Timestamp attributes =? 0 then fields
                        else <["@timestamp" := format_time zone (Timestamp attributes)]> fields in
          Ret (Meta item ∪ fields)
      end
  end.

(** [client] is the sender that [logzio.New] made, nil when it failed: its
    error is not looked at.  [Send] queues the data or gives an error. *)
Definition logzio_log (client : option (list byte -> option string)) (data : list byte)
    (s : server (list byte)) : outcome (server (list byte)) :=
  match ProtobufToTarget data with
  | (_, Some _) => Ret s
  | (msg, None) =>
      match logzio_message msg with
      | Panic why => Panic why
      | Ret fields =>
          match client with
          | None => Panic nil_deref
          | Some Send =>
              match Send (json_Marshal fields) with
              | Some err => Panic err
              | None => Ret (send_ok (Build_server (out s) (done_ s ++ [json_Marshal fields])))
              end
          end
      end
  end.

Definition logzio_serve (client : option (list byte -> option string))
    : nat -> reader -> server (list byte) -> option (outcome (bool * server (list byte))) :=
  serve (logzio_log client).
End Logzio.

(** ** Sources *)
Section Sources.
Context `{MapOrder}.

(** [dummy]: the item that is sent again and again. *)
Definition dummy_item : SourceMessage :=
  {| Id := "1"; Message_ := bytes_of "Test"; Meta := {["some-key" := "some-value"]};
     Attributes_ := None; SourceMessage_unrecognized := [] |}.

(** The loop, one turn per unit of fuel: [None] when it goes on. *)
Fixpoint dummy_loop (fuel : nat) (r : reader) (c : conn) : option conn :=
  match fuel with
  | O => None
  | S fuel =>
      match ToProtobuf dummy_item with
      | (_, Some _) => dummy_loop fuel r c
      | (data, None) =>
          let '(_, err, c) := WriteNewMessage c CommandSourceMessage (string_of data) in
          match err with
          | Some _ => dummy_loop fuel r c
          | None =>
              let '(ok, r) := WaitForOk r in
              if negb ok then Some (conn_close c) else dummy_loop fuel r c
          end
      end
  end.

Definition dummy_serve (fuel : nat) (r : reader) (c : conn) : outcome (option conn) :=
  let '(ready, r) := WaitForHello r in
  if negb ready then Panic "failed to receive HELLO from broker"
  else Ret (dummy_loop fuel r c).

(** [nomad]: one log of the client is sent. *)
Definition nomad_send (log : SourceMessage) (c : conn) : outcome conn :=
  match ToProtobuf log with
  | (_, Some _) => Panic "marshal"
  | (data, None) =>
      let msg := {| Command := CommandSourceMessage; Data := data;
                    Message_unrecognized := [] |} in
      match MessageToProtobuf msg with
      | inr _ => Panic "marshal"
      | inl bytes =>
          match WriteProtobuf c bytes with
          | (Some _, _) => Panic "write"
          | (None, c) => Ret c
          end
      end
  end.

(** The loop over the logs that the client sends: whether it returned, and the
    connection.  When it returns it closes the channel of the logs, and a client
    that has another log panics. *)
Fixpoint nomad_loop (logs : list SourceMessage) (r : reader) (c : conn) : outcome (bool * conn) :=
  match logs with
  | [] => Ret (false, c)
  | log :: logs =>
      match nomad_send log c with
      | Panic why => Panic why
      | Ret c =>
          let '(ok, r) := WaitForOk r in
          if negb ok then
            match logs with
            | [] => Ret (true, conn_close c)
            | _ :: _ => Panic "send on closed channel"
            end
          else nomad_loop logs r c
      end
  end.

(** One connection; [new_client] is the error of [NewClient]. *)
Definition nomad_serve (new_client : option string) (logs : list SourceMessage) (r : reader)
    (c : conn) : outcome (bool * conn) :=
  let '(ready, r) := WaitForHello r in
  if negb ready then Ret (true, conn_close c)
  else match new_client with
       | Some err => Panic err
       | None => nomad_loop logs r c
       end.

(** What [AcceptTCP] gives, one after the other: an error, which panics, or a
    connection with its client and the logs of that client.  Each connection has
    a goroutine of its own, and a panic of one ends them all. *)
Definition accepted_conn : Type := option string * list SourceMessage * reader * conn.

Fixpoint nomad_accept (conns : list (string + accepted_conn)) : outcome (list (bool * conn)) :=
  match conns with
  | [] => Ret []
  | inl err :: _ => Panic err
  | inr (new_client, logs, r, c) :: conns =>
      match nomad_serve new_client logs r c with
      | Panic why => Panic why
      | Ret x => match nomad_accept conns with
                 | Panic why => Panic why
                 | Ret xs => Ret (x :: xs)
                 end
      end
  end.
End Sources.

(** ** What the broker sees of a target *)
Definition hello : Protocol.Message := Build_Message CommandHello [] [].
Definition ok : Protocol.Message := Build_Message CommandOk [] [].
Definition bye : Protocol.Message := Build_Message CommandBye [] [].
Definition log_frame (data : list byte) : Protocol.Message := Build_Message CommandTargetLog data [].

Definition fresh {A} : server A := Build_server {| sent := []; broken := None |} [].

Definition closed : option io_error := broken (conn_close {| sent := []; broken := None |}).

(** A server that answered [n] messages and has returned. *)
Definition answered {A} (n : nat) (l : list A) : server A :=
  Build_server {| sent := replicate n (frame ok); broken := closed |} l.

Section Answers.
Context `{MapOrder}.
Context {A : Type} (log : list byte -> server A -> outcome (server A)).
Context (result : TargetMessage -> list A -> Prop).

(** The handler acknowledges what it can decode. *)
Context (log_spec : forall data msg l s,
  ProtobufToTarget data = (msg, None) -> result msg l ->
  log data s = Ret (Build_server (SendOk (out s)) (done_ s ++ l))).

Lemma SendOk_open sent0 :
  SendOk {| sent := sent0; broken := None |} = {| sent := sent0 ++ [frame ok]; broken := None |}.
Proof. reflexivity. Qed.

Lemma serve_loop_bye evs s : serve_loop log (inl bye :: evs) s = Ret (true, close_conn s).
Proof. reflexivity. Qed.

Lemma serve_loop_log data evs s :
  serve_loop log (inl (log_frame data) :: evs) s
  = match log data s with Ret s => serve_loop log evs s | Panic why => Panic why end.
Proof. reflexivity. Qed.

#[local] Arguments serve_loop : simpl never.
#[local] Arguments bye : simpl never.
#[local] Arguments ok : simpl never.
#[local] Arguments frame : simpl never.

(** The server after [n] answers: at its [select], or returned. *)
Definition served (stopped : bool) (n : nat) (l : list A) : server A :=
  if stopped then answered n l
  else Build_server {| sent := replicate n (frame ok); broken := None |} l.

(** What a connector sends after its logs. *)
Definition farewell (stopped : bool) : list Protocol.Message := if stopped then [bye] else [].

Lemma serve_loop_logs datas msgs ls stopped n l0 :
  Forall2 (fun d m => ProtobufToTarget d = (m, None)) datas msgs -> Forall2 result msgs ls ->
  serve_loop log (inl <$> (log_frame <$> datas) ++ farewell stopped) (served false n l0)
  = Ret (stopped, if stopped then close_conn (served false (n + length datas) (l0 ++ mjoin ls))
                  else served false (n + length datas) (l0 ++ mjoin ls)).
Proof.
  intros Hd. revert ls n l0. induction Hd as [| d m datas msgs Hdm Hd IH]; intros ls n l0 Hr.
  - inversion Hr. cbn [fmap list_fmap app length]. rewrite Nat.add_0_r.
    change (mjoin []) with (@nil A). rewrite app_nil_r. by destruct stopped.
  - inversion Hr as [| ? l ? ls' Hl Hls]; subst. cbn [fmap list_fmap app].
    rewrite serve_loop_log, (log_spec d m l _ Hdm Hl). cbn [out done_ served]. rewrite SendOk_open.
    change [frame ok] with (replicate 1 (frame ok)). rewrite <- replicate_add.
    specialize (IH ls' (n + 1)%nat (l0 ++ l) Hls). cbn [served] in IH.
    replace (n + length (d :: datas))%nat with (n + 1 + length datas)%nat by (cbn; lia).
    change (mjoin (l :: ls')) with (l ++ mjoin ls'). by rewrite (app_assoc l0).
Qed.

(** What the server makes of a stream whose first message is HELLO. *)
Lemma serve_holds r ms s :
  holds r (hello :: ms) -> exists fuel0, forall fuel, (fuel0 <= fuel)%nat ->
    serve log fuel r s = Some match serve_loop log (inl <$> ms) s with
                              | Ret (true, s) => Ret (true, deferred s)
                              | o => o
                              end.
Proof.
  intros Hr. apply holds_read in Hr as (r' & E & Hr). apply holds_channel in Hr as [fuel0 Hf].
  exists fuel0. intros fuel Hle. unfold serve, WaitForHello, WaitForCommand. rewrite E.
  change (String.eqb (Command hello) CommandHello) with true. cbn [negb]. by rewrite Hf by done.
Qed.

(** HELLO, logs and perhaps a BYE, in segments of whole frames: they are
    answered, and the server returns when it gets the BYE. *)
Lemma serve_logs stopped datas msgs ls r :
  Forall2 (fun d m => ProtobufToTarget d = (m, None)) datas msgs -> Forall2 result msgs ls ->
  holds r (hello :: (log_frame <$> datas) ++ farewell stopped) ->
  exists fuel0, forall fuel, (fuel0 <= fuel)%nat ->
    serve log fuel r fresh
    = Some (Ret (stopped, served stopped (length datas) (mjoin ls))).
Proof.
  intros Hd Hr Hh. destruct (serve_holds _ _ fresh Hh) as [fuel0 H0].
  exists fuel0. intros fuel Hle. rewrite H0 by done.
  pose proof (serve_loop_logs datas msgs ls stopped 0 [] Hd Hr) as E. cbn [Nat.add app] in E.
  change fresh with (served false 0 []). rewrite E. by destruct stopped.
Qed.
End Answers.

Section Shipping.
Context `{MapOrder}.
Context (zone : Z -> Z).

Lemma blackhole_spec data msg l s :
  ProtobufToTarget data = (msg, None) -> l = [] ->
  blackhole_log data s = Ret (Build_server (SendOk (out s)) (done_ s ++ l)).
Proof. intros Hd ->. unfold blackhole_log. by rewrite Hd, app_nil_r. Qed.

Lemma stdout_spec data msg l s :
  ProtobufToTarget data = (msg, None) -> l = [msg] ->
  stdout_log data s = Ret (Build_server (SendOk (out s)) (done_ s ++ l)).
Proof. intros Hd ->. unfold stdout_log. by rewrite Hd. Qed.

Lemma logzio_spec data msg l s :
  ProtobufToTarget data = (msg, None) ->
  (exists fields, logzio_message zone msg = Ret fields /\ l = [json_Marshal fields]) ->
  logzio_log zone (Some (fun _ => None)) data s
  = Ret (Build_server (SendOk (out s)) (done_ s ++ l)).
Proof. intros Hd (fields & Hf & ->). unfold logzio_log. by rewrite Hd, Hf. Qed.

Lemma mjoin_singletons {A} (l : list A) : mjoin ((fun x => [x]) <$> l) = l.
Proof. induction l as [| x l IH]; [done |]. cbn. by f_equal. Qed.

Lemma stdout_logs stopped datas msgs r :
  Forall2 (fun d m => ProtobufToTarget d = (m, None)) datas msgs ->
  holds r (hello :: (log_frame <$> datas) ++ farewell stopped) ->
  exists fuel0, forall fuel, (fuel0 <= fuel)%nat ->
    stdout_serve fuel r fresh = Some (Ret (stopped, served stopped (length datas) msgs)).
Proof.
  intros Hd Hr.
  destruct (serve_logs _ _ stdout_spec stopped datas msgs ((fun m => [m]) <$> msgs) r Hd)
    as [f E]; [clear; induction msgs; by constructor | done |].
  exists f. intros fuel Hle. unfold stdout_serve. by rewrite E, mjoin_singletons by done.
Qed.

Section Frames.
Context (datas : list (list byte)) (msgs : list TargetMessage) (r : reader).
Context (Hd : Forall2 (fun d m => ProtobufToTarget d = (m, None)) datas msgs)
        (Hr : holds r (hello :: (log_frame <$> datas) ++ [bye])).

Lemma blackhole_answers :
  exists fuel0, forall fuel, (fuel0 <= fuel)%nat ->
    blackhole_serve fuel r fresh = Some (Ret (true, answered (length datas) [])).
Proof.
  destruct (serve_logs _ _ blackhole_spec true datas msgs (const [] <$> msgs) r Hd)
    as [f E]; [clear; induction msgs; by constructor | done |].
  exists f. intros fuel Hle. unfold blackhole_serve. rewrite E by done. do 4 f_equal.
  clear. by induction msgs.
Qed.

Lemma stdout_answers :
  exists fuel0, forall fuel, (fuel0 <= fuel)%nat ->
    stdout_serve fuel r fresh = Some (Ret (true, answered (length datas) msgs)).
Proof. exact (stdout_logs true datas msgs r Hd Hr). Qed.

Lemma logzio_answers docs :
  Forall2 (fun m doc => exists fields,
    logzio_message zone m = Ret fields /\ doc = json_Marshal fields) msgs docs ->
  exists fuel0, forall fuel, (fuel0 <= fuel)%nat ->
    logzio_serve zone (Some (fun _ => None)) fuel r fresh
    = Some (Ret (true, answered (length datas) docs)).
Proof.
  intros Hdocs.
  destruct (serve_logs _ _ logzio_spec true datas msgs ((fun doc => [doc]) <$> docs) r Hd)
    as [f E]; [| done |].
  { clear -Hdocs. induction Hdocs as [| m doc msgs docs (g & Hg & ->) _ IH]; constructor;
      [by exists g | done]. }
  exists f. intros fuel Hle. unfold logzio_serve. by rewrite E, mjoin_singletons by done.
Qed.
End Frames.

(** A target answers every log message it is sent, once and in order, up
    to the BYE of the broker, and then closes the connection: [blackhole]
    drops the messages, [stdout] prints each, [logzio] ships the JSON of each
    when the service takes it and every item has attributes.  The frames may
    arrive in any segments that end on frame boundaries. *)
Theorem targets_acknowledge datas msgs docs batches :
  Forall2 (fun d m => ProtobufToTarget d = (m, None)) datas msgs ->
  Forall2 (fun m doc => exists fields,
    logzio_message zone m = Ret fields /\ doc = json_Marshal fields) msgs docs ->
  mjoin batches = (log_frame <$> datas) ++ [bye] ->
  Forall (fun ms => ms <> [] /\ Forall framable ms /\ len (ms ≫= frame) <= buffer_size) batches ->
  let r := NewReader (Segment (frame hello) :: segments batches) in
  exists fuel,
    blackhole_serve fuel r fresh = Some (Ret (true, answered (length datas) [])) /\
    stdout_serve fuel r fresh = Some (Ret (true, answered (length datas) msgs)) /\
    logzio_serve zone (Some (fun _ => None)) fuel r fresh
    = Some (Ret (true, answered (length datas) docs)).
Proof.
  intros Hd Hdocs Hb Hf r.
  assert (holds r (hello :: (log_frame <$> datas) ++ [bye])) as Hr.
  { rewrite <- Hb. apply (holds_batches ([hello] :: batches)). constructor; [| done].
    split; [done |]. split; [| by vm_compute]. apply Forall_singleton. split_and!; by vm_compute. }
  destruct (blackhole_answers datas msgs r Hd Hr) as [f1 E1].
  destruct (stdout_answers datas msgs r Hd Hr) as [f2 E2].
  destruct (logzio_answers datas msgs r Hd Hr docs Hdocs) as [f3 E3].
  exists (f1 + f2 + f3)%nat. split_and!; [apply E1 | apply E2 | apply E3]; lia.
Qed.

(** A message that is not one is not answered: the connector that sent it waits
    for an OK that never comes. *)
Lemma undecodable_unanswered data msg err s evs :
  ProtobufToTarget data = (msg, Some err) ->
  serve_loop stdout_log (inl (log_frame data) :: evs) s = serve_loop stdout_log evs s.
Proof. intros Hd. cbn -[ProtobufToTarget]. unfold stdout_log at 1. by rewrite Hd. Qed.

(** The items of [dummy] have no attributes: shipping one to [logzio] panics. *)
Lemma dummy_breaks_logzio source target client s :
  let msg := BrokerToTarget target (SourceToBroker source [target] dummy_item) in
  forall data, ProtobufToTarget data = (msg, None) ->
  logzio_log zone client data s = Panic nil_deref.
Proof. intros msg data Hd. unfold logzio_log. by rewrite Hd. Qed.

(** ** What the broker sees of a source *)

(** The frame of an item. *)
Definition item_frame (m : SourceMessage) : list byte :=
  frame (Build_Message CommandSourceMessage (ToProtobuf m).1 []).

Lemma source_message_marshal data :
  (Marshal (Build_Message CommandSourceMessage data [])).2 = None.
Proof.
  change (Marshal ?x) with (Message_marshal x). unfold Message_marshal.
  rewrite marshal_fields_error, !list.Forall_cons. split_and!; [done | by destruct data | done].
Qed.

(** The [nomad] server sends every log in one frame and waits for the next. *)
Lemma nomad_send_frame m sent0 :
  (ToProtobuf m).2 = None ->
  nomad_send m {| sent := sent0; broken := None |}
  = Ret {| sent := sent0 ++ [item_frame m]; broken := None |}.
Proof.
  intros Hm. unfold nomad_send. destruct (ToProtobuf m) as [data err] eqn:Hd. cbn in Hm. subst err.
  unfold MessageToProtobuf. pose proof (source_message_marshal data) as Hs.
  destruct (Marshal (Build_Message CommandSourceMessage data [])) as [bs e] eqn:Hb.
  cbn in Hs. subst e. unfold WriteProtobuf, conn_write. cbn [broken sent].
  change (WriteErr <$> None) with (@None write_error). cbv iota beta.
  assert (item_frame m = frame_bytes bs) as ->; [| done].
  unfold item_frame, frame. rewrite Hd. cbn [fst]. by rewrite Hb.
Qed.

Lemma nomad_ships logs rest sent0 :
  Forall (fun m => (ToProtobuf m).2 = None) logs ->
  nomad_loop logs (NewReader (replicate (length logs) (Segment (frame ok)) ++ rest))
    {| sent := sent0; broken := None |}
  = Ret (false, {| sent := sent0 ++ (item_frame <$> logs); broken := None |}).
Proof.
  intros Hl. revert sent0. induction Hl as [| m logs Hm _ IH]; intros sent0.
  { cbn. by rewrite app_nil_r. }
  cbn [nomad_loop length replicate app fmap list_fmap]. rewrite nomad_send_frame by done.
  change (WaitForOk (NewReader (Segment (frame ok) :: ?r))) with (true, NewReader r).
  cbn [negb]. by rewrite IH, <- app_assoc.
Qed.

(** On a connection that is broken [dummy] tries again without end. *)
Lemma dummy_spins fuel r c e : broken c = Some e -> dummy_loop fuel r c = None.
Proof.
  intros Hc. induction fuel as [| fuel IH]; [done |]. cbn [dummy_loop].
  destruct (ToProtobuf dummy_item) as [data [err |]]; [done |].
  unfold WriteNewMessage, WriteMessage. destruct (MessageToProtobuf _) as [bs | e'] eqn:Hm.
  - unfold WriteProtobuf, conn_write. rewrite Hc. done.
  - done.
Qed.
End Shipping.

(** ** Concrete runs *)
Example times :
  format_time (fun _ => 0) 1559000000 = "2019-05-27T23:33:20+0000" /\
  format_time (fun _ => -12600) 951782400 = "2000-02-28T20:30:00-0330" /\
  format_time (fun _ => 3600) 951865199 = "2000-02-29T23:59:59+0100" /\
  format_time (fun _ => 0) (-1) = "1969-12-31T23:59:59+0000".
Proof. by vm_compute. Qed.

#[local] Existing Instance default_order.

Definition demo_target : TargetMessage :=
  BrokerToTarget "out" (SourceToBroker "in" ["out"]
    {| Id := "1"; Message_ := bytes_of "up"; Meta := {["job" := "j"]};
       Attributes_ := Some {| Timestamp := 1559000000; Type_ := "t"; Attributes_unrecognized := [] |};
       SourceMessage_unrecognized := [] |}).

Definition demo_data : list byte := (ToProtobuf demo_target).1.

Definition demo_doc : list byte :=
  match logzio_message (fun _ => 0) demo_target with
  | Ret fields => json_Marshal fields
  | Panic _ => []
  end.

Example demo_doc_length : length demo_doc = 77%nat.
Proof. by vm_compute. Qed.

Lemma targets_acknowledge_witness :
  exists fuel,
    stdout_serve fuel (NewReader [Segment (frame hello);
      Segment (frame (log_frame demo_data) ++ frame bye)]) fresh
    = Some (Ret (true, answered 1 [demo_target])).
Proof.
  destruct (targets_acknowledge (fun _ => 0) [demo_data] [demo_target] [demo_doc]
    [[log_frame demo_data; bye]]) as (fuel & _ & Hs & _).
  - constructor; [vm_compute; reflexivity | constructor].
  - constructor; [| constructor]. unfold demo_doc.
    destruct (logzio_message (fun _ => 0) demo_target) as [fields |] eqn:E; [| discriminate E].
    exists fields. split; reflexivity.
  - reflexivity.
  - constructor; [| constructor]. split; [discriminate |].
    split; [| apply Z.leb_le; vm_compute; reflexivity].
    constructor; [| constructor; [| constructor]];
      (split; [reflexivity |]; split; vm_compute; reflexivity).
  - exists fuel. exact Hs.
Defined.
