(* ===== verification/Session.v ===== *)
(** * A connector and the server behind it

    The two ends of a connection together: what one writes is what the other
    reads, each write in one piece.  A target connector with the server of a
    target, which may get the HELLO together with the first log, a source
    connector with the Nomad server, and the way of an item through both, with a
    worker in between. *)
From S2P Require Import Prelude Wire Text Message Bufio Protocol Pipe Limiter Monitoring Config.
From S2P Require Import Servers.
From S2P Require Import Connector Worker.

#[local] Arguments ProtobufToBroker : simpl never.
#[local] Arguments ProtobufToSource : simpl never.
#[local] Arguments ProtobufToTarget : simpl never.
#[local] Arguments ToProtobuf : simpl never.
#[local] Arguments frame : simpl never.

(** The bytes that an end has written, as the other end receives them. *)
Definition wire (c : conn) : reader := NewReader (Segment <$> sent c).

(** The input of a connector whose server has answered [n] messages. *)
Definition oks (n : nat) : reader := NewReader (replicate n (Segment (frame ok))).

(** The longest frame that a connector can be sure to get across: its first
    frame may be read together with its HELLO, into the buffer of 4096 bytes. *)
Definition room : Z := buffer_size - len (frame hello).

Lemma room_eq : room = 4085.
Proof. by vm_compute. Qed.

Definition opened (sent0 : list (list byte)) : conn := {| sent := sent0; broken := None |}.

(** ** Code that does not read *)
Definition ignores_input {A} (c : M A) : Prop :=
  forall r w, c (set_inp r w)
              = match c w with Ret (a, w') => Ret (a, set_inp r w') | Panic why => Panic why end.

Lemma ignores_return {A} (a : A) : ignores_input (mreturn a).
Proof. done. Qed.

Lemma ignores_modify f : (forall r w, f (set_inp r w) = set_inp r (f w)) -> ignores_input (mmodify f).
Proof. intros Hf r w. unfold mmodify. by rewrite Hf. Qed.

Lemma ignores_get {A} (f : world -> A) :
  (forall r w, f (set_inp r w) = f w) -> ignores_input (mget f).
Proof. intros Hf r w. unfold mget. by rewrite Hf. Qed.

Lemma ignores_bind {A B} (c : M A) (k : A -> M B) :
  ignores_input c -> (forall a, ignores_input (k a)) -> ignores_input (mbind_ c k).
Proof.
  intros Hc Hk r w. unfold mbind_. rewrite Hc. destruct (c w) as [[a w1] | why]; [apply Hk | done].
Qed.

Lemma ignores_on_mgr f : ignores_input (on_mgr f).
Proof. intros r w. unfold on_mgr. cbn. by destruct (f (mgr w)). Qed.

Lemma ignores_set_state s : ignores_input (set_state s).
Proof. by apply ignores_modify. Qed.

Lemma ignores_stat o : ignores_input (stat o).
Proof. by apply ignores_modify. Qed.

Lemma ignores_log level msg : ignores_input (log_guarded level msg).
Proof. apply ignores_modify. intros r w. cbn. by destruct (Monitor_ (mgr w)). Qed.

Lemma ignores_SendToTarget target data : ignores_input (SendToTarget target data).
Proof.
  apply ignores_bind; [by apply ignores_get |]. intros known. by destruct known.
Qed.

Create HintDb ignores.
#[export] Hint Resolve ignores_return ignores_on_mgr ignores_set_state ignores_stat ignores_log
  ignores_SendToTarget : ignores.

Ltac ignore :=
  repeat match goal with
  | |- ignores_input (mbind_ _ _) => apply ignores_bind; [| intros]
  | |- ignores_input (match ?x with _ => _ end) => destruct x
  | |- ignores_input _ => solve [eauto with ignores]
  end.

Section Target.
Context `{MapOrder}.

Lemma ignores_rate_limit_loop rs m : ignores_input (rate_limit_loop rs m).
Proof.
  revert m. induction rs as [| rule rs IH]; intros m; cbn [rate_limit_loop]; [apply ignores_return |].
  destruct (IsAverageOverLimit _) as [[? ?] over]. ignore; apply IH.
Qed.

(** ** One message, in two halves *)

(** Where [target_receive] is when it comes to [WaitForOk], or returns before
    it does. *)
Inductive begun := Settled (continue : bool) | Waits (rawData : list byte).

(** The case [data := <-t.Inbound] up to the statistics of the write. *)
Definition target_begin (name : string) (data : list byte) : M begun :=
  set_state "processing" ;;;
  stat (OpBytes (len data)) ;;;
  stat (OpInbound 1) ;;;
  stat OpAddInFlight ;;;
  match ProtobufToBroker data with
  | (_, Some e) =>
      set_state "dead" ;;;
      log_guarded FatalLevel (LogDecode e) ;;;
      stat (OpDropped 1) ;;;
      mreturn (Settled false)
  | (l, None) =>
      match ToProtobuf (BrokerToTarget name l) with
      | (_, Some e) =>
          set_state "dead" ;;;
          log_guarded FatalLevel (LogEncode e) ;;;
          stat (OpDropped 1) ;;;
          mreturn (Settled false)
      | (rawData, None) =>
          passed <~ handleRateLimiting l ;;
          if negb passed then
            log_guarded InfoLevel
              (LogText "log failed rate limit check, waiting for next message") ;;;
            mreturn (Settled true)
          else
            err <~ write_new_message CommandTargetLog (string_of rawData) ;;
            match err with
            | Some e =>
                set_state "dead" ;;;
                log_guarded FatalLevel (write_log e) ;;;
                stat (OpDropped 1) ;;;
                mreturn (Settled false)
            | None => stat (OpOutbound 1) ;;; mreturn (Waits rawData)
            end
      end
  end.

(** The same case from the answer of [WaitForOk] on. *)
Definition target_finish (rawData : list byte) (ok : bool) : M bool :=
  if negb ok then
    on_mgr CompleteMessage ;;;
    set_state "dead" ;;;
    (* err is nil here: evaluating err.Error() panics *)
    (mo <~ mget (fun w => Monitor_ (mgr w)) ;;
     match mo with Some _ => mpanic nil_deref | None => mreturn tt end) ;;;
    stat (OpDropped 1) ;;;
    mreturn false
  else
    mmodify (fun w => set_rules
      (on_limiter (Increment (u64 (len rawData))) <$> rules w) w) ;;;
    on_mgr CompleteMessage ;;;
    stat OpRemoveInFlight ;;;
    mreturn true.

Definition target_resume (b : begun) : M bool :=
  match b with
  | Settled continue => mreturn continue
  | Waits rawData => ok <~ wait_for_ok ;; target_finish rawData ok
  end.

Lemma target_receive_split name data w :
  target_receive name data w = (b <~ target_begin name data ;; target_resume b) w.
Proof.
  unfold target_receive, target_begin. unfold set_state, stat, mmodify. unfold mbind_ at 1 2 3 4.
  unfold mbind_ at 5 6 7 8 9.
  destruct (ProtobufToBroker data) as [l [e |]]; [done |].
  destruct (ToProtobuf _) as [raw [e |]]; [done |]. unfold mbind_.
  destruct (handleRateLimiting _ _) as [[[] w1] | why]; [| done..]. cbn [negb].
  destruct (write_new_message _ _ _) as [[[e |] w2] | why]; done.
Qed.

Lemma begin_enters name data l raw w :
  ProtobufToBroker data = (l, None) -> ToProtobuf (BrokerToTarget name l) = (raw, None) ->
  target_begin name data w
  = (passed <~ rate_limit_loop (rules w) l ;;
     if negb passed then
       log_guarded InfoLevel
         (LogText "log failed rate limit check, waiting for next message") ;;;
       mreturn (Settled true)
     else
       err <~ write_new_message CommandTargetLog (string_of raw) ;;
       match err with
       | Some e =>
           set_state "dead" ;;; log_guarded FatalLevel (write_log e) ;;;
           stat (OpDropped 1) ;;; mreturn (Settled false)
       | None => stat (OpOutbound 1) ;;; mreturn (Waits raw)
       end) (arrived data w).
Proof. intros Hd Ht. unfold target_begin. by rewrite Hd, Ht. Qed.

Lemma begin_breached name data l raw rule w :
  0 < InFlightWaitGroup (mgr w) -> is_u64 (MessagesInFlight_ (mgr w)) ->
  ProtobufToBroker data = (l, None) -> ToProtobuf (BrokerToTarget name l) = (raw, None) ->
  List.find decides (rules w) = Some rule ->
  exists w1, accounts (breach_fate rule l w) w w1 /\
    forall r, target_begin name data (set_inp r w) = Ret (Settled true, set_inp r w1).
Proof.
  intros Hwg Hc Hd Ht Hr.
  pose proof (rate_limit_loop_spec (rules w) l (arrived data w) Hwg Hc) as Hloop.
  rewrite Hr in Hloop. destruct Hloop as (w1 & E & Ha & _). apply accounts_arrived in Ha.
  exists (match Monitor_ (mgr w1) with
          | Some _ => set_mon (LogForConnection InfoLevel
              (LogText "log failed rate limit check, waiting for next message")) w1
          | None => w1 end).
  split; [by destruct (Monitor_ (mgr w1)), Ha |].
  intros r. rewrite (begin_enters _ _ _ _ _ Hd Ht).
  change (arrived data (set_inp r w)) with (set_inp r (arrived data w)). unfold mbind_ at 1.
  rewrite ignores_rate_limit_loop. change (rules (set_inp r w)) with (rules w). rewrite E.
  unfold negb, log_guarded, mbind_, mmodify, mreturn.
  cbn [mgr set_inp]. by destruct (Monitor_ (mgr w1)).
Qed.

(** The state in which the answer to the message is waited for, with the
    connection [c]. *)
Definition written (data : list byte) (c : conn) (w : world) : world :=
  set_mon (on_stats (stat_apply (OpOutbound 1))) (set_out c (arrived data w)).

Lemma begin_waits name data l raw sent0 r w :
  0 < InFlightWaitGroup (mgr w) ->
  is_u64 (MessagesInFlight_ (mgr w)) ->
  ProtobufToBroker data = (l, None) -> ToProtobuf (BrokerToTarget name l) = (raw, None) ->
  List.find decides (rules w) = None ->
  out w = opened sent0 -> framable (log_frame raw) ->
  target_begin name data (set_inp r w)
  = Ret (Waits raw, set_inp r (written data (opened (sent0 ++ [frame (log_frame raw)])) w)).
Proof.
  intros Hwg Hc Hd Ht Hr Ho Hm.
  pose proof (rate_limit_loop_spec (rules w) l (arrived data w) Hwg Hc) as Hloop. rewrite Hr in Hloop.
  assert (WriteNewMessage (opened sent0) CommandTargetLog (string_of raw)
          = (log_frame raw, None, opened (sent0 ++ [frame (log_frame raw)]))) as Hw.
  { unfold opened. pose proof (write_new_message_frame sent0 CommandTargetLog (string_of raw)) as E.
    rewrite bytes_of_string_of in E. apply E, Hm. }
  rewrite (begin_enters _ _ _ _ _ Hd Ht).
  change (arrived data (set_inp r w)) with (set_inp r (arrived data w)). unfold mbind_ at 1.
  rewrite ignores_rate_limit_loop. change (rules (set_inp r w)) with (rules w).
  rewrite Hloop. cbn [negb]. unfold write_new_message. unfold mbind_ at 1.
  cbn [out set_inp arrived set_mon]. by rewrite Ho, Hw.
Qed.

(** The state after a message was delivered. *)
Definition settled (raw : list byte) (w : world) : world :=
  let w1 := set_rules (on_limiter (Increment (u64 (len raw))) <$> rules w) w in
  set_mon (on_stats (stat_apply OpRemoveInFlight)) (set_mgr (give_back 1 (mgr w)) w1).

Lemma finish_ok raw w :
  0 < InFlightWaitGroup (mgr w) -> target_finish raw true w = Ret (true, settled raw w).
Proof.
  intros Hwg. unfold target_finish. cbn [negb].
  unfold on_mgr, CompleteMessage, wait_group_add, stat, mbind_, mmodify, mreturn.
  cbn [mgr set_rules]. rewrite (proj2 (Z.ltb_ge _ 0)) by lia.
  unfold settled, give_back. rewrite add_not_zero. reflexivity.
Qed.

(** The two halves in one go, with the answer already there. *)
Lemma receive_breached name data l raw rule w :
  0 < InFlightWaitGroup (mgr w) -> is_u64 (MessagesInFlight_ (mgr w)) ->
  ProtobufToBroker data = (l, None) -> ToProtobuf (BrokerToTarget name l) = (raw, None) ->
  List.find decides (rules w) = Some rule ->
  exists w1, accounts (breach_fate rule l w) w w1 /\
    forall r, target_receive name data (set_inp r w) = Ret (true, set_inp r w1).
Proof.
  intros Hwg Hc Hd Ht Hr.
  destruct (begin_breached name data l raw rule w Hwg Hc Hd Ht Hr) as (w1 & Ha & E).
  exists w1. split; [done |]. intros r. rewrite target_receive_split. unfold mbind_. by rewrite E.
Qed.

Definition delivered (raw data : list byte) (c : conn) (w : world) : world :=
  settled raw (written data c w).

Lemma receive_delivered name data l raw sent0 n w :
  0 < InFlightWaitGroup (mgr w) ->
  is_u64 (MessagesInFlight_ (mgr w)) ->
  ProtobufToBroker data = (l, None) -> ToProtobuf (BrokerToTarget name l) = (raw, None) ->
  List.find decides (rules w) = None ->
  out w = opened sent0 -> framable (log_frame raw) ->
  target_receive name data (set_inp (oks (S n)) w)
  = Ret (true, set_inp (oks n) (delivered raw data (opened (sent0 ++ [frame (log_frame raw)])) w)).
Proof.
  intros Hwg Hc Hd Ht Hr Ho Hm. rewrite target_receive_split. unfold mbind_ at 1.
  rewrite (begin_waits name data l raw sent0) by done.
  cbn [target_resume]. unfold mbind_, wait_for_ok. cbn [inp set_inp].
  change (WaitForOk (oks (S n))) with (true, oks n). cbn zeta iota.
  by rewrite finish_ok.
Qed.

(** ** The loop *)

(** The messages that are handed to the connector, as the target is to get
    them. *)
Definition outbox (name : string) (events : list target_event) : list TargetMessage :=
  omap (fun e => match e with
                 | Inbound data => Some (BrokerToTarget name (ProtobufToBroker data).1)
                 | _ => None
                 end) events.

(** An event that a session can have: a message that can be decoded, and whose
    frame fits the buffer of the other end behind a HELLO, or a ticker. *)
Definition carried (name : string) (e : target_event) : Prop :=
  match e with
  | Inbound data => exists l raw,
      ProtobufToBroker data = (l, None) /\ wf l /\
      ToProtobuf (BrokerToTarget name l) = (raw, None) /\
      framable (log_frame raw) /\ len (frame (log_frame raw)) <= room
  | Ticker _ _ _ _ _ => True
  | StopTarget => False
  end.

(** The frame of a message that the target can decode. *)
Definition travels (raw : list byte) (m : TargetMessage) : Prop :=
  ProtobufToTarget raw = (m, None) /\ framable (log_frame raw) /\
  len (frame (log_frame raw)) <= room.

Lemma travels_short raw m : travels raw m -> len (frame (log_frame raw)) <= buffer_size.
Proof. intros (_ & _ & Hl). pose proof room_eq. unfold buffer_size. lia. Qed.

Lemma raw_bounded raw : framable (log_frame raw) -> len raw < pow64.
Proof.
  intros (Hu & He & Hl). destruct (decide (raw = [])) as [-> | Hne]; [done |].
  rewrite (payload_split _ Hu He Hne), len_app in Hl. cbn [Data log_frame] in Hl.
  pose proof (len_nonneg (payload_prefix (log_frame raw))). unfold pow32, pow64 in *. lia.
Qed.

Lemma carried_travels name data :
  carried name (Inbound data) ->
  exists l raw, ProtobufToBroker data = (l, None) /\ ToProtobuf (BrokerToTarget name l) = (raw, None) /\
    framable (log_frame raw) /\ travels raw (BrokerToTarget name l).
Proof.
  intros (l & raw & Hd & Hwf & Ht & Hf & Hb). exists l, raw. split_and!; try done.
  split; [| done]. apply Unmarshal_Marshal; [split; [done | apply Hwf] | exact Ht |].
  by apply raw_bounded.
Qed.

(** The state before a turn of the loop. *)
Record open_session (n : Z) (w : world) : Prop := {
  os_flight : n <= InFlightWaitGroup (mgr w);
  os_count : is_u64 (MessagesInFlight_ (mgr w));
  os_group : 0 < TargetWaitGroup (mgr w);
}.

Definition waiting (w : world) : world := set_mon (SetState "waiting") w.

Lemma iteration_waits name e r w :
  target_iteration name e (set_inp r w)
  = match target_select name e (set_inp r (waiting w)) with
    | Ret (true, w') => Ret (true, w')
    | Ret (false, w') => (deferred ;;; on_mgr target_done ;;; mreturn false) w'
    | Panic why => Panic why
    end.
Proof.
  unfold target_iteration, set_state, mbind_, mmodify.
  change (set_mon (SetState "waiting") (set_inp r w)) with (set_inp r (waiting w)).
  destruct (target_select _ _ _) as [[[] w'] | why]; [done | | done].
  unfold deferred, mmodify, mbind_. by destruct (on_mgr _ _) as [[? ?] |].
Qed.

Lemma set_inp_id w : set_inp (inp w) w = w.
Proof. by destruct w. Qed.

Lemma iteration_selects name e w :
  target_iteration name e w
  = match target_select name e (waiting w) with
    | Ret (true, w') => Ret (true, w')
    | Ret (false, w') => (deferred ;;; on_mgr target_done ;;; mreturn false) w'
    | Panic why => Panic why
    end.
Proof.
  rewrite <- (set_inp_id w) at 1. rewrite iteration_waits.
  change (inp w) with (inp (waiting w)). by rewrite set_inp_id.
Qed.

Lemma breach_keeps rule l w w1 :
  accounts (breach_fate rule l w) w w1 ->
  out w1 = out w /\ exists k, 0 <= k <= 1 /\ mgr w1 = give_back k (mgr w).
Proof.
  intros [Hm _ _ Ho]. revert Hm Ho. unfold breach_fate.
  destruct (String.eqb _ _); [intros; split; [done | by exists 1] |].
  destruct (ToProtobuf _) as [d [e |]]; [intros; split; [done | by exists 0] |].
  destruct (bool_decide _); intros; (split; [done | by exists 0]).
Qed.

Lemma open_give_back k n w w1 :
  open_session (1 + n) w -> 0 <= k <= 1 -> mgr w1 = give_back k (mgr w) -> open_session n w1.
Proof.
  intros [Hf Hc Hg] Hk E. split; rewrite E; cbn; [lia | apply u64_range | done].
Qed.

Lemma open_waiting n w : open_session n w -> open_session n (waiting w).
Proof. by intros []. Qed.

Lemma outbox_cons name e events :
  outbox name (e :: events)
  = match e with
    | Inbound data => BrokerToTarget name (ProtobufToBroker data).1 :: outbox name events
    | _ => outbox name events
    end.
Proof. by destruct e. Qed.

(** The messages that pass the rules are written, in order, and nothing else;
    the connector reads one answer for each. *)
Lemma session_loop name events sent0 w :
  Forall (carried name) events -> open_session (len (outbox name events)) w ->
  out w = opened sent0 ->
  exists raws ms w1,
    Forall2 travels raws ms /\ ms `sublist_of` outbox name events /\
    (rules w = [] -> ms = outbox name events) /\
    open_session 0 w1 /\ TargetWaitGroup (mgr w1) = TargetWaitGroup (mgr w) /\
    out w1 = opened (sent0 ++ (frame <$> (log_frame <$> raws))) /\
    forall n events', target_loop name (events ++ events') (set_inp (oks (length raws + n)) w)
                      = target_loop name events' (set_inp (oks n) w1).
Proof.
  intros Hev. revert sent0 w. induction Hev as [| e events He _ IH]; intros sent0 w Hw Ho.
  { exists [], [], w. rewrite app_nil_r. by split_and!. }
  rewrite outbox_cons in *. destruct e as [data | i ct tt' now order |]; [| | done].
  - apply carried_travels in He as (l & raw & Hd & Ht & Hfr & Htr). rewrite Hd in *. cbn [fst] in *.
    rewrite len_cons in Hw. pose proof (len_nonneg (outbox name events)) as Hnn.
    destruct (List.find decides (rules w)) as [rule |] eqn:Hr.
    + destruct (receive_breached name data l raw rule (waiting w)) as (w1 & Ha & E);
        [cbn; destruct Hw; lia | apply Hw | done..|].
      apply breach_keeps in Ha as (Ho1 & k & Hk & Hm1).
      destruct (IH sent0 w1) as (raws & ms & w2 & Hms & Hsub & _ & Hw2 & Hg2 & Ho2 & Hrun).
      { apply (open_give_back k _ (waiting w)); [by apply open_waiting | done..]. }
      { by rewrite Ho1. }
      exists raws, ms, w2. split_and!; try done;
        [by constructor | by intros E0; rewrite E0 in Hr | by rewrite Hg2, Hm1 |].
      intros n events'. cbn [app target_loop]. unfold mbind_. rewrite iteration_waits.
      cbn [target_select]. rewrite E. apply Hrun.
    + pose proof (receive_delivered name data l raw sent0) as E.
      set (w1 := delivered raw data (opened (sent0 ++ [frame (log_frame raw)])) (waiting w)).
      destruct (IH (sent0 ++ [frame (log_frame raw)]) w1)
        as (raws & ms & w2 & Hms & Hsub & Hall & Hw2 & Hg2 & Ho2 & Hrun); [| done |].
      { apply (open_give_back 1 _ (waiting w)); [by apply open_waiting | lia | done]. }
      exists (raw :: raws), (BrokerToTarget name l :: ms), w2.
      split_and!; try done; [by constructor | by constructor | | |].
      * intros E0. f_equal. apply Hall. unfold w1, delivered. cbn. by rewrite E0.
      * rewrite Ho2. cbn. by rewrite <- app_assoc.
      * intros n events'. cbn [app target_loop length Nat.add]. unfold mbind_ at 1.
        rewrite iteration_waits. cbn [target_select].
        rewrite (E _ (waiting w)); [apply Hrun | cbn; destruct Hw; lia | apply Hw | done..].
  - set (w1 := set_rules (alter (on_limiter (tick ct tt' now order)) i (rules w)) (waiting w)).
    destruct (IH sent0 w1) as (raws & ms & w2 & Hms & Hsub & Hall & Hw2 & Hg2 & Ho2 & Hrun);
      [by destruct Hw | done |].
    exists raws, ms, w2. split_and!; try done.
    intros E0. apply Hall. unfold w1. cbn. by rewrite E0.
Qed.

(** The turn that ends the session: BYE is written and the connection closed. *)
Lemma stop_iteration name sent0 w :
  0 < TargetWaitGroup (mgr w) -> out w = opened sent0 ->
  exists w1, target_iteration name StopTarget w = Ret (false, w1) /\
    out w1 = {| sent := sent0 ++ [frame bye]; broken := closed |} /\ inp w1 = inp w /\
    TargetWaitGroup (mgr w1) = TargetWaitGroup (mgr w) - 1.
Proof.
  intros Hg Ho. rewrite iteration_selects. cbn [target_select].
  unfold target_stop, set_state, deferred, on_mgr, target_done, wait_group_add,
    mbind_, mmodify, mreturn. cbn. rewrite (proj2 (Z.ltb_ge _ 0)) by lia. rewrite Ho.
  eexists. split; [reflexivity |]. by split_and!.
Qed.

Lemma session_stop name sent0 w :
  open_session 0 w -> out w = opened sent0 ->
  exists w1, target_loop name [StopTarget] (set_inp (oks 0) w) = Ret (tt, w1) /\
    out w1 = {| sent := sent0 ++ [frame bye]; broken := closed |} /\ inp w1 = oks 0 /\
    TargetWaitGroup (mgr w1) = TargetWaitGroup (mgr w) - 1.
Proof.
  intros [_ _ Hg] Ho.
  destruct (stop_iteration name sent0 (set_inp (oks 0) w) Hg Ho) as (w1 & E & Hrest).
  exists w1. split; [| done]. cbn [target_loop]. unfold mbind_. by rewrite E.
Qed.

(** All that a connector says: HELLO, the logs [raws], and perhaps BYE. *)
Definition spoken_messages (raws : list (list byte)) (stopped : bool) : list Protocol.Message :=
  hello :: (log_frame <$> raws) ++ farewell stopped.

Definition speech (raws : list (list byte)) (stopped : bool) : list (list byte) :=
  frame <$> spoken_messages raws stopped.

Lemma spoken_framable raws ms stopped :
  Forall2 travels raws ms ->
  Forall (fun m => framable m /\ (m = hello \/ len (frame m) <= room))
    (spoken_messages raws stopped).
Proof.
  intros Hr. constructor; [split; [split_and!; by vm_compute | by left] |]. apply Forall_app. split.
  - rewrite Forall_fmap. eapply Forall2_Forall_l; [exact Hr |]. apply Forall_true.
    intros m raw (_ & Hf & Hl). split; [done | by right].
  - destruct stopped; [| by constructor]. apply Forall_singleton.
    split; [split_and!; by vm_compute | right; by vm_compute].
Qed.

(** The server gets all of it, also when the HELLO comes with what follows. *)
Lemma speech_holds raws ms stopped evs :
  Forall2 travels raws ms -> conveyed (speech raws stopped) evs ->
  holds (NewReader evs) (spoken_messages raws stopped) /\
  Forall2 (fun d m => ProtobufToTarget d = (m, None)) raws ms.
Proof.
  intros Hr Ha. pose proof (spoken_framable raws ms stopped Hr) as Hs. split.
  2: eapply Forall2_impl; [| exact Hr]; by intros raw m [? _].
  rewrite list.Forall_forall in Hs.
  assert (len (frame hello) = 11) as Hh by by vm_compute. pose proof room_eq as Hroom.
  assert (buffer_size = 4096) as Hbs by done.
  apply holds_conveyed; [.. | exact Ha].
  - apply list.Forall_forall. intros m Hm. by destruct (Hs m Hm).
  - apply list.Forall_forall. intros m Hm. destruct (Hs m Hm) as [_ Hl].
    destruct Hl as [-> | Hl]; lia.
  - unfold spoken_messages in *. destruct ((log_frame <$> raws) ++ farewell stopped) as [| m l] eqn:E.
    { cbn. rewrite app_nil_r. lia. }
    assert (m <> hello) as Hne.
    { destruct raws as [| raw raws]; [destruct stopped; [| done] |]; cbn in E;
        injection E as <- _; intros Hm; by apply (f_equal Command) in Hm. }
    destruct (Hs m) as [_ [Hl | Hl]]; [by right; left | done |].
    cbn [take mbind list_bind]. rewrite app_nil_r, len_app. unfold room in Hl. lia.
Qed.

Lemma speech_apart raws stopped :
  [frame hello] ++ (frame <$> (log_frame <$> raws)) ++ (frame <$> farewell stopped)
  = speech raws stopped.
Proof. unfold speech, spoken_messages. by rewrite fmap_cons, fmap_app. Qed.

(** The connector up to its loop. *)
Lemma session_opens name target w n :
  open_session n w -> out w = opened [] ->
  exists w0, open_session n w0 /\ out w0 = opened [frame hello] /\
    rules w0 = RateLimitRules target /\ TargetWaitGroup (mgr w0) = TargetWaitGroup (mgr w) /\
    InFlightWaitGroup (mgr w0) = InFlightWaitGroup (mgr w) /\
    forall r events, target_handle name target None events (set_inp r w)
                     = target_loop name events (set_inp r w0).
Proof.
  intros Hw Ho.
  exists (set_out (opened [frame hello])
    (set_mgr (set_monitor (AddConnection (self w) <$> Monitor_ (mgr w)) (mgr w))
       (set_mon (fun _ => SetState "starting"
          (NewConnection (Target_ConnectionDetails target) (Target_Provider (Target_Config_ target))
             name "target" (seq 0 (length (RateLimitRules target)))))
          (set_rules (RateLimitRules target) w)))).
  split_and!; [by destruct Hw | done..|]. intros r events.
  unfold target_handle, register, set_state. unfold mbind_ at 1 2 3 4 5, mmodify at 1 2 3 4.
  cbn [out set_inp set_rules set_mon set_mgr]. rewrite Ho. unfold mbind_ at 1. reflexivity.
Qed.

(** The connector and the servers of a target, together. *)
Lemma target_conversation zone name target events w :
  Forall (carried name) events ->
  len (outbox name events) <= InFlightWaitGroup (mgr w) ->
  is_u64 (MessagesInFlight_ (mgr w)) -> 0 < TargetWaitGroup (mgr w) ->
  out w = opened [] ->
  exists ms w',
    ms `sublist_of` outbox name events /\
    (RateLimitRules target = [] -> ms = outbox name events) /\
    target_handle name target None (events ++ [StopTarget])
      (set_inp (wire (Servers.out (answered (length ms) ms))) w) = Ret (tt, w') /\
    inp w' = oks 0 /\ broken (out w') = closed /\
    TargetWaitGroup (mgr w') = TargetWaitGroup (mgr w) - 1 /\
    forall evs, conveyed (sent (out w')) evs -> exists fuel,
      blackhole_serve fuel (NewReader evs) fresh = Some (Ret (true, answered (length ms) [])) /\
      stdout_serve fuel (NewReader evs) fresh = Some (Ret (true, answered (length ms) ms)) /\
      forall docs,
        Forall2 (fun m doc => exists fields,
          logzio_message zone m = Ret fields /\ doc = json_Marshal fields) ms docs ->
        exists fuel', logzio_serve zone (Some (fun _ => None)) fuel' (NewReader evs) fresh
          = Some (Ret (true, answered (length ms) docs)).
Proof.
  intros Hev Hfl Hc Hg Ho.
  destruct (session_opens name target w (len (outbox name events))) as (w0 & Hw0 & Ho0 & Hr0 & Hg0 & _ & E0);
    [by split | done |].
  destruct (session_loop name events [frame hello] w0 Hev Hw0 Ho0)
    as (raws & ms & w1 & Htr & Hsub & Hall & Hw1 & Hg1 & Ho1 & E1).
  destruct (session_stop name _ w1 Hw1 Ho1) as (w2 & E2 & Ho2 & Hi2 & Hg2).
  pose proof (Forall2_length Htr) as Hlen.
  exists ms, w2. split_and!; try done.
  - by rewrite <- Hr0.
  - rewrite E0. specialize (E1 0%nat [StopTarget]). rewrite Nat.add_0_r, Hlen in E1.
    unfold wire, answered. cbn [Servers.out sent]. rewrite fmap_replicate. by rewrite <- E2.
  - by rewrite Ho2.
  - lia.
  - intros evs Ha. rewrite Ho2 in Ha. cbn [sent] in Ha. rewrite <- app_assoc in Ha.
    change [frame bye] with (frame <$> farewell true) in Ha. rewrite speech_apart in Ha.
    destruct (speech_holds raws ms true evs Htr Ha) as [Hh Hd].
    destruct (blackhole_answers raws ms _ Hd Hh) as [f1 Eb].
    destruct (stdout_answers raws ms _ Hd Hh) as [f2 Es]. rewrite Hlen in Eb, Es.
    exists (f1 + f2)%nat. split_and!; [apply Eb; lia | apply Es; lia |].
    intros docs Hdocs. destruct (logzio_answers zone raws ms _ Hd Hh docs Hdocs) as [f3 E3].
    exists f3. rewrite E3, Hlen by done. done.
Qed.

(** A target connector and the server behind it, with what each writes as the
    input of the other: whatever the rules of the target do, the messages that
    pass them reach the server in order and decoded as the target messages they
    stand for, each is answered once, the connector has read every answer when
    it returns, and both ends close after the BYE.  Without rules that is every
    message.  The three kinds of target differ in what they keep. *)
Theorem target_session zone name target events w :
  Forall (carried name) events ->
  len (outbox name events) <= InFlightWaitGroup (mgr w) ->
  is_u64 (MessagesInFlight_ (mgr w)) -> 0 < TargetWaitGroup (mgr w) ->
  out w = opened [] ->
  exists ms w',
    ms `sublist_of` outbox name events /\
    (RateLimitRules target = [] -> ms = outbox name events) /\
    target_handle name target None (events ++ [StopTarget])
      (set_inp (wire (Servers.out (answered (length ms) ms))) w) = Ret (tt, w') /\
    inp w' = oks 0 /\ broken (out w') = closed /\
    TargetWaitGroup (mgr w') = TargetWaitGroup (mgr w) - 1 /\
    forall evs, conveyed (sent (out w')) evs -> exists fuel,
      blackhole_serve fuel (NewReader evs) fresh = Some (Ret (true, answered (length ms) [])) /\
      stdout_serve fuel (NewReader evs) fresh = Some (Ret (true, answered (length ms) ms)) /\
      forall docs,
        Forall2 (fun m doc => exists fields,
          logzio_message zone m = Ret fields /\ doc = json_Marshal fields) ms docs ->
        exists fuel', logzio_serve zone (Some (fun _ => None)) fuel' (NewReader evs) fresh
          = Some (Ret (true, answered (length ms) docs)).
Proof. exact (target_conversation zone name target events w). Qed.
End Target.

(** C34. Why [room] is the limit, and not the buffer: a connector writes HELLO and
    then its first log without waiting, so the server may find both in one read
    of its buffer of 4096 bytes.  Then a first log whose frame is longer than
    4085 bytes is cut, although the network has cut nothing and the frame would
    fit the buffer alone: the handshake succeeds, and what the server takes for
    the log is its beginning, filled up with zeros, without an error; the rest of
    the frame is left to be read as the next header. *)
Theorem first_log_cut raw raws :
  framable (log_frame raw) -> len (payload_prefix (log_frame raw)) <= room - 4 ->
  room < len (frame (log_frame raw)) ->
  let n := Z.to_nat (room - 4) in
  exists evs r,
    conveyed (speech (raw :: raws) false) evs /\
    WaitForHello (NewReader evs) = (true, r) /\
    ReadMessage r
    = (log_frame (truncated (log_frame raw) n), None,
       {| buf := []; rd := Segment (drop (4 + n) (frame (log_frame raw)))
                             :: (Segment <$> (frame <$> (log_frame <$> raws))) |}).
Proof.
  intros Hf Hp Hl n. assert (len (frame hello) = 11) as H11 by by vm_compute.
  assert (framable hello) as Hh by (split_and!; by vm_compute).
  pose proof (eq_refl : buffer_size = 4096) as Hb. unfold room in *.
  destruct (joined_message_corrupted hello (log_frame raw)
    (Segment <$> (frame <$> (log_frame <$> raws))) Hh Hf) as (r & E1 & E2); [lia.. |].
  exists (Segment (frame hello ++ frame (log_frame raw)) :: (Segment <$> (frame <$> (log_frame <$> raws)))), r.
  split_and!.
  - unfold speech, spoken_messages. cbn [farewell]. rewrite app_nil_r. constructor.
  - unfold WaitForHello, WaitForCommand. by rewrite E1.
  - exact E2.
Qed.

(** ** A source connector and the Nomad server *)
Section Source.
Context `{MapOrder}.

(** An item that can be sent: it is well formed, and its frame fits the buffer
    of the connector. *)
Record sendable (name : string) (targets : list string) (item : SourceMessage) : Prop := {
  sd_wf : wf item;
  sd_marshals : (ToProtobuf item).2 = None;
  sd_framable : framable (Build_Message CommandSourceMessage (ToProtobuf item).1 []);
  sd_frame : len (item_frame item) <= buffer_size;
  sd_broker : len (ToProtobuf (SourceToBroker name targets item)).1 < pow64;
}.

(** The frame of an item, as the connector reads it. *)
Definition item_message (item : SourceMessage) : Message :=
  Build_Message CommandSourceMessage (ToProtobuf item).1 [].

Lemma item_decodes name targets item :
  sendable name targets item -> ProtobufToSource (Data (item_message item)) = (item, None).
Proof.
  intros Hs. apply Unmarshal_Marshal; [apply Hs | | ].
  - rewrite <- (sd_marshals _ _ _ Hs). apply surjective_pairing.
  - assert (len (ToProtobuf item).1 < pow64); [| done].
    pose proof (sd_framable _ _ _ Hs) as (Hu & He & Hl).
    destruct (decide ((ToProtobuf item).1 = [])) as [-> | Hne]; [done |].
    rewrite (payload_split _ Hu He Hne), len_app in Hl. cbn [Data] in Hl.
    match type of Hl with len ?p + _ < _ => pose proof (len_nonneg p) end.
    unfold pow32, pow64 in *. lia.
Qed.

(** What the loop does with the items. *)
Lemma source_items name targets items sent0 w :
  Forall (sendable name targets) items -> utf8_string name -> Forall utf8_string targets ->
  0 <= InFlightWaitGroup (mgr w) -> out w = opened sent0 ->
  exists datas w1,
    source_loop name targets (Received <$> (item_message <$> items)) w = Ret (tt, w1) /\
    Forall2 (fun data item => ProtobufToBroker data = (SourceToBroker name targets item, None))
      datas items /\
    sends w1 = sends w ++ (pair "" <$> datas) /\
    out w1 = opened (sent0 ++ replicate (length items) (frame ok)) /\
    InFlightWaitGroup (mgr w1) = InFlightWaitGroup (mgr w) + len targets * len items.
Proof.
  intros Hit Hn Ht. revert sent0 w. induction Hit as [| item items Hi _ IH]; intros sent0 w Hwg Ho.
  { exists [], (set_mon (SetState "waiting") w). cbn - [len Z.mul].
    rewrite !app_nil_r. split_and!; try done. change (len (@nil SourceMessage)) with 0. lia. }
  pose proof (source_receive_item name targets (item_message item) item
    (set_mon (SetState "waiting") w) sent0 Hwg (item_decodes _ _ _ Hi) (sd_wf _ _ _ Hi)
    (sd_marshals _ _ _ Hi) Hn Ht (sd_broker _ _ _ Hi) Ho) as E. cbn [Command item_message] in E.
  destruct E as (data & w1 & E & Hd & Hf & _ & Hs & Ho1 & _). cbn [mgr set_mon sends] in Hf, Hs.
  pose proof (len_nonneg targets).
  destruct (IH (sent0 ++ [frame ok]) w1) as (datas & w2 & E2 & Hds & Hs2 & Ho2 & Hf2);
    [rewrite Hf; lia | exact Ho1 |].
  exists (data :: datas), w2. split_and!.
  - cbn [fmap list_fmap source_loop]. unfold mbind_ at 1, source_iteration, set_state, mmodify.
    unfold mbind_ at 1 2. cbn [source_select]. rewrite E. unfold mbind_, mreturn. exact E2.
  - by constructor.
  - rewrite Hs2, Hs. cbn. by rewrite <- app_assoc.
  - rewrite Ho2. cbn. by rewrite <- app_assoc.
  - rewrite Hf2, Hf, len_cons. lia.
Qed.
(** The server's bytes, read by the connector's [ReadToChannel]. *)
Lemma items_read name targets items :
  Forall (sendable name targets) items ->
  exists fuel, ReadToChannel fuel (NewReader (Segment <$> (item_frame <$> items)))
               = Some (inl <$> (item_message <$> items)).
Proof.
  intros Hit.
  destruct (ReadToChannel_frames ((fun m => [m]) <$> (item_message <$> items))) as [fuel E].
  - rewrite !Forall_fmap. eapply Forall_impl; [| exact Hit]. intros item Hi. cbn.
    rewrite app_nil_r. split; [done |]. split; [apply Forall_singleton, Hi | apply Hi].
  - exists fuel. rewrite mjoin_singletons in E. rewrite <- E. f_equal. f_equal. unfold segments.
    rewrite <- !list_fmap_compose. apply list_fmap_ext. intros k item _. cbn. by rewrite app_nil_r.
Qed.

(** What the Nomad server and the connector of its source do together. *)
Lemma source_conversation name source items w :
  let targets := Source_Targets_ source in
  Forall (sendable name targets) items -> utf8_string name -> Forall utf8_string targets ->
  0 <= InFlightWaitGroup (mgr w) -> out w = opened [] ->
  exists datas w' c' fuel,
    nomad_serve None items (wire (out w')) (opened []) = Ret (false, c') /\
    ReadToChannel fuel (wire c') = Some (inl <$> (item_message <$> items)) /\
    source_handle name source None (Received <$> (item_message <$> items)) w = Ret (tt, w') /\
    Forall2 (fun data item => ProtobufToBroker data = (SourceToBroker name targets item, None))
      datas items /\
    sends w' = sends w ++ (pair "" <$> datas) /\
    InFlightWaitGroup (mgr w') = InFlightWaitGroup (mgr w) + len targets * len items.
Proof.
  intros targets Hit Hn Ht Hwg Ho.
  set (w0 := set_out (opened [frame hello])
    (set_mgr (set_monitor (AddConnection (self w) <$> Monitor_ (mgr w)) (mgr w))
       (set_mon (fun _ => SetState "starting"
          (NewConnection (Source_ConnectionDetails source) (Source_Provider (Source_Config_ source))
             name "source" [])) w))).
  destruct (source_items name targets items [frame hello] w0 Hit Hn Ht Hwg eq_refl)
    as (datas & w' & E & Hd & Hs & Ho' & Hf).
  destruct (items_read name targets items Hit) as [fuel Hr].
  exists datas, w', (opened ([] ++ (item_frame <$> items))), fuel. split_and!; try done.
  - unfold nomad_serve, wire. rewrite Ho'. cbn [sent opened fmap list_fmap app].
    change (WaitForHello (NewReader (Segment (frame hello) :: ?r))) with (true, NewReader r).
    cbn [negb]. rewrite fmap_replicate, <- (app_nil_r (replicate _ _)).
    apply (nomad_ships items [] []). eapply Forall_impl; [| exact Hit]. intros item Hi. apply Hi.
  - unfold source_handle, register, set_state. unfold mbind_ at 1 2 3 4 5, mmodify at 1 2 3.
    cbn [out set_mon set_mgr]. rewrite Ho. exact E.
Qed.
End Source.

(** ** The worker in between *)
Section Path.
Context `{MapOrder}.

(** What is sent to one target. *)
Definition inbound (name : string) (l : list (string * list byte)) : list (list byte) :=
  omap (fun td => if String.eqb td.1 name then Some td.2 else None) l.

Lemma inbound_app name l k : inbound name (l ++ k) = inbound name l ++ inbound name k.
Proof. apply omap_app. Qed.

(** One copy for each time a target is named. *)
Lemma inbound_once name (data : list byte) targets :
  NoDup targets ->
  inbound name ((fun t => (t, data)) <$> targets) = if decide (name ∈ targets) then [data] else [].
Proof.
  induction 1 as [| t targets Ht _ IH]; [done |]. unfold inbound in *. cbn.
  destruct (String.eqb_spec t name) as [-> | Hne]; rewrite IH.
  - rewrite decide_False by done. rewrite decide_True; [done | apply list_elem_of_here].
  - destruct (decide (name ∈ targets)), (decide (name ∈ t :: targets)); set_solver.
Qed.

Lemma worker_carries name source targets datas items wk :
  Forall2 (fun data item => ProtobufToBroker data = (SourceToBroker source targets item, None))
    datas items ->
  NoDup targets -> name ∈ targets -> name ∈ TargetConnectors (ConnectorManager_ wk) ->
  exists wk', worker_loop (Receive <$> datas) wk = Ret (tt, wk') /\
    inbound name (worker_sends wk') = inbound name (worker_sends wk) ++ datas.
Proof.
  intros Hd Hnd Hin. revert wk. induction Hd as [| data item datas items Hdi _ IH]; intros wk Hk.
  { exists (set_process (Process_SetState "waiting") wk). cbn. by rewrite app_nil_r. }
  pose proof (worker_receive_cases data (set_process (Process_SetState "waiting") wk)) as E.
  rewrite Hdi in E. destruct E as (wk1 & E & Hs & Hm & _).
  cbn [set_process ConnectorManager_ worker_sends] in Hs, Hm.
  destruct (IH wk1) as (wk2 & E2 & Hs2); [by rewrite Hm |].
  exists wk2. split.
  - cbn [fmap list_fmap worker_loop]. unfold mbind_ at 1, worker_iteration, proc_state, mmodify.
    unfold mbind_ at 1 2. rewrite E. exact E2.
  - rewrite Hs2, Hs, inbound_app, inbound_once by (by apply list.NoDup_filter).
    rewrite decide_True; [by rewrite <- app_assoc |].
    unfold known_targets. cbn [Broker_Targets SourceToBroker]. by apply list_elem_of_filter.
Qed.

Lemma len_fmap {A B} (f : A -> B) l : len (f <$> l) = len l.
Proof. unfold len. by rewrite length_fmap. Qed.

(** A target message whose frame fits the buffer of the server, behind a HELLO. *)
Definition deliverable (m : TargetMessage) : Prop :=
  framable (log_frame (ToProtobuf m).1) /\ len (frame (log_frame (ToProtobuf m).1)) <= room.

(** What the source connector makes of an item can be carried to the target. *)
Lemma item_carried source targets name data item :
  sendable source targets item -> utf8_string source -> utf8_string name ->
  Forall utf8_string targets ->
  ProtobufToBroker data = (SourceToBroker source targets item, None) ->
  deliverable (BrokerToTarget name (SourceToBroker source targets item)) ->
  carried name (Inbound data).
Proof.
  intros Hi Hs Hn Ht Hd [Hf Hl]. exists (SourceToBroker source targets item).
  exists (ToProtobuf (BrokerToTarget name (SourceToBroker source targets item))).1.
  split_and!; try done; [split; [done | apply Hi] |].
  rewrite (surjective_pairing (ToProtobuf _)) at 1. f_equal.
  apply target_marshal_error. split_and!; [done.. | apply Hi].
Qed.

Lemma outbox_items source targets name datas items :
  Forall2 (fun data item => ProtobufToBroker data = (SourceToBroker source targets item, None))
    datas items ->
  outbox name (Inbound <$> datas)
  = (fun item => BrokerToTarget name (SourceToBroker source targets item)) <$> items.
Proof.
  intros Hd. induction Hd as [| data item datas items E _ IH]; [done |].
  cbn [fmap list_fmap]. rewrite outbox_cons, E. by f_equal.
Qed.

(** C10. The way of the items, through the four programs: what the Nomad server
    sends, its connector passes on, a worker hands to the target it is for and
    the target's connector writes is what the server of the target prints, item
    by item, in order and unchanged, under the name of the source; each end of
    the two connections reads exactly what the other end wrote.  This is for
    items whose frames fit the connections (at most 4096 bytes to the broker and
    [room], 4085 bytes, to the target), a source that names the target once
    and no target twice, a target without rate limit rules, and writes that
    arrive each in one piece, the HELLO of the target connector perhaps with the
    first log. *)
Theorem item_path source_name source name target items w wk wt :
  let targets := Source_Targets_ source in
  Forall (sendable source_name targets) items ->
  Forall (fun item => deliverable (BrokerToTarget name (SourceToBroker source_name targets item)))
    items ->
  utf8_string source_name -> utf8_string name -> Forall utf8_string targets ->
  NoDup targets -> name ∈ targets -> name ∈ TargetConnectors (ConnectorManager_ wk) ->
  RateLimitRules target = [] ->
  0 <= InFlightWaitGroup (mgr w) -> out w = opened [] -> sends w = [] -> worker_sends wk = [] ->
  len items <= InFlightWaitGroup (mgr wt) -> is_u64 (MessagesInFlight_ (mgr wt)) ->
  0 < TargetWaitGroup (mgr wt) -> out wt = opened [] ->
  exists w' c' fuel1 read datas wk' wt' printed,
    nomad_serve None items (wire (out w')) (opened []) = Ret (false, c') /\
    ReadToChannel fuel1 (wire c') = Some (inl <$> read) /\
    source_handle source_name source None (Received <$> read) w = Ret (tt, w') /\
    (sends w').*2 = datas /\
    worker_loop (Receive <$> datas) wk = Ret (tt, wk') /\
    target_handle name target None
      ((Inbound <$> inbound name (worker_sends wk')) ++ [StopTarget])
      (set_inp (wire (Servers.out printed)) wt) = Ret (tt, wt') /\
    (forall evs, conveyed (sent (out wt')) evs -> exists fuel2,
       stdout_serve fuel2 (NewReader evs) fresh = Some (Ret (true, printed))) /\
    done_ printed
    = (fun item => {| Target_Target := name; Target_Source := source_name;
                      Target_SourceMessage := Some item; TargetMessage_unrecognized := [] |})
        <$> items.
Proof.
  intros targets Hit Hdel Hs Hn Ht Hnd Hin Hk Hr Hwg Ho Hsn Hws Hfl Hc Hg Hot.
  destruct (source_conversation source_name source items w Hit Hs Ht Hwg Ho)
    as (datas & w' & c' & fuel1 & E1 & E2 & E3 & Hd & Hs' & _).
  destruct (worker_carries name source_name targets datas items wk Hd Hnd Hin Hk) as (wk' & E4 & Hi).
  rewrite Hws in Hi. cbn in Hi.
  assert (Forall (carried name) (Inbound <$> datas)) as Hcar.
  { rewrite Forall_fmap. clear -Hd Hit Hdel Hs Hn Ht. induction Hd as [| data item datas items E _ IH];
      [constructor |]. apply list.Forall_cons in Hit as [Hi Hit], Hdel as [Hl Hdel].
    constructor; [by apply (item_carried source_name targets name data item) | by apply IH]. }
  pose proof (outbox_items source_name targets name datas items Hd) as Hbox.
  destruct (target_conversation (fun _ => 0) name target (Inbound <$> datas) wt Hcar)
    as (ms & wt' & _ & Hall & E5 & _ & _ & _ & E6);
    [by rewrite Hbox, len_fmap | done.. |].
  exists w', c', fuel1, (item_message <$> items), datas, wk', wt',
    (answered (length ms) ms).
  rewrite Hi. split_and!; try done.
  - rewrite Hs', Hsn. cbn. rewrite <- list_fmap_compose. apply list_fmap_id.
  - intros evs Ha. destruct (E6 evs Ha) as (fuel2 & _ & E7 & _). by exists fuel2.
  - cbn [answered done_]. rewrite (Hall Hr). exact Hbox.
Qed.
End Path.

(** ** Concrete sessions *)
#[local] Existing Instance default_order.

Definition quiet_target : Target :=
  {| Target_ConnectionDetails := demo_details;
     Target_Config_ := {| Target_Provider := "stdout"; Target_Endpoint := "";
       AlertChannels := None; RateLimit_ := []; Target_Config := ∅ |};
     RateLimitRules := [] |}.

Definition nomad_source : Source :=
  {| Source_ConnectionDetails := demo_details;
     Source_Config_ := {| Source_Provider := "nomad"; Source_Endpoint := "";
       Source_Targets := ["a"; "b"]; Source_Config := ∅ |};
     Source_Targets_ := ["b"; "a"] |}.

(** Two messages are under way to the target [a]. *)
Definition pair_world : world :=
  {| mgr := demo_manager 2; mon := NewConnection demo_details "stdout" "a" "target" [];
     self := 0; rules := []; out := opened []; inp := NewReader []; sends := [] |}.

Definition path_worker : Worker :=
  {| Manager := {| Worker_WaitGroup := 1; Worker_StopChan := false; Worker_Monitor := Some NewMonitor |};
     ConnectorManager_ := demo_manager 2; ProcessMonitor := NewProcess "worker_0" "worker";
     worker_sends := [] |}.

Lemma demo_carried : carried "a" (Inbound demo_data).
Proof.
  exists demo_item, demo_raw. split_and!; [by vm_compute | by vm_compute | by vm_compute | |].
  - split_and!; by vm_compute.
  - by vm_compute.
Qed.

Lemma target_session_witness :
  exists w' fuel,
    target_handle "a" quiet_target None [Inbound demo_data; Inbound demo_data; StopTarget]
      (set_inp (oks 2) pair_world) = Ret (tt, w') /\
    stdout_serve fuel (NewReader (coalesce (sent (out w')))) fresh
    = Some (Ret (true, answered 2 (replicate 2 (BrokerToTarget "a" demo_item)))).
Proof.
  assert (outbox "a" [Inbound demo_data; Inbound demo_data]
          = replicate 2 (BrokerToTarget "a" demo_item)) as Hbox by by vm_compute.
  destruct (target_session (fun _ => 0) "a" quiet_target [Inbound demo_data; Inbound demo_data]
    pair_world) as (ms & w' & _ & Hall & Hrun & _ & _ & _ & Hout).
  - constructor; [exact demo_carried | constructor; [exact demo_carried | constructor]].
  - rewrite Hbox. by apply Z.leb_le.
  - clear Hbox. done.
  - clear Hbox. done.
  - reflexivity.
  - rewrite (Hall eq_refl), Hbox in *. destruct (Hout _ (coalesce_conveyed _)) as (fuel & _ & Es & _).
    exists w', fuel. split; [exact Hrun | exact Es].
Defined.

(** A first log of 4080 bytes, in a frame of 4093. *)
Definition wide_log : list byte := replicate 4080 x41.

Lemma first_log_cut_witness :
  exists evs r m, len (frame (log_frame wide_log)) = 4093 /\
    conveyed (speech [wide_log] false) evs /\
    WaitForHello (NewReader evs) = (true, r) /\ (ReadMessage r).1 = (m, None) /\
    length (Data m) = 4080%nat /\ Data m !! 4079%nat = Some x00.
Proof.
  destruct (first_log_cut wide_log []) as (evs & r & Ha & Hw & E).
  - split_and!; by vm_compute.
  - by vm_compute.
  - by vm_compute.
  - exists evs, r, (log_frame (truncated (log_frame wide_log) (Z.to_nat (room - 4)))).
    split_and!; [by vm_compute | exact Ha | exact Hw | by rewrite E | by vm_compute | by vm_compute].
Defined.

Lemma demo_sendable : sendable "src" ["b"; "a"] demo_message.
Proof. split; [.. | split_and! | |]; by vm_compute. Qed.

Lemma demo_deliverable : deliverable (BrokerToTarget "a" (SourceToBroker "src" ["b"; "a"] demo_message)).
Proof. split; [split_and!; by vm_compute | by vm_compute]. Qed.

Lemma item_path_witness :
  exists w' c' wt' printed fuel,
    nomad_serve None [demo_message; demo_message] (wire (out w')) (opened []) = Ret (false, c') /\
    stdout_serve fuel (NewReader (coalesce (sent (out wt')))) fresh = Some (Ret (true, printed)) /\
    done_ printed = replicate 2 (BrokerToTarget "a" (SourceToBroker "src" ["b"; "a"] demo_message)).
Proof.
  destruct (item_path "src" nomad_source "a" quiet_target [demo_message; demo_message]
    pair_world path_worker pair_world)
    as (w' & c' & fuel1 & read & datas & wk' & wt' & printed & E1 & _ & _ & _ & _ & _ & E2 & E3).
  - constructor; [exact demo_sendable | constructor; [exact demo_sendable | constructor]].
  - constructor; [exact demo_deliverable | constructor; [exact demo_deliverable | constructor]].
  - by vm_compute.
  - by vm_compute.
  - repeat constructor.
  - apply (bool_decide_unpack _). by vm_compute.
  - apply (bool_decide_unpack _). by vm_compute.
  - apply (bool_decide_unpack _). by vm_compute.
  - reflexivity.
  - by apply Z.leb_le.
  - reflexivity.
  - reflexivity.
  - reflexivity.
  - by apply Z.leb_le.
  - done.
  - done.
  - reflexivity.
  - destruct (E2 _ (coalesce_conveyed _)) as [fuel E].
    exists w', c', wt', printed, fuel. split; [exact E1 | split; [exact E | exact E3]].
Defined.
