(* ===== verification/Link.v ===== *)
(** * The two ends of a connection, step by step

    A target connector and the server of the target as two goroutines (and the
    reading goroutine of the server) that run side by side: each takes its own
    steps, what one writes arrives at the other as a segment of its own, in one
    segment with what was written just before, or cut in parts, a read blocks
    until something has arrived, and the limiters tick at any moment, also while
    the connector waits for an answer. *)
From S2P Require Import Prelude Wire Text Message Bufio Protocol Pipe Limiter Monitoring Config.
From S2P Require Import Servers.
From S2P Require Import Connector Worker Session.

#[local] Arguments ProtobufToBroker : simpl never.
#[local] Arguments ProtobufToTarget : simpl never.
#[local] Arguments ToProtobuf : simpl never.
#[local] Arguments frame : simpl never.
#[local] Arguments ReadMessage : simpl never.

(** ** What a connector asks of a server *)

Section Receivers.
Context `{MapOrder}.

(** The handler of a log message in the server of a target, what it keeps of a
    message, and that it acknowledges every message that it keeps. *)
Class Receiver (A : Type) := {
  receive : list byte -> server A -> outcome (server A);
  keep : TargetMessage -> option (list A);
  receive_acknowledges : forall data msg l s,
    ProtobufToTarget data = (msg, None) -> keep msg = Some l ->
    receive data s = Ret (Build_server (SendOk (Servers.out s)) (done_ s ++ l));
}.

#[local] Program Instance blackhole_receiver : Receiver TargetMessage :=
  {| receive := blackhole_log; keep _ := Some [] |}.
Next Obligation.
  intros data msg l s Hd [= <-]. unfold blackhole_log. rewrite Hd. by rewrite app_nil_r.
Qed.

#[local] Program Instance stdout_receiver : Receiver TargetMessage :=
  {| receive := stdout_log; keep msg := Some [msg] |}.
Next Obligation. intros data msg l s Hd [= <-]. unfold stdout_log. by rewrite Hd. Qed.

(** A client of logz.io that takes everything. *)
Definition logzio_keep (zone : Z -> Z) (msg : TargetMessage) : option (list (list byte)) :=
  match logzio_message zone msg with
  | Ret fields => Some [json_Marshal fields]
  | Panic _ => None
  end.

#[local] Program Instance logzio_receiver (zone : Z -> Z) : Receiver (list byte) :=
  {| receive := logzio_log zone (Some (fun _ => None)); keep := logzio_keep zone |}.
Next Obligation.
  intros zone data msg l s Hd Hk. unfold logzio_log, logzio_keep in *. rewrite Hd.
  destruct (logzio_message zone msg); [| done]. by injection Hk as <-.
Qed.
End Receivers.
Arguments Receiver {_} A.

(** ** The system *)

(** The connector: at its [select], in [WaitForOk] after it has written a
    message, or returned. *)
Inductive phase := Idle | Awaits (rawData : list byte) | Exited.

(** The server: in [WaitForHello], in its loop, or returned. *)
Inductive sphase := Greeting | Serving | Returned.

(** The messages that are still to be sent to the connector, before it is told
    to stop; the input of the connector is part of its world. *)
Record link (A : Type) := {
  inbox : list (list byte);
  cw : world;
  cphase : phase;
  srv : server A;
  sphase_ : sphase;
  sin : reader;
  fetch : fetcher;
}.
Arguments inbox {A} l.
Arguments cw {A} l.
Arguments cphase {A} l.
Arguments srv {A} l.
Arguments sphase_ {A} l.
Arguments sin {A} l.
Arguments fetch {A} l.
Arguments Build_link {A} inbox cw cphase srv sphase_ sin fetch.

Inductive action :=
  | Take | Answer | Stop
  | Tick (i : nat) (curTime ttlTime : Z) (now : string -> Z) (order : list (string * StoreItem))
  | Greet | Fetch | Serve
  | Join (to_server : bool) (i : nat)
  | Cut (to_server : bool) (i n : nat).

(** A step of one of the goroutines. *)
Definition progresses (a : action) : bool :=
  match a with Tick _ _ _ _ _ | Join _ _ | Cut _ _ _ => false | _ => true end.

(** A step in which the network does not cut a segment. *)
Definition intact (a : action) : Prop := match a with Cut _ _ _ => False | _ => True end.

Section Link.
Context `{MapOrder}.
Context {A : Type} `{!Receiver A}.
Context (name : string) (target : Target).

(** The connector after its part of a step: its phase, and what it wrote is on
    its way. *)
Definition by_connector (inbox : list (list byte)) (s : link A) (o : outcome (phase * world))
    : outcome (link A) :=
  match o with
  | Panic why => Panic why
  | Ret (ph, w) =>
      Ret (Build_link inbox w ph (srv s) (sphase_ s)
             (push (sent (out (cw s))) (sent (out w)) (sin s)) (fetch s))
  end.

(** The end of an iteration: the deferred calls, if it was the last. *)
Definition leave (continue : bool) : M phase :=
  if continue then mreturn Idle else deferred ;;; on_mgr target_done ;;; mreturn Exited.

Definition take_step (data : list byte) : M phase :=
  set_state "waiting" ;;;
  b <~ target_begin name data ;;
  match b with
  | Settled continue => leave continue
  | Waits rawData => mreturn (Awaits rawData)
  end.

Definition answer_step (rawData : list byte) : M phase :=
  ok <~ wait_for_ok ;; continue <~ target_finish rawData ok ;; leave continue.

Definition stop_step : M phase := set_state "waiting" ;;; target_stop ;;; leave false.

(** The server after its part of a step. *)
Definition by_server (s : link A) (server : server A) (ph : sphase) (f : fetcher) : link A :=
  Build_link (inbox s)
    (set_inp (push (sent (Servers.out (srv s))) (sent (Servers.out server)) (inp (cw s))) (cw s))
    (cphase s) server ph (sin s) f.

Definition fetched (s : link A) (r : reader) (ph : sphase) (f : fetcher) : link A :=
  Build_link (inbox s) (cw s) (cphase s) (srv s) ph r f.

(** The network has done something to what is on its way to the server, or to
    the connector. *)
Definition to_server (s : link A) (evs : list net_event) : link A :=
  fetched s {| buf := buf (sin s); rd := evs |} (sphase_ s) (fetch s).

Definition to_connector (s : link A) (evs : list net_event) : link A :=
  Build_link (inbox s) (set_inp {| buf := buf (inp (cw s)); rd := evs |} (cw s))
    (cphase s) (srv s) (sphase_ s) (sin s) (fetch s).

(** One step: [None] when it is not enabled. *)
Definition exec (a : action) (s : link A) : option (outcome (link A)) :=
  match a with
  | Take =>
      match cphase s, inbox s with
      | Idle, data :: rest => Some (by_connector rest s (take_step data (cw s)))
      | _, _ => None
      end
  | Answer =>
      match cphase s with
      | Awaits rawData =>
          if blocked (Servers.out (srv s)) (inp (cw s)) then None
          else Some (by_connector (inbox s) s (answer_step rawData (cw s)))
      | _ => None
      end
  | Stop =>
      match cphase s, inbox s with
      | Idle, [] => Some (by_connector [] s (stop_step (cw s)))
      | _, _ => None
      end
  | Tick i curTime ttlTime now order =>
      Some (by_connector (inbox s) s
        ((target_select name (Ticker i curTime ttlTime now order) ;;; mreturn (cphase s)) (cw s)))
  | Greet =>
      match sphase_ s with
      | Greeting =>
          if blocked (out (cw s)) (sin s) then None
          else let '(ready, r) := WaitForHello (sin s) in
               Some (if ready then Ret (fetched s r Serving Reading)
                     else Panic "failed to receive HELLO from broker")
      | _ => None
      end
  | Fetch =>
      match sphase_ s, fetch s with
      | Serving, Reading =>
          if blocked (out (cw s)) (sin s) then None
          else let '(f, r) := fetch_step (sin s) in Some (Ret (fetched s r Serving f))
      | _, _ => None
      end
  | Serve =>
      match sphase_ s, fetch s with
      | Serving, Offers ev =>
          Some match serve_loop receive [ev] (srv s) with
               | Panic why => Panic why
               | Ret (false, server) => Ret (by_server s server Serving Reading)
               | Ret (true, server) => Ret (by_server s (Servers.deferred server) Returned Reading)
               end
      | _, _ => None
      end
  | Join true i => evs ← join i (rd (sin s)); Some (Ret (to_server s evs))
  | Join false i => evs ← join i (rd (inp (cw s))); Some (Ret (to_connector s evs))
  | Cut true i n => evs ← cut i n (rd (sin s)); Some (Ret (to_server s evs))
  | Cut false i n => evs ← cut i n (rd (inp (cw s))); Some (Ret (to_connector s evs))
  end.

Fixpoint play (tr : list action) (s : link A) : option (outcome (link A)) :=
  match tr with
  | [] => Some (Ret s)
  | a :: tr =>
      match exec a s with
      | Some (Ret s) => play tr s
      | o => o
      end
  end.

(** The connection is open, the connector has come to its [select], and the
    server has accepted. *)
Definition start (datas : list (list byte)) (w : world) : outcome (link A) :=
  match target_handle name target None [] (set_inp (NewReader []) w) with
  | Panic why => Panic why
  | Ret (_, w') =>
      Ret (Build_link datas w' Idle fresh Greeting
             (push (sent (out w)) (sent (out w')) (NewReader [])) Reading)
  end.
End Link.

(** ** The steps of the connector *)
Section Steps.
Context `{MapOrder}.
Context (name : string).

Lemma take_step_begins data w :
  take_step name data w
  = match target_begin name data (set_inp (inp w) (waiting w)) with
    | Ret (Settled continue, w1) => leave continue w1
    | Ret (Waits rawData, w1) => Ret (Awaits rawData, w1)
    | Panic why => Panic why
    end.
Proof.
  unfold take_step, set_state. unfold mbind_, mmodify.
  change (set_mon (SetState "waiting") w) with (waiting w).
  change (inp w) with (inp (waiting w)). rewrite set_inp_id.
  by destruct (target_begin _ _ _) as [[[] ?] |].
Qed.

Lemma take_step_cases data n sent0 w :
  carried name (Inbound data) -> open_session (1 + n) w -> 0 <= n -> out w = opened sent0 ->
  (exists w1, take_step name data w = Ret (Idle, w1) /\ rules w <> [] /\
     open_session n w1 /\ inp w1 = inp w /\ out w1 = opened sent0 /\
     TargetWaitGroup (mgr w1) = TargetWaitGroup (mgr w)) \/
  (exists raw w1, take_step name data w = Ret (Awaits raw, w1) /\
     framable (log_frame raw) /\ travels raw (BrokerToTarget name (ProtobufToBroker data).1) /\
     inp w1 = inp w /\ out w1 = opened (sent0 ++ [frame (log_frame raw)]) /\
     mgr w1 = mgr w /\ rules w1 = rules w).
Proof.
  intros Hc Hw Hn Ho. apply carried_travels in Hc as (l & raw & Hd & Ht & Hfr & Htr).
  rewrite take_step_begins.
  assert (0 < InFlightWaitGroup (mgr (waiting w))) as Hwg by (cbn; destruct Hw; lia).
  destruct (List.find decides (rules (waiting w))) as [rule |] eqn:Hr; [left | right].
  - destruct (begin_breached name data l raw rule (waiting w)) as (w1 & Ha & E);
      [done | apply Hw | done..|]. rewrite E.
    apply breach_keeps in Ha as (Ho1 & k & Hk & Hm1).
    exists (set_inp (inp w) w1). split_and!; try done.
    + intros E0. cbn in Hr. by rewrite E0 in Hr.
    + destruct (open_give_back k n (waiting w) w1) as [? ? ?]; [by apply open_waiting | done..|].
      by split.
    + cbn. by rewrite Ho1.
    + cbn. by rewrite Hm1.
  - rewrite (begin_waits name data l raw sent0) by (done || apply Hw). rewrite Hd.
    eexists raw, _. split; [reflexivity |]. by split_and!.
Qed.

Lemma answer_step_ok raw r w :
  ReadMessage (inp w) = (ok, None, r) -> 0 < InFlightWaitGroup (mgr w) ->
  answer_step raw w = Ret (Idle, settled raw (set_inp r w)).
Proof.
  intros E Hwg. unfold answer_step, wait_for_ok, WaitForOk, WaitForCommand.
  unfold mbind_ at 1. rewrite E. change (String.eqb (Command ok) CommandOk) with true. cbv iota.
  unfold mbind_. by rewrite finish_ok.
Qed.

Lemma stop_step_ok sent0 w :
  0 < TargetWaitGroup (mgr w) -> out w = opened sent0 ->
  exists w1, stop_step w = Ret (Exited, w1) /\ inp w1 = inp w /\ rules w1 = rules w /\
    out w1 = {| sent := sent0 ++ [frame bye]; broken := closed |} /\
    mgr w1 = set_groups (TargetWaitGroup (mgr w) - 1) (SourceWaitGroup (mgr w)) (mgr w).
Proof.
  intros Hg Ho. unfold stop_step, target_stop, leave, set_state, deferred, on_mgr, target_done,
    wait_group_add, mbind_, mmodify, mreturn. cbn. rewrite (proj2 (Z.ltb_ge _ 0)) by lia. rewrite Ho.
  eexists. split; [reflexivity |]. by split_and!.
Qed.
End Steps.

(** ** What a run keeps *)
Section Runs.
Context `{MapOrder}.
Context {A : Type} `{!Receiver A}.
Context (name : string) (target : Target) (datas : list (list byte)) (w0 : world).

Definition kept (ms : list TargetMessage) : list A := ms ≫= (fun m => default [] (keep m)).

(** The messages that stand for what is handed to the connector. *)
Definition outgoing (l : list (list byte)) : list TargetMessage :=
  (fun data => BrokerToTarget name (ProtobufToBroker data).1) <$> l.

(** A message that fits the connection, and that the server keeps. *)
Definition accepted (data : list byte) : Prop :=
  carried name (Inbound data) /\
  is_Some (keep (BrokerToTarget name (ProtobufToBroker data).1)).

(** Everything that the connector has written, after the logs [raws]. *)
Definition said (ph : phase) (raws : list (list byte)) : list Protocol.Message :=
  hello :: (log_frame <$> raws) ++ match ph with Exited => [bye] | _ => [] end.

Definition awaited (ph : phase) : nat := match ph with Awaits _ => 1 | _ => 0 end.
Definition exits (ph : phase) : Z := match ph with Exited => 1 | _ => 0 end.

(** The connector has written the logs [raws], which stand for [ms]; the server
    has answered [k] of them and the messages [q] are on their way to it. *)
Record tracks_server (raws : list (list byte)) (ms : list TargetMessage) (k : nat)
    (q : list Protocol.Message) (s : link A) : Prop := {
  t_queue : holds (sin s) q;
  t_server : match sphase_ s with
             | Greeting => k = O /\ fetch s = Reading /\ srv s = fresh /\ q = said (cphase s) raws
             | Serving =>
                 srv s = Build_server (opened (replicate k (frame ok))) (kept (take k ms)) /\
                 exists o, offered (fetch s) = Some o /\ o ++ q = drop (S k) (said (cphase s) raws)
             | Returned =>
                 cphase s = Exited /\ k = length raws /\ fetch s = Reading /\ q = [] /\
                 srv s = answered k (kept ms)
             end;
}.

Record tracks (raws : list (list byte)) (ms : list TargetMessage) (k : nat)
    (q : list Protocol.Message) (s : link A) : Prop := {
  t_inbox : Forall accepted (inbox s);
  t_pairs : Forall2 travels raws ms;
  t_keeps : Forall (fun m => is_Some (keep m)) ms;
  t_sub : ms ++ outgoing (inbox s) `sublist_of` outgoing datas;
  t_free : RateLimitRules target = [] ->
    rules (cw s) = [] /\ ms ++ outgoing (inbox s) = outgoing datas /\
    InFlightWaitGroup (mgr (cw s))
    = InFlightWaitGroup (mgr w0) - len ms + Z.of_nat (awaited (cphase s));
  t_open : cphase s <> Exited ->
    open_session (len (inbox s) + Z.of_nat (awaited (cphase s))) (cw s);
  t_exited : cphase s = Exited -> inbox s = [];
  t_group : TargetWaitGroup (mgr (cw s)) = TargetWaitGroup (mgr w0) - exits (cphase s);
  t_out : out (cw s) = {| sent := frame <$> said (cphase s) raws;
                          broken := match cphase s with Exited => closed | _ => None end |};
  t_inp : holds (inp (cw s)) (replicate (k + awaited (cphase s) - length raws) ok);
  t_answered : (k <= length raws <= k + awaited (cphase s))%nat;
  t_at : tracks_server raws ms k q s;
}.

(** The steps that may still follow. *)
Definition ahead (q : list Protocol.Message) (s : link A) : nat :=
  4 * length (inbox s) + match cphase s with Idle => 3 | Awaits _ => 4 | Exited => 0 end
  + 2 * length q + match fetch s with Offers _ => 1 | _ => 0 end.

Definition follows (raws : list (list byte)) (ms : list TargetMessage) (k : nat)
    (q : list Protocol.Message) (s : link A) (cost : nat) (o : outcome (link A)) : Prop :=
  exists raws' ms' k' q' s', o = Ret s' /\ tracks raws' ms' k' q' s' /\
    (ahead q' s' + cost <= ahead q s)%nat.

Lemma said_length ph raws :
  length (said ph raws) = (S (length raws) + match ph with Exited => 1 | _ => 0 end)%nat.
Proof. unfold said. cbn. rewrite length_app, length_fmap. by destruct ph. Qed.

Lemma outgoing_len l : len (outgoing l) = len l.
Proof. unfold len, outgoing. by rewrite length_fmap. Qed.

Lemma tracks_length raws ms k q s : tracks raws ms k q s -> length raws = length ms.
Proof. intros []. by eapply Forall2_length. Qed.

(** The connector writes one more message. *)
Lemma server_pushes raws ms k q s m inbox' w' ph0 ph raws' extra :
  tracks_server raws ms k q s -> cphase s = ph0 -> ph0 <> Exited ->
  framable m -> len (frame m) <= buffer_size -> (k <= length raws)%nat -> (k <= length ms)%nat ->
  said ph raws' = said ph0 raws ++ [m] ->
  tracks_server raws' (ms ++ extra) k (q ++ [m])
    (Build_link inbox' w' ph (srv s) (sphase_ s)
       (push (frame <$> said ph0 raws) (frame <$> said ph raws') (sin s)) (fetch s)).
Proof.
  intros [Hq Hs] <- Hph Hm Hl Hk Hk' Hsaid.
  split; cbn [sin sphase_ fetch srv cphase].
  - rewrite Hsaid, fmap_app. cbn [fmap list_fmap]. rewrite push_one. by apply holds_push.
  - destruct (sphase_ s).
    + destruct Hs as (-> & Hf & Hs & ->). by split_and!.
    + destruct Hs as (Hs & o & Ho & E). rewrite Hs, take_app_le by done. split; [done |].
      exists o. split; [done |]. rewrite Hsaid, app_assoc, E, drop_app_le; [done |].
      rewrite said_length. lia.
    + by destruct Hs.
Qed.

(** The connector does not write. *)
Lemma server_stays raws ms k q s inbox' w' ph0 ph :
  tracks_server raws ms k q s -> cphase s = ph0 -> ph0 <> Exited -> ph <> Exited ->
  tracks_server raws ms k q
    (Build_link inbox' w' ph (srv s) (sphase_ s)
       (push (frame <$> said ph0 raws) (frame <$> said ph0 raws) (sin s)) (fetch s)).
Proof.
  intros [Hq Hs] <- Hph Hph'. assert (said ph raws = said (cphase s) raws) as E.
  { unfold said. by destruct ph, (cphase s). }
  split; cbn [sin sphase_ fetch srv cphase]; rewrite ?push_nothing, ?E; [done |].
  destruct (sphase_ s); [done | done | by destruct Hs].
Qed.

Lemma outgoing_cons data l :
  outgoing (data :: l) = BrokerToTarget name (ProtobufToBroker data).1 :: outgoing l.
Proof. done. Qed.

Lemma tracks_take raws ms k q s data rest :
  tracks raws ms k q s -> cphase s = Idle -> inbox s = data :: rest ->
  follows raws ms k q s 1 (by_connector rest s (take_step name data (cw s))).
Proof.
  intros Ht Hp Hi. pose proof (tracks_length _ _ _ _ _ Ht) as Hlen.
  destruct Ht as [Hin Hpairs Hkeeps Hsub Hfree Hopen _ Hgroup Hout Hinp Hans Hsrv].
  rewrite Hp, Hi in *. apply list.Forall_cons in Hin as [[Hc Hk] Hin].
  specialize (Hopen ltac:(done)). rewrite len_cons in Hopen.
  cbn [awaited exits] in *. change (Z.of_nat 0) with 0 in *. rewrite Z.add_0_r in *.
  rewrite outgoing_cons in *.
  destruct (take_step_cases name data (len rest) (frame <$> said Idle raws) (cw s))
    as [(w1 & -> & Hr & Ho & Hi1 & Ho1 & Hg) | (raw & w1 & -> & Hf & Htr & Hi1 & Ho1 & Hm & Hr)];
    [done | done | apply len_nonneg | done | |]; cbn [by_connector].
  - exists raws, ms, k, q. eexists. split; [reflexivity |]. split.
    + split; cbn [inbox cw cphase awaited exits sphase_]; rewrite ?Hi1, ?Hg, ?Ho1, ?Z.add_0_r; try done.
      * etrans; [| exact Hsub]. apply sublist_app; [done |]. by apply sublist_cons.
      * intros Hr0. by destruct (Hfree Hr0).
      * rewrite Hout. by apply server_stays.
    + unfold ahead. cbn. rewrite Hp, Hi. cbn. lia.
  - exists (raws ++ [raw]), (ms ++ [BrokerToTarget name (ProtobufToBroker data).1]), k,
      (q ++ [log_frame raw]). eexists. split; [reflexivity |].
    assert (said (Awaits raw) (raws ++ [raw]) = said Idle raws ++ [log_frame raw]) as Hsaid.
    { unfold said. by rewrite fmap_app, !app_nil_r. }
    split.
    + split; cbn [inbox cw cphase awaited exits sphase_]; rewrite ?Hi1, ?Hm, ?Ho1, ?length_app; try done.
      * by apply Forall2_app, Forall2_cons.
      * apply Forall_app. by split; [| apply Forall_singleton].
      * by rewrite <- app_assoc.
      * intros Hr0. destruct (Hfree Hr0) as (E1 & E2 & E3). rewrite Hr, <- app_assoc.
        split_and!; [done.. |]. rewrite len_app, E3. change (len [_]) with 1. lia.
      * intros _. destruct Hopen. split; rewrite ?Hm; [lia | done..].
      * by rewrite Hsaid, fmap_app.
      * cbn [length]. replace (k + 1 - (length raws + 1))%nat with (k + 0 - length raws)%nat by lia. done.
      * cbn [length]. lia.
      * rewrite Hout. change [frame (log_frame raw)] with (frame <$> [log_frame raw]).
        cbn [sent opened]. rewrite <- fmap_app, <- Hsaid.
        apply server_pushes; (done || lia || apply Htr || by eapply travels_short).
    + unfold ahead. cbn [inbox cphase fetch]. rewrite Hp, Hi, length_app. cbn [length]. lia.
Qed.
Lemma tracks_answer raws ms k q s raw :
  tracks raws ms k q s -> cphase s = Awaits raw ->
  blocked (Servers.out (srv s)) (inp (cw s)) = false ->
  follows raws ms k q s 1 (by_connector (inbox s) s (answer_step raw (cw s))).
Proof.
  intros [Hin Hpairs Hkeeps Hsub Hfree Hopen _ Hgroup Hout Hinp Hans Hsrv] Hp Hb.
  rewrite Hp in *. specialize (Hopen ltac:(done)). cbn [awaited exits] in *.
  assert (k = length raws) as ->.
  { destruct (decide (k = length raws)) as [| Hk]; [done | exfalso].
    replace (k + 1 - length raws)%nat with 0%nat in Hinp by lia. apply holds_nothing in Hinp.
    revert Hb. unfold blocked. rewrite Hinp. destruct Hsrv as [_ Hs].
    destruct (sphase_ s).
    - by destruct Hs as (_ & _ & -> & _).
    - by destruct Hs as (-> & _).
    - destruct Hs as (Hs & _). congruence. }
  replace (length raws + 1 - length raws)%nat with 1%nat in Hinp by lia.
  apply holds_read in Hinp as (r & E & Hr).
  rewrite (answer_step_ok raw r) by (done || destruct Hopen; pose proof (len_nonneg (inbox s)); lia).
  cbn [by_connector]. exists raws, ms, (length raws), q. eexists. split; [reflexivity |]. split.
  - split; cbn [inbox cw cphase awaited exits sphase_]; try done.
    + intros Hr0. destruct (Hfree Hr0) as (E1 & E2 & E3). cbn. rewrite E1, E3. split_and!; [done.. | lia].
    + intros _. destruct Hopen. split; cbn; [lia | apply u64_range | done].
    + cbn. by rewrite Nat.add_0_r, Nat.sub_diag.
    + lia.
    + cbn [settled set_mon set_mgr set_rules set_inp out]. rewrite Hout. by eapply server_stays.
  - unfold ahead. cbn. rewrite Hp. lia.
Qed.

Lemma tracks_stop raws ms k q s :
  tracks raws ms k q s -> cphase s = Idle -> inbox s = [] ->
  follows raws ms k q s 1 (by_connector [] s (stop_step (cw s))).
Proof.
  intros Ht Hp Hi. pose proof (tracks_length _ _ _ _ _ Ht) as Hlen.
  destruct Ht as [Hin Hpairs Hkeeps Hsub Hfree Hopen _ Hgroup Hout Hinp Hans Hsrv].
  rewrite Hp, Hi in *. specialize (Hopen ltac:(done)). cbn [awaited exits] in *.
  destruct (stop_step_ok (frame <$> said Idle raws) (cw s)) as (w1 & -> & Hi1 & Hr & Ho & Hm);
    [apply Hopen | done |].
  assert (said Exited raws = said Idle raws ++ [bye]) as Hsaid.
  { unfold said. by rewrite app_nil_r. }
  cbn [by_connector]. exists raws, (ms ++ []), k, (q ++ [bye]). eexists. split; [reflexivity |]. split.
  - rewrite app_nil_r.
    split; cbn [inbox cw cphase awaited exits sphase_]; rewrite ?Hi1, ?Ho; try done.
    + intros Hr0. rewrite Hr, Hm. by apply Hfree.
    + rewrite Hm. cbn. lia.
    + by rewrite Hsaid, fmap_app.
    + rewrite Hout. change [frame bye] with (frame <$> [bye]). cbn [sent].
      rewrite <- fmap_app, <- Hsaid, <- (app_nil_r ms) at 1.
      apply server_pushes; (done || lia).
  - unfold ahead. cbn [inbox cphase fetch]. rewrite Hp, Hi, length_app. cbn [length]. lia.
Qed.

Lemma tracks_tick raws ms k q s i ct tt' now order :
  tracks raws ms k q s ->
  follows raws ms k q s 0 (by_connector (inbox s) s
    ((target_select name (Ticker i ct tt' now order) ;;; mreturn (cphase s)) (cw s))).
Proof.
  intros [Hin Hpairs Hkeeps Hsub Hfree Hopen Hex Hgroup Hout Hinp Hans [Hq Hsrv]].
  exists raws, ms, k, q. eexists. split; [reflexivity |].
  cbn [by_connector out set_rules]. split; [| unfold ahead; cbn; lia].
  split; cbn [inbox cw cphase sphase_]; try done.
  - intros Hr. destruct (Hfree Hr) as (E1 & E2 & E3). cbn. by rewrite E1.
  - intros Hp. by destruct (Hopen Hp).
  - split; cbn [sin sphase_ fetch srv cphase]; [by rewrite push_nothing | done].
Qed.

Lemma tracks_greet raws ms k q s :
  tracks raws ms k q s -> sphase_ s = Greeting -> blocked (out (cw s)) (sin s) = false ->
  follows raws ms k q s 1
    (let '(ready, r) := WaitForHello (sin s) in
     if ready then Ret (fetched s r Serving Reading)
     else Panic "failed to receive HELLO from broker").
Proof.
  intros [Hin Hpairs Hkeeps Hsub Hfree Hopen Hex Hgroup Hout Hinp Hans [Hq Hsrv]] Hs _.
  rewrite Hs in Hsrv. destruct Hsrv as (-> & Hf & Hsrv & ->).
  apply holds_read in Hq as (r & E & Hr).
  unfold WaitForHello, WaitForCommand. rewrite E. cbn.
  eexists raws, ms, 0%nat, _. eexists. split; [reflexivity |]. split.
  - split; cbn [inbox cw cphase sphase_ fetched]; try done.
    split; [exact Hr |]. cbn [sphase_ srv fetch cphase fetched]. rewrite Hsrv.
    split; [done |]. by exists [].
  - unfold ahead. cbn. rewrite Hf. lia.
Qed.

Lemma tracks_fetch raws ms k q s :
  tracks raws ms k q s -> sphase_ s = Serving -> fetch s = Reading ->
  blocked (out (cw s)) (sin s) = false ->
  follows raws ms k q s 1
    (let '(f, r) := fetch_step (sin s) in Ret (fetched s r Serving f)).
Proof.
  intros [Hin Hpairs Hkeeps Hsub Hfree Hopen Hex Hgroup Hout Hinp Hans [Hq Hsrv]] Hs Hf Hb.
  rewrite Hs, Hf in Hsrv. destruct Hsrv as (Hsrv & o & [= <-] & E). rewrite app_nil_l in E.
  destruct q as [| m q].
  { exfalso. revert Hb. unfold blocked. rewrite Hout, (holds_nothing _ Hq). cbn [broken].
    apply (f_equal length) in E. rewrite length_drop, said_length in E.
    by destruct (cphase s); cbn in E; try lia; cbn. }
  apply fetch_next in Hq as (r & -> & Hr).
  eexists raws, ms, k, q. eexists. split; [reflexivity |]. split.
  - split; cbn [inbox cw cphase sphase_ fetched]; try done.
    split; [exact Hr |]. cbn [sphase_ srv fetch cphase fetched]. split; [done |]. by exists [m].
  - unfold ahead. cbn. rewrite Hf. lia.
Qed.

(** Serving the message that was fetched. *)
Lemma drop_said raws ms k ph m q :
  Forall2 travels raws ms -> [m] ++ q = drop (S k) (said ph raws) ->
  (exists raw msg, m = log_frame raw /\ raws !! k = Some raw /\ ms !! k = Some msg /\
     travels raw msg /\ q = drop (S (S k)) (said ph raws)) \/
  m = bye /\ q = [] /\ ph = Exited /\ (length raws <= k)%nat.
Proof.
  intros Hp E. assert (said ph raws !! S k = Some m) as Hm.
  { rewrite <- (Nat.add_0_r (S k)), <- lookup_drop, <- E. done. }
  assert (q = drop (S (S k)) (said ph raws)) as Hq.
  { replace (S (S k)) with (S k + 1)%nat by lia. rewrite <- drop_drop, <- E. done. }
  unfold said in Hm. cbn [lookup list_lookup] in Hm. apply lookup_app_Some in Hm as [Hm | [Hl Hm]].
  - left. rewrite list_lookup_fmap in Hm. destruct (raws !! k) as [raw |] eqn:Hr; [| done].
    injection Hm as <-. destruct (Forall2_lookup_l _ _ _ _ _ Hp Hr) as (msg & Hms & Ht).
    by exists raw, msg.
  - right. rewrite length_fmap in *. destruct ph; try done.
    assert (k - length raws = 0)%nat as Hk.
    { destruct (k - length raws)%nat as [| n]; [done |]. by destruct n. }
    rewrite Hk in Hm. injection Hm as <-. split_and!; [done | | done | done].
    rewrite Hq. apply drop_ge. rewrite said_length. lia.
Qed.

Lemma kept_snoc ms m : kept (ms ++ [m]) = kept ms ++ default [] (keep m).
Proof. unfold kept. rewrite bind_app. cbn. by rewrite app_nil_r. Qed.

Lemma tracks_serve raws ms k q s ev :
  tracks raws ms k q s -> sphase_ s = Serving -> fetch s = Offers ev ->
  follows raws ms k q s 1
    match serve_loop receive [ev] (srv s) with
    | Panic why => Panic why
    | Ret (false, server) => Ret (by_server s server Serving Reading)
    | Ret (true, server) => Ret (by_server s (Servers.deferred server) Returned Reading)
    end.
Proof.
  intros Ht Hs Hf. pose proof (tracks_length _ _ _ _ _ Ht) as Hlen.
  destruct Ht as [Hin Hpairs Hkeeps Hsub Hfree Hopen Hex Hgroup Hout Hinp Hans [Hq Hsrv]].
  rewrite Hs, Hf in Hsrv. destruct Hsrv as (Hsrv & o & Ho & E).
  destruct ev as [m |]; [| done]. injection Ho as <-. rewrite Hsrv.
  destruct (drop_said raws ms k _ m q Hpairs E) as [(raw & msg & -> & Hr & Hms & Htr & Hq') | (-> & -> & Hp & Hk)].
  - rewrite serve_loop_log. pose proof (Forall_lookup_1 _ _ _ _ Hkeeps Hms) as [l Hl].
    rewrite (receive_acknowledges raw msg l _ (proj1 Htr) Hl). cbn [serve_loop Servers.out done_].
    unfold opened at 1. rewrite SendOk_open. apply lookup_lt_Some in Hr as Hk.
    exists raws, ms, (S k), q. eexists. split; [reflexivity |].
    assert (replicate k (frame ok) ++ [frame ok] = replicate (S k) (frame ok)) as Hrep.
    { change [frame ok] with (replicate 1 (frame ok)). rewrite <- replicate_add. f_equal. lia. }
    split; [| unfold ahead; cbn; rewrite Hf; lia].
    split; cbn [inbox cw cphase sphase_ by_server set_inp out rules mgr inp]; try done.
    + intros Hp. by destruct (Hopen Hp).
    + cbn [Servers.out sent]. rewrite Hsrv. cbn [Servers.out opened sent]. rewrite push_one.
      replace (S k + awaited (cphase s) - length raws)%nat
        with ((k + awaited (cphase s) - length raws) + 1)%nat by lia.
      rewrite replicate_add. apply holds_push; [done | | by vm_compute]. split_and!; by vm_compute.
    + lia.
    + split; cbn [sin by_server sphase_ srv fetch cphase]; [done |].
      rewrite Hrep. split; [| by exists []].
      rewrite (take_S_r _ _ _ Hms), kept_snoc, Hl. done.
  - rewrite serve_loop_bye. exists raws, ms, k, []. eexists. split; [reflexivity |].
    split; [| unfold ahead; cbn; rewrite Hf; lia].
    split; cbn [inbox cw cphase sphase_ by_server set_inp out rules mgr inp]; try done.
    + cbn. rewrite Hsrv. cbn. rewrite push_nothing. done.
    + split; cbn [sin by_server sphase_ srv fetch cphase]; [done |].
      rewrite take_ge by lia. rewrite Hp in *. cbn [awaited] in *. split_and!; [done | lia | done | done | done].
Qed.

(** What is on its way is little: HELLO and what follows it, or one message. *)
Lemma travels_fit m raws ms ph :
  Forall2 travels raws ms -> m ∈ (log_frame <$> raws) ++ match ph with Exited => [bye] | _ => [] end ->
  len (frame m) <= room.
Proof.
  intros Hp [Hm | Hm]%elem_of_app.
  - apply list_elem_of_fmap in Hm as (raw & -> & [i Hi]%list_elem_of_lookup).
    by destruct (Forall2_lookup_l _ _ _ _ _ Hp Hi) as (m & _ & _ & _ & Hl).
  - destruct ph; try by apply not_elem_of_nil in Hm. apply list_elem_of_singleton in Hm as ->.
    by vm_compute.
Qed.

Lemma queue_fits raws ms k q s : tracks raws ms k q s -> len (q ≫= frame) <= buffer_size.
Proof.
  intros [_ Hpairs _ _ _ _ _ _ _ _ Hans [_ Hsrv]].
  pose proof (fun m => travels_fit m raws ms (cphase s) Hpairs) as Hfit.
  assert (buffer_size = room + len (frame hello)) as Hb by done.
  assert (len (frame hello) = 11) as H11 by by vm_compute.
  assert (room = 4085) as Hr by apply room_eq.
  assert (length (said (cphase s) raws) <= S (k + 1))%nat as Hlen.
  { rewrite said_length. destruct (cphase s); cbn [awaited] in Hans; lia. }
  destruct (sphase_ s).
  - destruct Hsrv as (-> & _ & _ & ->). unfold said in *.
    destruct ((log_frame <$> raws) ++ _) as [| m [| m' l]]; cbn in Hlen |- *; [..| lia].
    + rewrite app_nil_r. lia.
    + rewrite app_nil_r, len_app. specialize (Hfit m ltac:(by left)). lia.
  - destruct Hsrv as (_ & o & _ & E). apply (f_equal length) in E as El.
    rewrite length_app, length_drop in El. destruct q as [| m [| m' l]]; cbn [length] in El; [done | | lia].
    cbn [mbind list_bind].
    rewrite app_nil_r. assert (m ∈ drop (S k) (said (cphase s) raws)) as Hm.
    { rewrite <- E. apply elem_of_app. right. by left. }
    unfold said in Hm. cbn [drop] in Hm. specialize (Hfit m (subseteq_drop _ _ _ Hm)). lia.
  - destruct Hsrv as (_ & _ & _ & -> & _). done.
Qed.

Lemma tracks_join_server raws ms k q s i evs :
  tracks raws ms k q s -> join i (rd (sin s)) = Some evs ->
  follows raws ms k q s 0 (Ret (to_server s evs)).
Proof.
  intros Ht Hj. pose proof (queue_fits _ _ _ _ _ Ht) as Hfit.
  destruct Ht as [Hin Hpairs Hkeeps Hsub Hfree Hopen Hex Hgroup Hout Hinp Hans [Hq Hsrv]].
  exists raws, ms, k, q. eexists. split; [reflexivity |]. split; [| unfold ahead; cbn; lia].
  split; cbn [inbox cw cphase sphase_ fetched to_server]; try done.
  split; [| done]. by eapply holds_join.
Qed.

Lemma tracks_join_connector raws ms k q s i evs :
  tracks raws ms k q s -> join i (rd (inp (cw s))) = Some evs ->
  follows raws ms k q s 0 (Ret (to_connector s evs)).
Proof.
  intros [Hin Hpairs Hkeeps Hsub Hfree Hopen Hex Hgroup Hout Hinp Hans [Hq Hsrv]] Hj.
  exists raws, ms, k, q. eexists. split; [reflexivity |]. split; [| unfold ahead; cbn; lia].
  split; cbn [inbox cw cphase sphase_ to_connector]; try done.
  - intros Hp. by destruct (Hopen Hp).
  - eapply holds_join; [exact Hinp | | exact Hj].
    destruct (_ - _)%nat as [| [| n]] eqn:E; [by vm_compute.. |]. exfalso.
    revert E. destruct (cphase s); cbn [awaited] in *; lia.
Qed.

Definition cost (a : action) : nat := if progresses a then 1 else 0.

(** Every step that is enabled goes on to a state of the same kind. *)
Lemma tracks_exec raws ms k q s a o :
  intact a -> tracks raws ms k q s -> exec name a s = Some o -> follows raws ms k q s (cost a) o.
Proof.
  intros Ha Ht. destruct a as [| | | i ct tt' now order | | | | [] i | b i n]; cbn [exec cost progresses].
  - destruct (cphase s) eqn:Hp, (inbox s) eqn:Hi; try done. intros [= <-]. by eapply tracks_take.
  - destruct (cphase s) eqn:Hp; try done. destruct (blocked _ _) eqn:Hb; [done |].
    intros [= <-]. by eapply tracks_answer.
  - destruct (cphase s) eqn:Hp, (inbox s) eqn:Hi; try done. intros [= <-]. by apply tracks_stop.
  - intros [= <-]. by apply tracks_tick.
  - destruct (sphase_ s) eqn:Hs; try done. destruct (blocked _ _) eqn:Hb; [done |].
    intros E. pose proof (tracks_greet _ _ _ _ _ Ht Hs Hb) as Hg.
    destruct (WaitForHello (sin s)). by injection E as <-.
  - destruct (sphase_ s) eqn:Hs, (fetch s) eqn:Hf; try done. destruct (blocked _ _) eqn:Hb; [done |].
    intros E. pose proof (tracks_fetch _ _ _ _ _ Ht Hs Hf Hb) as Hg.
    destruct (fetch_step (sin s)). by injection E as <-.
  - destruct (sphase_ s) eqn:Hs, (fetch s) eqn:Hf; try done. intros [= <-]. by eapply tracks_serve.
  - destruct (join _ _) as [evs |] eqn:Hj; [| done]. intros [= <-]. by eapply tracks_join_server.
  - destruct (join _ _) as [evs |] eqn:Hj; [| done]. intros [= <-]. by eapply tracks_join_connector.
  - by destruct Ha.
Qed.

Lemma tracks_play raws ms k q s tr o :
  Forall intact tr -> tracks raws ms k q s -> play name tr s = Some o ->
  follows raws ms k q s (sum_list_with cost tr) o.
Proof.
  intros Hi. revert raws ms k q s. induction Hi as [| a tr Ha _ IH]; intros raws ms k q s Ht; cbn [play].
  { intros [= <-]. exists raws, ms, k, q, s. split_and!; [done.. | cbn; lia]. }
  destruct (exec name a s) as [o1 |] eqn:E; [| done].
  destruct (tracks_exec _ _ _ _ _ _ _ Ha Ht E) as (raws1 & ms1 & k1 & q1 & s1 & -> & Ht1 & Hc1).
  intros Hplay. destruct (IH _ _ _ _ _ Ht1 Hplay) as (raws2 & ms2 & k2 & q2 & s2 & -> & Ht2 & Hc2).
  exists raws2, ms2, k2, q2, s2. split_and!; [done.. |]. cbn [sum_list_with]. lia.
Qed.

(** When no goroutine can go on, both ends have returned. *)
Lemma tracks_stuck raws ms k q s :
  tracks raws ms k q s -> (forall a, progresses a = true -> exec name a s = None) ->
  cphase s = Exited /\ sphase_ s = Returned.
Proof.
  intros [_ _ _ _ _ _ _ _ Hout Hinp Hans [Hq Hsrv]] Hstuck.
  assert (cphase s = Exited -> blocked (out (cw s)) (sin s) = false) as Hclosed.
  { intros Hp. unfold blocked. by rewrite Hout, Hp. }
  destruct (sphase_ s) eqn:Hs.
  - destruct Hsrv as (_ & _ & _ & Hq'). specialize (Hstuck Greet eq_refl). revert Hstuck.
    cbn [exec]. rewrite Hs. rewrite Hq' in Hq. rewrite (holds_ready _ _ _ _ Hq).
    by destruct (WaitForHello _).
  - destruct Hsrv as (Hsrv & o & Ho & E). destruct (fetch s) as [| ev |] eqn:Hf; [| | done].
    + pose proof (Hstuck Fetch eq_refl) as Hfetch. cbn [exec] in Hfetch. rewrite Hs, Hf in Hfetch.
      destruct (blocked (out (cw s)) (sin s)) eqn:Hb; [| by destruct (fetch_step _)].
      destruct q as [| m q]; [| by rewrite (holds_ready _ _ _ _ Hq) in Hb].
      injection Ho as <-. apply (f_equal length) in E. rewrite length_drop, said_length in E.
      pose proof (Hstuck Take eq_refl) as Htake. pose proof (Hstuck Stop eq_refl) as Hstop.
      pose proof (Hstuck Answer eq_refl) as Hanswer. cbn [exec] in Htake, Hstop, Hanswer.
      destruct (cphase s) as [| raw |]; [by destruct (inbox s) | | by specialize (Hclosed eq_refl)].
      cbn in E. cbn [awaited] in *. replace (k + 1 - length raws)%nat with 1%nat in Hinp by lia.
      by rewrite (holds_ready _ _ ok [] Hinp) in Hanswer.
    + specialize (Hstuck Serve eq_refl). cbn [exec] in Hstuck. by rewrite Hs, Hf in Hstuck.
  - by destruct Hsrv as (Hp & _).
Qed.

Lemma start_tracks :
  Forall accepted datas -> len datas <= InFlightWaitGroup (mgr w0) ->
  is_u64 (MessagesInFlight_ (mgr w0)) -> 0 < TargetWaitGroup (mgr w0) -> out w0 = opened [] ->
  exists s0, start name target datas w0 = Ret s0 /\
    tracks [] [] 0 [hello] s0 /\ ahead [hello] s0 = (4 * length datas + 5)%nat.
Proof.
  intros Hacc Hfl Hc Hg Ho.
  destruct (session_opens name target w0 (len datas)) as (w1 & Hw1 & Ho1 & Hr1 & Hg1 & Hf1 & E);
    [by split | done |].
  eexists. split.
  { unfold start. rewrite E. cbn [target_loop]. unfold set_state, mmodify. rewrite Ho. reflexivity. }
  cbn [set_mon out set_inp sent opened]. rewrite Ho1.
  change [frame hello] with ([] ++ [frame hello]). cbn [opened sent]. rewrite push_one.
  split; [| unfold ahead; cbn [inbox cphase fetch length]; lia].
  split; cbn [inbox cw cphase sphase_ set_inp set_mon out mgr rules inp awaited exits]; try done.
  - intros Hr. rewrite Hr1, Hf1. split_and!; [done.. |]. change (len []) with 0. lia.
  - intros _. rewrite Z.add_0_r. destruct Hw1. by split.
  - lia.
  - apply holds_new.
  - split; cbn [sphase_ fetch srv cphase sin]; [| done].
    apply (holds_push (NewReader []) [] hello); [apply holds_new | | by vm_compute].
    split_and!; by vm_compute.
Qed.
End Runs.

(** The steps of a message are an iteration of the loop of the handler. *)
Lemma iteration_in_steps `{MapOrder} name data w :
  target_iteration name (Inbound data) w
  = match take_step name data w with
    | Ret (Idle, w1) => Ret (true, w1)
    | Ret (Exited, w1) => Ret (false, w1)
    | Ret (Awaits rawData, w1) =>
        match answer_step rawData w1 with
        | Ret (Exited, w2) => Ret (false, w2)
        | Ret (_, w2) => Ret (true, w2)
        | Panic why => Panic why
        end
    | Panic why => Panic why
    end.
Proof.
  rewrite <- (set_inp_id w) at 1. rewrite iteration_waits, take_step_begins. cbn [target_select].
  rewrite target_receive_split. unfold mbind_ at 1.
  destruct (target_begin _ _ _) as [[[[] | raw] w1] | why]; [done | | | done].
  - unfold leave, target_resume, mbind_, deferred, mmodify, mreturn.
    by destruct (on_mgr _ _) as [[] |].
  - cbn [target_resume]. unfold answer_step, mbind_.
    destruct (wait_for_ok w1) as [[okay w2] | why]; [| done].
    destruct (target_finish raw okay w2) as [[[] w3] | why]; [done | | done].
    unfold leave, mbind_, deferred, mmodify, mreturn. by destruct (on_mgr _ _) as [[] |].
Qed.

(** C7. The two ends of a connection as they run, step by step: the connector and
    the server of a target (of any of the three kinds), with the reading
    goroutine of the server, in any interleaving, whatever the network joins
    into one segment and whenever the limiters tick, for messages that both can
    handle and whose frames are at most [room], 4085 bytes, long, and as long as
    the network cuts no segment in two.  No goroutine panics; the
    goroutines take at most four steps per message and five more; and where none
    of them can go on, both have returned, every message that passed the rules
    was handled by the server in order and answered once, every answer was read,
    and without rules that is every message, with its token given back. *)
Theorem link_completes `{MapOrder} {A} `{!Receiver A} name target datas w0 :
  Forall (accepted name) datas -> len datas <= InFlightWaitGroup (mgr w0) ->
  is_u64 (MessagesInFlight_ (mgr w0)) -> 0 < TargetWaitGroup (mgr w0) -> out w0 = opened [] ->
  exists s0, start name target datas w0 = Ret s0 /\
    forall tr o, Forall intact tr -> play name tr s0 = Some o ->
      exists s, o = Ret s /\ (sum_list_with cost tr <= 4 * length datas + 5)%nat /\
        ((forall a, progresses a = true -> exec name a s = None) ->
         exists ms,
           ms `sublist_of` outgoing name datas /\
           (RateLimitRules target = [] -> ms = outgoing name datas /\
              InFlightWaitGroup (mgr (cw s)) = InFlightWaitGroup (mgr w0) - len datas) /\
           inbox s = [] /\ cphase s = Exited /\ sphase_ s = Returned /\
           srv s = answered (length ms) (kept ms) /\
           (ReadMessage (inp (cw s))).1.2 = Some (IoErr EOF) /\
           TargetWaitGroup (mgr (cw s)) = TargetWaitGroup (mgr w0) - 1).
Proof.
  intros Hacc Hfl Hc Hg Ho.
  destruct (start_tracks name target datas w0 Hacc Hfl Hc Hg Ho) as (s0 & E0 & Ht0 & Ha0).
  exists s0. split; [done |]. intros tr o Hi Hplay.
  destruct (tracks_play _ _ _ _ _ _ _ _ _ _ _ Hi Ht0 Hplay) as (raws & ms & k & q & s & -> & Ht & Hcost).
  exists s. split; [done |]. split; [lia |]. intros Hstuck.
  destruct (tracks_stuck _ _ _ _ _ _ _ _ _ Ht Hstuck) as [Hp Hs].
  pose proof (tracks_length _ _ _ _ _ _ _ _ _ Ht) as Hlen.
  destruct Ht as [_ _ _ Hsub Hfree _ Hex Hgroup _ Hinp Hans [_ Hsrv]].
  rewrite (Hex Hp), Hs, Hp in *. destruct Hsrv as (_ & -> & _ & _ & Hsrv). rewrite app_nil_r in *.
  cbn [awaited exits] in *. rewrite Nat.add_0_r, Nat.sub_diag in Hinp.
  exists ms. split_and!; try done.
  - intros Hr. destruct (Hfree Hr) as (_ & -> & ->). rewrite outgoing_len. split; [done | lia].
  - by rewrite Hsrv, Hlen.
  - by apply holds_nothing.
Qed.

(** ** A concrete run *)
#[local] Existing Instance default_order.
#[local] Existing Instance stdout_receiver.

(** Two messages; the HELLO and the first log arrive in one segment. *)
Definition demo_run : list action :=
  [Take; Join true 0; Greet; Fetch; Tick 0 0 0 (fun _ => 0) []; Serve; Answer;
   Take; Fetch; Serve; Answer; Stop; Fetch; Serve].

Lemma link_completes_witness :
  exists s0 s, start "a" quiet_target [demo_data; demo_data] pair_world = Ret s0 /\
    play "a" demo_run s0 = Some (Ret s) /\ (sum_list_with cost demo_run <= 13)%nat /\
    srv s = answered 2 (replicate 2 (BrokerToTarget "a" demo_item)).
Proof.
  destruct (link_completes "a" quiet_target [demo_data; demo_data] pair_world)
    as (s0 & E0 & Hrun).
  1: repeat constructor; (exact demo_carried || by eexists).
  1: by apply Z.leb_le.
  1-3: done.
  assert (exists o, play "a" demo_run s0 = Some o /\
            match o with
            | Ret s => cphase s = Exited /\ sphase_ s = Returned
            | Panic _ => False
            end) as (o & Ho & Hd).
  { injection E0 as <-. eexists. split; [by vm_compute |]. by vm_compute. }
  assert (Forall intact demo_run) as Hi by by repeat constructor.
  destruct (Hrun _ _ Hi Ho) as (s & -> & Hcost & Hend). destruct Hd as [Hp Hs].
  exists s0, s. split_and!; [done | done | exact Hcost |].
  destruct Hend as (ms & _ & Hms & _ & _ & _ & Hsrv & _).
  { intros [] Ha; try done; cbn [exec]; rewrite ?Hp, ?Hs; done. }
  rewrite Hsrv. destruct (Hms eq_refl) as [-> _]. by vm_compute.
Defined.
