(* ===== verification/SourceLink.v ===== *)
(** * A source connector and the Nomad server, step by step

    The counterpart of [Link] on the other side of the broker: the server of
    [src/source/nomad/server.go], which sends a log and waits for its OK, the
    goroutine of [ReadToChannel] and the source connector, which acknowledges
    an item before it hands it to a worker. *)
From S2P Require Import Prelude Wire Text Message Bufio Protocol Pipe Limiter Monitoring Config.
From S2P Require Import Servers.
From S2P Require Import Connector Worker Session.

#[local] Arguments ProtobufToBroker : simpl never.
#[local] Arguments ProtobufToSource : simpl never.
#[local] Arguments ToProtobuf : simpl never.
#[local] Arguments frame : simpl never.
#[local] Arguments ReadMessage : simpl never.

(** ** The system *)

(** The server: in [WaitForHello], at the channel of the logs, in [WaitForOk],
    or returned. *)
Inductive nphase := Greeting | Ships | AwaitsOk | Returned.

(** The connector: at its [select], at the send on [Outbound], or returned. *)
Inductive cphase := Listens | Hands (data : list byte) | Exited.

(** The logs that the client still has, the two goroutines with what they read,
    and what the workers have taken. *)
Record slink := {
  logs : list SourceMessage;
  nconn : conn;
  nin : reader;
  nphase_ : nphase;
  cw : world;
  cphase_ : cphase;
  fetch : fetcher;
  handed : list (list byte);
}.

Inductive action :=
  | Greet | Ship | Confirm | Fetch | Receive | HandOver | Halt
  | Join (to_server : bool) (i : nat)
  | Cut (to_server : bool) (i n : nat).

(** A step of one of the goroutines, the broker not being stopped. *)
Definition progresses (a : action) : bool :=
  match a with Halt | Join _ _ | Cut _ _ _ => false | _ => true end.

(** A step in which the broker is not stopped and the network does not cut a
    segment. *)
Definition calm (a : action) : Prop := match a with Halt | Cut _ _ _ => False | _ => True end.

Section SourceLink.
Context `{MapOrder}.
Context (name : string) (source : Source).

(** The sends of one iteration. *)
Definition unsent (w : world) : world :=
  {| mgr := mgr w; mon := mon w; self := self w; rules := rules w; out := out w;
     inp := inp w; sends := [] |}.

(** The server after its part of a step. *)
Definition by_server (ls : list SourceMessage) (c : conn) (r : reader) (ph : nphase) (s : slink)
    : slink :=
  {| logs := ls; nconn := c; nin := r; nphase_ := ph;
     cw := set_inp (push (sent (nconn s)) (sent c) (inp (cw s))) (cw s);
     cphase_ := cphase_ s; fetch := fetch s; handed := handed s |}.

(** The connector after its part of a step. *)
Definition by_connector (w : world) (ph : cphase) (f : fetcher) (s : slink) : slink :=
  {| logs := logs s; nconn := nconn s;
     nin := push (sent (out (cw s))) (sent (out w)) (nin s);
     nphase_ := nphase_ s; cw := w; cphase_ := ph; fetch := f; handed := handed s |}.

(** The network has done something to what is on its way to the server, or to
    the connector. *)
Definition to_server (evs : list net_event) (s : slink) : slink :=
  by_server (logs s) (nconn s) {| buf := buf (nin s); rd := evs |} (nphase_ s) s.

Definition to_connector (evs : list net_event) (s : slink) : slink :=
  by_connector (set_inp {| buf := buf (inp (cw s)); rd := evs |} (cw s)) (cphase_ s) (fetch s) s.

(** An iteration of the loop of the connector. *)
Definition turn (event : source_event) (f : fetcher) (s : slink) : outcome slink :=
  match source_iteration name (Source_Targets_ source) event (unsent (cw s)) with
  | Panic why => Panic why
  | Ret (continue, w) =>
      let ph := if continue then match sends w with
                                 | (_, data) :: _ => Hands data
                                 | [] => Listens
                                 end
                else Exited in
      Ret (by_connector w ph f s)
  end.

Definition to_event (ev : Message + read_error) : source_event :=
  match ev with inl msg => Received msg | inr err => ReadError (Some err) end.

(** One step: [None] when it is not enabled.  [Halt] is the stop signal. *)
Definition exec (a : action) (s : slink) : option (outcome slink) :=
  match a with
  | Greet =>
      match nphase_ s with
      | Greeting =>
          if blocked (out (cw s)) (nin s) then None
          else let '(ready, r) := WaitForHello (nin s) in
               Some (Ret (if ready then by_server (logs s) (nconn s) r Ships s
                          else by_server (logs s) (conn_close (nconn s)) r Returned s))
      | _ => None
      end
  | Ship =>
      match nphase_ s, logs s with
      | Ships, log :: ls =>
          Some match nomad_send log (nconn s) with
               | Ret c => Ret (by_server ls c (nin s) AwaitsOk s)
               | Panic why => Panic why
               end
      | _, _ => None
      end
  | Confirm =>
      match nphase_ s with
      | AwaitsOk =>
          if blocked (out (cw s)) (nin s) then None
          else let '(ok, r) := WaitForOk (nin s) in
               Some (if ok then Ret (by_server (logs s) (nconn s) r Ships s)
                     else match logs s with
                          | [] => Ret (by_server [] (conn_close (nconn s)) r Returned s)
                          | _ :: _ => Panic "send on closed channel"
                          end)
      | _ => None
      end
  | Fetch =>
      match cphase_ s, fetch s with
      | Exited, _ => None
      | _, Reading =>
          if blocked (nconn s) (inp (cw s)) then None
          else let '(f, r) := fetch_step (inp (cw s)) in
               Some (Ret (by_connector (set_inp r (cw s)) (cphase_ s) f s))
      | _, _ => None
      end
  | Receive =>
      match cphase_ s, fetch s with
      | Listens, Offers ev => Some (turn (to_event ev) Reading s)
      | _, _ => None
      end
  | HandOver =>
      match cphase_ s with
      | Hands data =>
          Some (Ret {| logs := logs s; nconn := nconn s; nin := nin s; nphase_ := nphase_ s;
                       cw := cw s; cphase_ := Listens; fetch := fetch s;
                       handed := handed s ++ [data] |})
      | _ => None
      end
  | Halt =>
      match cphase_ s with Listens => Some (turn StopSource (fetch s) s) | _ => None end
  | Join true i => evs ← join i (rd (nin s)); Some (Ret (to_server evs s))
  | Join false i => evs ← join i (rd (inp (cw s))); Some (Ret (to_connector evs s))
  | Cut true i n => evs ← cut i n (rd (nin s)); Some (Ret (to_server evs s))
  | Cut false i n => evs ← cut i n (rd (inp (cw s))); Some (Ret (to_connector evs s))
  end.

Fixpoint play (tr : list action) (s : slink) : option (outcome slink) :=
  match tr with
  | [] => Some (Ret s)
  | a :: tr => match exec a s with Some (Ret s) => play tr s | o => o end
  end.

(** The connection is open, the connector has come to its [select], the server
    has accepted, and the client is going to send the logs [items]. *)
Definition start (items : list SourceMessage) (w : world) : outcome slink :=
  match source_handle name source None [] (set_inp (NewReader []) w) with
  | Panic why => Panic why
  | Ret (_, w') =>
      Ret {| logs := items; nconn := opened [];
             nin := push (sent (out w)) (sent (out w')) (NewReader []); nphase_ := Greeting;
             cw := w'; cphase_ := Listens; fetch := Reading; handed := [] |}
  end.
End SourceLink.

(** ** The steps *)
Section Runs.
Context `{MapOrder}.
Context (name : string) (source : Source) (items : list SourceMessage) (w0 : world).
Notation targets := (Source_Targets_ source).
Context (Hitems : Forall (sendable name targets) items).
Context (Hname : utf8_string name) (Htargets : Forall utf8_string targets).

(** The bytes that a worker gets stand for the item. *)
Definition stands_for (data : list byte) (item : SourceMessage) : Prop :=
  ProtobufToBroker data = (SourceToBroker name targets item, None).

Lemma ignores_source_receive msg : ignores_input (source_receive name targets msg).
Proof.
  unfold source_receive. ignore; try apply ignores_modify; try done; apply ignores_on_mgr.
Qed.

(** The connector takes an item. *)
Lemma turn_item item f s sent0 :
  sendable name targets item -> 0 <= InFlightWaitGroup (mgr (cw s)) -> out (cw s) = opened sent0 ->
  exists data w, turn name source (Received (item_message item)) f s
                 = Ret (by_connector w (Hands data) f s) /\
    stands_for data item /\ inp w = inp (cw s) /\ out w = opened (sent0 ++ [frame ok]) /\
    InFlightWaitGroup (mgr w) = InFlightWaitGroup (mgr (cw s)) + len targets.
Proof.
  intros Hi Hwg Ho. set (w := set_mon (SetState "waiting") (unsent (cw s))).
  pose proof (source_receive_item name targets (item_message item) item w sent0 Hwg
    (item_decodes _ _ _ Hi) (sd_wf _ _ _ Hi) (sd_marshals _ _ _ Hi) Hname Htargets
    (sd_broker _ _ _ Hi) Ho) as E. cbn [Command item_message] in E.
  destruct E as (data & w1 & E & Hd & Hf & _ & Hs & Ho1 & _).
  pose proof (ignores_source_receive (item_message item) (inp w) w) as Hinp.
  rewrite set_inp_id in Hinp. unfold item_message in E, Hinp. rewrite E in Hinp.
  injection Hinp as Hinp. apply (f_equal inp) in Hinp.
  exists data, w1. split_and!; [| done..].
  unfold turn, source_iteration, set_state. unfold mbind_ at 1, mmodify.
  change (set_mon (SetState "waiting") (unsent (cw s))) with w. cbn [source_select].
  unfold item_message, mbind_, mreturn. rewrite E. by rewrite Hs.
Qed.

Definition pending (ph : cphase) : list (list byte) :=
  match ph with Hands data => [data] | _ => [] end.

(** The server has sent [k] items, the connector has taken [j] of them, and the
    messages [q] are on their way to it. *)
Record tracks (k j : nat) (q : list Message) (s : slink) : Prop := {
  t_sent : (k <= length items)%nat;
  t_logs : logs s = drop k items;
  t_nconn : nconn s = opened (item_frame <$> take k items);
  t_server : match nphase_ s with
             | Greeting => k = O /\ j = O /\ holds (nin s) [hello]
             | Ships => j = k /\ holds (nin s) []
             | AwaitsOk => (1 <= k)%nat /\ (j <= k <= S j)%nat /\
                           holds (nin s) (replicate (S j - k) ok)
             | Returned => False
             end;
  t_queue : holds (inp (cw s)) q;
  t_fetch : exists o, offered (fetch s) = Some o /\ o ++ q = item_message <$> drop j (take k items);
  t_out : out (cw s) = opened (frame hello :: replicate j (frame ok));
  t_handed : Forall2 stands_for (handed s ++ pending (cphase_ s)) (take j items);
  t_phase : cphase_ s <> Exited;
  t_flight : InFlightWaitGroup (mgr (cw s)) = InFlightWaitGroup (mgr w0) + len targets * Z.of_nat j;
}.

Definition ahead (q : list Message) (s : slink) : nat :=
  5 * length (logs s) + match nphase_ s with Greeting | AwaitsOk => 1 | _ => 0 end
  + 3 * length q + match fetch s with Offers _ => 2 | _ => 0 end + length (pending (cphase_ s)).

Definition follows (q : list Message) (s : slink) (cost : nat) (o : outcome slink) : Prop :=
  exists k j q' s', o = Ret s' /\ tracks k j q' s' /\ (ahead q' s' + cost <= ahead q s)%nat.

Lemma ok_holds r ms : holds r ms ->
  holds {| buf := buf r; rd := rd r ++ [Segment (frame ok)] |} (ms ++ [ok]).
Proof. intros Hr. apply holds_push; [done | split_and!; by vm_compute | by vm_compute]. Qed.

Lemma source_tracks_greet k j q s :
  tracks k j q s -> nphase_ s = Greeting ->
  follows q s 1
    (let '(ready, r) := WaitForHello (nin s) in
     Ret (if ready then by_server (logs s) (nconn s) r Ships s
          else by_server (logs s) (conn_close (nconn s)) r Returned s)).
Proof.
  intros [Hsent Hlogs Hn Hsrv Hq Hf Ho Hh Hp Hfl] Hph. rewrite Hph in Hsrv.
  destruct Hsrv as (-> & -> & Hr). apply holds_read in Hr as (r & E & Hr).
  unfold WaitForHello, WaitForCommand. rewrite E. cbn.
  exists 0%nat, 0%nat, q. eexists. split; [reflexivity |]. split; [| unfold ahead; cbn; rewrite Hph; lia].
  split; cbn [logs nconn nphase_ nin by_server cw fetch handed cphase_]; try done.
  cbn [inp set_inp]. by rewrite push_nothing.
Qed.

Lemma tracks_ship k j q s log ls :
  tracks k j q s -> nphase_ s = Ships -> logs s = log :: ls ->
  follows q s 1 match nomad_send log (nconn s) with
                | Ret c => Ret (by_server ls c (nin s) AwaitsOk s)
                | Panic why => Panic why
                end.
Proof.
  intros [Hsent Hlogs Hn Hsrv Hq (o & Hof & E) Ho Hh Hp Hfl] Hph Hl. rewrite Hph in Hsrv.
  destruct Hsrv as (-> & Hr). rewrite Hl in Hlogs.
  assert (items !! k = Some log) as Hk
    by (by rewrite <- (Nat.add_0_r k), <- lookup_drop, <- Hlogs).
  pose proof (Forall_lookup_1 _ _ _ _ Hitems Hk) as Hi. apply lookup_lt_Some in Hk as Hlt.
  rewrite Hn. unfold opened. rewrite nomad_send_frame by apply Hi.
  exists (S k), k, (q ++ [item_message log]). eexists. split; [reflexivity |].
  assert (ls = drop (S k) items) as Hls.
  { replace (S k) with (k + 1)%nat by lia. by rewrite <- drop_drop, <- Hlogs. }
  split; [| unfold ahead; cbn [logs nphase_ fetch cphase_ by_server];
            rewrite Hph, Hl, length_app; cbn [length]; lia].
  split; cbn [logs nconn nphase_ nin by_server cw fetch handed cphase_]; try done.
  - rewrite (take_S_r _ _ _ Hk), fmap_app. done.
  - split_and!; [lia | lia | lia |]. by rewrite Nat.sub_diag.
  - cbn [inp set_inp sent]. rewrite Hn. cbn [opened sent]. rewrite push_one.
    apply (holds_push _ _ (item_message log)); [done | apply Hi | apply Hi].
  - exists o. split; [done |]. rewrite app_assoc, E, (take_S_r _ _ _ Hk).
    rewrite drop_app_le by (rewrite length_take; lia). by rewrite fmap_app.
Qed.

Lemma tracks_confirm k j q s :
  tracks k j q s -> nphase_ s = AwaitsOk -> blocked (out (cw s)) (nin s) = false ->
  follows q s 1
    (let '(ok, r) := WaitForOk (nin s) in
     if ok then Ret (by_server (logs s) (nconn s) r Ships s)
     else match logs s with
          | [] => Ret (by_server [] (conn_close (nconn s)) r Returned s)
          | _ :: _ => Panic "send on closed channel"
          end).
Proof.
  intros [Hsent Hlogs Hn Hsrv Hq Hf Ho Hh Hp Hfl] Hph Hb. rewrite Hph in Hsrv.
  destruct Hsrv as (Hk1 & Hk & Hr).
  assert (j = k) as ->.
  { destruct (decide (j = k)) as [| Hne]; [done | exfalso]. revert Hb.
    replace (S j - k)%nat with 0%nat in Hr by lia.
    by rewrite (holds_blocks _ _ Hr) by by rewrite Ho. }
  replace (S k - k)%nat with 1%nat in Hr by lia. apply holds_read in Hr as (r & E & Hr).
  unfold WaitForOk, WaitForCommand. rewrite E. cbn.
  exists k, k, q. eexists. split; [reflexivity |]. split; [| unfold ahead; cbn; rewrite Hph; lia].
  split; cbn [logs nconn nphase_ nin by_server cw fetch handed cphase_]; try done.
  cbn [inp set_inp]. by rewrite push_nothing.
Qed.

Lemma source_tracks_fetch k j q s :
  tracks k j q s -> fetch s = Reading -> blocked (nconn s) (inp (cw s)) = false ->
  follows q s 1 (let '(f, r) := fetch_step (inp (cw s)) in
                 Ret (by_connector (set_inp r (cw s)) (cphase_ s) f s)).
Proof.
  intros [Hsent Hlogs Hn Hsrv Hq (o & Hof & E) Ho Hh Hp Hfl] Hf Hb. rewrite Hf in Hof.
  injection Hof as <-. destruct q as [| m q].
  { exfalso. by rewrite (holds_blocks _ _ Hq) in Hb by by rewrite Hn. }
  apply fetch_next in Hq as (r & -> & Hr).
  exists k, j, q. eexists. split; [reflexivity |].
  split; [| unfold ahead; cbn [logs nphase_ fetch cphase_ by_connector]; rewrite Hf; cbn [length]; lia].
  split; cbn [logs nconn nphase_ nin by_connector cw fetch handed cphase_ set_inp inp out mgr];
    rewrite ?push_nothing; try done.
  by exists [m].
Qed.

Lemma tracks_receive k j q s ev :
  0 <= InFlightWaitGroup (mgr w0) ->
  tracks k j q s -> cphase_ s = Listens -> fetch s = Offers ev ->
  follows q s 1 (turn name source (to_event ev) Reading s).
Proof.
  intros Hwg [Hsent Hlogs Hn Hsrv Hq (o & Hof & E) Ho Hh Hp Hfl] Hc Hf. rewrite Hf in Hof.
  destruct ev as [m |]; [| done]. injection Hof as <-.
  assert (exists item, items !! j = Some item /\ (j < k)%nat /\ m = item_message item /\
    q = item_message <$> drop (S j) (take k items)) as (item & Hj & Hjk & -> & Hq').
  { destruct (drop j (take k items)) as [| item l] eqn:Hd; [done |]. cbn in E. injection E as -> ->.
    assert (take k items !! j = Some item) as Hi
      by (by rewrite <- (Nat.add_0_r j), <- lookup_drop, Hd).
    apply lookup_take_Some in Hi as [Hi Hlt]. exists item. split_and!; [done.. |].
    replace (S j) with (j + 1)%nat by lia. by rewrite <- drop_drop, Hd. }
  pose proof (Forall_lookup_1 _ _ _ _ Hitems Hj) as Hi. pose proof (len_nonneg targets).
  destruct (turn_item item Reading s (frame hello :: replicate j (frame ok)) Hi)
    as (data & w & Et & Hd & Hin & Hout & Hfl'); [rewrite Hfl; lia | done |].
  cbn [to_event]. rewrite Et. exists k, (S j), q. eexists. split; [reflexivity |].
  assert (replicate (S j) (frame ok) = replicate j (frame ok) ++ [frame ok]) as Hrep.
  { change [frame ok] with (replicate 1 (frame ok)). rewrite <- replicate_add. f_equal. lia. }
  split; [| unfold ahead; cbn [logs nphase_ fetch cphase_ by_connector]; rewrite Hf, Hc; cbn; lia].
  split; cbn [logs nconn nphase_ nin by_connector cw fetch handed cphase_]; try done.
  - rewrite Hout, Ho. cbn [opened sent]. rewrite push_one.
    destruct (nphase_ s); [destruct Hsrv; lia | destruct Hsrv; lia | | done].
    destruct Hsrv as (Hk1 & Hk & Hr). split_and!; [lia.. |].
    replace (S (S j) - k)%nat with ((S j - k) + 1)%nat by lia. rewrite replicate_add. by apply ok_holds.
  - by rewrite Hin.
  - by exists [].
  - rewrite Hout. cbn [app]. by rewrite Hrep.
  - rewrite Hc in Hh. cbn [pending] in *. rewrite app_nil_r in Hh. rewrite (take_S_r _ _ _ Hj).
    by apply Forall2_app, Forall2_cons.
  - rewrite Hfl', Hfl. lia.
Qed.

Lemma tracks_hand_over k j q s data :
  tracks k j q s -> cphase_ s = Hands data ->
  follows q s 1
    (Ret {| logs := logs s; nconn := nconn s; nin := nin s; nphase_ := nphase_ s;
            cw := cw s; cphase_ := Listens; fetch := fetch s; handed := handed s ++ [data] |}).
Proof.
  intros [Hsent Hlogs Hn Hsrv Hq Hf Ho Hh Hp Hfl] Hc.
  exists k, j, q. eexists. split; [reflexivity |].
  split; [| unfold ahead; cbn [logs nphase_ fetch cphase_]; rewrite Hc; cbn; lia].
  split; cbn; try done. rewrite Hc in Hh. cbn in Hh. by rewrite app_nil_r.
Qed.

(** At most one message is on its way in each direction. *)
Lemma tracks_ahead k j q s : tracks k j q s -> (j <= k <= S j)%nat.
Proof.
  intros [_ _ _ Hsrv _ _ _ _ _ _]. destruct (nphase_ s); [.. | done].
  - destruct Hsrv as (-> & -> & _). lia.
  - destruct Hsrv as (-> & _). lia.
  - by destruct Hsrv as (_ & Hk & _).
Qed.

Lemma source_queue_fits k j q s : tracks k j q s -> len (q ≫= frame) <= buffer_size.
Proof.
  intros Ht. pose proof (tracks_ahead _ _ _ _ Ht) as Hk.
  destruct (t_fetch _ _ _ _ Ht) as (o & _ & E). apply (f_equal length) in E as El.
  rewrite length_app, length_fmap, length_drop, length_take in El.
  destruct q as [| m [| m' q]]; cbn [length] in El; [done | | lia].
  cbn [mbind list_bind]. rewrite app_nil_r.
  assert (m ∈ item_message <$> drop j (take k items)) as Hm.
  { rewrite <- E. apply elem_of_app. right. by left. }
  apply list_elem_of_fmap in Hm as (item & -> & Hin).
  apply subseteq_drop, subseteq_take in Hin. rewrite list.Forall_forall in Hitems.
  apply (Hitems item Hin).
Qed.

Lemma source_tracks_join_server k j q s i evs :
  tracks k j q s -> join i (rd (nin s)) = Some evs ->
  follows q s 0 (Ret (to_server evs s)).
Proof.
  intros [Hsent Hlogs Hn Hsrv Hq Hf Ho Hh Hp Hfl] Hj.
  exists k, j, q. eexists. split; [reflexivity |]. split; [| unfold ahead; cbn; lia].
  split; cbn [logs nconn nphase_ nin to_server by_server cw fetch handed cphase_ inp set_inp];
    rewrite ?push_nothing; try done.
  destruct (nphase_ s); [| | | done].
  - destruct Hsrv as (-> & -> & Hr). split_and!; [done.. |]. by eapply holds_join; [exact Hr | |].
  - destruct Hsrv as (-> & Hr). split; [done |]. by eapply holds_join; [exact Hr | |].
  - destruct Hsrv as (Hk1 & Hk & Hr). split_and!; [lia.. |]. eapply holds_join; [exact Hr | | exact Hj].
    destruct (S j - k)%nat as [| [| n]] eqn:E; [by vm_compute.. | lia].
Qed.

Lemma source_tracks_join_connector k j q s i evs :
  tracks k j q s -> join i (rd (inp (cw s))) = Some evs ->
  follows q s 0 (Ret (to_connector evs s)).
Proof.
  intros Ht Hj. pose proof (source_queue_fits _ _ _ _ Ht) as Hfit.
  destruct Ht as [Hsent Hlogs Hn Hsrv Hq Hf Ho Hh Hp Hfl].
  exists k, j, q. eexists. split; [reflexivity |]. split; [| unfold ahead; cbn; lia].
  split; cbn [logs nconn nphase_ nin to_connector by_connector cw fetch handed cphase_ inp out mgr set_inp];
    rewrite ?push_nothing; try done.
  by eapply holds_join.
Qed.

Definition cost (a : action) : nat := if progresses a then 1 else 0.

Lemma source_tracks_exec k j q s a o :
  0 <= InFlightWaitGroup (mgr w0) -> calm a ->
  tracks k j q s -> exec name source a s = Some o -> follows q s (cost a) o.
Proof.
  intros Hwg Ha Ht.
  destruct a as [| | | | | | | [] i |]; try done; cbn [exec cost progresses].
  - destruct (nphase_ s) eqn:Hp; try done. destruct (blocked _ _); [done |].
    pose proof (source_tracks_greet _ _ _ _ Ht Hp) as Hg. destruct (WaitForHello _). by intros [= <-].
  - destruct (nphase_ s) eqn:Hp, (logs s) as [| log ls] eqn:Hl; try done. intros [= <-].
    by eapply tracks_ship.
  - destruct (nphase_ s) eqn:Hp; try done. destruct (blocked _ _) eqn:Hb; [done |].
    pose proof (tracks_confirm _ _ _ _ Ht Hp Hb) as Hg. destruct (WaitForOk _). by intros [= <-].
  - pose proof (t_phase _ _ _ _ Ht) as Hx.
    destruct (cphase_ s) eqn:Hc, (fetch s) eqn:Hf; try done; (destruct (blocked _ _) eqn:Hb; [done |]);
      pose proof (source_tracks_fetch _ _ _ _ Ht Hf Hb) as Hg; rewrite Hc in Hg;
      destruct (fetch_step _); by intros [= <-].
  - destruct (cphase_ s) eqn:Hc, (fetch s) eqn:Hf; try done. intros [= <-]. by eapply tracks_receive.
  - destruct (cphase_ s) eqn:Hc; try done. intros [= <-]. by eapply tracks_hand_over.
  - destruct (join _ _) as [evs |] eqn:Hj; [| done]. intros [= <-]. by eapply source_tracks_join_server.
  - destruct (join _ _) as [evs |] eqn:Hj; [| done]. intros [= <-]. by eapply source_tracks_join_connector.
Qed.

Lemma source_tracks_play k j q s tr o :
  0 <= InFlightWaitGroup (mgr w0) -> Forall calm tr ->
  tracks k j q s -> play name source tr s = Some o -> follows q s (sum_list_with cost tr) o.
Proof.
  intros Hwg Htr. revert k j q s. induction Htr as [| a tr Ha _ IH]; intros k j q s Ht; cbn [play].
  { intros [= <-]. exists k, j, q, s. split_and!; [done.. | cbn; lia]. }
  destruct (exec name source a s) as [o1 |] eqn:E; [| done].
  destruct (source_tracks_exec _ _ _ _ _ _ Hwg Ha Ht E) as (k1 & j1 & q1 & s1 & -> & Ht1 & Hc1).
  intros Hplay. destruct (IH _ _ _ _ Ht1 Hplay) as (k2 & j2 & q2 & s2 & -> & Ht2 & Hc2).
  exists k2, j2, q2, s2. split_and!; [done.. |]. cbn [sum_list_with]. lia.
Qed.

(** When no goroutine can go on, the server waits for another log, and every
    item was handed over. *)
Lemma source_tracks_stuck k j q s :
  tracks k j q s -> (forall a, progresses a = true -> exec name source a s = None) ->
  nphase_ s = Ships /\ cphase_ s = Listens /\ logs s = [] /\ k = length items /\ j = k.
Proof.
  intros [Hsent Hlogs Hn Hsrv Hq (o & Hof & E) Ho Hh Hp Hfl] Hstuck.
  pose proof (Hstuck HandOver eq_refl) as Hhand. cbn [exec] in Hhand.
  destruct (cphase_ s) eqn:Hc; [| done..]. clear Hhand.
  assert (fetch s = Reading /\ q = []) as [Hf ->].
  { pose proof (Hstuck Receive eq_refl) as Hrec. pose proof (Hstuck Fetch eq_refl) as Hfetch.
    cbn [exec] in Hrec, Hfetch. rewrite Hc in Hrec, Hfetch.
    destruct (fetch s) eqn:Hf; [| done..]. split; [done |]. destruct q as [| m q]; [done |].
    rewrite (holds_ready _ _ _ _ Hq) in Hfetch. by destruct (fetch_step _). }
  rewrite Hf in Hof. injection Hof as <-. symmetry in E. apply fmap_nil_inv in E.
  apply (f_equal length) in E. rewrite length_drop, length_take in E. cbn in E.
  destruct (nphase_ s) eqn:Hph; [| | | done].
  - exfalso. destruct Hsrv as (_ & _ & Hr). pose proof (Hstuck Greet eq_refl) as Hg.
    cbn [exec] in Hg. rewrite Hph, (holds_ready _ _ _ _ Hr) in Hg. by destruct (WaitForHello _).
  - destruct Hsrv as (-> & _). pose proof (Hstuck Ship eq_refl) as Hg. cbn [exec] in Hg.
    rewrite Hph in Hg. destruct (logs s) eqn:Hl; [| done]. split_and!; try done.
    symmetry in Hlogs. apply (f_equal length) in Hlogs. rewrite length_drop in Hlogs. cbn in Hlogs. lia.
  - exfalso. destruct Hsrv as (Hk1 & Hk & Hr). pose proof (Hstuck Confirm eq_refl) as Hg.
    cbn [exec] in Hg. replace (S j - k)%nat with 1%nat in Hr by lia.
    rewrite Hph, (holds_ready _ _ _ _ Hr) in Hg. by destruct (WaitForOk _).
Qed.

Lemma source_start_tracks :
  out w0 = opened [] ->
  exists s0, start name source items w0 = Ret s0 /\ tracks 0 0 [] s0 /\
    ahead [] s0 = (5 * length items + 1)%nat.
Proof.
  intros Ho. eexists. split.
  { unfold start, source_handle, register, set_state. unfold mbind_, mmodify.
    cbn [out set_inp set_mon set_mgr]. rewrite Ho. reflexivity. }
  cbn [out set_out set_inp set_mon set_mgr sent]. cbn [opened sent].
  change (sent {| sent := [frame hello]; broken := None |}) with ([] ++ [frame hello]).
  split; [| unfold ahead; cbn [logs nphase_ fetch cphase_ length pending]; lia].
  split; cbn [logs nconn nphase_ nin cw fetch handed cphase_]; try done.
  - lia.
  - split_and!; [done.. |]. cbn [snd]. rewrite push_one.
    apply (holds_push (NewReader []) [] hello); [apply holds_new | | by vm_compute].
    split_and!; by vm_compute.
  - apply holds_new.
  - by exists [].
  - cbn. lia.
Qed.
End Runs.

(** C9. A source connector and the Nomad server as they run, step by step, in any
    interleaving and whatever the network joins into one segment, for logs whose
    frames are at most 4096 bytes long, while the network cuts no segment in two
    and the broker is not stopped: no goroutine panics; at any moment the workers have
    got a prefix of the logs of the client, in order, each once and
    under the name of the source, and the tokens of what the connector has taken
    are counted; the goroutines take at most five steps per log and one more;
    and when none of them can go on the workers have got every log, and the
    server waits for the next one. *)
Theorem source_link_completes `{MapOrder} name source items w0 :
  let targets := Source_Targets_ source in
  Forall (sendable name targets) items -> utf8_string name -> Forall utf8_string targets ->
  0 <= InFlightWaitGroup (mgr w0) -> out w0 = opened [] ->
  exists s0, start name source items w0 = Ret s0 /\
    forall tr o, Forall calm tr -> play name source tr s0 = Some o ->
      exists s j, o = Ret s /\ (sum_list_with cost tr <= 5 * length items + 1)%nat /\
        Forall2 (stands_for name source) (handed s ++ pending (cphase_ s)) (take j items) /\
        InFlightWaitGroup (mgr (cw s)) = InFlightWaitGroup (mgr w0) + len targets * Z.of_nat j /\
        ((forall a, progresses a = true -> exec name source a s = None) ->
         Forall2 (stands_for name source) (handed s) items /\ j = length items /\
         logs s = [] /\ nphase_ s = Ships /\ cphase_ s = Listens).
Proof.
  intros targets Hit Hn Ht Hwg Ho.
  destruct (source_start_tracks name source items w0 Ho) as (s0 & E0 & Ht0 & Ha0).
  exists s0. split; [done |]. intros tr o Htr Hplay.
  destruct (source_tracks_play name source items w0 Hit Hn Ht _ _ _ _ _ _ Hwg Htr Ht0 Hplay)
    as (k & j & q & s & -> & Hs & Hcost).
  exists s, j. split_and!; [done | lia | apply Hs | apply Hs |]. intros Hstuck.
  destruct (source_tracks_stuck name source items w0 _ _ _ _ Hs Hstuck) as (Hp & Hc & Hl & Hk & Hj).
  pose proof (t_handed _ _ _ _ _ _ _ _ Hs) as Hh. rewrite Hc in Hh. cbn [pending] in Hh.
  rewrite app_nil_r, take_ge in Hh by lia. split_and!; try done. congruence.
Qed.

(** ** Concrete runs *)
#[local] Existing Instance default_order.

Definition demo_run : list action :=
  [Greet; Ship; Fetch; Receive; Confirm; Ship; HandOver; Fetch; Receive; HandOver; Confirm].

Lemma source_link_completes_witness :
  exists s0 s, start "src" nomad_source [demo_message; demo_message] pair_world = Ret s0 /\
    play "src" nomad_source demo_run s0 = Some (Ret s) /\
    Forall2 (stands_for "src" nomad_source) (handed s) [demo_message; demo_message].
Proof.
  destruct (source_link_completes "src" nomad_source [demo_message; demo_message] pair_world)
    as (s0 & E0 & Hrun).
  - constructor; [exact demo_sendable | constructor; [exact demo_sendable | constructor]].
  - by vm_compute.
  - repeat constructor.
  - by apply Z.leb_le.
  - done.
  - assert (Forall calm demo_run) as Htr by by repeat constructor.
    assert (exists o, play "src" nomad_source demo_run s0 = Some o /\
      match o with
      | Ret s => nphase_ s = Ships /\ cphase_ s = Listens /\ logs s = [] /\ fetch s = Reading /\
          blocked (nconn s) (inp (cw s)) = true
      | Panic _ => False
      end) as (o & Ho & Hd).
    { injection E0 as <-. eexists. split; [by vm_compute |]. by vm_compute. }
    destruct (Hrun _ _ Htr Ho) as (s & j & -> & _ & _ & _ & Hend).
    destruct Hd as (Hp & Hc & Hl & Hf & Hb). exists s0, s. split; [exact E0 |].
    split; [exact Ho |]. apply Hend.
    intros [] Ha; try done; cbn [exec]; rewrite ?Hp, ?Hc, ?Hl, ?Hf, ?Hb; done.
Defined.

(** When the broker is stopped while the client has more than one log left, the
    server writes the next one, gets no answer and closes the channel of the
    logs, and the client, which sends the log after that, panics: the process
    ends while the broker is still draining. *)
Definition demo_halt : list action := [Greet; Halt; Ship; Confirm].

Definition halt_world : world := set_mgr (set_groups 1 1 (demo_manager 0)) pair_world.

Lemma stop_panics :
  match start "src" nomad_source [demo_message; demo_message] halt_world with
  | Ret s => play "src" nomad_source demo_halt s = Some (Panic "send on closed channel")
  | Panic _ => False
  end.
Proof. vm_compute. reflexivity. Qed.
