(* ===== verification/Printed.v ===== *)
(** * From the sources to what a target prints

    A whole run of the broker, down to the bytes on the connection of a target:
    what its connector has written by the labels that an observer sees, and
    what the server behind the connection does with that. *)
From S2P Require Import Prelude Wire Text Message Bufio Protocol Pipe Limiter Monitoring Config.
From S2P Require Import Servers.
From S2P Require Import Connector Worker Session Broker Shutdown Delivery.

#[local] Arguments ProtobufToBroker : simpl never.
#[local] Arguments ProtobufToTarget : simpl never.
#[local] Arguments ToProtobuf : simpl never.
#[local] Arguments frame : simpl never.

Section Printed.
Context `{MapOrder}.

(** ** What a connector has written *)

(** The logs that were delivered to the target [name], in order. *)
Definition logs_of (name : string) (x : label) : list (list byte) :=
  match x with
  | Settle t _ (Delivered raw) => if String.eqb t name then [raw] else []
  | _ => []
  end.
Definition delivered_to (name : string) (tr : list label) : list (list byte) := tr ≫= logs_of name.

(** Every message that was handed to the target found it well. *)
Definition unharmed (name : string) (tr : list label) : Prop :=
  forall data f, Settle name data f ∈ tr -> survives f = true.

(** The connection of a target, after the logs [raws]. *)
Definition spoken (st : status) (raws : list (list byte)) (c : conn) : Prop :=
  match st with
  | NotStarted => raws = [] /\ c = opened []
  | Exited =>
      raws = [] /\ c = opened [] \/
      c = {| sent := frame hello :: (frame <$> (log_frame <$> raws)) ++ [frame bye]; broken := closed |}
  | _ => c = opened (frame hello :: (frame <$> (log_frame <$> raws)))
  end.

Lemma log_frame_marshals raw : (Marshal (log_frame raw)).2 = None.
Proof. by destruct raw. Qed.

Lemma write_log_frame sent0 raw :
  (WriteNewMessage (opened sent0) CommandTargetLog (string_of raw)).2
  = opened (sent0 ++ [frame (log_frame raw)]).
Proof.
  pose proof (write_new_message_frame sent0 CommandTargetLog (string_of raw)) as E.
  rewrite bytes_of_string_of in E. unfold opened. by rewrite (E (log_frame_marshals raw)).
Qed.

(** One turn of the loop of a target. *)
Lemma iteration_writes name event w continue w' raws :
  0 < TargetWaitGroup (mgr w) -> is_u64 (MessagesInFlight_ (mgr w)) ->
  match event with Inbound _ => 0 < InFlightWaitGroup (mgr w) | _ => True end ->
  Forall (fun f => survives f = true) (event_fates name event w) ->
  target_iteration name event w = Ret (continue, w') ->
  spoken Idle raws (out w) ->
  spoken (if continue then Idle else Exited)
    (raws ++ (event_fates name event w ≫= fun f => match f with Delivered raw => [raw] | _ => [] end))
    (out w').
Proof.
  intros Hg Hc Hin Hf E Ho. cbn [spoken] in Ho. destruct event as [data | i ct tt' now order |].
  - rewrite iteration_selects in E. cbn [target_select event_fates] in *.
    pose proof (target_receive_accounts name data (Session.waiting w) Hin Hc) as Ha. cbv zeta in Ha.
    change (target_fate name data (Session.waiting w)) with (target_fate name data w) in Ha.
    rewrite Forall_singleton in Hf. destruct (target_receive _ _ _) as [[c w2] | why]; [| done].
    destruct Ha as (_ & Hcont & Ha & _). rewrite Hf in Hcont. subst c. injection E as <- <-.
    pose proof (acc_out _ _ _ Ha) as Hout. change (out (Session.waiting w)) with (out w) in Hout. cbn.
    destruct (target_fate name data w); cbn in Hf; try discriminate Hf; rewrite Hout, Ho;
      rewrite ?app_nil_r; [| done..].
    rewrite write_log_frame. by rewrite !fmap_app.
  - injection E as <- <-. cbn. by rewrite app_nil_r.
  - destruct (stop_iteration name _ w Hg Ho) as (w1 & E1 & Ho1 & _). rewrite E1 in E.
    injection E as <- <-. rewrite Ho1. cbn [event_fates]. rewrite app_nil_r. by right.
Qed.

(** ** A step of the broker *)
Definition speaks (name : string) (raws : list (list byte)) (s : sys) : Prop :=
  forall st tgt w, tgts s !! name = Some (st, tgt, w) -> spoken st raws (out w).

Definition turn_labels (t : string) (event : target_event) (s : sys) : list label :=
  match event with Inbound data => settles t data s | _ => [] end.

Definition running (st : status) : bool :=
  match st with Idle | Sending _ => true | _ => false end.

Lemma spoken_live st st' raws c :
  running st = true -> running st' = true -> spoken st raws c -> spoken st' raws c.
Proof. by destruct st, st'. Qed.

Lemma turn_speaks name t event s s' raws :
  inv 0 s -> match event with Inbound _ => 0 < InFlightWaitGroup (cm s) | _ => True end ->
  target_turn t event s = Some (Ret s') -> unharmed name (turn_labels t event s) ->
  speaks name raws s -> speaks name (raws ++ delivered_to name (turn_labels t event s)) s'.
Proof.
  intros Hi Hin He Hu Hs st tgt w'. unfold target_turn in He.
  destruct (tgts s !! t) as [[[[] tg] w] |] eqn:Hk; try done.
  pose proof (live_target _ _ _ _ _ Hi Hk eq_refl) as Htw.
  destruct (target_iteration _ _ _) as [[continue w1] |] eqn:E; [| done]. injection He as <-.
  cbn. destruct (decide (t = name)) as [<- | Hne].
  - rewrite lookup_insert_eq. intros [= <- _ <-].
    pose proof (iteration_writes t event (enter (cm s) w) continue w1 raws) as Hw.
    assert (delivered_to t (turn_labels t event s)
      = event_fates t event (enter (cm s) w) ≫= fun f => match f with Delivered raw => [raw] | _ => [] end)
      as ->.
    { destruct event; try done. cbn. unfold settles. rewrite Hk. cbn.
      destruct (target_fate _ _ _); try done. cbn. by rewrite String.eqb_refl. }
    assert (spoken (if continue then Idle else Exited) (raws ++ (event_fates t event (enter (cm s) w)
      ≫= fun f => match f with Delivered raw => [raw] | _ => [] end)) (out w1)) as Hsp.
    { apply Hw; try done.
      - cbn. rewrite (inv_counted _ _ Hi). apply u64_range.
      - destruct event as [data | |]; [| by constructor..]. apply Forall_singleton.
        apply (Hu data). cbn. unfold settles. rewrite Hk. by left.
      - exact (Hs _ _ _ Hk). }
    destruct continue; [| done]. revert Hsp. by apply spoken_live; destruct (sends w1).
  - rewrite lookup_insert_ne by done. intros Hn.
    assert (delivered_to name (turn_labels t event s) = []) as ->; [| rewrite app_nil_r; by eapply Hs].
    destruct event; try done. cbn. unfold settles. rewrite Hk. cbn.
    destruct (target_fate _ _ _); try done. cbn. by rewrite (proj2 (String.eqb_neq t name) Hne).
Qed.

Lemma start_writes name tgt dial w w' :
  out w = opened [] -> target_handle name tgt dial [] w = Ret (tt, w') ->
  out w' = match dial with None => opened [frame hello] | Some _ => opened [] end.
Proof.
  intros Ho. unfold target_handle, register, set_state. unfold mbind_, mmodify.
  destruct dial as [e |].
  - unfold log_unguarded, on_mgr, mbind_, mget, mpanic, mmodify. cbn.
    destruct (Monitor_ (mgr w)); cbn; [| done]. destruct (target_done _); [| done].
    intros [= <-]. cbn. exact Ho.
  - cbn. rewrite Ho. by intros [= <-].
Qed.

Lemma start_speaks name t dial s s' raws :
  target_start t dial s = Some (Ret s') -> speaks name raws s -> speaks name raws s'.
Proof.
  unfold target_start. destruct (tgts s !! t) as [[[[] tg] w] |] eqn:Hk; try done.
  destruct (target_handle _ _ _ _ _) as [[[] w1] |] eqn:E; [| done]. intros [= <-] Hs st tgt w'. cbn.
  destruct (decide (t = name)) as [<- | Hne]; [| rewrite lookup_insert_ne by done; apply Hs].
  rewrite lookup_insert_eq. intros [= <- _ <-]. destruct (Hs _ _ _ Hk) as [-> Ho].
  apply start_writes in E as ->; [| exact Ho]. destruct dial; [by left | done].
Qed.

(** The sender of a message goes on. *)
Lemma sent_speaks name n q st0 t w m s raws :
  tgts s !! n = Some (st0, t, w) -> running st0 = true ->
  speaks name raws s -> speaks name raws (set_tgts m (<[n := (after q, t, w)]> (tgts s)) s).
Proof.
  intros Hk Hr Hs st tgt w'. cbn. destruct (decide (n = name)) as [<- | Hne].
  - rewrite lookup_insert_eq. intros [= <- _ <-]. apply (spoken_live st0); [done | by destruct q |].
    by eapply Hs.
  - rewrite lookup_insert_ne by done. apply Hs.
Qed.

Lemma speaks_same name raws s s' : tgts s' = tgts s -> speaks name raws s -> speaks name raws s'.
Proof. unfold speaks. by intros ->. Qed.

Lemma exec_speaks name a s s' raws :
  inv 0 s -> exec a s = Some (Ret s') -> unharmed name (observe a s) ->
  speaks name raws s -> speaks name (raws ++ delivered_to name (observe a s)) s'.
Proof.
  intros Hi He Hu Hs.
  assert (observe a s = [] -> speaks name raws s' ->
    speaks name (raws ++ delivered_to name (observe a s)) s') as Hquiet.
  { intros ->. by rewrite app_nil_r. }
  assert (tgts s' = tgts s -> delivered_to name (observe a s) = [] ->
    speaks name (raws ++ delivered_to name (observe a s)) s') as Hsame.
  { intros E ->. rewrite app_nil_r. by apply (speaks_same name raws s). }
  destruct a; cbn [exec] in He.
  - apply Hsame; [| done]. unfold source_start in He. by repeat case_match; simplify_eq.
  - apply Hquiet; [done |]. by eapply start_speaks.
  - apply Hsame; [| done]. unfold worker_start in He. by repeat case_match; simplify_eq.
  - assert (source_turn name0 event s = Some (Ret s')) as Ht by by destruct event.
    apply Hsame; [apply (source_turn_effect _ _ _ _ Ht) |]. cbn. by repeat case_match.
  - apply Hquiet; [done |].
    pose proof (turn_speaks name name0 (Ticker i curTime ttlTime now order) s s' raws Hi I He) as Ht.
    cbn [turn_labels] in Ht.
    rewrite app_nil_r in Ht. by apply Ht.
  - apply Hsame; [| done]. case_match; [| done]. apply (source_turn_effect _ _ _ _ He).
  - apply Hquiet; [done |]. case_match; [| done].
    pose proof (turn_speaks name name0 StopTarget s s' raws Hi I He) as Ht. cbn [turn_labels] in Ht.
    rewrite app_nil_r in Ht. by apply Ht.
  - apply Hsame; [| done]. case_match; [| done]. unfold worker_turn in He.
    by repeat case_match; simplify_eq.
  - apply Hsame; [| done]. unfold handover, then_, worker_turn in He.
    by repeat case_match; simplify_eq.
  - unfold dispatch in He. cbn [observe] in *.
    destruct (wrks s !! i) as [[[| | [| [target data] q] |] w] |] eqn:Hk; try done.
    pose proof (worker_holds _ _ _ _ Hi Hk) as Hin. cbn [queue_tokens] in Hin.
    rewrite len_cons in Hin. pose proof (len_nonneg q).
    destruct (target_turn target (Inbound data) s) as [[s1 |] |] eqn:Ht; try done. injection He as <-.
    apply (speaks_same _ _ s1); [done |].
    apply (turn_speaks name target (Inbound data) s s1 raws Hi ltac:(cbn; lia) Ht Hu Hs).
  - unfold fall_back in He. cbn [observe] in *.
    destruct (tgts s !! name0) as [[[[| | [| [target data] q] |] tg] w] |] eqn:Hk; try done.
    pose proof (target_holds _ _ _ _ _ Hi Hk) as Hin. cbn [queue_tokens] in Hin.
    rewrite len_cons in Hin. pose proof (len_nonneg q).
    destruct (target_turn target (Inbound data) s) as [[s1 |] |] eqn:Ht; try done. injection He as <-.
    assert (tgts s1 !! name0 = Some (Sending ((target, data) :: q), tg, w)) as Hk1.
    { assert (0 < InFlightWaitGroup (cm s)) as Hpos by lia.
      destruct (target_turn_effect _ _ _ _ Hi (or_intror Hpos) Ht) as [_ _ _ _ _ _ Hturn].
      destruct Hturn as (tgt & wt & st & wt' & Hkt & -> & _).
      rewrite lookup_insert_ne; [done |]. intros ->. congruence. }
    eapply sent_speaks; [exact Hk1 | done |].
    apply (turn_speaks name target (Inbound data) s s1 raws Hi ltac:(cbn; lia) Ht Hu Hs).
  - apply Hsame; [| done]. unfold broker_start, StopTargets in He. by repeat case_match; simplify_eq.
  - apply Hsame; [| done]. unfold broker_stop, StopSources in He. by repeat case_match; simplify_eq.
Qed.

Lemma traced_speaks name s tr s' raws :
  inv 0 s -> traced s tr s' -> unharmed name tr ->
  speaks name raws s -> speaks name (raws ++ delivered_to name tr) s'.
Proof.
  intros Hi Ht. revert Hi raws. induction Ht as [s | a s s1 tr s2 Ha He _ IH]; intros Hi raws Hu Hs.
  { by rewrite app_nil_r. }
  pose proof (exec_inv a s Hi Ha) as Hi1. rewrite He in Hi1.
  unfold delivered_to. rewrite bind_app, app_assoc. apply IH; [done | |].
  - intros data f Hf. apply (Hu data). apply elem_of_app. by right.
  - apply exec_speaks; [done.. | | done]. intros data f Hf. apply (Hu data). apply elem_of_app. by left.
Qed.
End Printed.

(** ** What the target prints *)

(** The copy of an item for the target. *)
Definition copy_for (name : string) (tr : list label) (m : TargetMessage) : Prop :=
  exists source targets item, Accept source targets item ∈ tr /\
    m = BrokerToTarget name (SourceToBroker source targets item).

(** Every item that was accepted fits the connection of the target. *)
Definition fitting `{MapOrder} (name : string) (tr : list label) : Prop :=
  forall source targets item, Accept source targets item ∈ tr ->
    wf item /\ deliverable (BrokerToTarget name (SourceToBroker source targets item)).

Lemma logs_travel `{MapOrder} name tr :
  (forall x, x ∈ tr -> genuine tr x) -> fitting name tr ->
  exists ms, Forall2 travels (delivered_to name tr) ms /\ Forall (copy_for name tr) ms.
Proof.
  intros Hg Hfit.
  assert (forall raw, raw ∈ delivered_to name tr -> exists m, travels raw m /\ copy_for name tr m)
    as Hall.
  { intros raw Hraw. apply list_elem_of_bind in Hraw as (x & Hraw & Hx).
    destruct x as [| t data f |]; try by apply not_elem_of_nil in Hraw.
    destruct f as [raw' | | | | | |]; try by apply not_elem_of_nil in Hraw. cbn in Hraw.
    destruct (String.eqb_spec t name) as [-> |]; [| by apply not_elem_of_nil in Hraw].
    apply list_elem_of_singleton in Hraw as ->.
    destruct (Hg _ Hx) as (source & targets & item & Hin & He).
    destruct (Hfit _ _ _ Hin) as [Hwf [Hf Hl]]. rewrite He in Hf, Hl. cbn [fst] in Hf, Hl.
    eexists. split; [| by exists source, targets, item]. split; [| done].
    apply Unmarshal_Marshal; [by split | exact He | by apply raw_bounded]. }
  induction (delivered_to name tr) as [| raw raws IH].
  { exists []. by split; constructor. }
  destruct (Hall raw) as (m & Ht & Hc); [by left |]. destruct IH as (ms & Hts & Hcs).
  { intros r Hr. apply Hall. by right. }
  exists (m :: ms). by split; constructor.
Qed.

Definition exited (st : status) : bool := match st with Exited => true | _ => false end.

(** C4. From the sources to the bytes and on to the screen, for whole runs of the
    broker in which no message that is handed to the target comes to harm there
    ([unharmed]: none fails to be decoded, encoded, written or answered) and in
    which the frames of the accepted items are at most [room], 4085 bytes, long
    ([fitting]): what the connector of the target has written is HELLO, the logs
    that an observer saw delivered to it, in order, and BYE when it has
    returned; the stdout server that gets these writes, each in one piece, HELLO
    perhaps together with the next, prints exactly the messages of these logs,
    answers each once, and returns with the connector; and every printed
    message is the copy for this target of an item that a source sent, with the
    name of the source. *)
Theorem printed_was_accepted `{MapOrder} peers base b tr s name st tgt w :
  Broker_ConnectorManager b = NewConnectorManager (Broker_Monitor b) ->
  Broker_WorkerManager b = NewWorkerManager (Broker_Monitor b) ->
  traced (Start peers base b) tr s -> Forall short tr ->
  peer_out (peers name) = opened [] -> unharmed name tr -> fitting name tr ->
  tgts s !! name = Some (st, tgt, w) -> sent (out w) <> [] ->
  let stopped := exited st in
  let raws := delivered_to name tr in
  sent (out w) = [frame hello] ++ (frame <$> (log_frame <$> raws)) ++ (frame <$> farewell stopped) /\
  exists ms,
    Forall2 (fun raw m => ProtobufToTarget raw = (m, None)) raws ms /\
    (forall evs, conveyed (sent (out w)) evs -> exists fuel,
       stdout_serve fuel (NewReader evs) fresh
       = Some (Ret (stopped, served stopped (length ms) ms))) /\
    Forall (copy_for name tr) ms.
Proof.
  intros Hc Hw Ht Hs Hp Hu Hfit Hk Hne stopped raws.
  destruct (run_sound peers base b tr s Hc Hw Ht Hs) as [[_ _ Hg] _].
  assert (spoken st raws (out w)) as Hsp.
  { apply (traced_speaks name _ tr s [] (start_inv peers base b Hc Hw) Ht Hu) with (tgt := tgt);
      [| done]. intros st0 tgt0 w1. unfold Start. destruct (WorkerManager_Start _ _ _). cbn.
    rewrite map_lookup_imap. destruct (Targets b !! name); [| done]. by intros [= <- <- <-]. }
  assert (sent (out w) = [frame hello] ++ (frame <$> (log_frame <$> raws))
                         ++ (frame <$> farewell stopped)) as Hsent.
  { unfold stopped. destruct st; cbn in Hsp |- *; rewrite ?app_nil_r.
    - destruct Hsp as [_ E]. by rewrite E in Hne.
    - by rewrite Hsp.
    - by rewrite Hsp.
    - destruct Hsp as [[_ E] | E]; [by rewrite E in Hne | by rewrite E]. }
  split; [exact Hsent |]. destruct (logs_travel name tr Hg Hfit) as (ms & Htr & Hcs).
  exists ms. split_and!; [| | done].
  - eapply Forall2_impl; [| exact Htr]. by intros raw m [? _].
  - intros evs Ha. rewrite Hsent, speech_apart in Ha.
    destruct (speech_holds raws ms stopped evs Htr Ha) as [Hh Hd].
    destruct (stdout_logs stopped raws ms _ Hd Hh) as [fuel E]. exists fuel.
    rewrite E by done. by rewrite <- (Forall2_length Htr).
Qed.

(** ** A concrete run *)
#[local] Existing Instance default_order.

(** The checks on a concrete trace. *)
Definition unharmed_b (name : string) (x : label) : bool :=
  match x with Settle t _ f => negb (String.eqb t name) || survives f | _ => true end.

Lemma unharmed_check name tr : forallb (unharmed_b name) tr = true -> unharmed name tr.
Proof.
  intros Hall data f Hin. rewrite forallb_forall in Hall.
  specialize (Hall _ (proj1 (list_elem_of_In _ _) Hin)). cbn in Hall.
  by rewrite String.eqb_refl in Hall.
Qed.

Definition items_of (tr : list label) : list (string * list string * SourceMessage) :=
  omap (fun x => match x with Accept source targets item => Some (source, targets, item) | _ => None end) tr.

Lemma fitting_check `{MapOrder} name tr :
  Forall (fun x => wf x.2 /\ deliverable (BrokerToTarget name (SourceToBroker x.1.1 x.1.2 x.2)))
    (items_of tr) -> fitting name tr.
Proof.
  intros Hall source targets item Hin. rewrite list.Forall_forall in Hall.
  apply (Hall (source, targets, item)). apply list_elem_of_omap. by eexists.
Qed.

Lemma demo_two_items : items_of demo_two_trace = [("src", ["a"; "x"], demo_message)].
Proof. vm_compute. reflexivity. Qed.

Lemma demo_two_deliverable :
  deliverable (BrokerToTarget "b" (SourceToBroker "src" ["a"; "x"] demo_message)).
Proof. split; [split_and!; by vm_compute | by vm_compute]. Qed.

Lemma demo_two_fitting : fitting "b" demo_two_trace.
Proof.
  apply fitting_check. rewrite demo_two_items. apply Forall_singleton.
  split; [by vm_compute | exact demo_two_deliverable].
Qed.

Definition demo_two_raw : list byte := default [] (head (delivered_to "b" demo_two_trace)).

Lemma demo_two_delivered :
  delivered_to "b" demo_two_trace = [demo_two_raw] /\
  ProtobufToTarget demo_two_raw
  = (BrokerToTarget "b" (SourceToBroker "src" ["a"; "x"] demo_message), None).
Proof. split; vm_compute; reflexivity. Qed.

(** The message that the target [a] sends on is printed by the server of [b]. *)
Lemma printed_was_accepted_witness :
  exists st tgt w fuel, tgts demo_two_end !! "b" = Some (st, tgt, w) /\
    stdout_serve fuel (NewReader (coalesce (sent (out w)))) fresh
    = Some (Ret (false, served false 1 [BrokerToTarget "b" (SourceToBroker "src" ["a"; "x"] demo_message)])).
Proof.
  assert (exists st tgt w, tgts demo_two_end !! "b" = Some (st, tgt, w) /\ exited st = false /\
    sent (out w) <> []) as (st & tgt & w & Hk & Hst & Hne).
  { eexists _, _, _. split; [vm_compute; reflexivity |]. split; [reflexivity | discriminate]. }
  assert (Forall short demo_two_trace) as Hs by (apply short_check; vm_compute; reflexivity).
  assert (unharmed "b" demo_two_trace) as Hu by (apply unharmed_check; vm_compute; reflexivity).
  destruct (printed_was_accepted demo_peers 10 demo_two demo_two_trace demo_two_end "b" st tgt w
    eq_refl eq_refl demo_two_run Hs eq_refl Hu demo_two_fitting Hk Hne) as (_ & ms & Hms & Hprint & _).
  destruct (Hprint _ (coalesce_conveyed _)) as [fuel Hprinted]. clear Hprint.
  exists st, tgt, w, fuel. split; [exact Hk |]. rewrite Hst in Hprinted. rewrite Hprinted.
  destruct demo_two_delivered as [Hraw Hdec].
  rewrite Hraw in Hms. clear -Hms Hdec. revert Hms Hdec.
  generalize demo_two_raw. intros raw Hms Hdec. inversion Hms as [| ? m ? ms' Hm Hnil]; subst.
  inversion Hnil; subst. rewrite Hdec in Hm. injection Hm as <-. reflexivity.
Defined.
