(* ===== verification/Whole.v ===== *)
(** * The broker and the servers of its targets, together

    The transition system of [Broker] with a server behind every target
    connector: what a connector writes its server reads, handles and answers,
    and the answer is what the connector then reads; between the two is a
    network, which is a parameter.  A message at its target and the answer to it
    are one step here; [Link] takes this step apart.

    Nothing about the answers is assumed any more, and what [Drain] and
    [Shutdown] name as faults can be ruled out: in a log shipper whose
    configuration refers to targets that exist, whose targets can be dialled,
    whose items fit the connections (frames of at most [room], 4085 bytes) and
    can be handled by their targets, and whose network cuts no write in two,
    nothing panics, no message is lost, and a stop leads to the end. *)
From S2P Require Import Prelude Wire Text Message Bufio Protocol Limiter Monitoring Config.
From S2P Require Import Servers.
From S2P Require Import Pipe Link.
From S2P Require Import Connector Worker Session Broker Shutdown Delivery Liveness Drain Printed.

#[local] Arguments ProtobufToBroker : simpl never.
#[local] Arguments ProtobufToSource : simpl never.
#[local] Arguments ProtobufToTarget : simpl never.
#[local] Arguments ToProtobuf : simpl never.
#[local] Arguments frame : simpl never.
#[local] Arguments ReadMessage : simpl never.
#[local] Arguments zsum : simpl never.

Section Whole.
Context `{MapOrder}.

(** Every target has a server of its own kind. *)
Context {A : string -> Type} `{!forall t, Receiver (A t)}.

(** ** The network *)

(** What arrives of what a connector has written so far, and of what a server
    has written since its connector read last: anything at all. *)
Class Network := {
  carry : string -> list (list byte) -> list net_event;
  carry_back : string -> list (list byte) -> list net_event;
}.
Context {wires : Network}.

(** A network that cuts no write in two and reports no error.  No more than the
    first two writes of an end can arrive together, because it waits for an
    answer before it writes again. *)
Definition gentle : Prop :=
  (forall t ws, conveyed ws (carry t ws)) /\ (forall t ws, conveyed ws (carry_back t ws)).

(** ** The server of a target *)

(** What the server of [t] has come to, when all that its connector has written
    has arrived and nothing more does. *)
Definition attends (t : string) (c : conn) : option (outcome (bool * server (A t))) :=
  let r := NewReader (carry t (sent c)) in
  serve receive (S (reader_size r)) r fresh.

(** What it has written by then. *)
Definition replies (t : string) (c : conn) : list (list byte) :=
  match attends t c with Some (Ret (_, srv)) => sent (Servers.out srv) | _ => [] end.

(** The input of the connector of [t] at [WaitForOk], when it has been handed
    [data]: the server has read what was written, and what it has written since
    is on its way.  A panic of the server is one of the program. *)
Definition reply (t : string) (data : list byte) (w : world) : outcome reader :=
  match target_begin t data w with
  | Panic why => Panic why
  | Ret (_, w') =>
      match attends t (out w') with
      | Some (Panic why) => Panic why
      | Some (Ret (_, srv)) =>
          let since := drop (length (replies t (out w))) (sent (Servers.out srv)) in
          Ret {| buf := buf (inp w); rd := rd (inp w) ++ carry_back t since |}
      | None => Ret (inp w)
      end
  end.

Definition hear (t : string) (data : list byte) (s : sys) : outcome sys :=
  match tgts s !! t with
  | Some (Idle, tgt, w) =>
      match reply t data (enter (cm s) w) with
      | Panic why => Panic why
      | Ret r => Ret (set_tgts (cm s) (<[t := (Idle, tgt, set_inp r w)]> (tgts s)) s)
      end
  | _ => Ret s
  end.

(** The target that is handed a message in a step. *)
Definition addressed (a : action) (s : sys) : option (string * list byte) :=
  match a with
  | Dispatch i =>
      match wrks s !! i with Some (Sending (e :: _), _) => Some e | _ => None end
  | FallBack name =>
      match tgts s !! name with Some (Sending (e :: _), _, _) => Some e | _ => None end
  | _ => None
  end.

(** A step of the whole. *)
Definition prepare (a : action) (s : sys) : outcome sys :=
  match addressed a s with Some (t, data) => hear t data s | None => Ret s end.

Definition wexec (a : action) (s : sys) : option (outcome sys) :=
  match prepare a s with
  | Panic why => Some (Panic why)
  | Ret s1 => exec a s1
  end.

(** ** What a server has done *)

Definition keeps (t : string) (m : TargetMessage) : Prop := is_Some (keep (A := A t) m).

Lemma kept_all t ms :
  Forall (keeps t) ms ->
  exists ls, Forall2 (fun m l => keep (A := A t) m = Some l) ms ls /\ mjoin ls = kept ms.
Proof.
  induction 1 as [| m ms [l Hl] _ (ls & Hls & E)]; [by exists [] |].
  exists (l :: ls). split; [by constructor |]. unfold kept in *. rewrite bind_cons, Hl, <- E. done.
Qed.

Lemma serve_ends {B} (log : list byte -> server B -> outcome (server B)) fuel r s o :
  serve log fuel r s = Some o -> exists o', serve log (S (reader_size r)) r s = Some o'.
Proof.
  unfold serve. destruct (WaitForHello r) as [ready r'] eqn:E. destruct ready; cbn [negb]; [| by eauto].
  intros _. assert (reader_size r' <= reader_size r)%nat as Hle.
  { unfold WaitForHello, WaitForCommand in E.
    destruct (ReadMessage r) as [[m e] r1] eqn:Hr. destruct e as [e |]; [done |].
    assert (r' = r1) as -> by (repeat case_match; congruence).
    pose proof (reader_step_size _ _ _ _ Hr ltac:(done)). lia. }
  destruct (read_to_channel_ends r' (S (reader_size r))) as [evs ->]; [lia |]. by eauto.
Qed.

(** As many turns as there are bytes and segments are enough. *)
Lemma serve_size {B} (log : list byte -> server B -> outcome (server B)) fuel0 r s o :
  (forall fuel, (fuel0 <= fuel)%nat -> serve log fuel r s = Some o) ->
  serve log (S (reader_size r)) r s = Some o.
Proof.
  intros Hall. set (n := S (reader_size r)).
  destruct (serve_ends log _ r s o (Hall fuel0 ltac:(lia))) as [o' E]. fold n in E. rewrite E.
  specialize (Hall (Nat.max fuel0 n) ltac:(lia)). rewrite <- Hall. symmetry.
  unfold serve in *. destruct (WaitForHello r) as [[|] r']; cbn [negb] in *; [| exact E].
  destruct (ReadToChannel n r') as [evs |] eqn:Hr; [| done].
  by rewrite (read_to_channel_fuel _ _ (Nat.max fuel0 n) _ Hr) by lia.
Qed.

Hypothesis network : gentle.

Lemma attends_logs t raws ms stopped b :
  Forall2 travels raws ms -> Forall (keeps t) ms ->
  attends t {| sent := speech raws stopped; broken := b |}
  = Some (Ret (stopped, served stopped (length ms) (kept ms))).
Proof.
  intros Hr Hk. destruct (kept_all t ms Hk) as (ls & Hls & <-).
  destruct (speech_holds raws ms stopped _ Hr (proj1 network t _)) as [Hh Hd].
  destruct (serve_logs receive _ (fun data msg l s => receive_acknowledges data msg l s)
    stopped raws ms ls _ Hd Hls Hh) as [fuel0 E].
  unfold attends. cbn [sent]. eapply serve_size. intros fuel Hle. rewrite (E fuel Hle).
  by rewrite (Forall2_length Hr).
Qed.

(** Nothing, or one answer, on its way to a connector. *)
Lemma back_nothing t : carry_back t [] = [].
Proof. pose proof (proj2 network t []) as Hc. inversion Hc as [ws Hw E |]; subst. done. Qed.

Lemma back_one t b : carry_back t [b] = [Segment b].
Proof. pose proof (proj2 network t [b]) as Hc. inversion Hc as [ws Hw E |]; subst. done. Qed.

Lemma speech_spoken raws : opened (frame hello :: (frame <$> (log_frame <$> raws)))
  = {| sent := speech raws false; broken := None |}.
Proof. unfold opened, speech, spoken_messages. cbn. by rewrite app_nil_r. Qed.

Lemma replies_logs t raws ms :
  Forall2 travels raws ms -> Forall (keeps t) ms ->
  replies t (opened (frame hello :: (frame <$> (log_frame <$> raws))))
  = replicate (length ms) (frame ok).
Proof. intros Hr Hk. rewrite speech_spoken. unfold replies. by rewrite (attends_logs t raws ms). Qed.

(** ** A message at its target *)

(** The names that the broker knows. *)
Variable known : gset string.

(** A message that can be handed to any target, in whatever way it gets there:
    it fits the connection, the server can take it, and so can the broker if it
    is sent on. *)
Record clean (l : BrokerMessage) : Prop := {
  cl_wf : wf l;
  cl_marshals : forall t, t ∈ known -> (ToProtobuf (BrokerToTarget t l)).2 = None;
  cl_delivers : forall t, t ∈ known -> deliverable (BrokerToTarget t l);
  cl_keeps : forall t, t ∈ known -> keeps t (BrokerToTarget t l);
  cl_resends : forall t, t ∈ known -> (ToProtobuf (set_targets [t] l)).2 = None /\
                 len (ToProtobuf (set_targets [t] l)).1 < pow64;
}.

Definition fit (data : list byte) : Prop := exists l, ProtobufToBroker data = (l, None) /\ clean l.

Lemma clean_resent t l : clean l -> clean (set_targets [t] l).
Proof. intros [Hw Hm Hd Hk Hr]. by split. Qed.

Lemma clean_encodes t l :
  clean l -> t ∈ known ->
  exists raw, ToProtobuf (BrokerToTarget t l) = (raw, None) /\ travels raw (BrokerToTarget t l).
Proof.
  intros [Hw Hm Hd _ _] Ht. specialize (Hm t Ht). destruct (Hd t Ht) as [Hf Hl].
  destruct (ToProtobuf (BrokerToTarget t l)) as [raw e] eqn:E. cbn [fst snd] in *. subst e.
  exists raw. split; [done |]. split_and!; [| done..].
  apply Unmarshal_Marshal; [split; [done | apply Hw] | exact E | by apply raw_bounded].
Qed.

(** What becomes of a message when nothing goes wrong. *)
Definition good (f : fate) : Prop :=
  match f with Delivered _ | Discarded | Resent _ _ => True | _ => False end.

(** The fallback targets exist. *)
Definition anchored (rs : list RateLimitRule) : Prop :=
  Forall (fun b => Action b = "fallback" -> Breach_Target b ∈ known) (rule_breach <$> rs).

Lemma breach_good rule l w :
  clean l -> TargetConnectors (mgr w) = known -> anchored (rules w) ->
  List.find decides (rules w) = Some rule -> good (breach_fate rule l w).
Proof.
  intros Hl Hk Ha Hf. apply find_some in Hf as [Hin Hd]. unfold breach_fate.
  destruct (String.eqb (Action (rule_breach rule)) "discard") eqn:E; [done |].
  unfold decides in Hd. rewrite E in Hd. apply andb_prop in Hd as [_ Hd]. cbn in Hd.
  apply String.eqb_eq in Hd. unfold anchored in Ha. rewrite list.Forall_forall in Ha.
  assert (Breach_Target (rule_breach rule) ∈ known) as Hb.
  { apply Ha; [| done]. apply list_elem_of_fmap. exists rule. split; [done |]. by apply list_elem_of_In. }
  destruct (cl_resends _ Hl _ Hb) as [He _].
  destruct (ToProtobuf (set_targets _ l)) as [d e]. cbn in He. subst e.
  rewrite Hk. by rewrite bool_decide_eq_true_2.
Qed.

(** The bounds that a message needs of the manager. *)
Definition counts (m : ConnectorManager) : Prop :=
  0 < InFlightWaitGroup m /\ is_u64 (MessagesInFlight_ m).

(** The connection of [t] after the logs [raws], which stand for [ms], and
    nothing on its way to the connector. *)
Record attended (t : string) (raws : list (list byte)) (ms : list TargetMessage) (w : world)
    : Prop := {
  at_logs : Forall2 travels raws ms;
  at_keeps : Forall (keeps t) ms;
  at_out : out w = opened (frame hello :: (frame <$> (log_frame <$> raws)));
  at_inp : inp w = NewReader [];
}.

Lemma reply_begun t data w x w' raws ms srv :
  attended t raws ms w -> target_begin t data w = Ret (x, w') ->
  attends t (out w') = Some (Ret (false, srv)) ->
  reply t data w
  = Ret (NewReader (carry_back t (drop (length ms) (sent (Servers.out srv))))).
Proof.
  intros [Hr Hk Ho Hi] E Ha. unfold reply. rewrite E, Ha, Ho, Hi.
  rewrite (replies_logs t raws ms), length_replicate by done. done.
Qed.

(** A rule decides: nothing is written, and nothing comes back. *)
Lemma heard_breach t data l raw rule w raws ms :
  attended t raws ms w -> counts (mgr w) ->
  ProtobufToBroker data = (l, None) -> ToProtobuf (BrokerToTarget t l) = (raw, None) ->
  List.find decides (rules w) = Some rule ->
  reply t data w = Ret (NewReader []) /\
  exists w', target_iteration t (Inbound data) (set_inp (NewReader []) w) = Ret (true, w') /\
    inp w' = NewReader [].
Proof.
  intros Hat [Hin Hc] Hd E Hf. split.
  - destruct (begin_breached t data l raw rule w Hin Hc Hd E Hf) as (w1 & Hacc & Hb).
    specialize (Hb (inp w)). rewrite set_inp_id in Hb. apply breach_keeps in Hacc as (Ho1 & _).
    rewrite (reply_begun t data w _ _ raws ms (served false (length ms) (kept ms)) Hat Hb).
    + cbn [served Servers.out sent]. by rewrite drop_ge, back_nothing by by rewrite length_replicate.
    + cbn [out set_inp]. rewrite Ho1, (at_out _ _ _ _ Hat), speech_spoken.
      apply (attends_logs t raws ms); apply Hat.
  - destruct (receive_breached t data l raw rule (Session.waiting w) Hin Hc Hd E Hf) as (w2 & _ & Hr).
    eexists. rewrite iteration_waits. cbn [target_select]. by rewrite Hr.
Qed.

(** No rule decides: the server gets the log, and its OK comes back. *)
Lemma heard_delivery t data l raw w raws ms :
  attended t raws ms w -> counts (mgr w) ->
  ProtobufToBroker data = (l, None) -> ToProtobuf (BrokerToTarget t l) = (raw, None) ->
  travels raw (BrokerToTarget t l) -> keeps t (BrokerToTarget t l) ->
  List.find decides (rules w) = None ->
  reply t data w = Ret (oks 1) /\
  exists w', target_iteration t (Inbound data) (set_inp (oks 1) w) = Ret (true, w') /\
    inp w' = NewReader [].
Proof.
  intros Hat [Hin Hc] Hd E Hraw Hk Hf. pose proof (proj1 (proj2 Hraw)) as Hfr.
  pose proof (at_out _ _ _ _ Hat) as Ho. split.
  - pose proof (begin_waits t data l raw _ (inp w) w Hin Hc Hd E Hf Ho Hfr) as Hb.
    rewrite set_inp_id in Hb. set (ms' := ms ++ [BrokerToTarget t l]).
    rewrite (reply_begun t data w _ _ raws ms (served false (length ms') (kept ms')) Hat Hb).
    + cbn [served Servers.out sent]. subst ms'. rewrite length_app, replicate_add. cbn [length].
      rewrite drop_app_length' by by rewrite length_replicate.
      change (replicate 1 (frame ok)) with [frame ok]. by rewrite back_one.
    + change (out (set_inp (inp w) (Session.written data ?c w))) with c.
      assert (opened ((frame hello :: (frame <$> (log_frame <$> raws))) ++ [frame (log_frame raw)])
              = opened (frame hello :: (frame <$> (log_frame <$> (raws ++ [raw]))))) as ->
        by by rewrite !fmap_app.
      rewrite speech_spoken. apply (attends_logs t (raws ++ [raw]) ms').
      * apply Forall2_app; [apply Hat |]. constructor; [exact Hraw | constructor].
      * apply Forall_app. split; [apply Hat |]. by apply Forall_singleton.
  - pose proof (receive_delivered t data l raw _ 0 (Session.waiting w) Hin Hc Hd E Hf Ho Hfr) as Hr.
    eexists. rewrite iteration_waits. cbn [target_select]. by rewrite Hr.
Qed.

(** A message at its target, with the server behind it: it is delivered and
    answered, discarded or sent on, and the target is ready for the next. *)
Lemma heard_turn t data w raws ms :
  attended t raws ms w -> counts (mgr w) -> fit data -> t ∈ known ->
  TargetConnectors (mgr w) = known -> anchored (rules w) ->
  exists r w', reply t data w = Ret r /\ good (target_fate t data (set_inp r w)) /\
    target_iteration t (Inbound data) (set_inp r w) = Ret (true, w') /\ inp w' = NewReader [].
Proof.
  intros Hat Hc (l & Hd & Hl) Ht Hk Ha.
  destruct (clean_encodes t l Hl Ht) as (raw & E & Hraw).
  destruct (List.find decides (rules w)) as [rule |] eqn:Hf.
  - destruct (heard_breach t data l raw rule w raws ms) as (Hr & w' & Hi & He); [done.. |].
    exists (NewReader []), w'. split_and!; [done | | done..].
    unfold target_fate. rewrite Hd, E. cbn [rules set_inp]. rewrite Hf. by apply (breach_good rule l w).
  - destruct (heard_delivery t data l raw w raws ms) as (Hr & w' & Hi & He);
      [done.. | by apply (cl_keeps l Hl) | done |].
    exists (oks 1), w'. split_and!; [done | | done..].
    unfold target_fate. rewrite Hd, E. cbn [rules set_inp out inp]. rewrite Hf, (at_out _ _ _ _ Hat).
    pose proof (write_new_message_frame (frame hello :: (frame <$> (log_frame <$> raws)))
      CommandTargetLog (string_of raw)) as Hw.
    rewrite bytes_of_string_of in Hw. unfold opened. by rewrite (Hw (log_frame_marshals raw)).
Qed.

(** ** The abstract shipper with nothing wrong *)

Definition benign (x : label) : Prop :=
  match x with
  | Accept source targets item =>
      Forall (fun t => t ∈ known) targets /\ clean (SourceToBroker source targets item)
  | Settle _ _ f => good f
  | Advance _ => True
  end.

(** Every copy is for a target that exists and can be handed to it, and none is
    missing. *)
Record orderly (d : delivery) : Prop := {
  od_pending : forall c, c ∈ pending d -> c.1 ∈ known /\ fit c.2;
  od_missing : missing d = 0;
}.

#[local] Instance orderly_proper : Proper ((≡) ==> impl) orderly.
Proof.
  intros a b (Hp & Hm & _) [H1 H2]. split; [| congruence]. intros c Hc. apply H1. by rewrite Hp.
Qed.

Definition ending (p : phase) : Prop := p = WaitTargets \/ p = Done.

Lemma none_misaddressed targets :
  Forall (fun t => t ∈ known) targets -> misaddressed known targets = 0.
Proof.
  intros Ht. unfold misaddressed. induction Ht as [| t ts Hin _ IH]; [done |].
  rewrite filter_cons. by rewrite decide_False by tauto.
Qed.

Lemma good_lost f : good f -> lost f = 0.
Proof. by destruct f. Qed.

(** A copy that is sent on is as good as it was. *)
Lemma resent_fit target data f c :
  fit data -> legal known target data f -> good f -> c ∈ resends f -> c.1 ∈ known /\ fit c.2.
Proof.
  intros (l & Hd & Hl) Hf Hg Hc. destruct f as [| | x d | | | |]; try by apply not_elem_of_nil in Hc.
  apply list_elem_of_singleton in Hc as ->. cbn. destruct Hf as (Hx & l' & Hd' & He).
  split; [exact Hx |]. rewrite Hd in Hd'. injection Hd' as <-.
  exists (set_targets [x] l). split; [| by apply clean_resent].
  destruct (cl_resends l Hl x Hx) as [_ Hlen]. rewrite He in Hlen.
  apply Unmarshal_Marshal; [apply (cl_wf l Hl) | exact He | exact Hlen].
Qed.

Lemma orderly_step x a b : orderly a -> spec_step known x a b -> benign x -> orderly b.
Proof.
  intros [Hp Hm] Hst Hx. destruct Hst as
    [source targets item data a b _ Hwf He Hl E | target data f rest a b Hr Hf E | a b _ _ E];
    rewrite E; clear E b.
  - destruct Hx as [Ht Hc]. split; cbn [pending missing]; [| rewrite Hm; by apply none_misaddressed].
    intros c [Hin | Hin]%elem_of_app; [| by apply Hp].
    unfold copies in Hin. apply list_elem_of_fmap in Hin as (t & -> & Hin).
    apply list_elem_of_filter in Hin as [Hk _]. split; [done |]. eexists. split; [| exact Hc].
    by apply (accepted_decodes source targets item data Hwf He Hl).
  - cbn in Hx. split; cbn [pending missing]; [| by rewrite Hm, good_lost].
    intros c [Hin | Hin]%elem_of_app; [| apply Hp; rewrite Hr; by right].
    apply (resent_fit target data f c); [| done..]. apply (Hp (target, data)). rewrite Hr. by left.
  - by split.
Qed.

Lemma ending_step x a b : spec_step known x a b -> ending (stage a) -> ending (stage b).
Proof.
  intros Hst He. destruct Hst as
    [source targets item data a b _ _ _ _ (_ & _ & E) | target data f rest a b _ _ (_ & _ & E)
    | a b _ _ (_ & _ & E)]; rewrite E; [done.. |]. cbn. destruct He as [-> | ->]; by right.
Qed.

Lemma orderly_run a tr b :
  spec_run known a tr b -> Forall benign tr -> orderly a ->
  orderly b /\ (ending (stage a) -> ending (stage b)).
Proof.
  induction 1 as [a b Hab | a x b tr c Hx _ IH]; intros Ht Ha.
  { split; [by rewrite <- Hab |]. destruct Hab as (_ & _ & E). by rewrite <- E. }
  apply list.Forall_cons in Ht as [Hb Ht]. pose proof (orderly_step x a b Ha Hx Hb) as Hob.
  destruct (IH Ht Hob) as [Hoc Hec]. split; [done |]. intros He. by apply Hec, (ending_step x a).
Qed.

(** ** A server has answered: nothing but the input of a connector is new *)

Inductive hears (s : sys) : sys -> Prop :=
  | hears_nothing : hears s s
  | hears_reply t tgt w r :
      tgts s !! t = Some (Idle, tgt, w) ->
      hears s (set_tgts (cm s) (<[t := (Idle, tgt, set_inp r w)]> (tgts s)) s).

Lemma prepare_hears a s s1 : prepare a s = Ret s1 -> hears s s1.
Proof.
  unfold prepare. destruct (addressed a s) as [[t data] |]; [| intros [= <-]; constructor].
  unfold hear. destruct (tgts s !! t) as [[[[] tgt] w] |] eqn:Hk; try (intros [= <-]; constructor).
  destruct (reply _ _ _) as [r |]; [| done]. intros [= <-]. by apply hears_reply.
Qed.

Lemma hears_inv s s1 : inv 0 s -> hears s s1 -> inv 0 s1.
Proof.
  intros Hi [| t tgt w r Hk]; [done |].
  destruct (target_sums (tgts s) t _ tgt w Idle (set_inp r w) Hk) as [Ht Hl].
  destruct Hi as [Hii Hacc Hc Hs Htw Hw Hu Hcars Hph].
  split; cbn; unfold queued in *; cbn in *; done || lia.
Qed.

Lemma hears_view s s1 : hears s s1 -> view known s1 ≡ view known s.
Proof.
  intros [| t tgt w r Hk]; [done |]. split_and!; [| done..]. unfold view. cbn.
  by rewrite (bag_same _ _ _ _ (Idle, tgt, set_inp r w) Hk).
Qed.

Lemma hears_speaks name raws s s1 : hears s s1 -> speaks name raws s -> speaks name raws s1.
Proof.
  intros [| t tgt w r Hk] Hs; [done |]. intros st tg w1. cbn. destruct (decide (t = name)) as [<- | Hne].
  - rewrite lookup_insert_eq. intros [= <- <- <-]. apply (Hs _ _ _ Hk).
  - rewrite lookup_insert_ne by done. apply Hs.
Qed.

(** A step can be taken after an answer if it could be taken before. *)
Lemma hears_turn t data s s1 o :
  hears s s1 -> target_turn t (Inbound data) s = Some o ->
  exists o1, target_turn t (Inbound data) s1 = Some o1.
Proof.
  intros [| t' tgt w r Hk]; [by eauto |]. unfold target_turn. cbn.
  destruct (tgts s !! t) as [[[[] tg] w1] |] eqn:E; try done. intros _.
  destruct (decide (t' = t)) as [-> | Hne]; [rewrite lookup_insert_eq | rewrite lookup_insert_ne, E by done];
    by eexists.
Qed.

(** ** What holds in every state of the whole *)

Variable height : string -> nat.
Hypothesis tall : forall t name, t ∉ known -> name ∈ known -> (height name <= height t)%nat.

(** A target that is ranked falls back to targets that exist. *)
Lemma ranked_anchored name w : name ∈ known -> ranked height name (breaches w) -> anchored (rules w).
Proof.
  intros Hn Hr. unfold anchored, ranked, breaches in *. eapply list.Forall_impl; [exact Hr |].
  intros b Hb Ha. cbn in *. specialize (Hb Ha).
  destruct (decide (Breach_Target b ∈ known)) as [| Hout]; [done |].
  pose proof (tall _ name Hout Hn). lia.
Qed.

Lemma hears_routed s s1 : routed height s -> hears s s1 -> routed height s1.
Proof.
  intros Hr [| t tgt w r Hk]; [done |]. destruct (rt_tgts _ _ Hr _ _ Hk) as (Hp & Hq & _ & Hb).
  eapply (routed_target height s); [exact Hr | exact Hk | done | done | done | reflexivity |].
  split_and!; [exact Hp | exact Hq | exact Hb].
Qed.

(** A connector has nothing to read, and returns, with a word to its server, when
    the targets are stopped. *)
Definition still (p : phase) (x : status * Connector.Target * world) : Prop :=
  inp x.2 = NewReader [] /\ (x.1.1 = Exited -> ending p /\ sent (out x.2) <> []).

Record well (s : sys) : Prop := {
  wl_inv : inv 0 s;
  wl_routed : routed height s;
  wl_known : TargetConnectors (cm s) = known;
  wl_orderly : orderly (view known s);
  wl_said : forall t, t ∈ known -> exists raws ms,
    Forall2 travels raws ms /\ Forall (keeps t) ms /\ speaks t raws s;
  wl_still : map_Forall (fun _ => still (main s)) (tgts s);
  wl_srcs : map_Forall (fun _ x => Forall (fun t => t ∈ known) (Source_Targets_ x.1.2)) (srcs s);
}.

(** What the whole is trusted for: the targets can be dialled, and what a source
    sends can be handed to the targets. *)
Definition welcome (name : string) (targets : list string) (event : source_event) : Prop :=
  match event with
  | Received msg => forall item, ProtobufToSource (Data msg) = (item, None) ->
      clean (SourceToBroker name targets item) /\
      len (ToProtobuf (SourceToBroker name targets item)).1 < pow64
  | _ => True
  end.

Definition working (a : action) (s : sys) : Prop :=
  match a with
  | SourceEvent name event =>
      forall st src w, srcs s !! name = Some (st, src, w) -> welcome name (Source_Targets_ src) event
  | TargetStart _ dial => dial = None
  | _ => True
  end.

Lemma working_admissible a s : working a s -> admissible a s.
Proof.
  destruct a; try done. intros Hw st src w Hk. specialize (Hw st src w Hk).
  destruct event as [msg | |]; try done. intros item Hd. destruct (Hw item Hd) as [Hc Hl].
  split; [apply (cl_wf _ Hc) | exact Hl].
Qed.

Lemma working_hears a s s1 : hears s s1 -> working a s -> working a s1.
Proof. intros [] Hw; destruct a; exact Hw. Qed.

(** What waits for a target. *)
Lemma in_bag {K B C} `{Countable K} (f : B -> list C) (m : gmap K B) k x c :
  m !! k = Some x -> c ∈ f x -> c ∈ bag f m.
Proof.
  intros Hk Hc. unfold bag. apply list_elem_of_bind. exists (k, x). split; [exact Hc |].
  by apply elem_of_map_to_list.
Qed.

Lemma addressed_pending a s e : addressed a s = Some e -> e ∈ pending (view known s).
Proof.
  destruct a; try done; cbn [addressed view pending].
  - destruct (wrks s !! i) as [[[| | [| e' q] |] w] |] eqn:Hk; try done. intros [= ->].
    apply elem_of_app. right. apply elem_of_app. left. apply (in_bag _ _ _ _ _ Hk). by left.
  - destruct (tgts s !! name) as [[[[| | [| e' q] |] tg] w] |] eqn:Hk; try done. intros [= ->].
    apply elem_of_app. right. apply elem_of_app. right. apply (in_bag _ _ _ _ _ Hk). by left.
Qed.

Lemma addressed_counts a s e : inv 0 s -> addressed a s = Some e -> counts (cm s).
Proof.
  intros Hi Ha. split; [| rewrite (inv_counted _ _ Hi); apply u64_range].
  destruct a; try done; cbn [addressed] in Ha.
  - destruct (wrks s !! i) as [[[| | [| e' q] |] w] |] eqn:Hk; try done.
    by eapply sender_holds_worker.
  - destruct (tgts s !! name) as [[[[| | [| e' q] |] tg] w] |] eqn:Hk; try done.
    by eapply sender_holds_target.
Qed.

(** The turn of a target that is handed a message. *)
Lemma well_turn a s t data tgt w :
  well s -> addressed a s = Some (t, data) -> tgts s !! t = Some (Idle, tgt, w) ->
  exists r w' s2,
    prepare a s = Ret (set_tgts (cm s) (<[t := (Idle, tgt, set_inp r w)]> (tgts s)) s) /\
    good (target_fate t data (enter (cm s) (set_inp r w))) /\
    target_turn t (Inbound data)
      (set_tgts (cm s) (<[t := (Idle, tgt, set_inp r w)]> (tgts s)) s) = Some (Ret s2) /\
    tgts s2 = <[t := (after (sends w'), tgt, w')]> (tgts s) /\ inp w' = NewReader [] /\
    main s2 = main s.
Proof.
  intros [Hi Hr Hkn [Hp _] Hs Hst _] Ha Hk.
  destruct (Hp _ (addressed_pending _ _ _ Ha)) as [Ht Hf]. cbn in Ht, Hf.
  destruct (Hs t Ht) as (raws & ms & Htr & Hks & Hsp). pose proof (Hsp _ _ _ Hk) as Ho. cbn in Ho.
  destruct (Hst _ _ Hk) as [Hin _]. cbn in Hin.
  destruct (heard_turn t data (enter (cm s) w) raws ms) as (r & w' & Hre & Hg & Ht' & Hi').
  - by split.
  - by apply (addressed_counts a s (t, data)).
  - exact Hf.
  - exact Ht.
  - exact Hkn.
  - apply (ranked_anchored t); [exact Ht |]. apply (rt_tgts _ _ Hr _ _ Hk).
  - exists r, w'. eexists. split_and!.
    + unfold prepare. rewrite Ha. unfold hear. by rewrite Hk, Hre.
    + exact Hg.
    + unfold target_turn. cbn [tgts set_tgts]. rewrite lookup_insert_eq. cbn [cm set_tgts].
      change (enter (cm s) (set_inp r w)) with (set_inp r (enter (cm s) w)). rewrite Ht'. reflexivity.
    + cbn. by rewrite insert_insert_eq.
    + exact Hi'.
    + done.
Qed.

(** ** A step of the whole *)

(** The target that is handed a message is at its [select], or nothing is heard. *)
Lemma prepare_cases a s :
  prepare a s = Ret s /\ (forall t data tgt w, addressed a s = Some (t, data) ->
                          tgts s !! t <> Some (Idle, tgt, w)) \/
  exists t data tgt w, addressed a s = Some (t, data) /\ tgts s !! t = Some (Idle, tgt, w).
Proof.
  unfold prepare, hear. destruct (addressed a s) as [[t data] |]; [| by left].
  destruct (tgts s !! t) as [[[[] tgt] w] |] eqn:Hk; try by (left; split; [done |]; naive_solver).
  right. by exists t, data, tgt, w.
Qed.

Lemma prepare_returns a s : well s -> exists s1, prepare a s = Ret s1 /\ hears s s1.
Proof.
  intros Hw. destruct (prepare_cases a s) as [[E _] | (t & data & tgt & w & Ha & Hk)].
  - exists s. by split; [| constructor].
  - destruct (well_turn a s t data tgt w Hw Ha Hk) as (r & w' & s2 & E & _).
    eexists. split; [exact E |]. by apply hears_reply.
Qed.

(** The observations of a handover to a target, by whoever addresses it. *)
Lemma observe_addressed a s t data :
  addressed a s = Some (t, data) -> observe a s = settles t data s.
Proof.
  destruct a; try done; cbn [addressed observe].
  - destruct (wrks s !! i) as [[[| | [| e q] |] w] |]; try done. by intros [= ->].
  - destruct (tgts s !! name) as [[[[| | [| e q] |] tg] w] |]; try done. by intros [= ->].
Qed.

Lemma addressed_hears a s s1 : hears s s1 -> addressed a s1 = addressed a s.
Proof.
  intros [| t tgt w r Hk]; [done |]. destruct a; try done. cbn.
  destruct (decide (t = name)) as [-> | Hne]; [| by rewrite lookup_insert_ne].
  by rewrite lookup_insert_eq, Hk.
Qed.

Lemma observe_unaddressed a s : addressed a s = None -> match a with
  | Dispatch _ | FallBack _ => observe a s = []
  | _ => True
  end.
Proof.
  destruct a; try done; cbn [addressed observe].
  - by destruct (wrks s !! i) as [[[| | [|] |] ?] |].
  - by destruct (tgts s !! name) as [[[[| | [|] |] ?] ?] |].
Qed.

Lemma source_benign name event s : well s -> working (SourceEvent name event) s ->
  Forall benign (observe (SourceEvent name event) s).
Proof.
  intros Hw Hok. cbn [observe]. destruct (srcs s !! name) as [[[st src] w] |] eqn:Hk; [| constructor].
  specialize (Hok st src w Hk). destruct event as [msg | |]; [| constructor..].
  cbn [accepted_item]. destruct (String.eqb _ _); [| constructor].
  destruct (ProtobufToSource (Data msg)) as [item [e |]] eqn:Hd; [constructor |].
  destruct (ToProtobuf _) as [data [e |]]; [constructor |].
  apply Forall_singleton. split; [apply (wl_srcs _ Hw _ _ Hk) | by apply (Hok item)].
Qed.

Lemma prepare_benign a s s1 :
  well s -> working a s -> prepare a s = Ret s1 -> Forall benign (observe a s1).
Proof.
  intros Hw Hok E. destruct (addressed a s) as [[t data] |] eqn:Ha.
  - pose proof (prepare_hears a s s1 E) as Hh.
    rewrite (observe_addressed a s1 t data) by by rewrite (addressed_hears a s s1).
    destruct (tgts s !! t) as [[[st tgt] w] |] eqn:Hk.
    + destruct st as [| | q |].
      2: { destruct (well_turn a s t data tgt w Hw Ha Hk) as (r & w' & s2 & E' & Hg & _).
           rewrite E in E'. injection E' as ->. unfold settles. cbn. rewrite lookup_insert_eq.
           by apply Forall_singleton. }
      all: assert (s1 = s) as -> by (unfold prepare, hear in E; rewrite Ha, Hk in E; congruence);
        unfold settles; rewrite Hk; constructor.
    + assert (s1 = s) as -> by (unfold prepare, hear in E; rewrite Ha, Hk in E; congruence).
      unfold settles. rewrite Hk. constructor.
  - assert (s1 = s) as -> by (unfold prepare in E; rewrite Ha in E; congruence).
    pose proof (observe_unaddressed a s Ha) as Hn.
    destruct a; try by constructor.
    + by apply source_benign.
    + by rewrite Hn.
    + by rewrite Hn.
Qed.

(** A source keeps its configuration. *)
Lemma exec_srcs a s s' name st src w :
  exec a s = Some (Ret s') -> srcs s' !! name = Some (st, src, w) ->
  exists st0 w0, srcs s !! name = Some (st0, src, w0).
Proof.
  assert (forall n (st0 st1 : status) (src1 : Connector.Source) w0 w1,
    srcs s !! n = Some (st0, src1, w0) ->
    <[n := (st1, src1, w1)]> (srcs s) !! name = Some (st, src, w) ->
    exists st0 w0, srcs s !! name = Some (st0, src, w0)) as Hone.
  { intros n st0 st1 src1 w0 w1 Hk. destruct (decide (n = name)) as [<- | Hne].
    - rewrite lookup_insert_eq. intros [= _ <- _]. by eauto.
    - rewrite lookup_insert_ne by done. by eauto. }
  destruct a; cbn [exec]; unfold source_start, target_start, worker_start, source_turn, handover,
    dispatch, fall_back, then_, target_turn, worker_turn, broker_start, broker_stop; intros He Hn;
    repeat case_match; simplify_eq; cbn in Hn; eauto.
Qed.

Lemma idle_turn_input name event s s' :
  inv 0 s -> match event with Inbound _ => False | _ => True end ->
  target_turn name event s = Some (Ret s') ->
  exists tgt w st w', tgts s !! name = Some (Idle, tgt, w) /\
    tgts s' = <[name := (st, tgt, w')]> (tgts s) /\ inp w' = inp w /\
    (st = Exited -> event = StopTarget /\
       out w' = conn_close (SendBye (conn_close (SendBye (out w))))).
Proof.
  intros Hi He. unfold target_turn.
  destruct (tgts s !! name) as [[[[] tgt] w] |] eqn:Hk; try done.
  pose proof (live_target _ _ _ _ _ Hi Hk eq_refl) as Htw.
  destruct event as [data | i ct tt' now order |]; [done | |].
  - cbn. intros [= <-]. by eexists tgt, w, Idle, _.
  - unfold target_iteration, target_select, target_stop, set_state, deferred, on_mgr, target_done,
      wait_group_add, mbind_, mmodify, mreturn. cbn. rewrite (proj2 (Z.ltb_ge _ 0)) by lia.
    intros [= <-]. by eexists tgt, w, Exited, _.
Qed.

Lemma start_input name tgt w w' :
  target_handle name tgt None [] w = Ret (tt, w') -> inp w' = inp w.
Proof.
  unfold target_handle, register, set_state, log_guarded, mbind_, mmodify, mreturn. cbn.
  destruct (SendHello (out w)) as [[] c]; cbn.
  - by intros [= <-].
  - destruct (Monitor_ (mgr w)); cbn; by intros [= <-].
Qed.

(** The steps of the other goroutines leave the targets alone. *)
Definition apart (a : action) : bool :=
  match a with
  | TargetStart _ _ | LimiterTick _ _ _ _ _ _ | StopSignalTarget _ | Dispatch _ | FallBack _ => false
  | _ => true
  end.

Lemma exec_apart a s s' : apart a = true -> exec a s = Some (Ret s') -> tgts s' = tgts s.
Proof.
  destruct a; try done; intros _; cbn [exec]; unfold source_start, worker_start, source_turn, handover,
    then_, worker_turn, broker_start, broker_stop, StopSources, StopTargets; intros He;
    by repeat case_match; simplify_eq.
Qed.

(** The targets after a step in which none of them is handed a message. *)
Lemma exec_still a s s' :
  well s -> working a s -> addressed a s = None -> exec a s = Some (Ret s') ->
  (ending (main s) -> ending (main s')) ->
  map_Forall (fun _ => still (main s')) (tgts s').
Proof.
  intros Hw Hok Ha He Hend. pose proof (wl_inv _ Hw) as Hi. pose proof (wl_still _ Hw) as Hst.
  assert (map_Forall (fun _ => still (main s')) (tgts s)) as Hst'.
  { intros k x Hk. destruct (Hst k x Hk) as [E Hx]. split; [done |]. intros Hex. destruct (Hx Hex). auto. }
  assert (forall name event, match event with Inbound _ => False | _ => True end ->
    (event = StopTarget -> ending (main s')) -> target_turn name event s = Some (Ret s') ->
    map_Forall (fun _ => still (main s')) (tgts s')) as Hturn.
  { intros name event Hev Hstop Ht.
    destruct (idle_turn_input name event s s' Hi Hev Ht) as (tgt & w & st & w' & Hk & -> & E & Hex).
    apply map_Forall_insert_2; [| done]. destruct (Hst' _ _ Hk) as [E0 _]. split; cbn in *; [congruence |].
    intros ->. destruct Hex as [-> Ho]; [done |]. split; [auto |]. rewrite Ho.
    assert (name ∈ known) as Hn.
    { rewrite <- (wl_known _ Hw), <- (rt_dom _ _ (wl_routed _ Hw)). by eapply elem_of_dom_2. }
    destruct (wl_said _ Hw name Hn) as (raws & ms & _ & _ & Hsp). specialize (Hsp _ _ _ Hk). cbn in Hsp.
    by rewrite Hsp. }
  destruct (apart a) eqn:Hap; [by rewrite (exec_apart a s s' Hap He) |].
  destruct a; try done; clear Hap; cbn [exec] in He; cbn [working] in Hok.
  - subst dial. unfold target_start in He.
    destruct (tgts s !! name) as [[[[] tgt] w] |] eqn:Hk; try done.
    destruct (target_handle _ _ _ _ _) as [[[] w'] |] eqn:E; [| done]. injection He as <-.
    apply map_Forall_insert_2; [| done]. destruct (Hst' _ _ Hk) as [E0 _]. split; [| done].
    apply start_input in E. cbn in *. congruence.
  - by apply (Hturn name (Ticker i curTime ttlTime now order)).
  - destruct (TargetStop (cm s)) eqn:E; [| done]. apply (Hturn name StopTarget); [done | | exact He].
    intros _. apply Hend. pose proof (inv_phase _ _ Hi) as Hp. unfold phase_ok, ending in *.
    destruct (main s); auto; exfalso; intuition congruence.
  - unfold dispatch in He. cbn in Ha. by repeat case_match; simplify_eq.
  - unfold fall_back in He. cbn in Ha. by repeat case_match; simplify_eq.
Qed.

(** The same when a target is handed a message: the step takes place. *)
Lemma exec_heard a s s1 t data tgt w :
  well s -> addressed a s = Some (t, data) -> tgts s !! t = Some (Idle, tgt, w) ->
  prepare a s = Ret s1 ->
  exists s', exec a s1 = Some (Ret s') /\ main s' = main s /\
    map_Forall (fun _ => still (main s)) (tgts s').
Proof.
  intros Hw Ha Hk E. pose proof (wl_still _ Hw) as Hst.
  destruct (well_turn a s t data tgt w Hw Ha Hk) as (r & w' & s2 & E' & _ & Ht & Hts & Hin & Hm).
  rewrite E in E'. injection E' as ->.
  assert (map_Forall (fun _ => still (main s)) (tgts s2)) as Hst2.
  { rewrite Hts. apply map_Forall_insert_2; [| done]. split; [done |]. cbn. by destruct (sends w'). }
  destruct a; try done; cbn [addressed] in Ha; cbn [exec].
  - destruct (wrks s !! i) as [[[| | [| e q] |] wk] |] eqn:Hs; try done. injection Ha as ->.
    unfold dispatch. cbn [wrks set_tgts]. rewrite Hs, Ht. cbn [then_]. by eexists.
  - destruct (tgts s !! name) as [[[[| | [| e q] |] tg] wt] |] eqn:Hs; try done. injection Ha as ->.
    assert (t <> name) as Hne by (intros ->; congruence).
    unfold fall_back. cbn [tgts set_tgts]. rewrite lookup_insert_ne, Hs, Ht by done. cbn [then_].
    eexists. split_and!; [done | done |]. cbn. apply map_Forall_insert_2; [| done].
    destruct (Hst _ _ Hs) as [Hi0 _]. split; [exact Hi0 |]. cbn. by destruct q.
Qed.

Lemma exec_unheard a s t data :
  addressed a s = Some (t, data) -> (forall tgt w, tgts s !! t <> Some (Idle, tgt, w)) ->
  exec a s = None.
Proof.
  intros Ha Hn. assert (target_turn t (Inbound data) s = None) as Ht.
  { unfold target_turn. destruct (tgts s !! t) as [[[[] tgt] w] |] eqn:Hk; try done. by destruct (Hn tgt w). }
  destruct a; try done; cbn [addressed] in Ha; cbn [exec].
  - destruct (wrks s !! i) as [[[| | [| e q] |] wk] |] eqn:Hs; try done. injection Ha as ->.
    unfold dispatch. by rewrite Hs, Ht.
  - destruct (tgts s !! name) as [[[[| | [| e q] |] tg] wt] |] eqn:Hs; try done. injection Ha as ->.
    unfold fall_back. by rewrite Hs, Ht.
Qed.

(** What is delivered fits the connection, and is kept. *)
Lemma delivered_fit t d tr d' :
  spec_run known d tr d' -> Forall benign tr -> orderly d ->
  exists ms, Forall2 travels (delivered_to t tr) ms /\ Forall (keeps t) ms.
Proof.
  induction 1 as [a b Hab | a x b tr c Hx _ IH]; intros Ht Ha; [by exists [] |].
  apply list.Forall_cons in Ht as [Hb Ht]. pose proof (orderly_step x a b Ha Hx Hb) as Hob.
  destruct (IH Ht Hob) as (ms & Hms & Hks).
  unfold delivered_to. rewrite bind_cons. change (tr ≫= logs_of t) with (delivered_to t tr).
  assert (logs_of t x = [] -> exists ms, Forall2 travels (logs_of t x ++ delivered_to t tr) ms /\
            Forall (keeps t) ms) as Hnone by (intros ->; by exists ms).
  destruct Hx as [| target data f rest a b Hp Hf _ |]; [by apply Hnone | | by apply Hnone].
  destruct f as [raw | | | | | |]; try by apply Hnone. cbn [logs_of] in *.
  destruct (String.eqb_spec target t) as [-> |]; [| by apply Hnone]. clear Hnone.
  destruct (od_pending _ Ha (t, data)) as [Hk (l & Hd & Hl)]; [rewrite Hp; by left |]. cbn in Hk, Hd.
  destruct Hf as (l' & Hd' & He). rewrite Hd in Hd'. injection Hd' as <-.
  destruct (clean_encodes t l Hl Hk) as (raw' & He' & Htr). rewrite He in He'. injection He' as <-.
  exists (BrokerToTarget t l :: ms). split; [by constructor |]. constructor; [| done].
  by apply (cl_keeps l Hl).
Qed.

(** What is sent on is short. *)
Lemma benign_short d tr d' :
  spec_run known d tr d' -> Forall benign tr -> orderly d -> Forall short tr.
Proof.
  induction 1 as [a b Hab | a x b tr c Hx _ IH]; intros Ht Ha; [constructor |].
  apply list.Forall_cons in Ht as [Hb Ht]. constructor; [| by apply IH, (orderly_step x a)].
  destruct Hx as [| target data f rest a b Hp Hf _ |]; [done | | done].
  destruct f as [| | x d | | | |]; try done. cbn. destruct Hf as (Hx & l & Hd & He).
  destruct (od_pending _ Ha (target, data)) as [_ (l' & Hd' & Hl)]; [rewrite Hp; by left |]. cbn in Hd'.
  rewrite Hd in Hd'. injection Hd' as <-. destruct (cl_resends l Hl x Hx) as [_ Hlen]. by rewrite He in Hlen.
Qed.

Lemma benign_unharmed t tr : Forall benign tr -> unharmed t tr.
Proof.
  intros Hb data f Hin. rewrite list.Forall_forall in Hb. specialize (Hb _ Hin). by destruct f.
Qed.

(** Every step leaves all well. *)
Lemma well_exec a s s1 s' :
  well s -> working a s -> prepare a s = Ret s1 -> exec a s1 = Some (Ret s') -> well s'.
Proof.
  intros Hw Hok E He. pose proof Hw as [Hi Hr Hkn Ho Hs Hst Hsrc].
  pose proof (prepare_hears a s s1 E) as Hh. pose proof (hears_inv s s1 Hi Hh) as Hi1.
  pose proof (hears_routed s s1 Hr Hh) as Hr1.
  assert (TargetConnectors (cm s1) = known) as Hk1 by by destruct Hh.
  pose proof (working_hears a s s1 Hh Hok) as Hok1.
  pose proof (prepare_benign a s s1 Hw Hok E) as Hb.
  pose proof (exec_simulates known a s1 s' Hi1 Hk1 (working_admissible _ _ Hok1) He) as Hsim.
  assert (orderly (view known s1)) as Ho1 by by rewrite (hears_view s s1 Hh).
  destruct (orderly_run _ _ _ Hsim Hb Ho1) as [Ho' Hend].
  pose proof (exec_inv a s1 Hi1 (working_admissible _ _ Hok1)) as Hi'. rewrite He in Hi'.
  split; [exact Hi' | by apply (exec_routed height a s1) | | exact Ho' | | |].
  - by rewrite (exec_known a s1 s' Hi1 He).
  - intros t Ht. destruct (Hs t Ht) as (raws & ms & Htr & Hks & Hsp).
    destruct (delivered_fit t _ _ _ Hsim Hb Ho1) as (ms' & Htr' & Hks').
    exists (raws ++ delivered_to t (observe a s1)), (ms ++ ms'). split_and!.
    + by apply Forall2_app.
    + by apply Forall_app.
    + apply (exec_speaks t a s1); [done.. | by apply benign_unharmed | by apply (hears_speaks _ _ s)].
  - destruct (addressed a s) as [[t data] |] eqn:Ha.
    + destruct (prepare_cases a s) as [[E' Hn] | (t' & d' & tgt & w & Ha' & Hk)].
      * rewrite E in E'. injection E' as ->. by rewrite (exec_unheard a s t data) in He by naive_solver.
      * rewrite Ha in Ha'. injection Ha' as <- <-.
        destruct (exec_heard a s s1 t data tgt w) as (s2 & He2 & Hm & Hst2); [done.. |].
        rewrite He in He2. injection He2 as <-. by rewrite Hm.
    + unfold prepare in E. rewrite Ha in E. injection E as <-. by apply (exec_still a s s').
  - intros n [[st src] w] Hn. destruct (exec_srcs a s1 s' n st src w He Hn) as (st0 & w0 & Hn1).
    assert (srcs s1 = srcs s) as Es by by destruct Hh. rewrite Es in Hn1. exact (Hsrc _ _ Hn1).
Qed.

(** ** Nothing panics, and nothing is stuck *)

Lemma unaddressed_stuck a s : addressed a s = None -> match a with
  | Dispatch _ | FallBack _ => exec a s = None
  | _ => True
  end.
Proof.
  destruct a; try done; cbn [addressed exec]; unfold dispatch, fall_back.
  - by destruct (wrks s !! i) as [[[| | [| [] ?] |] ?] |].
  - by destruct (tgts s !! name) as [[[[| | [| [] ?] |] ?] ?] |].
Qed.

Lemma well_no_panic a s why :
  well s -> working a s -> wexec a s = Some (Panic why) -> a = BrokerStop /\ SourceStop (cm s) = true.
Proof.
  intros Hw Hok. unfold wexec. destruct (prepare_returns a s Hw) as (s1 & E & Hh). rewrite E. intros He.
  pose proof (working_hears a s s1 Hh Hok) as Hok1.
  pose proof (exec_inv a s1 (hears_inv s s1 (wl_inv _ Hw) Hh) (working_admissible _ _ Hok1)) as Hp.
  rewrite He in Hp.
  destruct (addressed a s) as [[t data] |] eqn:Ha.
  - destruct (prepare_cases a s) as [[E' Hn] | (t' & d' & tgt & w & Ha' & Hk)].
    + rewrite E in E'. injection E' as ->. by rewrite (exec_unheard a s t data) in He by naive_solver.
    + destruct (exec_heard a s s1 t' d' tgt w) as (s2 & He2 & _); [done.. |]. by rewrite He in He2.
  - unfold prepare in E. rewrite Ha in E. injection E as <-.
    pose proof (unaddressed_stuck a s Ha) as Hst.
    destruct a; cbn [panic_cause working] in *; try done; try by rewrite He in Hst.
    by destruct Hp as (_ & _ & Hd).
Qed.

(** The steps of the whole that need nothing from outside. *)
Definition winternal (s s' : sys) : Prop :=
  exists a, internal a = true /\ working a s /\ wexec a s = Some (Ret s').

(** A step of the broker alone that is enabled stands for one of the whole. *)
Lemma enabled a s o : well s -> internal a = true -> exec a s = Some o -> exists s', winternal s s'.
Proof.
  intros Hw Ha He.
  assert (forall a o, internal a = true -> working a s -> wexec a s = Some o -> exists s', winternal s s')
    as Hgo.
  { intros a' [s' | why] Ha' Hok' He'; [by exists s', a' |].
    destruct (well_no_panic a' s why Hw Hok' He') as [-> _]. done. }
  assert ((exists name dial, a = TargetStart name dial) \/ working a s)
    as [(name & dial & ->) | Hok] by (destruct a; try done; (by right) || (left; by eexists _, _)).
  - cbn [exec] in He. unfold target_start in He.
    destruct (tgts s !! name) as [[[[] tgt] w] |] eqn:Hk; try done.
    eapply (Hgo (TargetStart name None)); [done | done |].
    unfold wexec, prepare. cbn. unfold target_start. by rewrite Hk.
  - destruct (prepare_cases a s) as [[E _] | (t & data & tgt & w & Had & Hk)].
    + apply (Hgo a o); [done.. |]. unfold wexec. by rewrite E.
    + destruct (prepare_returns a s Hw) as (s1 & E & _).
      destruct (exec_heard a s s1 t data tgt w) as (s2 & He2 & _); [done.. |].
      apply (Hgo a (Ret s2)); [done.. |]. unfold wexec. by rewrite E.
Qed.

Lemma waits_counts s t : inv 0 s -> waits s t -> 0 < InFlightWaitGroup (cm s).
Proof.
  intros Hi [i d q w Hk | name d q tg w Hk]; [by eapply sender_holds_worker | by eapply sender_holds_target].
Qed.

(** None of the faults of [Drain] can be. *)
Lemma well_progress s : well s -> SourceStop (cm s) = true -> main s <> Done -> exists s', winternal s s'.
Proof.
  intros Hw Hs Hd. pose proof (wl_inv _ Hw) as Hi.
  destruct (progress height s) as [Hf | (s' & a & Ha & He)];
    [split; [exact Hi | apply Hw | exact Hs] | exact Hd | | by eapply enabled].
  destruct Hf as [Hl | t tg w Hk Hwait | a why Ha He]; [| | by eapply enabled].
  - pose proof (od_missing _ (wl_orderly _ Hw)) as Hm. cbn in Hm.
    assert (0 <= map_sum (source_missing known) (srcs s)); [| lia].
    apply map_sum_nonneg. intros x. unfold source_missing.
    apply Z.mul_nonneg_nonneg; apply len_nonneg.
  - destruct (wl_still _ Hw t _ Hk) as [_ Hex]. destruct (Hex eq_refl) as [He _].
    pose proof (waits_counts s t Hi Hwait) as Hpos. pose proof (inv_phase _ _ Hi) as Hp.
    unfold phase_ok in Hp. destruct He as [E | E]; rewrite E in Hp; lia.
Qed.

Lemma hears_work s s1 : hears s s1 -> work height s1 = work height s.
Proof.
  intros [| t tgt w r Hk]; [done |]. unfold work. cbn. rewrite (map_sum_replace _ _ _ _ _ Hk).
  unfold target_work. cbn. lia.
Qed.

Lemma winternal_works s s' :
  well s -> SourceStop (cm s) = true -> winternal s s' ->
  well s' /\ SourceStop (cm s') = true /\ work height s' < work height s.
Proof.
  intros Hw Hs (a & Ha & Hok & He). unfold wexec in He.
  destruct (prepare_returns a s Hw) as (s1 & E & Hh). rewrite E in He.
  pose proof (hears_inv s s1 (wl_inv _ Hw) Hh) as Hi1.
  split_and!; [by eapply well_exec | |].
  - rewrite (internal_stop height a s1 s' Hi1 Ha He). by destruct Hh.
  - rewrite <- (hears_work s s1 Hh). apply (internal_work height a); [done | | done | done].
    apply (hears_routed s); [apply Hw | exact Hh].
Qed.

Lemma winternal_bounded n s s' :
  well s -> SourceStop (cm s) = true -> nsteps winternal n s s' ->
  well s' /\ SourceStop (cm s') = true /\ work height s' + Z.of_nat n <= work height s.
Proof.
  intros Hw Hs Hn. induction Hn as [s | n s1 s2 s3 H12 _ IH]; [split_and!; [done.. | lia] |].
  destruct (winternal_works s1 s2 Hw Hs H12) as (Hw2 & Hs2 & Hlt).
  destruct (IH Hw2 Hs2) as (? & ? & ?). split_and!; [done.. | lia].
Qed.

(** ** Runs of the whole *)

Definition wobserve (a : action) (s : sys) : list label :=
  match prepare a s with Ret s1 => observe a s1 | Panic _ => [] end.

Inductive wtraced : sys -> list label -> sys -> Prop :=
  | wtraced_nil s : wtraced s [] s
  | wtraced_cons a s s1 tr s2 :
      working a s -> wexec a s = Some (Ret s1) -> wtraced s1 tr s2 ->
      wtraced s (wobserve a s ++ tr) s2.

Lemma wtraced_well s tr s' :
  well s -> wtraced s tr s' ->
  well s' /\ Forall benign tr /\ spec_run known (view known s) tr (view known s') /\
  forall t raws, speaks t raws s -> speaks t (raws ++ delivered_to t tr) s'.
Proof.
  intros Hw Ht. induction Ht as [s | a s s1 tr s2 Hok He _ IH].
  { split_and!; [done | constructor | by apply spec_nil | intros t raws; by rewrite app_nil_r]. }
  unfold wexec in He. unfold wobserve.
  destruct (prepare_returns a s Hw) as (sh & E & Hh). rewrite E in *.
  pose proof (hears_inv s sh (wl_inv _ Hw) Hh) as Hi1.
  destruct IH as (Hw2 & Hb2 & Hr2 & Hs2); [by eapply well_exec |].
  pose proof (prepare_benign a s sh Hw Hok E) as Hb.
  assert (TargetConnectors (cm sh) = known) as Hkn by (destruct Hh; apply (wl_known _ Hw)).
  pose proof (working_admissible _ _ (working_hears a s sh Hh Hok)) as Had.
  split_and!; [exact Hw2 | by apply Forall_app | |].
  - eapply spec_run_app; [| exact Hr2].
    exact (spec_run_app _ _ [] _ _ _ (spec_nil _ _ _ (symmetry (hears_view s sh Hh)))
             (exec_simulates known a sh s1 Hi1 Hkn Had He)).
  - intros t raws Hs. unfold delivered_to. rewrite bind_app, app_assoc. apply Hs2.
    apply (exec_speaks t a sh); [done.. | by apply benign_unharmed | by apply (hears_speaks _ _ s)].
Qed.

(** ** From the start *)

(** A log shipper that is configured without mistakes: it has workers, the
    targets of its sources exist, and its rules fall back downwards along a
    ranking in which a name that nobody has is no lower than any target; nothing
    has been written or read yet on the connections of the targets. *)
Record configured (peers : string -> peer) (b : Broker) : Prop := {
  cf_connectors : Broker_ConnectorManager b = NewConnectorManager (Broker_Monitor b);
  cf_pool : Broker_WorkerManager b = NewWorkerManager (Broker_Monitor b);
  cf_workers : 0 < NumWorkers b;
  cf_sources : map_Forall (fun _ src => Forall (fun t => t ∈ known) (Source_Targets_ src)) (Sources b);
  cf_targets : dom (Targets b) = known;
  cf_ranked : map_Forall (fun name t => ranked height name (rule_breach <$> RateLimitRules t)) (Targets b);
  cf_peers : forall t, t ∈ known -> peer_out (peers t) = opened [] /\ peer_in (peers t) = NewReader [];
}.

Lemma start_lookup peers base b t st tgt w :
  configured peers b -> tgts (Start peers base b) !! t = Some (st, tgt, w) ->
  st = NotStarted /\ out w = opened [] /\ inp w = NewReader [].
Proof.
  intros [_ _ _ _ Hk _ Hpeers]. unfold Start. destruct (WorkerManager_Start _ _ _). cbn.
  rewrite map_lookup_imap. destruct (Targets b !! t) as [tg |] eqn:Ht; [| done]. cbn. intros [= <- <- <-].
  split; [done |]. cbn. apply Hpeers. rewrite <- Hk. by apply elem_of_dom_2 in Ht.
Qed.

Lemma start_well peers base b : configured peers b -> well (Start peers base b).
Proof.
  intros Hcf. pose proof Hcf as [Hc Hp Hn Hsrc Hk Hr _].
  destruct (view_start peers base b Hc Hp) as [Hkn Hv]. rewrite Hk in Hkn, Hv.
  split; [by apply start_inv | by apply start_routed | done | rewrite Hv; split; [| done] | | |].
  - intros c Hin. by apply not_elem_of_nil in Hin.
  - intros t Ht. exists [], []. split_and!; [constructor | constructor |].
    intros st tgt w Hx. destruct (start_lookup peers base b t st tgt w Hcf Hx) as (-> & Ho & _). by split.
  - intros t [[st tgt] w] Hx. destruct (start_lookup peers base b t st tgt w Hcf Hx) as (-> & _ & Hi). by split.
  - intros n [[st src] w]. unfold Start. destruct (WorkerManager_Start _ _ _). cbn.
    rewrite map_lookup_imap. destruct (Sources b !! n) as [src' |] eqn:Hn'; [| done]. cbn.
    intros [= <- <- <-]. apply (Hsrc _ _ Hn').
Qed.

(** A connector that was started, and what its server makes of what it wrote. *)
Lemma well_attends s t st tgt w raws ms :
  well s -> tgts s !! t = Some (st, tgt, w) -> st <> NotStarted -> speaks t raws s ->
  Forall2 travels raws ms -> Forall (keeps t) ms ->
  attends t (out w) = Some (Ret (exited st, served (exited st) (length ms) (kept ms))).
Proof.
  intros Hw Hk Hst Hsp Htr Hks. specialize (Hsp _ _ _ Hk).
  destruct (wl_still _ Hw _ _ Hk) as [_ Hex]. cbn in Hex.
  assert (exists br, out w = {| sent := speech raws (exited st); broken := br |}) as [br ->];
    [| by apply attends_logs].
  destruct st; cbn [spoken exited] in *; [done | | |].
  - exists None. rewrite Hsp. apply speech_spoken.
  - exists None. rewrite Hsp. apply speech_spoken.
  - destruct (Hex eq_refl) as [_ Hne]. destruct Hsp as [[_ E] | E]; [by rewrite E in Hne |].
    exists closed. rewrite E, <- speech_apart. done.
Qed.

(** What a run of the whole has come to: no step panics, but for a second
    [Broker.Stop]; what is handed to a target is delivered, discarded or sent on;
    of every item as many copies were made as were settled for good and as still
    wait, and none waits when [Broker.Start] has returned; and every server has
    handled and answered exactly the logs that were delivered to its target, in
    order, and has returned if its connector has. *)
Record shipped (tr : list label) (s : sys) : Prop := {
  sh_panics : forall a why, working a s -> wexec a s = Some (Panic why) ->
    a = BrokerStop /\ SourceStop (cm s) = true;
  sh_good : forall t data f, Settle t data f ∈ tr -> good f;
  sh_counts : forall source item, let k := (source, Some item) in
    zsum (accepts known k) tr = zsum (ends k) tr + Delivery.waiting k known s;
  sh_done : main s = Done -> forall k, Delivery.waiting k known s = 0;
  sh_servers : forall t st tgt w, tgts s !! t = Some (st, tgt, w) -> st <> NotStarted ->
    exists ms, Forall2 (fun raw m => ProtobufToTarget raw = (m, None)) (delivered_to t tr) ms /\
      attends t (out w) = Some (Ret (exited st, served (exited st) (length ms) (kept ms)));
}.

(** How it comes to its end: the steps that need nothing from outside are bounded
    in number, and as long as [Broker.Start] and all goroutines have not returned
    there is one. *)
Record finishes (s : sys) : Prop := {
  fi_bounded : forall n s', nsteps winternal n s s' -> Z.of_nat n <= work height s;
  fi_goes : forall s', rtc winternal s s' ->
    main s' = Done /\ all_exited s' \/ exists s'', winternal s' s'';
}.

Lemma run_orderly peers base b tr s :
  configured peers b -> wtraced (Start peers base b) tr s ->
  well s /\ Forall benign tr /\ spec_run known delivery_init tr (view known s) /\
  orderly delivery_init /\ forall t, speaks t (delivered_to t tr) s.
Proof.
  intros Hcf Ht. pose proof (start_well peers base b Hcf) as Hw0.
  destruct (wtraced_well _ _ _ Hw0 Ht) as (Hw & Hb & Hrun & Hsp).
  destruct (view_start peers base b (cf_connectors _ _ Hcf) (cf_pool _ _ Hcf)) as [_ Hv].
  rewrite (cf_targets _ _ Hcf) in Hv.
  split_and!; [exact Hw | exact Hb | | |].
  - exact (spec_run_app _ _ [] _ _ _ (spec_nil _ _ _ (symmetry Hv)) Hrun).
  - split; [| done]. intros c Hin. by apply not_elem_of_nil in Hin.
  - intros t. apply (Hsp t []). intros st tgt w Hk.
    destruct (start_lookup peers base b t st tgt w Hcf Hk) as (-> & Ho & _). by split.
Qed.

Lemma run_shipped peers base b tr s :
  configured peers b -> wtraced (Start peers base b) tr s -> shipped tr s.
Proof.
  intros Hcf Ht. destruct (run_orderly peers base b tr s Hcf Ht) as (Hw & Hb & Hrun & Ho & Hsp).
  destruct (sound_run known [] _ _ _ (sound_init known) Hrun (benign_short _ _ _ Hrun Hb Ho))
    as [_ Hcount _].
  split.
  - intros a why. by apply well_no_panic.
  - intros t data f Hin. rewrite list.Forall_forall in Hb. exact (Hb _ Hin).
  - intros source item k. apply Hcount.
  - intros Hd k. assert (InFlightWaitGroup (cm s) = 0) as Hz.
    { pose proof (inv_phase _ _ (wl_inv _ Hw)) as Hp. unfold phase_ok in Hp. rewrite Hd in Hp. tauto. }
    unfold Delivery.waiting. destruct (drained known s (wl_inv _ Hw) Hz) as [-> _]. done.
  - intros t st tgt w Hk Hst.
    destruct (delivered_fit t _ _ _ Hrun Hb Ho) as (ms & Hms & Hks).
    exists ms. split; [eapply Forall2_impl; [| exact Hms]; by intros raw m [? _] |].
    by apply (well_attends s t st tgt w (delivered_to t tr)).
Qed.

Lemma run_finishes peers base b tr s :
  configured peers b -> wtraced (Start peers base b) tr s -> SourceStop (cm s) = true -> finishes s.
Proof.
  intros Hcf Ht Hs. destruct (run_orderly peers base b tr s Hcf Ht) as (Hw & _). split.
  - intros n s' Hn. destruct (winternal_bounded n s s' Hw Hs Hn) as (_ & _ & Hle).
    pose proof (work_nonneg height s'). lia.
  - intros s' Hrtc. apply rtc_nsteps in Hrtc as [n Hn].
    destruct (winternal_bounded n s s' Hw Hs Hn) as (Hw' & Hs' & _).
    destruct (decide (main s' = Done)) as [Hd | Hd].
    + left. split; [done | by apply done_exited; [apply (wl_inv _ Hw') |]].
    + right. by apply well_progress.
Qed.
End Whole.
Arguments wexec {_} A {_ _} a s.
Arguments wobserve {_} A {_ _} a s.
Arguments attends {_} A {_ _} t c.
Arguments winternal {_} A {_ _} known s s'.
Arguments wtraced {_} A {_ _} known s tr s'.
Arguments working {_} A {_} known a s.
Arguments clean {_} A {_} known l.
Arguments benign {_} A {_} known x.
Arguments shipped {_} A {_ _} known tr s.
Arguments finishes {_} A {_ _} known height s.

(** C2. The log shipper at work, from the sources to the servers of its targets: a
    broker whose references are in order ([configured]: sources and fallbacks
    name targets that exist, no chain of fallbacks is circular, there are
    workers), with any mixture of the three kinds of servers behind its targets,
    in runs in which the targets can be dialled and every item that the sources
    send can be handled by every target and makes frames of at most [room], 4085
    bytes, for them ([working]), over any network that cuts no write in two
    ([gentle]; the HELLO may arrive with the first log).  However the goroutines
    of the broker interleave, nothing panics but a second [Broker.Stop], no
    message is lost, refused or stranded, the copies of every item add up, and
    every server has handled exactly what was delivered to it.  A target
    connector and its server take a turn together. *)
Theorem whole_delivers `{MapOrder} A `{!forall t, Receiver (A t)} {wires : Network} height peers base b tr s :
  let known := dom (Targets b) in
  gentle ->
  (forall t name, t ∉ known -> name ∈ known -> (height name <= height t)%nat) ->
  configured known height peers b -> wtraced A known (Start peers base b) tr s ->
  shipped A known tr s.
Proof. intros known Hnet Htall. by apply run_shipped. Qed.

(** C3. It comes to its end, under the same conditions (references in order,
    targets that can be dialled and can handle the items, frames of at most 4085
    bytes, no write cut in two): once [Broker.Stop] was called, the steps that
    need nothing from outside are at most [work] in number, in whatever order
    they are taken, and as long as [Broker.Start] and all goroutines have not
    returned one of them can be taken.  Of the faults of [broker_drains] none is
    left. *)
Theorem whole_completes `{MapOrder} A `{!forall t, Receiver (A t)} {wires : Network} height peers base b tr s :
  let known := dom (Targets b) in
  gentle ->
  (forall t name, t ∉ known -> name ∈ known -> (height name <= height t)%nat) ->
  configured known height peers b -> wtraced A known (Start peers base b) tr s ->
  SourceStop (cm s) = true -> finishes A known height s.
Proof. intros known Hnet Htall. by apply run_finishes. Qed.

(** ** A concrete run *)
Section Runs.
Context `{MapOrder} {A : string -> Type} `{!forall t, Receiver (A t)} {wires : Network}.
Context (known : gset string) (ok : action -> sys -> bool).

Fixpoint wrun (actions : list action) (s : sys) : option (list label * sys) :=
  match actions with
  | [] => Some ([], s)
  | a :: actions =>
      if ok a s then
        match wexec A a s with
        | Some (Ret s') => prod_map (app (wobserve A a s)) id <$> wrun actions s'
        | _ => None
        end
      else None
  end.

Lemma wrun_traced actions s tr s' :
  (forall a s, ok a s = true -> working A known a s) ->
  wrun actions s = Some (tr, s') -> wtraced A known s tr s'.
Proof.
  intros Hok. revert s tr. induction actions as [| a actions IH]; intros s tr; cbn [wrun].
  { intros [= <- <-]. constructor. }
  destruct (ok a s) eqn:Ha; [| done]. destruct (wexec A a s) as [[s1 |] |] eqn:He; [| done..].
  destruct (wrun actions s1) as [[tr1 s2] |] eqn:Hr; [| done]. intros [= <- <-].
  eapply wtraced_cons; [by apply Hok | exact He | by apply IH].
Qed.

Lemma wrun_internal actions s tr s' :
  (forall a s, ok a s = true -> working A known a s) -> forallb internal actions = true ->
  wrun actions s = Some (tr, s') -> rtc (winternal A known) s s'.
Proof.
  intros Hok. revert s tr. induction actions as [| a actions IH]; intros s tr; cbn [wrun forallb].
  { intros _ [= _ <-]. done. }
  intros [Hin Hall]%andb_prop.
  destruct (ok a s) eqn:Ha; [| done]. destruct (wexec A a s) as [[s1 |] |] eqn:He; [| done..].
  destruct (wrun actions s1) as [[tr1 s2] |] eqn:Hr; [| done]. intros [= _ <-].
  apply rtc_l with s1; [exists a; split_and!; [done | by apply Hok | done] | by eapply IH].
Qed.
End Runs.

#[local] Existing Instance default_order.

(** A black hole behind [a] and standard output behind [b]. *)
#[local] Instance demo_servers (t : string) : Receiver TargetMessage :=
  if String.eqb t "a" then blackhole_receiver else stdout_receiver.

(** A network that lets a HELLO arrive with the first log whenever it can. *)
#[local] Instance joining : Network :=
  {| carry _ ws := coalesce ws; carry_back _ ws := Segment <$> ws |}.

Lemma joining_gentle : gentle.
Proof. split; intros t ws; [apply coalesce_conveyed | apply conveyed_apart]. Qed.

Definition silent_peers (t : string) : peer :=
  {| peer_out := opened []; peer_in := NewReader []; peer_address := String.length t |}.

Definition demo_known : gset string := dom (Targets demo_chain).
Definition demo_tall (t : string) : nat :=
  if String.eqb t "a" then 1 else if String.eqb t "b" then 0 else 2.

(** The item of the demonstration from the source of the demonstration. *)
Definition demo_ok (a : action) (s : sys) : bool :=
  match a with
  | SourceEvent name (Received msg) =>
      match srcs s !! name with
      | Some (_, src, _) =>
          bool_decide (name = "src" /\ Source_Targets_ src = ["a"] /\ Data msg = demo_bytes)
      | None => true
      end
  | TargetStart _ (Some _) => false
  | _ => true
  end.

Lemma demo_clean : clean (fun _ => TargetMessage) demo_known (SourceToBroker "src" ["a"] demo_message).
Proof.
  assert (forall t, t ∈ demo_known -> t = "a" \/ t = "b") as Hk.
  { intros t. change demo_known with (dom (Targets demo_chain)). cbn. set_solver. }
  split; [by vm_compute | intros t [-> | ->]%Hk..]; try (by vm_compute);
    try (split; [split_and!; by vm_compute | by vm_compute]); by eexists.
Qed.

Lemma demo_ok_working a s : demo_ok a s = true -> working (fun _ => TargetMessage) demo_known a s.
Proof.
  destruct a as [| name [] | | name event | | | | | | | | |]; try done.
  intros Hok st src w Hk. destruct event as [msg | |]; try done. cbn in Hok. rewrite Hk in Hok.
  apply bool_decide_eq_true in Hok as (-> & -> & Hm). intros item Hd. rewrite Hm in Hd.
  assert (ProtobufToSource demo_bytes = (demo_message, None)) as E by by vm_compute.
  rewrite E in Hd. injection Hd as <-. split; [exact demo_clean | by vm_compute].
Qed.

Lemma demo_configured : configured demo_known demo_tall silent_peers demo_chain.
Proof.
  split; try done.
  - apply (bool_decide_unpack _). by vm_compute.
  - apply map_Forall_insert_2; [by constructor |]. apply map_Forall_insert_2; [| apply map_Forall_empty].
    apply list.Forall_cons. split; [intros _; vm_compute; lia | by constructor].
Qed.

Lemma demo_tall_spec t name : t ∉ demo_known -> name ∈ demo_known -> (demo_tall name <= demo_tall t)%nat.
Proof.
  intros Ht _. assert (t <> "a" /\ t <> "b") as [Ha Hb].
  { change demo_known with (dom (Targets demo_chain)) in Ht. cbn in Ht. set_solver. }
  unfold demo_tall at 2. rewrite (proj2 (String.eqb_neq t "a") Ha), (proj2 (String.eqb_neq t "b") Hb).
  unfold demo_tall. by repeat case_match; lia.
Qed.

Definition whole_actions : list action :=
  [TargetStart "a" None; TargetStart "b" None; SourceStart "src" None; WorkerStart 0;
   SourceEvent "src" (Received (Build_Message CommandSourceMessage demo_bytes []));
   Handover "src" 0; BrokerStop].
Definition whole_emptying : list action :=
  [Dispatch 0; StopSignalSource "src"; BrokerStart; FallBack "a"; StopSignalWorker 0; BrokerStart;
   BrokerStart; StopSignalTarget "b"; StopSignalTarget "a"; BrokerStart].

Definition whole_from (actions : list action) (s : sys) : list label * sys :=
  default ([], s) (wrun (A := fun _ => TargetMessage) demo_ok actions s).
Definition whole_result (actions : list action) : list label * sys :=
  whole_from actions (Start silent_peers 10 demo_chain).

Lemma whole_run actions :
  let r := whole_result actions in
  wtraced (fun _ => TargetMessage) demo_known (Start silent_peers 10 demo_chain) r.1 r.2.
Proof.
  unfold whole_result, whole_from. destruct (wrun _ _ _) as [[tr s] |] eqn:E; [| constructor].
  apply (wrun_traced demo_known demo_ok actions); [exact demo_ok_working | exact E].
Qed.

Lemma whole_empties s :
  rtc (winternal (fun _ => TargetMessage) demo_known) s (whole_from whole_emptying s).2.
Proof.
  unfold whole_from. destruct (wrun _ _ _) as [[tr s'] |] eqn:E; [| done].
  by apply (wrun_internal demo_known demo_ok whole_emptying s tr); [exact demo_ok_working | |].
Qed.

Definition whole_raw : list byte := (ToProtobuf (BrokerToTarget "b" demo_item)).1.

Lemma whole_delivered :
  delivered_to "b" (whole_result (whole_actions ++ whole_emptying)).1 = [whole_raw] /\
  ProtobufToTarget whole_raw = (BrokerToTarget "b" demo_item, None).
Proof. split; vm_compute; reflexivity. Qed.

Lemma whole_delivers_witness :
  let tr := (whole_result (whole_actions ++ whole_emptying)).1 in
  let s := (whole_result (whole_actions ++ whole_emptying)).2 in
  main s = Done /\
  zsum (accepts demo_known ("src", Some demo_message)) tr = 1 /\
  zsum (ends ("src", Some demo_message)) tr = 1 /\
  exists tgt w, tgts s !! "b" = Some (Exited, tgt, w) /\
    attends (fun _ => TargetMessage) "b" (out w)
    = Some (Ret (true, answered 1 [BrokerToTarget "b" demo_item])).
Proof.
  intros tr s. pose proof (whole_run (whole_actions ++ whole_emptying)) as Hrun.
  destruct (whole_delivers (fun _ => TargetMessage) demo_tall silent_peers 10 demo_chain tr s
    joining_gentle demo_tall_spec demo_configured Hrun) as [_ _ Hcount Hdone Hsrv].
  assert (main s = Done) as Hm by (vm_compute; reflexivity).
  specialize (Hcount "src" demo_message). cbv zeta in Hcount. rewrite (Hdone Hm) in Hcount.
  assert (zsum (accepts demo_known ("src", Some demo_message)) tr = 1) as Ha by (vm_compute; reflexivity).
  split; [exact Hm |]. split; [exact Ha |]. split; [change demo_known with (dom (Targets demo_chain)) in Ha; lia |].
  assert (match tgts s !! "b" with Some (Exited, _, _) => true | _ => false end = true) as Hb
    by (vm_compute; reflexivity).
  destruct (tgts s !! "b") as [[[[] tgt] w] |] eqn:E; try discriminate Hb.
  exists tgt, w. split; [reflexivity |]. destruct (Hsrv "b" Exited tgt w E) as (ms & Hms & Hat); [done |].
  rewrite Hat. destruct whole_delivered as [Hraw Hdec]. subst tr. rewrite Hraw in Hms.
  clear -Hms Hdec. revert Hms Hdec. generalize whole_raw (BrokerToTarget "b" demo_item). intros raw m' Hms Hdec.
  inversion Hms as [| ? m ? ms' Hm Hnil]; subst. inversion Hnil; subst.
  rewrite Hdec in Hm. injection Hm as <-. reflexivity.
Defined.

Lemma whole_completes_witness :
  let s := (whole_result whole_actions).2 in
  let s' := (whole_from whole_emptying s).2 in
  work demo_tall s = 10 /\
  (forall n s', nsteps (winternal (fun _ => TargetMessage) demo_known) n s s' -> Z.of_nat n <= 10) /\
  rtc (winternal (fun _ => TargetMessage) demo_known) s s' /\ main s' = Done.
Proof.
  intros s s'. assert (work demo_tall s = 10) as E by (vm_compute; reflexivity).
  destruct (whole_completes (fun _ => TargetMessage) demo_tall silent_peers 10 demo_chain
    (whole_result whole_actions).1 s joining_gentle demo_tall_spec demo_configured (whole_run whole_actions))
    as [Hb _]; [vm_compute; reflexivity |].
  rewrite E in Hb. split; [exact E |]. split; [exact Hb |].
  split; [by apply whole_empties | vm_compute; reflexivity].
Defined.
