(* ===== verification/Web.v ===== *)
(** * The API: [src/web/api]

    What the routes answer from the monitor.  A request that names another node
    is answered with what that node says; the transport is a library's. *)
From Stdlib Require Import Ascii String.
From S2P Require Import Prelude Wire Text Limiter Duration ByteFmt Bufio Monitoring.

(** ** The responses *)
Record Source := {
  Source_ID : string;
  Source_Connection : string;
  Source_State : string;
  Source_Provider : string;
  Source_BytesProcessed : string;
  Source_InboundMessages : Z;
  Source_OutboundMessages : Z;
  Source_InflightMessages : Z;
  Source_DroppedMessages : Z;
}.

Record RateLimiter := {
  Limiter_ID : string;
  Limiter_Limit : string;
  Average : string;
  Current : string;
  AverageBreached : bool;
  CurrentBreached : bool;
  StoredMetrics : Z;
  Limiter_Interval : string;
}.

Record Target := {
  Target_ID : string;
  Target_Connection : string;
  Target_State : string;
  Target_Provider : string;
  Target_BytesProcessed : string;
  Target_InboundMessages : Z;
  Target_OutboundMessages : Z;
  Target_InflightMessages : Z;
  Target_DroppedMessages : Z;
  Target_ResentMessages : Z;
  Target_RateLimiters : list RateLimiter;
}.

Record Worker := {
  Worker_ID : string;
  Worker_State : string;
  Worker_BytesProcessed : string;
  Worker_InboundMessages : Z;
  Worker_OutboundMessages : Z;
  Worker_InflightMessages : Z;
}.

(** The answer of a route: status 200 with a value, or 500 with an error. *)
Inductive answer (A : Type) := StatusOK (a : A) | StatusInternalServerError (err : string).
Arguments StatusOK {A} a.
Arguments StatusInternalServerError {A} err.

(** The first half of every route: with a query parameter [node] the answer is
    that of the other node, which [fetch] asks for and decodes. *)
Definition with_node {A} (fetch : string -> string + A) (path node : string) (local : A)
    : answer A :=
  if (0 <? String.length node)%nat then
    match fetch ("http://" +:+ node +:+ path) with
    | inl err => StatusInternalServerError err
    | inr response => StatusOK response
    end
  else StatusOK local.

Definition address_of (details : Details) : string :=
  Host details +:+ ":" +:+ pretty (Port details).

Section Routes.
(** The connections, processes and limiters that the pointers of the monitor
    denote. *)
Context (conn_at : nat -> Connection) (proc_at : nat -> Process)
        (limiter_at : Connection -> nat -> Limiter.RateLimiter).

(** [GetSourcesRoute]. *)
Definition source_of (c : Connection) : Source :=
  {| Source_ID := ConnName c; Source_Connection := address_of (ConnDetails c);
     Source_State := State c; Source_Provider := Provider c;
     Source_BytesProcessed := ByteSize (GetBytesProcessed (ConnStats c));
     Source_InboundMessages := GetMessagesInbound (ConnStats c);
     Source_OutboundMessages := GetMessagesOutbound (ConnStats c);
     Source_InflightMessages := GetInFlightMessages (ConnStats c);
     Source_DroppedMessages := 0 |}.

Fixpoint sources_loop (conns : list nat) (sources : list Source) : list Source :=
  match conns with
  | [] => sources
  | a :: conns =>
      let c := conn_at a in
      if negb (String.eqb (ConnType c) "source") then sources_loop conns sources
      else sources_loop conns (sources ++ [source_of c])
  end.

Definition GetSourcesRoute (fetch : string -> string + list Source) (node : string)
    (monitor : Monitor) : answer (list Source) :=
  with_node fetch "/api/sources" node (sources_loop (Connections monitor) []).

(** [GetTargetsRoute]. *)
Definition limiter_of (i : nat) (r : Limiter.RateLimiter) : RateLimiter :=
  let '(_, average, averageBreached) := IsAverageOverLimit r in
  let '(_, currentBreached) := IsOverLimit r in
  {| Limiter_ID := "limiter_" +:+ pretty i; Limiter_Limit := ByteSize (Limit r);
     Average := ByteSize average; Current := ByteSize (GetCurrent r);
     AverageBreached := averageBreached; CurrentBreached := currentBreached;
     Limiter_Interval := Duration_String (Interval r); StoredMetrics := Store_Len (Store r) |}.

Fixpoint limiters_loop (i : nat) (c : Connection) (rs : list nat) : list RateLimiter :=
  match rs with
  | [] => []
  | a :: rs => limiter_of i (limiter_at c a) :: limiters_loop (S i) c rs
  end.

Definition target_of (c : Connection) : Target :=
  {| Target_ID := ConnName c; Target_Connection := address_of (ConnDetails c);
     Target_State := State c; Target_Provider := Provider c;
     Target_BytesProcessed := ByteSize (GetBytesProcessed (ConnStats c));
     Target_InboundMessages := GetMessagesInbound (ConnStats c);
     Target_OutboundMessages := GetMessagesOutbound (ConnStats c);
     Target_InflightMessages := GetInFlightMessages (ConnStats c);
     Target_DroppedMessages := 0;
     Target_ResentMessages := GetResentMessages (ConnStats c);
     Target_RateLimiters := limiters_loop 0 c (RateLimiters c) |}.

Fixpoint targets_loop (conns : list nat) (targets : list Target) : list Target :=
  match conns with
  | [] => targets
  | a :: conns =>
      let c := conn_at a in
      if negb (String.eqb (ConnType c) "target") then targets_loop conns targets
      else targets_loop conns (targets ++ [target_of c])
  end.

Definition GetTargetsRoute (fetch : string -> string + list Target) (node : string)
    (monitor : Monitor) : answer (list Target) :=
  with_node fetch "/api/targets" node (targets_loop (Connections monitor) []).

(** [GetWorkersRoute]. *)
Definition worker_of (p : Process) : Worker :=
  {| Worker_ID := ProcName p; Worker_State := ProcState p;
     Worker_BytesProcessed := ByteSize (GetBytesProcessed (ProcStats p));
     Worker_InboundMessages := GetMessagesInbound (ProcStats p);
     Worker_OutboundMessages := GetMessagesOutbound (ProcStats p);
     Worker_InflightMessages := GetInFlightMessages (ProcStats p) |}.

Fixpoint workers_loop (procs : list nat) (workers : list Worker) : list Worker :=
  match procs with
  | [] => workers
  | a :: procs =>
      let p := proc_at a in
      if negb (String.eqb (ProcType p) "worker") then workers_loop procs workers
      else workers_loop procs (workers ++ [worker_of p])
  end.

Definition GetWorkersRoute (fetch : string -> string + list Worker) (node : string)
    (monitor : Monitor) : answer (list Worker) :=
  with_node fetch "/api/workers" node (workers_loop (Processes monitor) []).

(** ** What they show *)
Lemma targets_loop_spec conns targets :
  targets_loop conns targets
  = targets ++ (target_of <$> filter (fun c => ConnType c = "target") (conn_at <$> conns)).
Proof.
  revert targets. induction conns as [| a conns IH]; intros targets; cbn [targets_loop fmap list_fmap].
  { by rewrite app_nil_r. }
  rewrite filter_cons. destruct (String.eqb_spec (ConnType (conn_at a)) "target") as [E | E];
    cbn [negb]; rewrite IH; [| by rewrite decide_False].
  rewrite decide_True by done. by rewrite fmap_cons, <- app_assoc.
Qed.

(** Dropped messages are counted but never shown. *)
Lemma dropped_not_shown c : Target_DroppedMessages (target_of c) = 0.
Proof. done. Qed.

(** A limiter is shown as breached exactly when [handleRateLimiting] acts on it. *)
Lemma breached_is_over i r :
  AverageBreached (limiter_of i r) = (IsAverageOverLimit r).2.
Proof. unfold limiter_of. destruct (IsAverageOverLimit r) as [[? ?] ?]. by destruct (IsOverLimit r). Qed.
End Routes.

(** ** [cluster.go]: the nodes of the cluster *)
Record Node := { Node_ID : string; Address : string; Node_Host : string; Node_Port : Z }.

(** What Consul's catalog says of a service. *)
Record CatalogService := { ServiceID : string; ServiceAddress : string; ServicePort : Z }.

Fixpoint nodes_loop (services : list CatalogService) (nodes : list Node) : list Node :=
  match services with
  | [] => nodes
  | s :: services =>
      nodes_loop services
        (nodes ++ [{| Node_ID := ServiceID s;
                      Address := ServiceAddress s +:+ ":" +:+ pretty (ServicePort s);
                      Node_Host := ServiceAddress s; Node_Port := ServicePort s |}])
  end.

(** [GetNodesRoute]: without an address the answer is an empty list, not an
    object with one.  [new_client] is the error of the library's constructor. *)
Definition GetNodesRoute (consulAddr serviceName : string) (new_client : option string)
    (Service : string -> string + list CatalogService) : outcome (answer (option (list Node))) :=
  if (String.length consulAddr =? 0)%nat then Ret (StatusOK None)
  else match new_client with
       | Some err => Panic err
       | None => Ret match Service serviceName with
                     | inl err => StatusInternalServerError err
                     | inr services => StatusOK (Some (nodes_loop services []))
                     end
       end.
