(* ===== verification/WebServer.v ===== *)
(** * The web server: [src/web/server.go], [src/web/api/api.go], [src/web/ui]

    Which handler answers a request.  The server is the one of the library echo:
    a handler wrapped in middleware, [ServeHTTP], is translated; its router is
    the class [Router].  Requests are GET requests with a path that needs no
    escaping; headers are left out. *)
From Stdlib Require Import Ascii String.
From S2P Require Import Prelude Wire Text Limiter Monitoring Web.

(** ** Strings: [strings.TrimPrefix] and [strings.Contains] *)
Definition TrimPrefix (s p : string) : string :=
  if String.prefix p s
  then String.substring (String.length p) (String.length s - String.length p) s else s.

Definition Contains (s sub : string) : bool :=
  match String.index 0 sub s with Some _ => true | None => false end.

(** ** Requests, responses and handlers *)
Record request := { Path : string; node : string }.

Inductive response :=
  | Sources (a : answer (list Source))
  | Targets (a : answer (list Target))
  | Workers (a : answer (list Worker))
  | Nodes (a : answer (option (list Node)))
  | NoContent (status : Z)
  | Html (status : Z) (page : string)
  | Asset (file : string)
  | Metrics
  | ErrorPage (err : string).

(** A handler answers, or returns an error, or panics. *)
Definition handler : Type := request -> outcome (string + response).
Definition middleware : Type := handler -> handler.

Definition NotFoundHandler : handler := fun _ => Ret (inl "Not Found").

(** [c.Error]: an error that a middleware gets becomes the response. *)
Definition catch : middleware := fun next r =>
  match next r with Ret (inl err) => Ret (inr (ErrorPage err)) | answer => answer end.

Record Echo := {
  Pre : list middleware;
  Uses : list middleware;
  Gets : list (string * handler);
}.

(** The rules of the router for paths without parameters: a pattern that ends in
    a star stands for all the paths that begin with what is before it. *)
Definition matches (pattern path : string) : bool :=
  let n := (String.length pattern - 1)%nat in
  if String.eqb (String.substring n 1 pattern) "*"
  then String.prefix (String.substring 0 n pattern) path
  else String.eqb pattern path.

Class Router := {
  Find : list (string * handler) -> string -> handler;
  Find_only routes path pattern h :
    NoDup routes.*1 -> (pattern, h) ∈ routes -> matches pattern path = true ->
    (forall pattern' h', (pattern', h') ∈ routes -> matches pattern' path = true ->
       pattern' = pattern) ->
    Find routes path = h;
  Find_none routes path :
    (forall pattern h, (pattern, h) ∈ routes -> matches pattern path = false) ->
    Find routes path = NotFoundHandler;
}.

(** [Echo.ServeHTTP]: the middleware around the handler of the route, the first
    one outside. *)
Definition chain (ms : list middleware) (h : handler) : handler := foldr (fun m h => m h) h ms.

Definition ServeHTTP `{Router} (e : Echo) (r : request) : outcome response :=
  match chain (Pre e) (fun r => chain (Uses e) (Find (Gets e) (Path r)) r) r with
  | Ret (inl err) => Ret (ErrorPage err)
  | Ret (inr a) => Ret a
  | Panic why => Panic why
  end.

(** [middleware.RemoveTrailingSlash]. *)
Definition strip_slash (path : string) : string :=
  let l := (String.length path - 1)%nat in
  if negb (String.eqb path "/") && String.eqb (String.substring l 1 path) "/"
  then String.substring 0 l path else path.

Definition RemoveTrailingSlash : middleware := fun next r =>
  next {| Path := strip_slash (Path r); node := node r |}.

(** [middleware.CORS] on a request that is not OPTIONS: it sets headers. *)
Definition CORS : middleware := fun next r => next r.

(** [echoprometheus.NewMetric]: it turns an error into the response before it
    counts. *)
Definition NewMetric : middleware := catch.

Section Server.
Context `{Router}.

(** The monitor that the pointers denote, as in [Web]. *)
Context (conn_at : nat -> Connection) (proc_at : nat -> Process)
        (limiter_at : Connection -> nat -> Limiter.RateLimiter).

(** What other nodes and Consul answer. *)
Context (fetch_sources : string -> string + list Source)
        (fetch_targets : string -> string + list Target)
        (fetch_workers : string -> string + list Worker)
        (new_client : option string) (Service : string -> string + list CatalogService).

(** The boxes with the files of the UI: what the first holds, what the second
    holds, and the file server on the second. *)
Context (box_Find : string -> string + string) (assets_Has : string -> bool)
        (assets_FileServer : string -> response).

(** The template language: parsing, and the page of a parsed template. *)
Context (tree : Type) (parse : string -> option tree) (execute : tree -> string + string).

(** ** [api.AddRoutes] *)
Definition api_routes (monitor : Monitor) (nodes : answer (option (list Node)))
    : list (string * handler) :=
  [("/api/sources", fun r =>
      Ret (inr (Sources (GetSourcesRoute conn_at fetch_sources (node r) monitor))));
   ("/api/targets", fun r =>
      Ret (inr (Targets (GetTargetsRoute conn_at limiter_at fetch_targets (node r) monitor))));
   ("/api/workers", fun r =>
      Ret (inr (Workers (GetWorkersRoute proc_at fetch_workers (node r) monitor))));
   ("/api/nodes", fun _ => Ret (inr (Nodes nodes)))].

Definition api_AddRoutes (e : Echo) (monitor : Monitor) (consulAddr serviceName : string)
    : outcome Echo :=
  match GetNodesRoute consulAddr serviceName new_client Service with
  | Panic why => Panic why
  | Ret nodes =>
      Ret {| Pre := Pre e; Uses := Uses e; Gets := Gets e ++ api_routes monitor nodes |}
  end.

(** ** [ui/middleware/static.go] *)

(** [http.StripPrefix]. *)
Definition StripPrefix (prefix : string) (h : string -> response) (path : string) : response :=
  let p := TrimPrefix path prefix in
  if (String.length p <? String.length path)%nat then h p else ErrorPage "404 page not found".

Definition serve (urlPrefix : string) : middleware := fun next r =>
  if assets_Has (TrimPrefix (Path r) (urlPrefix +:+ "/")) then
    Ret (inr (if (String.length urlPrefix =? 0)%nat then assets_FileServer (Path r)
              else StripPrefix urlPrefix assets_FileServer (Path r)))
  else catch next r.

Definition StaticAssetFS (urlPrefix : string) : middleware := serve urlPrefix.

(** ** [ui.go] *)

(** A set of templates by name, [None] a nil pointer; a template without a tree
    is one that could not be parsed. *)
Definition Template : Type := option (gmap string (option tree)).

(** [loadTemplates], on the entries in the order in which they are visited.  A
    file that is missing ends the process; an error of [Parse] is dropped, and
    makes the set nil when it is the first of the set. *)
Fixpoint loadTemplates (list : list (string * string)) (t : Template) : outcome Template :=
  match list with
  | [] => Ret t
  | (name, path) :: list =>
      match box_Find path with
      | inl err => Panic err
      | inr a =>
          match t with
          | None =>
              loadTemplates list
                match parse a with Some x => Some {[name := Some x]} | None => None end
          | Some set => loadTemplates list (Some (<[name := parse a]> set))
          end
      end
  end.

Definition undefined (name : string) : string := "html/template: " +:+ name +:+ " is undefined".
Definition incomplete (name : string) : string :=
  "html/template: " +:+ name +:+ " is an incomplete or empty template".

(** [Template.Render]. *)
Definition Render (t : Template) (status : Z) (name : string) : outcome (string + response) :=
  match t with
  | None => Panic nil_deref
  | Some set =>
      match set !! name with
      | None => Ret (inl (undefined name))
      | Some None => Ret (inl (incomplete name))
      | Some (Some x) =>
          match execute x with inl err => Ret (inl err) | inr page => Ret (inr (Html status page)) end
      end
  end.

Definition ui_route (renderer : Template) : handler := fun r =>
  if Contains (Path r) "assets" then Ret (inr (NoContent 404))
  else Render renderer 200 "index".

Definition ui_AddRoutes (e : Echo) : outcome Echo :=
  match loadTemplates [("index", "index.html")] None with
  | Panic why => Panic why
  | Ret renderer =>
      Ret {| Pre := Pre e; Uses := Uses e ++ [StaticAssetFS "/ui/assets"];
             Gets := Gets e ++ [("/ui*", ui_route renderer)] |}
  end.

(** ** [StartServer]: the address and the server that is started on it *)
Definition StartServer (port : Z) (monitor : Monitor) (includeUi : bool)
    (consulAddr serviceName : string) : outcome (string * Echo) :=
  let e := {| Pre := [RemoveTrailingSlash; CORS]; Uses := []; Gets := [] |} in
  match api_AddRoutes e monitor consulAddr serviceName with
  | Panic why => Panic why
  | Ret e =>
      if includeUi then
        let e := {| Pre := Pre e; Uses := Uses e ++ [NewMetric]; Gets := Gets e |} in
        match ui_AddRoutes e with
        | Panic why => Panic why
        | Ret e =>
            Ret (":" +:+ pretty port,
                 {| Pre := Pre e; Uses := Uses e;
                    Gets := Gets e ++ [("/metrics", fun _ => Ret (inr Metrics))] |})
        end
      else Ret (":" +:+ pretty port, e)
  end.

(** ** What the server answers *)

(** The routes of the API as a table. *)
Definition api_site (monitor : Monitor) (nodes : answer (option (list Node)))
    (path peer : string) : option response :=
  if String.eqb path "/api/sources"
  then Some (Sources (GetSourcesRoute conn_at fetch_sources peer monitor))
  else if String.eqb path "/api/targets"
  then Some (Targets (GetTargetsRoute conn_at limiter_at fetch_targets peer monitor))
  else if String.eqb path "/api/workers"
  then Some (Workers (GetWorkersRoute proc_at fetch_workers peer monitor))
  else if String.eqb path "/api/nodes" then Some (Nodes nodes)
  else None.

(** The whole site: an asset that is in the box, a route of the API, and with
    the UI the metrics and the page, which is the same at every path that does
    not contain the word assets. *)
Definition site (monitor : Monitor) (includeUi : bool) (nodes : answer (option (list Node)))
    (index path peer : string) : response :=
  if includeUi && assets_Has (TrimPrefix path "/ui/assets/")
  then StripPrefix "/ui/assets" assets_FileServer path
  else match api_site monitor nodes path peer with
       | Some a => a
       | None =>
           if includeUi && String.eqb path "/metrics" then Metrics
           else if includeUi && String.prefix "/ui" path
           then if Contains path "assets" then NoContent 404 else Html 200 index
           else ErrorPage "Not Found"
       end.

(** A router finds the handler of the first pattern that matches when no other
    one does. *)
Lemma Find_at routes path i pattern h :
  NoDup routes.*1 -> routes !! i = Some (pattern, h) ->
  Forall (fun ph => matches ph.1 path = String.eqb ph.1 pattern) routes ->
  Find routes path = h.
Proof.
  intros Hd Hi Hm. rewrite list.Forall_forall in Hm. apply list_elem_of_lookup_2 in Hi.
  apply (Find_only routes path pattern h); [done | done | |].
  - rewrite (Hm _ Hi : matches pattern path = _). apply String.eqb_refl.
  - intros p h' Hp E. pose proof (Hm _ Hp) as E'. cbn [fst] in E'. rewrite E in E'.
    by apply String.eqb_eq.
Qed.

Lemma Find_nowhere routes path :
  Forall (fun ph => matches ph.1 path = false) routes -> Find routes path = NotFoundHandler.
Proof.
  intros Hm. rewrite list.Forall_forall in Hm. apply Find_none. intros p h Hp. apply (Hm _ Hp).
Qed.

(** Without an address the routes of the nodes cannot fail; with one the
    client has to be made. *)
Lemma GetNodesRoute_ret consulAddr serviceName :
  consulAddr = "" \/ new_client = None ->
  exists nodes, GetNodesRoute consulAddr serviceName new_client Service = Ret nodes.
Proof.
  intros Hc. unfold GetNodesRoute. destruct (_ =? 0)%nat eqn:E; [eauto |].
  destruct Hc as [-> | ->]; [done | eauto].
Qed.

(** A path against the pattern [p]; the handler of the pattern with index [i]; no
    handler. *)
Ltac is_path p :=
  lazymatch goal with
  | |- context [String.eqb ?path p] =>
      let E := fresh "E" in
      destruct (String.eqb path p) eqn:E;
      [apply String.eqb_eq in E; rewrite ?E | rewrite String.eqb_sym in E]
  end.

Ltac patterns :=
  repeat (apply list.Forall_cons; split; [(reflexivity || assumption) |]); by apply list.Forall_nil.

Ltac route i :=
  erewrite (Find_at _ _ i); cycle 1;
  [apply (bool_decide_unpack _); vm_compute; exact I | reflexivity | patterns | reflexivity].

Ltac nowhere := rewrite Find_nowhere; [reflexivity | patterns].

Lemma find_api monitor nodes path r :
  Find (api_routes monitor nodes) path r
  = match api_site monitor nodes path (node r) with
    | Some a => Ret (inr a) | None => NotFoundHandler r end.
Proof.
  unfold api_site. is_path "/api/sources"; [by route 0%nat |].
  is_path "/api/targets"; [by route 1%nat |]. is_path "/api/workers"; [by route 2%nat |].
  is_path "/api/nodes"; [by route 3%nat |]. nowhere.
Qed.

Lemma find_ui monitor nodes t path r :
  Find (api_routes monitor nodes ++ [("/ui*", ui_route t); ("/metrics", fun _ => Ret (inr Metrics))])
    path r
  = match api_site monitor nodes path (node r) with
    | Some a => Ret (inr a)
    | None => if String.eqb path "/metrics" then Ret (inr Metrics)
              else if String.prefix "/ui" path then ui_route t r else NotFoundHandler r
    end.
Proof.
  unfold api_site. is_path "/api/sources"; [by route 0%nat |].
  is_path "/api/targets"; [by route 1%nat |]. is_path "/api/workers"; [by route 2%nat |].
  is_path "/api/nodes"; [by route 3%nat |]. is_path "/metrics"; [by route 5%nat |].
  destruct (String.prefix "/ui" path) eqn:U; [by route 4%nat | nowhere].
Qed.

(** C28. With the file of the page in its box and a client for Consul where there
    is an address, the server starts, and answers every request as the site
    says: a file of the assets, the four routes of the API, the metrics, the page
    at every other path below /ui, and otherwise that nothing was found. *)
Theorem server_answers port monitor includeUi consulAddr serviceName content x index :
  consulAddr = "" \/ new_client = None ->
  box_Find "index.html" = inr content -> parse content = Some x -> execute x = inr index ->
  exists e nodes,
    GetNodesRoute consulAddr serviceName new_client Service = Ret nodes /\
    StartServer port monitor includeUi consulAddr serviceName = Ret (":" +:+ pretty port, e) /\
    forall r, ServeHTTP e r
      = Ret (site monitor includeUi nodes index (strip_slash (Path r)) (node r)).
Proof.
  intros Hc Hf Hp Hx. destruct (GetNodesRoute_ret _ serviceName Hc) as [nodes Hn].
  unfold StartServer, api_AddRoutes. rewrite Hn. destruct includeUi; cbn [Pre Uses Gets app].
  - unfold ui_AddRoutes. cbn [loadTemplates Pre Uses Gets]. rewrite Hf, Hp.
    do 2 eexists. split_and!; [done.. |]. intros r.
    unfold ServeHTTP, site, chain, RemoveTrailingSlash, CORS, NewMetric, StaticAssetFS, serve.
    cbn [Pre Uses Gets foldr app andb]. unfold catch. cbn [Path node].
    rewrite <- app_assoc. cbn [app].
    destruct (assets_Has _); [done |]. rewrite find_ui. cbn [node].
    destruct (api_site _ _ _ _); [done |]. destruct (String.eqb _ "/metrics"); [done |].
    destruct (String.prefix _ _); [| done]. unfold ui_route. cbn [Path].
    destruct (Contains _ _); [done |]. unfold Render. by rewrite lookup_singleton_eq, Hx.
  - do 2 eexists. split_and!; [done.. |]. intros r.
    unfold ServeHTTP, site, chain, RemoveTrailingSlash, CORS. cbn [Pre Uses Gets foldr andb].
    rewrite find_api. cbn [node]. by destruct (api_site _ _ _ _).
Qed.

(** A page that cannot be parsed is not noticed when the server starts: every
    request for it panics. *)
Lemma unparsed_page content t r :
  box_Find "index.html" = inr content -> parse content = None ->
  loadTemplates [("index", "index.html")] None = Ret t ->
  Contains (Path r) "assets" = false -> ui_route t r = Panic nil_deref.
Proof.
  intros Hf Hp. cbn. rewrite Hf, Hp. intros [= <-] Ha. unfold ui_route. by rewrite Ha.
Qed.
End Server.

(** ** A server *)

(** A router that takes the first pattern that matches. *)
Fixpoint first_match (routes : list (string * handler)) (path : string) : handler :=
  match routes with
  | [] => NotFoundHandler
  | (p, h) :: routes => if matches p path then h else first_match routes path
  end.

Lemma first_match_only routes path pattern h :
  NoDup routes.*1 -> (pattern, h) ∈ routes -> matches pattern path = true ->
  (forall pattern' h', (pattern', h') ∈ routes -> matches pattern' path = true ->
     pattern' = pattern) ->
  first_match routes path = h.
Proof.
  induction routes as [| [p h'] routes IH]; intros Hd Hi Hm Ho; [by apply not_elem_of_nil in Hi |].
  cbn [first_match fmap list_fmap fst] in *. apply list.NoDup_cons in Hd as [Hp Hd].
  apply elem_of_cons in Hi as [[= <- <-] | Hi]; [by rewrite Hm |].
  destruct (matches p path) eqn:E; [| apply IH; eauto using list_elem_of_further].
  rewrite (Ho p h') in Hp by (done || apply list_elem_of_here).
  destruct Hp. apply list_elem_of_fmap. by exists (pattern, h).
Qed.

Lemma first_match_none routes path :
  (forall pattern h, (pattern, h) ∈ routes -> matches pattern path = false) ->
  first_match routes path = NotFoundHandler.
Proof.
  induction routes as [| [p h] routes IH]; intros Hn; [done |]. cbn.
  rewrite (Hn p h) by apply list_elem_of_here. apply IH. eauto using list_elem_of_further.
Qed.

#[local] Instance first_match_router : Router :=
  {| Find_only := first_match_only; Find_none := first_match_none |}.

(** A box with a page and one script. *)
Definition ui_box (path : string) : string + string :=
  if String.eqb path "index.html" then inr "<html>" else inl "not found".
Definition ui_assets (path : string) : bool := String.eqb path "app.js".

Definition no_conn (a : nat) : Connection := NewConnection {| Host := ""; Port := 0 |} "" "" "" [].
Definition no_proc (a : nat) : Process := NewProcess "" "".
Definition nobody {A} (url : string) : string + A := inl "connection refused".
Definition catalog (name : string) : string + list CatalogService := inr [].
Definition ui_start : Z -> Monitor -> bool -> string -> string -> outcome (string * Echo) :=
  StartServer no_conn no_proc (fun _ _ => demo_new) nobody nobody nobody None catalog
             ui_box ui_assets Asset string Some inr.

Lemma server_answers_witness :
  exists e nodes,
    GetNodesRoute "" "shipper" None catalog = Ret nodes /\
    ui_start 8888 NewMonitor true "" "shipper" = Ret (":8888", e) /\
    forall r, ServeHTTP e r
      = Ret (site no_conn no_proc (fun _ _ => demo_new) nobody nobody nobody ui_assets Asset
               NewMonitor true nodes "<html>" (strip_slash (Path r)) (node r)).
Proof.
  apply (server_answers no_conn no_proc (fun _ _ => demo_new) nobody nobody nobody None catalog
           ui_box ui_assets Asset string Some inr 8888 NewMonitor true "" "shipper"
           "<html>" "<html>" "<html>"); [by left | done | done | done].
Defined.

(** Three requests to that server: a page, a script, a script that is missing. *)
Example ui_requests :
  match ui_start 8888 NewMonitor true "" "shipper" with
  | Ret (_, e) =>
      ServeHTTP e {| Path := "/ui/targets/"; node := "" |} = Ret (Html 200 "<html>") /\
      ServeHTTP e {| Path := "/ui/assets/app.js"; node := "" |} = Ret (Asset "/app.js") /\
      ServeHTTP e {| Path := "/ui/assets/b.js"; node := "" |} = Ret (NoContent 404)
  | Panic _ => False
  end.
Proof. vm_compute. split_and!; reflexivity. Qed.

(** The box is asked for a path that does not begin with the prefix as it is: a
    file of that name is then not served, and what the path stands for is
    hidden. *)
Example asset_hides_route :
  site no_conn no_proc (fun _ _ => demo_new) nobody nobody nobody
    (fun path => String.eqb path "/metrics") Asset NewMonitor true (StatusOK None) "<html>"
    "/metrics" "" = ErrorPage "404 page not found".
Proof. reflexivity. Qed.
