(* ===== verification/Cmd.v ===== *)
(** * The commands: [src/cmd], [src/connection], [src/main.go]

    How the [run] command builds a broker from a configuration: it registers a
    connection for each provider it knows, starts them, and joins what they
    return with the configuration. *)
From S2P Require Import Prelude Wire Text Limiter Duration ByteFmt Monitoring Config.
From S2P Require Import Connector Worker Broker Servers.

(** Go visits the entries of a map in an order it does not specify. *)
Class RangeOrder := {
  range : forall {A}, gmap string A -> list (string * A);
  range_perm {A} (m : gmap string A) : range m ≡ₚ map_to_list m;
}.

Lemma elem_of_range `{RangeOrder} {A} (m : gmap string A) k a :
  (k, a) ∈ range m <-> m !! k = Some a.
Proof. by rewrite range_perm, elem_of_map_to_list. Qed.

(** ** [connection.Manager] *)

(** The types that implement the interface [Connection], with their fields. *)
Inductive Connection :=
  | Dummy
  | Nomad (config : gmap string string) (consulAddr : string)
  | Blackhole
  | Stdout
  | Logzio (config : gmap string string).

Record Manager := { Connections : gmap string Connection }.

Definition NewManager : Manager := {| Connections := ∅ |}.

Definition AddConnection (name : string) (conn : Connection) (m : Manager) : Manager :=
  {| Connections := <[name := conn]> (Connections m) |}.

Section Commands.
Context `{RangeOrder}.

(** The answers of the operating system to each connection, by its name: a free
    port, and whether a listener can be opened; and what the conversion of a
    double that is too large gives. *)
Context (GetFreePort : string -> string + Z) (Listen : string -> Z -> option string)
        (wrapped : Z -> Z).

(** [Start] of each type: every one opens its own server. *)
Definition conn_start (name : string) (conn : Connection) : outcome (string + Details) :=
  match conn with
  | Dummy | Nomad _ _ | Blackhole | Stdout | Logzio _ =>
      start_server (GetFreePort name) (Listen name)
  end.

(** The loop of [Manager.Start]: the first error ends it. *)
Fixpoint start_connections (conns : list (string * Connection))
    (details : gmap string Details) : outcome (string + gmap string Details) :=
  match conns with
  | [] => Ret (inr details)
  | (name, conn) :: conns =>
      match conn_start name conn with
      | Panic why => Panic why
      | Ret (inl err) => Ret (inl ("error connecting to source: " +:+ err))
      | Ret (inr d) => start_connections conns (<[name := d]> details)
      end
  end.

Definition Manager_Start (m : Manager) : outcome (string + gmap string Details) :=
  start_connections (range (Connections m)) ∅.

(** ** [RunCommand] *)
Record RunCommand := {
  ConfigPath : string;
  Workers : Z;
  Web : bool;
  Ui : bool;
  RunPort : Z;
  Consul : string;
  ConsulServiceName : string;
}.

Definition NewRunCommand : RunCommand :=
  {| ConfigPath := "./config.yaml"; Workers := 1; Web := true; Ui := false; RunPort := 80;
     Consul := "127.0.0.1:8500"; ConsulServiceName := "log-shipper" |}.

(** The [switch] over the providers; other providers are passed over. *)
Definition source_connection (c : RunCommand) (source : Config.Source) : option Connection :=
  if String.eqb (Source_Provider source) "dummy" then Some Dummy
  else if String.eqb (Source_Provider source) "nomad" then
    Some (Nomad (Config.Source_Config source) (Consul c))
  else None.

Definition target_connection (target : Config.Target) : option Connection :=
  if String.eqb (Target_Provider target) "blackhole" then Some Blackhole
  else if String.eqb (Target_Provider target) "stdout" then Some Stdout
  else if String.eqb (Target_Provider target) "logzio" then
    Some (Logzio (Config.Target_Config target))
  else None.

Fixpoint add_connections {A} (connect : A -> option Connection) (l : list (string * A))
    (m : Manager) : Manager :=
  match l with
  | [] => m
  | (name, x) :: l =>
      add_connections connect l
        (match connect x with Some conn => AddConnection name conn m | None => m end)
  end.

(** One rule of [createRateLimitRules]; the two clock readings are those of
    [Init], whose error is dropped, as are those of the two parsers. *)
Definition create_rule (name : string) (rateLimit : RateLimit) (curTime ttlTime : Z)
    : outcome RateLimitRule :=
  let bytes := match ToBytes wrapped (Throughput rateLimit) with inr b => b | inl _ => 0 end in
  let interval := default 0 (ParseDuration (Period (Mode rateLimit))) in
  let rateLimiter := New name bytes interval interval (Duration (Mode rateLimit)) in
  match Init curTime ttlTime rateLimiter with
  | Panic why => Panic why
  | Ret (inl _) => Ret {| rule_limiter := rateLimiter;
                          rule_breach := BreachBehaviour_ rateLimit |}
  | Ret (inr rateLimiter) => Ret {| rule_limiter := rateLimiter;
                                    rule_breach := BreachBehaviour_ rateLimit |}
  end.

(** [clock i] are the readings for the [i]-th rule. *)
Fixpoint createRateLimitRules (name : string) (clock : nat -> Z * Z)
    (rateLimits : list RateLimit) : outcome (list RateLimitRule) :=
  match rateLimits with
  | [] => Ret []
  | rateLimit :: rateLimits =>
      match create_rule name rateLimit (clock 0%nat).1 (clock 0%nat).2 with
      | Panic why => Panic why
      | Ret rule =>
          match createRateLimitRules name (fun i => clock (S i)) rateLimits with
          | Panic why => Panic why
          | Ret rules => Ret (rule :: rules)
          end
      end
  end.

(** The loops of [configureSources] and [configureTargets]. *)
Definition missing (name : string) : string :=
  "unable to find connection for source '" +:+ name +:+ "', check config".

Fixpoint configure_sources (l : list (string * Config.Source))
    (connectionDetails : gmap string Details) (brokerSources : gmap string Source)
    : string + gmap string Source :=
  match l with
  | [] => inr brokerSources
  | (name, c) :: l =>
      match connectionDetails !! name with
      | Some details =>
          configure_sources l connectionDetails
            (<[name := {| Source_ConnectionDetails := details;
                          Source_Targets_ := Config.Source_Targets c;
                          Source_Config_ := c |}]> brokerSources)
      | None => inl (missing name)
      end
  end.

Definition configureSources (sources : gmap string Config.Source)
    (connectionDetails : gmap string Details) : string + gmap string Source :=
  configure_sources (range sources) connectionDetails ∅.

Fixpoint configure_targets (clock : string -> nat -> Z * Z)
    (l : list (string * Config.Target)) (connectionDetails : gmap string Details)
    (brokerTargets : gmap string Target) : outcome (string + gmap string Target) :=
  match l with
  | [] => Ret (inr brokerTargets)
  | (name, c) :: l =>
      match connectionDetails !! name with
      | Some details =>
          match createRateLimitRules name (clock name) (RateLimit_ c) with
          | Panic why => Panic why
          | Ret rateLimitRules =>
              configure_targets clock l connectionDetails
                (<[name := {| Target_ConnectionDetails := details; Target_Config_ := c;
                              RateLimitRules := rateLimitRules |}]> brokerTargets)
          end
      | None => Ret (inl (missing name))
      end
  end.

Definition configureTargets (clock : string -> nat -> Z * Z)
    (targets : gmap string Config.Target) (connectionDetails : gmap string Details)
    : outcome (string + gmap string Target) :=
  configure_targets clock (range targets) connectionDetails ∅.

(** [startProcesses], up to the start of the broker. *)
Definition startProcesses (clock : string -> nat -> Z * Z) (conf : Config)
    (sourceManager targetManager : Manager) (logBroker : Broker)
    : outcome (string + Broker) :=
  match Manager_Start sourceManager with
  | Panic why => Panic why
  | Ret (inl err) => Ret (inl ("error starting sources: " +:+ err))
  | Ret (inr sourceConnections) =>
      match Manager_Start targetManager with
      | Panic why => Panic why
      | Ret (inl err) => Ret (inl ("error starting targets: " +:+ err))
      | Ret (inr targetConnections) =>
          match configureSources (default ∅ (Config.Sources conf)) sourceConnections with
          | inl err => Ret (inl ("error configuring sources: " +:+ err))
          | inr brokerSources =>
              match configureTargets clock (default ∅ (Config.Targets conf)) targetConnections with
              | Panic why => Panic why
              | Ret (inl err) => Ret (inl ("error configuring targets: " +:+ err))
              | Ret (inr brokerTargets) =>
                  let logBroker := foldl (fun b ns => AddSource ns.1 ns.2 b) logBroker
                                     (range brokerSources) in
                  let logBroker := foldl (fun b nt => AddTarget nt.1 nt.2 b) logBroker
                                     (range brokerTargets) in
                  Ret (inr logBroker)
              end
          end
      end
  end.

(** [Run]: the configuration that was loaded, or the error for which the
    program exits; [monitor] is the one that is handed to the broker. *)
Definition Run (clock : string -> nat -> Z * Z) (c : RunCommand) (loaded : string + Config)
    (monitor : Monitor) : outcome (string + Broker) :=
  match loaded with
  | inl err => Ret (inl ("error reading config: " +:+ err))
  | inr conf =>
      let sourceManager :=
        add_connections (source_connection c) (range (default ∅ (Config.Sources conf)))
          NewManager in
      let targetManager :=
        add_connections target_connection (range (default ∅ (Config.Targets conf)))
          NewManager in
      match startProcesses clock conf sourceManager targetManager
              (NewBroker (Workers c) (Some monitor)) with
      | Ret (inl err) => Ret (inl ("error starting processes: " +:+ err))
      | o => o
      end
  end.

(** [loadConfig]: [file] is the content of the file or the error of reading it,
    [Unmarshal] decodes YAML into the configuration. *)
Definition LoadYAML (Unmarshal : string -> Config -> string + Config) (data : string)
    (c : Config) : string + Config :=
  match Unmarshal data c with
  | inl err => inl ("error while parsing config file: " +:+ err)
  | inr c => inr c
  end.

Definition readConfigFile (c : RunCommand) (exists_ : bool) (file : string + string)
    : string + string :=
  if negb exists_ then inl ("config file not found, looking in: " +:+ ConfigPath c) else file.

Definition loadConfig (Unmarshal : string -> Config -> string + Config) (c : RunCommand)
    (exists_ : bool) (file : string + string) : string + Config :=
  match readConfigFile c exists_ file with
  | inl err => inl err
  | inr data => LoadYAML Unmarshal data NewConfig
  end.

(** ** [main]: which command the arguments name *)
Inductive command := NoCommand | RunCmd | NomadSourceCmd | Nothing.

Definition main (args : list string) : outcome command :=
  match args with
  | [] => Ret NoCommand
  | arg :: args' =>
      if String.eqb arg "run" then Ret RunCmd
      else if String.eqb arg "source" then
        match args' with
        | [] => Panic "index out of range"
        | arg1 :: _ => if String.eqb arg1 "nomad" then Ret NomadSourceCmd else Ret Nothing
        end
      else Ret Nothing
  end.

(** ** The command [source nomad]: a server without configuration.  It prints
    where it listens and waits for ever; its option is not read. *)
Record NomadSourceCommand := { NomadAddr : string }.

Definition NewNomadSourceCommand : NomadSourceCommand := {| NomadAddr := "" |}.

Definition NomadSource_Run (port : string + Z) (listen : Z -> option string)
    (c : NomadSourceCommand) : outcome string :=
  match start_server port listen with
  | Panic why => Panic why
  | Ret (inl err) => Panic err
  | Ret (inr details) =>
      Ret ("Running: " +:+ Host details +:+ ":" +:+ pretty (Port details)
           +:+ String (Ascii.ascii_of_nat 10) EmptyString)
  end.

(** ** Lookups after the loops *)
Lemma range_nodup {A} (m : gmap string A) : NoDup (range m).*1.
Proof. rewrite range_perm. apply NoDup_fst_map_to_list. Qed.

Lemma not_in_range {A} (m : gmap string A) k : k ∉ (range m).*1 <-> m !! k = None.
Proof.
  rewrite list_elem_of_fmap. split.
  - intros Hk. destruct (m !! k) as [a |] eqn:E; [| done]. exfalso. apply Hk.
    exists (k, a). split; [done |]. by apply elem_of_range.
  - intros Hk ([k' a] & -> & Hin). apply elem_of_range in Hin. cbn in Hk. congruence.
Qed.

Lemma add_connections_spec {A} (connect : A -> option Connection) l m :
  NoDup l.*1 ->
  (forall name x, (name, x) ∈ l -> Connections m !! name = None ->
     Connections (add_connections connect l m) !! name = connect x) /\
  (forall name, name ∉ l.*1 ->
     Connections (add_connections connect l m) !! name = Connections m !! name).
Proof.
  revert m. induction l as [| [n y] l IH]; intros m Hnd; cbn [add_connections].
  { split; [by intros name x Hx%elem_of_nil | done]. }
  cbn in Hnd. apply list.NoDup_cons in Hnd as [Hn Hnd].
  destruct (IH (match connect y with Some conn => AddConnection n conn m | None => m end) Hnd)
    as [H1 H2].
  assert (forall name, name <> n ->
    Connections (match connect y with Some conn => AddConnection n conn m | None => m end)
      !! name = Connections m !! name) as Hne.
  { intros name Hne. destruct (connect y); [| done]. cbn. by rewrite lookup_insert_ne. }
  split.
  - intros name x [[= -> ->] | Hin]%elem_of_cons Hm.
    + rewrite H2 by done. destruct (connect y); [| done]. cbn. apply lookup_insert_eq.
    + apply H1; [done |]. rewrite Hne; [done |]. intros ->. apply Hn.
      apply list_elem_of_fmap. by exists (n, x).
  - intros name Hname. cbn in Hname. rewrite H2, Hne; set_solver.
Qed.

Lemma start_connections_spec l acc ds :
  NoDup l.*1 -> start_connections l acc = Ret (inr ds) ->
  (forall name conn, (name, conn) ∈ l ->
     exists d, conn_start name conn = Ret (inr d) /\ ds !! name = Some d) /\
  (forall name, name ∉ l.*1 -> ds !! name = acc !! name).
Proof.
  revert acc. induction l as [| [n conn] l IH]; intros acc Hnd; cbn [start_connections].
  { intros [= <-]. split; [by intros name x Hx%elem_of_nil | done]. }
  cbn in Hnd. apply list.NoDup_cons in Hnd as [Hn Hnd].
  destruct (conn_start n conn) as [[err | d] |] eqn:Hc; [done | | done]. intros Hr.
  destruct (IH _ Hnd Hr) as [H1 H2]. split.
  - intros name conn' [[= -> ->] | Hin]%elem_of_cons; [| by apply H1].
    exists d. split; [done |]. rewrite H2 by done. apply lookup_insert_eq.
  - intros name Hname. cbn in Hname. rewrite H2, lookup_insert_ne; set_solver.
Qed.

Lemma configure_sources_spec l cd acc bs :
  NoDup l.*1 -> configure_sources l cd acc = inr bs ->
  (forall name c, (name, c) ∈ l -> exists d, cd !! name = Some d /\
     bs !! name = Some {| Source_ConnectionDetails := d;
                          Source_Targets_ := Config.Source_Targets c; Source_Config_ := c |}) /\
  (forall name, name ∉ l.*1 -> bs !! name = acc !! name).
Proof.
  revert acc. induction l as [| [n c] l IH]; intros acc Hnd; cbn [configure_sources].
  { intros [= <-]. split; [by intros name x Hx%elem_of_nil | done]. }
  cbn in Hnd. apply list.NoDup_cons in Hnd as [Hn Hnd].
  destruct (cd !! n) as [d |] eqn:Hd; [| done]. intros Hr.
  destruct (IH _ Hnd Hr) as [H1 H2]. split.
  - intros name c' [[= -> ->] | Hin]%elem_of_cons; [| by apply H1].
    exists d. split; [done |]. rewrite H2 by done. apply lookup_insert_eq.
  - intros name Hname. cbn in Hname. rewrite H2, lookup_insert_ne; set_solver.
Qed.

Lemma configure_targets_spec clock l cd acc bs :
  NoDup l.*1 -> configure_targets clock l cd acc = Ret (inr bs) ->
  (forall name c, (name, c) ∈ l -> exists d rs, cd !! name = Some d /\
     createRateLimitRules name (clock name) (RateLimit_ c) = Ret rs /\
     bs !! name = Some {| Target_ConnectionDetails := d; Target_Config_ := c;
                          RateLimitRules := rs |}) /\
  (forall name, name ∉ l.*1 -> bs !! name = acc !! name).
Proof.
  revert acc. induction l as [| [n c] l IH]; intros acc Hnd; cbn [configure_targets].
  { intros [= <-]. split; [by intros name x Hx%elem_of_nil | done]. }
  cbn in Hnd. apply list.NoDup_cons in Hnd as [Hn Hnd].
  destruct (cd !! n) as [d |] eqn:Hd; [| done].
  destruct (createRateLimitRules n (clock n) (RateLimit_ c)) as [rs |] eqn:Hrs; [| done].
  intros Hr. destruct (IH _ Hnd Hr) as [H1 H2]. split.
  - intros name c' [[= -> ->] | Hin]%elem_of_cons; [| by apply H1].
    exists d, rs. split_and!; [done.. |]. rewrite H2 by done. apply lookup_insert_eq.
  - intros name Hname. cbn in Hname. rewrite H2, lookup_insert_ne; set_solver.
Qed.

(** A manager filled from a map and started without an error. *)
Lemma started_spec {A} (connect : A -> option Connection) (m : gmap string A) ds :
  Manager_Start (add_connections connect (range m) NewManager) = Ret (inr ds) ->
  forall name d, ds !! name = Some d ->
    exists x conn, m !! name = Some x /\ connect x = Some conn /\
      conn_start name conn = Ret (inr d).
Proof.
  intros Hs name d Hd. unfold Manager_Start in Hs.
  destruct (start_connections_spec _ _ _ (range_nodup _) Hs) as [H1 H2].
  destruct (add_connections_spec connect (range m) NewManager (range_nodup m)) as [H3 H4].
  destruct (Connections (add_connections connect (range m) NewManager) !! name) as [conn |] eqn:E.
  - destruct (H1 name conn) as (d' & Hst & Hd'); [by apply elem_of_range |].
    assert (d' = d) as -> by congruence.
    destruct (m !! name) as [x |] eqn:Hx.
    + exists x, conn. split_and!; [done | | done].
      rewrite <- (H3 name x); [done | by apply elem_of_range | done].
    + rewrite H4 in E by by apply not_in_range. done.
  - rewrite H2 in Hd by by apply not_in_range. done.
Qed.

Lemma foldl_add_sources l b :
  let b' := foldl (fun b ns => AddSource ns.1 ns.2 b) b l in
  Sources b' = foldl (fun m kv => <[kv.1 := kv.2]> m) (Sources b) l /\
  Targets b' = Targets b /\ NumWorkers b' = NumWorkers b /\
  Broker_WorkerManager b' = Broker_WorkerManager b /\
  Broker_ConnectorManager b' = Broker_ConnectorManager b /\
  Broker_Monitor b' = Broker_Monitor b.
Proof.
  cbv zeta. revert b. induction l as [| x l IH]; intros b; [done |]. cbn [foldl].
  destruct (IH (AddSource x.1 x.2 b)) as (-> & -> & -> & -> & -> & ->). done.
Qed.

Lemma foldl_add_targets l b :
  let b' := foldl (fun b nt => AddTarget nt.1 nt.2 b) b l in
  Targets b' = foldl (fun m kv => <[kv.1 := kv.2]> m) (Targets b) l /\
  Sources b' = Sources b /\ NumWorkers b' = NumWorkers b /\
  Broker_WorkerManager b' = Broker_WorkerManager b /\
  Broker_ConnectorManager b' = Broker_ConnectorManager b /\
  Broker_Monitor b' = Broker_Monitor b.
Proof.
  cbv zeta. revert b. induction l as [| x l IH]; intros b; [done |]. cbn [foldl].
  destruct (IH (AddTarget x.1 x.2 b)) as (-> & -> & -> & -> & -> & ->). done.
Qed.

Lemma insert_range {A} (m : gmap string A) :
  foldl (fun m kv => <[kv.1 := kv.2]> m) ∅ (range m) = m.
Proof.
  rewrite foldl_insert by apply range_nodup. rewrite (right_id_L ∅ (∪)).
  rewrite <- (list_to_map_to_list m) at 2. apply list_to_map_proper; [| apply range_perm].
  apply range_nodup.
Qed.

Lemma run_builds clock c conf monitor b :
  Run clock c (inr conf) monitor = Ret (inr b) ->
  NumWorkers b = Workers c /\ Broker_Monitor b = Some monitor /\
  Broker_ConnectorManager b = NewConnectorManager (Broker_Monitor b) /\
  Broker_WorkerManager b = NewWorkerManager (Broker_Monitor b) /\
  (forall name src, Config.Sources conf ≫= lookup name = Some src -> exists conn d,
     source_connection c src = Some conn /\ conn_start name conn = Ret (inr d) /\
     Sources b !! name = Some {| Source_ConnectionDetails := d;
       Source_Targets_ := Config.Source_Targets src; Source_Config_ := src |}) /\
  (forall name, Config.Sources conf ≫= lookup name = None -> Sources b !! name = None) /\
  (forall name tgt, Config.Targets conf ≫= lookup name = Some tgt -> exists conn d rs,
     target_connection tgt = Some conn /\ conn_start name conn = Ret (inr d) /\
     createRateLimitRules name (clock name) (RateLimit_ tgt) = Ret rs /\
     Targets b !! name = Some {| Target_ConnectionDetails := d; Target_Config_ := tgt;
       RateLimitRules := rs |}) /\
  (forall name, Config.Targets conf ≫= lookup name = None -> Targets b !! name = None).
Proof.
  unfold Run, startProcesses.
  destruct (Manager_Start (add_connections (source_connection c) _ _)) as [[err | sc] |] eqn:Hs;
    [done | | done].
  destruct (Manager_Start (add_connections target_connection _ _)) as [[err | tc] |] eqn:Ht;
    [done | | done].
  destruct (configureSources _ _) as [err | bs] eqn:Hcs; [done |].
  destruct (configureTargets _ _ _) as [[err | bt] |] eqn:Hct; [done | | done].
  intros [= <-].
  pose proof (foldl_add_targets (range bt) (foldl (fun b ns => AddSource ns.1 ns.2 b)
    (NewBroker (Workers c) (Some monitor)) (range bs))) as (Ft & Fs & Fn & Fw & Fc & Fm).
  pose proof (foldl_add_sources (range bs) (NewBroker (Workers c) (Some monitor)))
    as (Gs & Gt & Gn & Gw & Gc & Gm). cbv zeta in *.
  rewrite Ft, Fs, Fn, Fw, Fc, Fm, Gs, Gt, Gn, Gw, Gc, Gm. cbn [NewBroker Sources Targets
    NumWorkers Broker_WorkerManager Broker_ConnectorManager Broker_Monitor].
  rewrite !insert_range.
  destruct (configure_sources_spec _ _ _ _ (range_nodup _) Hcs) as [S1 S2].
  destruct (configure_targets_spec _ _ _ _ _ (range_nodup _) Hct) as [T1 T2].
  split_and!; try done.
  - intros name src Hsrc.
    assert (default ∅ (Config.Sources conf) !! name = Some src) as Hlk
      by (by destruct (Config.Sources conf)).
    destruct (S1 name src) as (d & Hd & Hb); [by apply elem_of_range |].
    destruct (started_spec _ _ _ Hs name d Hd) as (x & conn & Hx & Hconn & Hstart).
    exists conn, d. split_and!; [congruence | done..].
  - intros name Hsrc. rewrite S2; [done |]. apply not_in_range.
    destruct (Config.Sources conf); [done | apply lookup_empty].
  - intros name tgt Htgt.
    assert (default ∅ (Config.Targets conf) !! name = Some tgt) as Hlk
      by (by destruct (Config.Targets conf)).
    destruct (T1 name tgt) as (d & rs & Hd & Hrs & Hb); [by apply elem_of_range |].
    destruct (started_spec _ _ _ Ht name d Hd) as (x & conn & Hx & Hconn & Hstart).
    exists conn, d, rs. split_and!; [congruence | done..].
  - intros name Htgt. rewrite T2; [done |]. apply not_in_range.
    destruct (Config.Targets conf); [done | apply lookup_empty].
Qed.

(** C29. When [Run] gets as far as starting the broker, the broker is the
    configured one: it has exactly the configured sources and targets, each of
    a provider the command knows and whose server started, with its details,
    its configuration and the rules made from it; the managers are fresh and
    the monitor is set.  A source or target of another provider, or one that
    does not start, ends the program instead. *)
Theorem run_builds_broker clock c conf monitor b :
  Run clock c (inr conf) monitor = Ret (inr b) ->
  NumWorkers b = Workers c /\ Broker_Monitor b = Some monitor /\
  Broker_ConnectorManager b = NewConnectorManager (Broker_Monitor b) /\
  Broker_WorkerManager b = NewWorkerManager (Broker_Monitor b) /\
  (forall name src, Config.Sources conf ≫= lookup name = Some src -> exists conn d,
     source_connection c src = Some conn /\ conn_start name conn = Ret (inr d) /\
     Sources b !! name = Some {| Source_ConnectionDetails := d;
       Source_Targets_ := Config.Source_Targets src; Source_Config_ := src |}) /\
  (forall name, Config.Sources conf ≫= lookup name = None -> Sources b !! name = None) /\
  (forall name tgt, Config.Targets conf ≫= lookup name = Some tgt -> exists conn d rs,
     target_connection tgt = Some conn /\ conn_start name conn = Ret (inr d) /\
     createRateLimitRules name (clock name) (RateLimit_ tgt) = Ret rs /\
     Targets b !! name = Some {| Target_ConnectionDetails := d; Target_Config_ := tgt;
       RateLimitRules := rs |}) /\
  (forall name, Config.Targets conf ≫= lookup name = None -> Targets b !! name = None).
Proof. exact (run_builds clock c conf monitor b). Qed.

(** The limiter that [rateLimit] asks for, before [Init]. *)
Definition configured_limiter (name : string) (rateLimit : RateLimit) : RateLimiter :=
  let interval := default 0 (ParseDuration (Period (Mode rateLimit))) in
  New name (match ToBytes wrapped (Throughput rateLimit) with inr b => b | inl _ => 0 end)
    interval interval (Duration (Mode rateLimit)).

(** What a rule does with the configuration of a rate limit. *)
Record rule_for (name : string) (rateLimit : RateLimit) (t : Z * Z) (rule : RateLimitRule)
    : Prop := {
  rule_behaviour : rule_breach rule = BreachBehaviour_ rateLimit;
  rule_short : Interval (configured_limiter name rateLimit) < Millisecond ->
    rule_limiter rule = configured_limiter name rateLimit;
  rule_started : Millisecond <= Interval (configured_limiter name rateLimit) ->
    rule_limiter rule =
      set_ticker (Some (Interval (configured_limiter name rateLimit))) false
        (updateCurrentKey t.1 t.2 (configured_limiter name rateLimit));
}.

Lemma create_rule_spec name rateLimit t :
  exists rule, create_rule name rateLimit t.1 t.2 = Ret rule /\ rule_for name rateLimit t rule.
Proof.
  unfold create_rule, Init. fold (configured_limiter name rateLimit).
  destruct (Z.ltb_spec (Interval (configured_limiter name rateLimit)) Millisecond) as [Hi | Hi].
  - eexists. split; [done |]. split; intros; [done | done | lia].
  - destruct (Z.leb_spec (Interval (configured_limiter name rateLimit)) 0) as [Hf | Hf].
    { unfold Millisecond in Hi. lia. }
    replace (FlushInterval (updateCurrentKey t.1 t.2 (configured_limiter name rateLimit)) <=? 0)
      with false by (symmetry; by apply Z.leb_gt).
    eexists. split; [done |]. split; intros; [done | lia | done].
Qed.

(** The rules of a target are made whatever its configuration holds, one
    for each rate limit and in its order; none panics.  A rule keeps the breach
    behaviour and has a limiter of the configured throughput, interval and
    number of intervals.  The limiter is started exactly when the period is a
    duration of at least a millisecond; otherwise, and for a period that cannot
    be read, it is left as made, with no ticker.  A throughput that cannot be
    read is a limit of zero bytes. *)
Theorem rules_as_configured name clock rateLimits :
  exists rules, createRateLimitRules name clock rateLimits = Ret rules /\
    length rules = length rateLimits /\
    forall i rateLimit, rateLimits !! i = Some rateLimit ->
      exists rule, rules !! i = Some rule /\ rule_for name rateLimit (clock i) rule.
Proof.
  revert clock. induction rateLimits as [| r rateLimits IH]; intros clock; cbn.
  { exists []. by split_and!. }
  destruct (create_rule_spec name r (clock 0%nat)) as (rule & -> & Hrule).
  destruct (IH (fun i => clock (S i))) as (rules & -> & Hlen & Hrules).
  exists (rule :: rules). split_and!; [done | cbn; lia |].
  intros [| i] rateLimit Hi; cbn in Hi.
  - injection Hi as <-. by exists rule.
  - by apply (Hrules i).
Qed.
(** A rate limit means what it says: a throughput that is a whole number
    with a unit of [bytefmt], in any spelling, and a period that is a whole
    number with a unit of [time], at least a millisecond, become a limiter with
    that many bytes and that many nanoseconds, running with that period. *)
Theorem plain_rate_limit name clock rateLimit n u unit p v ns :
  Throughput rateLimit = n +:+ u -> Period (Mode rateLimit) = p +:+ v ->
  digits n = true -> 0 < decimal n 0 < 2 ^ 53 ->
  unit_of u = Some unit -> decimal n 0 * unit < pow64 ->
  digits p = true -> p <> "" -> unitMap v = Some ns ->
  Millisecond <= decimal p 0 * ns <= max_int64 ->
  exists limiter,
    createRateLimitRules name clock [rateLimit]
    = Ret [{| rule_limiter := limiter; rule_breach := BreachBehaviour_ rateLimit |}] /\
    Limit limiter = decimal n 0 * unit /\
    Interval limiter = decimal p 0 * ns /\ FlushInterval limiter = decimal p 0 * ns /\
    StoreMultiplier limiter = Duration (Mode rateLimit) /\ BaseKey limiter = name /\
    ticker limiter = Some (decimal p 0 * ns) /\ currentCount limiter = 0.
Proof.
  intros Ht Hp Hn Hb Hu Hfit Hd Hne Hv [Hms Hmax].
  pose proof (ToBytes_number wrapped n u unit Hn Hb Hu Hfit) as Hbytes.
  pose proof (ParseDuration_number p v ns Hd Hne Hv Hmax) as Hdur.
  destruct (create_rule_spec name rateLimit (clock 0%nat)) as (rule & Hr & [Hbr _ Hst]).
  assert (configured_limiter name rateLimit
          = New name (decimal n 0 * unit) (decimal p 0 * ns) (decimal p 0 * ns)
              (Duration (Mode rateLimit))) as Hlim
    by (unfold configured_limiter; by rewrite Ht, Hp, Hbytes, Hdur).
  rewrite Hlim in Hst. specialize (Hst Hms). exists (rule_limiter rule).
  cbn [createRateLimitRules]. rewrite Hr. split; [| rewrite Hst; by split_and!].
  destruct rule. cbn in *. by rewrite Hbr.
Qed.
End Commands.

(** ** A concrete run *)
Definition demo_range {A} (m : gmap string A) : list (string * A) := map_to_list m.

#[export] Instance demo_order : RangeOrder := {| range := @demo_range; range_perm A m := reflexivity _ |}.

Definition demo_details (port : Z) : Details := {| Host := "127.0.0.1"; Port := port |}.

Definition demo_rate : RateLimit :=
  {| Throughput := "1K"; Mode := {| Mode_Type := "average"; Period := "5s"; Duration := 10 |};
     BreachBehaviour_ := {| Action := "discard"; Breach_Target := ""; AlertLevel := "INFO" |} |}.

Definition demo_source : Config.Source :=
  {| Config.Source_Provider := "dummy"; Source_Endpoint := ""; Config.Source_Targets := ["out"];
     Config.Source_Config := ∅ |}.
Definition demo_target : Config.Target :=
  {| Config.Target_Provider := "stdout"; Target_Endpoint := ""; AlertChannels := None;
     RateLimit_ := [demo_rate]; Config.Target_Config := ∅ |}.

Definition demo_config : Config :=
  {| Config.Sources := Some {["in" := demo_source]}; Config.Targets := Some {["out" := demo_target]};
     Config.Alerting := None |}.

Definition demo_port (name : string) : string + Z := inr (if String.eqb name "in" then 1 else 2).

Definition demo_run : outcome (string + Broker) :=
  Run demo_port (fun _ _ => None) (fun _ => 0) (fun _ _ => (0, 0)) NewRunCommand
    (inr demo_config) NewMonitor.

Definition demo_broker : Broker :=
  match demo_run with Ret (inr b) => b | _ => NewBroker 0 None end.

Lemma run_builds_broker_witness :
  demo_run = Ret (inr demo_broker) /\ NumWorkers demo_broker = 1 /\
  Sources demo_broker !! "in" =
    Some {| Source_ConnectionDetails := demo_details 1; Source_Targets_ := ["out"];
            Source_Config_ := demo_source |}.
Proof.
  assert (demo_run = Ret (inr demo_broker)) as Hr by (vm_compute; reflexivity).
  destruct (run_builds_broker demo_port (fun _ _ => None) (fun _ => 0) (fun _ _ => (0, 0))
    NewRunCommand demo_config NewMonitor demo_broker Hr) as (Hn & _ & _ & _ & Hs & _).
  split; [exact Hr | split; [exact Hn |]].
  destruct (Hs "in" demo_source) as (conn & d & Hc & Hd & Hb);
    [reflexivity |].
  rewrite Hb. injection Hc as <-. injection Hd as <-. reflexivity.
Defined.

Lemma plain_rate_limit_witness :
  exists limiter,
    createRateLimitRules (fun _ => 0) "out" (fun _ => (0, 0)) [demo_rate]
    = Ret [{| rule_limiter := limiter; rule_breach := BreachBehaviour_ demo_rate |}] /\
    Limit limiter = 1024 /\ Interval limiter = 5000000000.
Proof.
  destruct (plain_rate_limit (fun _ => 0) "out" (fun _ => (0, 0)) demo_rate "1" "K" 1024
    "5" "s" 1000000000) as (limiter & Hr & Hl & Hi & _);
    [reflexivity | reflexivity | reflexivity | split; reflexivity | reflexivity | reflexivity
    | reflexivity | discriminate | reflexivity | split; apply Z.leb_le; reflexivity |].
  exists limiter. split; [exact Hr | split; [exact Hl | exact Hi]].
Defined.

(** The command line: the missing argument of [source] is not checked for. *)
Example main_runs : main ["run"] = Ret RunCmd /\ main [] = Ret NoCommand.
Proof. done. Qed.

Example main_source_alone : main ["source"] = Panic "index out of range".
Proof. done. Qed.
