(* ===== verification/Deploy.v ===== *)
(** * From a configuration to a log shipper that works

    What the configuration has to say for the theorems of [Whole] to hold of the
    broker that the [run] command starts: a check of the references between
    sources, targets and fallback targets, which the program itself does not
    make, and the theorem that a log shipper whose configuration passes it
    neither panics nor loses a message nor hangs as long as its targets can be
    dialled, its items fit the connections and can be handled by the targets, and
    the network cuts no write in two. *)
From S2P Require Import Prelude Wire Text Message Bufio Protocol Limiter Monitoring.
From S2P Require Import Servers Pipe Link.
From S2P Require Import Config Connector Worker Session Broker Shutdown Delivery Liveness Drain Printed.
From S2P Require Import Whole Cmd.

(** ** The references of a configuration *)

Definition targets_of (conf : Config) : gmap string Config.Target := default ∅ (Config.Targets conf).
Definition sources_of (conf : Config) : gmap string Config.Source := default ∅ (Config.Sources conf).
Definition names (conf : Config) : gset string := dom (targets_of conf).

Definition behaviours (tgt : Config.Target) : list BreachBehaviour :=
  BreachBehaviour_ <$> RateLimit_ tgt.

(** The targets that a target may send messages on to. *)
Definition fallbacks (tgt : Config.Target) : list string :=
  Breach_Target <$> filter (fun b => Action b = "fallback") (behaviours tgt).

Fixpoint largest (l : list nat) : nat :=
  match l with [] => 0%nat | x :: l => Nat.max x (largest l) end.

(** The length of the longest chain of fallbacks from [t], up to [n]. *)
Fixpoint depth (ts : gmap string Config.Target) (n : nat) (t : string) : nat :=
  match n with
  | O => O
  | S n =>
      match ts !! t with
      | Some tgt => S (largest (depth ts n <$> fallbacks tgt))
      | None => O
      end
  end.

(** A ranking of the names: one that nobody has is above all targets. *)
Definition height (conf : Config) (t : string) : nat :=
  if decide (t ∈ names conf) then depth (targets_of conf) (size (targets_of conf)) t
  else S (size (targets_of conf)).

(** Every source names targets that exist, and every fallback is to a target that
    exists and from which no chain of fallbacks leads back. *)
Definition sane (conf : Config) : bool :=
  bool_decide (map_Forall (fun _ src => Forall (fun t => t ∈ names conf) (Config.Source_Targets src))
                 (sources_of conf)) &&
  bool_decide (map_Forall (fun name tgt =>
                 Forall (fun t => height conf t < height conf name)%nat (fallbacks tgt))
                 (targets_of conf)).

Lemma largest_le l n : (forall x, x ∈ l -> (x <= n)%nat) -> (largest l <= n)%nat.
Proof.
  induction l as [| x l IH]; cbn; intros Hl; [lia |].
  pose proof (Hl x ltac:(by left)). specialize (IH (fun y Hy => Hl y ltac:(by right))). lia.
Qed.

Lemma largest_ge l x : x ∈ l -> (x <= largest l)%nat.
Proof. induction 1 as [x l | x y l _ IH]; cbn; lia. Qed.

Lemma depth_le ts n t : (depth ts n t <= n)%nat.
Proof.
  revert t. induction n as [| n IH]; intros t; cbn; [done |].
  destruct (ts !! t) as [tgt |]; [| lia].
  assert (largest (depth ts n <$> fallbacks tgt) <= n)%nat; [| lia].
  apply largest_le. intros x (y & -> & _)%list_elem_of_fmap. apply IH.
Qed.

Lemma height_tall conf t name :
  t ∉ names conf -> name ∈ names conf -> (height conf name <= height conf t)%nat.
Proof.
  intros Ht Hn. unfold height. rewrite (decide_True (P := name ∈ names conf)) by done.
  rewrite (decide_False (P := t ∈ names conf)) by done.
  pose proof (depth_le (targets_of conf) (size (targets_of conf)) name). lia.
Qed.

Lemma in_fallbacks b tgt :
  b ∈ behaviours tgt -> Action b = "fallback" -> Breach_Target b ∈ fallbacks tgt.
Proof.
  intros Hb Ha. unfold fallbacks. apply list_elem_of_fmap. exists b. split; [done |].
  by apply list_elem_of_filter.
Qed.

Lemma sane_ranked conf name tgt :
  sane conf = true -> targets_of conf !! name = Some tgt -> ranked (height conf) name (behaviours tgt).
Proof.
  intros [_ Hs%bool_decide_eq_true]%andb_prop Ht. specialize (Hs _ _ Ht). cbn in Hs.
  apply list.Forall_forall. intros b Hb Ha. rewrite list.Forall_forall in Hs. by apply Hs, in_fallbacks.
Qed.

(** The check refuses nothing that could work: a configuration whose references
    exist and whose targets can be ranked in any way at all passes. *)
Section Complete.
Context (conf : Config) (h : string -> nat).

Let ts := targets_of conf.

(** How many targets are no higher than [t]. *)
Definition beneath (t : string) : nat := size (filter (fun x => h x <= h t)%nat (names conf)).

Lemma beneath_lower t f : f ∈ names conf -> t ∈ names conf -> (h f < h t)%nat -> (beneath f < beneath t)%nat.
Proof.
  intros Hf Ht Hlt. unfold beneath. apply subset_size. split.
  - intros x. rewrite !elem_of_filter. intros [Hx Hin]. split; [lia | done].
  - intros Hsub. specialize (Hsub t). rewrite !elem_of_filter in Hsub.
    destruct Hsub as [Hle _]; [by split | lia].
Qed.

Hypothesis downwards : forall name tgt, ts !! name = Some tgt ->
  Forall (fun f => f ∈ names conf /\ (h f < h name)%nat) (fallbacks tgt).

Lemma downwards_at name tgt f :
  ts !! name = Some tgt -> f ∈ fallbacks tgt -> (beneath f < beneath name)%nat.
Proof.
  intros Hn Hf. pose proof (downwards _ _ Hn) as Hd. rewrite list.Forall_forall in Hd.
  destruct (Hd f Hf) as [Hin Hlt]. apply beneath_lower; [done | by eapply elem_of_dom_2 | done].
Qed.

Lemma beneath_self t : t ∈ names conf -> (1 <= beneath t)%nat.
Proof.
  intros Ht. assert (size (filter (fun x => h x <= h t)%nat (names conf)) <> 0%nat); [| unfold beneath; lia].
  apply size_non_empty_iff. intros E. apply (not_elem_of_empty (C := gset string) t). rewrite <- E.
  by apply elem_of_filter.
Qed.

Lemma depth_stable n m t :
  (beneath t <= n)%nat -> (beneath t <= m)%nat -> depth ts n t = depth ts m t.
Proof.
  revert m t. induction n as [| n IH]; intros m t Hn Hm;
    (destruct (ts !! t) as [tgt |] eqn:Ht; [| destruct m; cbn; by rewrite ?Ht]);
    pose proof (beneath_self t ltac:(by eapply elem_of_dom_2)); [lia |].
  destruct m as [| m]; [lia |]. cbn. rewrite Ht. do 2 f_equal. apply list_fmap_ext. intros i f Hf.
  apply list_elem_of_lookup_2 in Hf. pose proof (downwards_at t tgt f Ht Hf). apply IH; lia.
Qed.

Lemma sane_complete :
  map_Forall (fun _ src => Forall (fun t => t ∈ names conf) (Config.Source_Targets src)) (sources_of conf) ->
  sane conf = true.
Proof.
  intros Hs. apply andb_true_intro. split; apply bool_decide_eq_true_2; [exact Hs |].
  intros name tgt Ht. apply list.Forall_forall. intros f Hf.
  pose proof (downwards_at name tgt f Ht Hf) as Hlt. assert (name ∈ names conf) as Hn by by eapply elem_of_dom_2.
  pose proof (downwards _ _ Ht) as Hd. rewrite list.Forall_forall in Hd. destruct (Hd f Hf) as [Hin _].
  unfold height. rewrite !decide_True by done. fold ts.
  assert (beneath name <= size ts)%nat as Hle.
  { unfold beneath, names. rewrite <- (size_dom (D := gset string) ts). apply subseteq_size.
    intros x. by intros [_ Hx]%elem_of_filter. }
  destruct (size ts) as [| k] eqn:Ek; [lia |].
  rewrite (depth_stable (S k) k f) by lia. cbn [depth]. fold ts in Ht. rewrite Ht.
  assert (depth ts k f <= largest (depth ts k <$> fallbacks tgt))%nat; [| lia].
  apply largest_ge, list_elem_of_fmap. by exists f.
Qed.
End Complete.

(** ** The servers of a configuration *)

(** The kinds of servers that [run] starts for targets, and what they keep of a
    message. *)
Inductive kind := OfBlackhole | OfStdout | OfLogzio.

Definition kept_by (k : kind) : Type :=
  match k with OfLogzio => list byte | _ => TargetMessage end.

Definition provider_kind (tgt : Config.Target) : kind :=
  match target_connection tgt with
  | Some (Logzio _) => OfLogzio
  | Some Stdout => OfStdout
  | _ => OfBlackhole
  end.

Definition kind_of (conf : Config) (t : string) : kind :=
  default OfBlackhole (provider_kind <$> targets_of conf !! t).

Section Deploy.
Context `{MapOrder} `{RangeOrder}.

(** The local time zone, for logz.io, whose client takes everything. *)
Context (zone : Z -> Z).

#[local] Instance receiver_of (k : kind) : Receiver (kept_by k) :=
  match k return Receiver (kept_by k) with
  | OfBlackhole => blackhole_receiver
  | OfStdout => stdout_receiver
  | OfLogzio => logzio_receiver zone
  end.

Definition kept_at (conf : Config) (t : string) : Type := kept_by (kind_of conf t).
#[local] Instance server_of (conf : Config) (t : string) : Receiver (kept_at conf t) :=
  receiver_of (kind_of conf t).

(** The answers of the operating system to the commands. *)
Context (GetFreePort : string -> string + Z) (Listen : string -> Z -> option string)
        (wrapped : Z -> Z).

Lemma built_breaches name clock limits rules :
  createRateLimitRules wrapped name clock limits = Ret rules ->
  rule_breach <$> rules = BreachBehaviour_ <$> limits.
Proof.
  intros Hr. destruct (rules_as_configured wrapped name clock limits) as (rules' & Hr' & Hl & Hall).
  rewrite Hr in Hr'. injection Hr' as <-. apply list_eq. intros i. rewrite !list_lookup_fmap.
  destruct (limits !! i) as [limit |] eqn:E.
  - destruct (Hall i limit E) as (rule & -> & Hrule). cbn. by rewrite (rule_behaviour _ _ _ _ _ Hrule).
  - apply lookup_ge_None in E. by rewrite (proj2 (lookup_ge_None rules i)) by lia.
Qed.

(** The broker that [Run] builds from a sane configuration is one that [Whole]
    speaks of. *)
Lemma run_configured clock c conf monitor b peers :
  Run GetFreePort Listen wrapped clock c (inr conf) monitor = Ret (inr b) ->
  sane conf = true -> 0 < Workers c ->
  (forall t, t ∈ names conf -> peer_out (peers t) = opened [] /\ peer_in (peers t) = NewReader []) ->
  configured (names conf) (height conf) peers b.
Proof.
  intros Hrun Hs Hc Hp.
  destruct (run_builds GetFreePort Listen wrapped clock c conf monitor b Hrun)
    as (Hn & _ & Hcm & Hwm & S1 & S2 & T1 & T2).
  assert (forall name, Config.Targets conf ≫= lookup name = targets_of conf !! name) as ET
    by (intros name; unfold targets_of; by destruct (Config.Targets conf)).
  assert (forall name, Config.Sources conf ≫= lookup name = sources_of conf !! name) as ES
    by (intros name; unfold sources_of; by destruct (Config.Sources conf)).
  split; [done | done | lia | | | | exact Hp].
  - intros name src Hsrc. destruct (sources_of conf !! name) as [csrc |] eqn:E.
    + destruct (S1 name csrc) as (conn & d & _ & _ & Hb); [by rewrite ES |].
      rewrite Hsrc in Hb. injection Hb as ->. cbn.
      apply andb_prop in Hs as [Hs%bool_decide_eq_true _]. apply (Hs name csrc E).
    + rewrite (S2 name) in Hsrc by by rewrite ES. done.
  - apply set_eq. intros name. unfold names. rewrite !elem_of_dom. split; intros [x Hx].
    + destruct (targets_of conf !! name) as [ctgt |] eqn:E; [done |].
      rewrite (T2 name) in Hx by by rewrite ET. done.
    + destruct (T1 name x) as (conn & d & rs & _ & _ & _ & Hb); [by rewrite ET | by rewrite Hb].
  - intros name tgt Htgt. destruct (targets_of conf !! name) as [ctgt |] eqn:E.
    + destruct (T1 name ctgt) as (conn & d & rs & _ & _ & Hrs & Hb); [by rewrite ET |].
      rewrite Htgt in Hb. injection Hb as ->. cbn [RateLimitRules].
      rewrite (built_breaches _ _ _ _ Hrs). by apply (sane_ranked conf name ctgt).
    + rewrite (T2 name) in Htgt by by rewrite ET. done.
Qed.

(** C1. From the configuration to the running program: if the references of a
    configuration are in order ([sane], a check that can be computed and that
    every configuration with a ranking of its targets passes), if [Run] gets as
    far as starting the broker and there is a worker, then with the servers that
    the configuration asks for behind the targets, in runs in which the targets
    can be dialled and every item can be handled by the targets and makes frames
    of at most 4085 bytes ([working]), and over a network that cuts no write in
    two ([gentle]), nothing panics but by a second [Broker.Stop], no message is
    lost and nothing hangs: a run is [shipped], and after a stop it
    [finishes]. *)
Theorem deployed_ships {wires : Network} clock c conf monitor b peers base tr s :
  gentle ->
  Run GetFreePort Listen wrapped clock c (inr conf) monitor = Ret (inr b) ->
  sane conf = true -> 0 < Workers c ->
  (forall t, t ∈ names conf -> peer_out (peers t) = opened [] /\ peer_in (peers t) = NewReader []) ->
  wtraced (kept_at conf) (names conf) (Start peers base b) tr s ->
  shipped (kept_at conf) (names conf) tr s /\
  (SourceStop (cm s) = true -> finishes (kept_at conf) (names conf) (height conf) s).
Proof.
  intros Hnet Hrun Hs Hc Hp Ht. pose proof (run_configured _ _ _ _ _ _ Hrun Hs Hc Hp) as Hcf. split.
  - by apply (run_shipped Hnet _ _ (height_tall conf) peers base b).
  - by apply (run_finishes Hnet _ _ (height_tall conf) peers base b tr).
Qed.
End Deploy.

(** ** A concrete configuration *)
#[local] Existing Instance default_order.
#[local] Existing Instance joining.

(** The source [in] sends to [a], which prints and falls back to [b], which
    ships to logz.io. *)
Definition demo_fallback : RateLimit :=
  {| Throughput := "1K"; Mode := {| Mode_Type := "average"; Period := "5s"; Duration := 10 |};
     BreachBehaviour_ := {| Action := "fallback"; Breach_Target := "b"; AlertLevel := "INFO" |} |}.

Definition target_with (provider : string) (limits : list RateLimit) : Config.Target :=
  {| Config.Target_Provider := provider; Target_Endpoint := ""; AlertChannels := None;
     RateLimit_ := limits; Config.Target_Config := ∅ |}.

Definition plant : Config :=
  {| Config.Sources := Some {["in" :=
       {| Config.Source_Provider := "nomad"; Source_Endpoint := ""; Config.Source_Targets := ["a"; "b"];
          Config.Source_Config := ∅ |}]};
     Config.Targets := Some (<["a" := target_with "stdout" [demo_fallback]]>
                               {["b" := target_with "logzio" []]});
     Config.Alerting := None |}.

(** A fallback to a target that is not configured, and two targets that fall
    back to one another, do not pass the check. *)
Definition circular : Config :=
  {| Config.Sources := None;
     Config.Targets := Some (<["a" := target_with "stdout" [demo_fallback]]>
       {["b" := target_with "stdout" [{| Throughput := "1K"; Mode := Mode demo_fallback;
                  BreachBehaviour_ := {| Action := "fallback"; Breach_Target := "a"; AlertLevel := "" |} |}]]});
     Config.Alerting := None |}.

Definition dangling : Config :=
  {| Config.Sources := None; Config.Targets := Some {["a" := target_with "stdout" [demo_fallback]]};
     Config.Alerting := None |}.

Example checks : (sane plant, sane circular, sane dangling) = (true, false, false).
Proof. vm_compute. reflexivity. Qed.

Definition plant_run : outcome (string + Broker) :=
  Run demo_port (fun _ _ => None) (fun _ => 0) (fun _ _ => (0, 0)) NewRunCommand (inr plant) NewMonitor.
Definition plant_broker : Broker := match plant_run with Ret (inr b) => b | _ => NewBroker 0 None end.

#[local] Instance plant_servers (t : string) : Receiver (kept_at plant t) := server_of (fun _ => 0) plant t.

Definition plant_actions : list action :=
  [TargetStart "a" None; TargetStart "b" None; SourceStart "in" None; WorkerStart 0;
   SourceEvent "in" (Received (Build_Message CommandSourceMessage demo_bytes []));
   Handover "in" 0; Dispatch 0; BrokerStop; Dispatch 0; StopSignalSource "in"; BrokerStart;
   StopSignalWorker 0; BrokerStart; BrokerStart; StopSignalTarget "b"; StopSignalTarget "a"; BrokerStart].

(** The item of the demonstration from the configured source. *)
Definition plant_ok (a : action) (s : sys) : bool :=
  match a with
  | SourceEvent name (Received msg) =>
      match srcs s !! name with
      | Some (_, src, _) =>
          bool_decide (name = "in" /\ Source_Targets_ src = ["a"; "b"] /\ Data msg = demo_bytes)
      | None => true
      end
  | TargetStart _ (Some _) => false
  | _ => true
  end.

Lemma plant_clean : clean (kept_at plant) (names plant) (SourceToBroker "in" ["a"; "b"] demo_message).
Proof.
  assert (forall t, t ∈ names plant -> t = "a" \/ t = "b") as Hk.
  { intros t. unfold names. change (targets_of plant) with
      (<["a" := target_with "stdout" [demo_fallback]]> {["b" := target_with "logzio" []]} : gmap string Config.Target).
    set_solver. }
  split; [by vm_compute | intros t [-> | ->]%Hk..]; try (by vm_compute);
    try (split; [split_and!; by vm_compute | by vm_compute]); by eexists.
Qed.

Lemma plant_working a s : plant_ok a s = true -> working (kept_at plant) (names plant) a s.
Proof.
  destruct a as [| name [] | | name event | | | | | | | | |]; try done.
  intros Hok st src w Hk. destruct event as [msg | |]; try done. cbn in Hok. rewrite Hk in Hok.
  apply bool_decide_eq_true in Hok as (-> & -> & Hm). intros item Hd. rewrite Hm in Hd.
  assert (ProtobufToSource demo_bytes = (demo_message, None)) as E by by vm_compute.
  rewrite E in Hd. injection Hd as <-. split; [exact plant_clean | by vm_compute].
Qed.

Definition plant_result : list label * sys :=
  let s := Start silent_peers 10 plant_broker in
  default ([], s) (wrun (A := kept_at plant) plant_ok plant_actions s).

Lemma plant_traced :
  wtraced (kept_at plant) (names plant) (Start silent_peers 10 plant_broker) plant_result.1 plant_result.2.
Proof.
  unfold plant_result. destruct (wrun _ _ _) as [[tr s] |] eqn:E; [| constructor].
  by apply (wrun_traced (names plant) plant_ok plant_actions); [exact plant_working |].
Qed.

Lemma deployed_ships_witness :
  sane plant = true /\ Broker.main plant_result.2 = Done /\
  shipped (kept_at plant) (names plant) plant_result.1 plant_result.2 /\
  finishes (kept_at plant) (names plant) (height plant) plant_result.2.
Proof.
  assert (plant_run = Ret (inr plant_broker)) as Hrun by (vm_compute; reflexivity).
  assert (sane plant = true) as Hs by (vm_compute; reflexivity).
  split; [exact Hs |]. split; [vm_compute; reflexivity |].
  destruct (deployed_ships (fun _ => 0) demo_port (fun _ _ => None) (fun _ => 0) (fun _ _ => (0, 0))
    NewRunCommand plant NewMonitor plant_broker silent_peers 10 plant_result.1 plant_result.2 joining_gentle Hrun Hs)
    as [Hsh Hf]; [reflexivity | intros; split; reflexivity | exact plant_traced |].
  split; [exact Hsh |]. apply Hf. vm_compute. reflexivity.
Defined.
